(* ===== verification/_CoqProject ===== *)
-Q . S2P
Prelude.v
GoFloat.v
GoStd.v
GoTime.v
Mux.v
Json.v
JsonCodec.v
Backend.v
Balancers.v
ConsistentHash.v
Affinity.v
StateMachine.v
Health.v
HealthLife.v
CircuitBreaker.v
CircuitConc.v
Retry.v
Timeout.v
RateLimit.v
TokenRate.v
Protection.v
SecurityStats.v
Config.v
Router.v
Proxy.v
HttpProxy.v
HttpFront.v
HttpServer.v
Transform.v
Certs.v
SelfSigned.v
Sni.v
Buffers.v
ConnPool.v
WorkerPool.v
ZeroCopy.v
Bidirectional.v
Interner.v
Xds.v
XdsJson.v
Termination.v
Logging.v
Middleware.v
Tracing.v
Lifecycle.v
Startup.v
Admin.v
AdminJson.v
Metrics.v
Profiler.v
TestBackends.v
Benchmarks.v
