(* ===== verification/Prelude.v ===== *)
(** * A verification library for the Balance load balancer

    Balance is a TCP and HTTP load balancer written in Go.  This library
    translates its own logic into executable Rocq definitions, function by
    function and under the names of the source, and proves the properties that
    make each part correct.

    ** The program and the files of this library

    A configuration is loaded, completed with defaults and validated; a server
    is built from it with a pool of backends and a load balancing algorithm;
    every connection selects a backend, is counted on it while it is open, and
    marks it unhealthy when it cannot be dialled.  Beside this core stand
    packages that other parts of a deployment call: health checking, circuit
    breaking, retries, timeouts, rate limiting and abuse protection.

    - [Prelude]: record update, machine integers ([u32], [u64], [i64] write out
      the wrap-around), Go panics as [outcome], errors as [result], slice
      indexing, the loops that search for a first minimum, lemmas on lists and
      sequences shared by the components.
    - [GoFloat]: float64 as the code uses it, with rounding to nearest even on
      integers in a fixed unit; the bounds and monotonicity the components need.
    - [GoStd]: the functions of the Go library that the source calls and that
      have a short definition (sort.Search, sort.Ints, FNV-1a, strings, headers).
    - [GoTime]: the calendar, RFC 3339 printing and reading of times, and
      time.Duration.String.
    - [Mux]: http.ServeMux for the patterns of the program, with the cleaning of
      paths and the redirects that stand in front of every handler.
    - [Json], [JsonCodec]: encoding/json; the first holds text (UTF-8, escaping,
      layouts, the parser), the second encoding and decoding of reflected values.
    - [Backend]: pkg/backend/backend.go and pool.go.  A pointer to a backend is
      shared between the pool, the balancers, the sessions and the health
      checker, so backends live in a [heap] indexed by pointers.
    - [Balancers]: pkg/lb/interface.go, roundrobin.go, leastconn.go, weighted.go.
      The Go interface is the class [LoadBalancer]; [LoadBalancerLaws] states
      what its clients rely on, and each algorithm discharges it.
    - [ConsistentHash]: pkg/lb/consistent.go, both variants.
    - [Affinity]: pkg/lb/affinity.go, generic in the wrapped balancer and proved
      against the laws of the interface.
    - [StateMachine]: pkg/backend/state.go, the health state of one backend.
    - [Health]: pkg/health/active.go, passive.go and checker.go; the checker owns
      one state machine per backend and listens to it.
    - [CircuitBreaker], [Retry], [Timeout]: pkg/resilience; [CircuitConc]: the
      circuit breaker with each of its atomic operations as a step.
    - [RateLimit], [Protection]: pkg/security.
    - [Config]: pkg/config/config.go, the whole tree, defaults and validation.
    - [Router]: pkg/router/router.go.
    - [Proxy]: pkg/proxy/server.go, the TCP server; its balancer is one of the
      algorithms above and is used through the interface.
    - [HealthLife]: Start and Stop of the health checker, with its goroutine.
    - [TokenRate]: the float errors of the token bucket of [RateLimit], summed up.
    - [SecurityStats]: runs of the security manager against its statistics.
    - [HttpProxy]: pkg/proxy/http.go, request and WebSocket handling; it selects
      through the same balancers as [Proxy].
    - [HttpServer]: the same requests step by step, interleaved with each other,
      and Start and Shutdown of the HTTP server.
    - [HttpFront]: the multiplexer of the HTTP server in front of its handler.
    - [Transform]: pkg/transform/transform.go.
    - [Certs], [SelfSigned], [Sni]: pkg/tls/config.go, cert_manager.go and sni.go;
      [SelfSigned] holds the generation of certificates and the PEM files.
    - [Buffers], [ConnPool]: pkg/pool/buffer.go and connection.go.
    - [WorkerPool]: pkg/pool/goroutine.go, at statement granularity: submitters,
      workers and closers interleave over the queue and the atomic counters.
    - [ZeroCopy]: pkg/proxy/zerocopy.go and zerocopy_linux.go, the copy loops over
      a pipe; the system calls are functions of an explicit kernel state that fixes
      how transfers are split and when they are interrupted or fail.
    - [Bidirectional]: the bidirectional copies of pkg/proxy/zerocopy.go, two
      goroutines and their caller; a goroutine splices step by step as the loops of
      [ZeroCopy] do, or copies with io.Copy.
    - [Interner]: pkg/optimize/stringintern.go; its memory is explicit, because
      interning is about the identity of strings.
    - [Xds]: pkg/xds/server.go, snapshots, versions, watches and the server's life;
      [XdsJson]: the JSON form of snapshots.
    - [Termination]: pkg/tls/termination.go, built on [Certs]; Accept and the Close
      of a connection run statement by statement.
    - [Logging]: pkg/logging/logger.go and access.go.
    - [Lifecycle]: Start, the accept loop and Shutdown of pkg/proxy/server.go.
    - [Middleware]: the response writers of the three middlewares, and what a
      WebSocket upgrade meets behind them.
    - [Tracing]: pkg/tracing/otel.go as the sequence of its calls on OpenTelemetry;
      what a provider records of them is not modelled.
    - [Startup]: cmd/balance/main.go, composed from [Config], [Proxy] and
      [HttpProxy].
    - [Admin]: pkg/admin/admin.go, endpoints and life of the server;
      [AdminJson]: the bodies it sends.
    - [Metrics]: pkg/metrics/prometheus.go over an abstract registry.
    - [Profiler]: pkg/profiling/profiler.go.
    - [TestBackends]: scripts/test-backend.go and http-backend.go, checked by
      [Health].
    - [Benchmarks]: the statistics of benchmark/latency_benchmark.go.

    ** How code is modelled

    Mutable objects are records and methods return the new record.  A clock
    reading is an argument, in the order in which the code reads the clock.
    Where goroutines interleave, a step relation ([smstep], [cstep], [pstep],
    [tstep], [bstep], [hl_step] and the [step]s of the worker pool, of the
    servers and of their lives) or a run of labelled actions ([crun], [xevents]) has
    one rule per atomic phase, and the theorems hold for every reachable state.  Where
    the code takes no lock (the circuit breaker, the worker pool, the connections of
    the terminator) a step is a single atomic operation; elsewhere a section under a
    lock is a step, and so are a selection with affinity, one call of a rate limiter,
    the end of a request in the metrics middleware, and the two ends of a call in
    [cstep].  Listener calls are returned as events and run by the owner.  What a
    Go map iterates in no fixed order is a filter or a fold whose result does
    not depend on the order.  Code outside the repository is a parameter: the
    YAML decoder, the network, the sort of routes (any sort that orders by the
    given comparison), math.Pow, the random source.  Where theorems rely on such
    code it is a class with its documented laws and a concrete instance: the
    kernel's splice, the Prometheus registry, the cryptography and X.509 library,
    the client side of crypto/tls, the OpenTelemetry SDK.

    ** What the theorems show

    - Selection: round robin and weighted round robin are exactly fair and
      proportional; least connections picks the first minimum; weighted least
      connections picks the exact minimal ratio although it compares float64
      quotients; consistent hashing returns the successor on the ring and moves
      only the keys of backends that leave (on a ring that is up to date); the bounded
      variant keeps connections within average times load factor, the float error
      stated.
    - Health: the state machine is the hysteresis automaton of its history, its
      flag on the backend never disagrees with it while only the machine writes
      it, and the checker as a whole follows each backend's own history.
    - Circuit breaker: with every atomic operation interleaved it never opens before
      MaxFailures calls failed, and a closed breaker is below its threshold but for
      goroutines under way and failures that came late, which are shown to exist; it
      trips at the threshold and recovers after the timeout, and its counters account
      for every call; after one failed and one successful probe it is shown to reject
      every call.
    - Limits: the sliding window admits exactly the calls the specification
      admits, keys do not interfere, tokens stay within the burst, connection
      guards count exactly, the blocklist refines a map of expiry times.
    - Retries end within the attempts allowed and the delays are bounded.
    - Configuration: validation decides a declarative predicate, which is not the one
      of docs/CONFIGURATION.md in two points that the theorem names; a loaded and
      validated configuration meets the preconditions of the components.
    - The server: connection counters are exact in every reachable state of any
      number of interleaved connections, selection is sound end to end for all
      six algorithms, and a
      backend that failed a dial is never used again.
    - HTTP: every branch of a request leaves the counters balanced; the request
      sent to the backend is characterised, its doubled path included.
    - The HTTP server: all counters are exact in every interleaving of requests,
      WebSockets, panics and shutdown; the sequential handler refines the
      interleaved one; Shutdown returns, and is shown not to wait for WebSockets.
    - TLS: the ClientHello parser inverts the encoding of RFC 8446 and is total
      on arbitrary bytes; certificates are found after they are added; wildcard
      certificates are shown never to be selected for proper host names; what is
      generated and saved can be loaded and served; DialTLSContext is shown to
      fail with verifying settings.
    - Pools: buffers are handed out at the right size and cleared; the
      connection pool never has more open sockets than its maximum, in any
      interleaving; its cleanup loop is shown to spin on a fresh connection and
      its slots to leak on connections whose zero-length read succeeds.
    - The worker pool: in every interleaving its bounds and counters are exact and
      no accepted task is lost or run twice; its errors are truthful and a closed
      pool refuses every new call; an accepted task is shown to be able to stay in
      the queue for ever when the last idle worker leaves during the submission.
    - Data path: a copy that reports success delivered exactly the bytes it read,
      in order, and it returns whenever the kernel makes progress; a bidirectional
      copy that returns has closed both connections and delivered both streams but for
      their ends and for at most one buffer after a failed splice; without splicing it
      returns once a direction ends, with its buffers back in the pool; with splicing
      it is shown to be able to hang, and it is shown to cut half-closed exchanges.
    - The process: main ends with the error of the first stage that fails or serves
      exactly the backends that the configuration lists; Shutdown returns and nothing
      outlives a drained shutdown; request counters are exact under interleaving, and
      the counter of TLS connections is exact unless a connection is closed twice at
      the same time, when it is shown to become negative.
    - Interned strings equal the strings they stand for; the version the xDS cache
      reports for a node is the one its snapshot was published with, and of two unversioned snapshots
      published within one second the second is shown never to be announced.
    - Logging filters by level and an access log line is truthful about its fields;
      metric names are distinct and every recorder passes the declared labels.
    - Observation: the calls of the tracing middleware are known for every handler (the
      span of the request is ended last, its status Error exactly from 500), a trace
      survives the proxy, the statistics of the
      security manager are the answers its callers got, and the token bucket keeps
      its rate in float64 up to a stated error; which middlewares break WebSocket
      upgrades is decided.
    - Health checker: Stop returns and leaves nothing running, and is shown to be
      able to fail the backends of the round it interrupts.
    - JSON: a snapshot and the bodies of the admin server are read back exactly
      from what is written, in any layout; the parser is total on arbitrary text,
      decoding keeps types, and every error is decided.
    - The front: a request reaches the proxy's handler exactly when its path is
      clean; redirects lead to clean paths and never loop.
    - Tools: both test backends pass the balancer's health checks, the benchmark
      counts every request once and its percentiles are those of the latencies.

    ** Bounds and fuel

    Seven loops run with fuel: the retry loop (as much fuel as there are attempts
    gives the result), the extension loop of the ClientHello parser (the length
    of the data is enough, since an extension takes four bytes), the recursion
    of the pool's Get (one more than the length of the channel is enough),
    the pool's cleanup, whose termination is itself the question answered,
    the two splice loops (a bound in the bytes to move and the interruptions of
    the system calls is enough), and the JSON parser (twice the length of the text
    is enough, since every value consumes a character).
    sort.Search gets fuel for an interval of one position per step.  All other
    recursion is structural.  Counters
    are kept at their machine width; theorems that need a counter not to have
    wrapped say so (fewer than 2^63 connections, 2^64 selections).  The float
    theorems need counts and weights below 2^26, so that two distinct ratios
    stay distinct after rounding to 53 bits.

    ** What is not modelled

    Sockets, the TLS protocol and cryptography, the rendering of floating-point
    numbers and of times in layouts other than RFC 3339: input and output around
    the logic above, or calls into libraries that are not in the repository (gRPC,
    Prometheus, OpenTelemetry, YAML and WebSocket among them).  Request paths with
    percent-escapes are outside the model of the multiplexer, and zone offsets are
    whole minutes.  Of the metrics package the collector type and the handler of
    the Prometheus page, which hold no logic, are left out; of the benchmarks the
    connections, the floating-point rates and the printing.  The validation
    command (cmd/validate) does not compile against the configuration package: it
    compares the timeouts, which are a struct, with nil and reads an admin section
    that the configuration does not have.  It has no behaviour to model. *)

From stdpp Require Export base numbers strings sorting gmap list.

(** ** Scope and automation of the library *)

Declare Scope go_scope.
Delimit Scope go_scope with go.
Open Scope Z_scope.

Create HintDb go.

(** ** Functional record update

    [r <| f := v |>] is the record [r] with field [f] set to [v];
    [r <| f ::= g |>] applies [g] to the field.  A record type opts in with an
    [Eta] instance that lists its fields once. *)

Class Eta (R : Type) := eta : R -> R.
Class Setter {R T : Type} (proj : R -> T) := set_field : (T -> T) -> R -> R.
Global Arguments set_field {R T} proj {_} _ !_ /.

Ltac solve_setter :=
  lazymatch goal with
  | |- @Setter ?R ?T ?proj =>
      let e := constr:(_ : Eta R) in
      let e := eval hnf in e in
      let s := constr:(fun (g : T -> T) (r : R) =>
        ltac:(
          let b := eval cbv beta in (e r) in
          let p := eval pattern (proj r) in b in
          lazymatch p with
          | ?h _ => let x := eval cbv beta in (h (g (proj r))) in exact x
          end)) in
      exact s
  end.
#[export] Hint Extern 0 (Setter _) => solve_setter : typeclass_instances.

#[warnings="-postfix-notation-not-level-1"]
Notation "r <| f := v |>" := (set_field f (fun _ => v) r)
  (at level 14, f at next level, left associativity) : go_scope.
#[warnings="-postfix-notation-not-level-1"]
Notation "r <| f ::= g |>" := (set_field f g r)
  (at level 14, f at next level, left associativity) : go_scope.
Open Scope go_scope.

(** ** Results of fallible Go functions: [(T, error)] *)

Inductive result (E A : Type) : Type :=
| Ok (a : A)
| Err (e : E).
Global Arguments Ok {E A} a.
Global Arguments Err {E A} e.

#[export] Instance result_eq_dec {E A} `{EqDecision E, EqDecision A} :
  EqDecision (result E A).
Proof. solve_decision. Defined.

Definition is_ok {E A} (r : result E A) : bool :=
  match r with Ok _ => true | Err _ => false end.

(** ** Machine integers

    A Go integer is a [Z] together with the wrap-around of its width:
    [uwrap w] for unsigned and [swrap w] for two's complement types. *)

Definition uwrap (w x : Z) : Z := x mod 2 ^ w.
Definition swrap (w x : Z) : Z := (x + 2 ^ (w - 1)) mod 2 ^ w - 2 ^ (w - 1).

Abbreviation u16 := (uwrap 16).
Abbreviation u32 := (uwrap 32).
Abbreviation u64 := (uwrap 64).
Abbreviation i32 := (swrap 32).
Abbreviation i64 := (swrap 64).

Definition in_u (w x : Z) : Prop := 0 <= x < 2 ^ w.
Definition in_s (w x : Z) : Prop := - 2 ^ (w - 1) <= x < 2 ^ (w - 1).

Lemma uwrap_range w x : 0 <= w -> in_u w (uwrap w x).
Proof. intros Hw. apply Z.mod_pos_bound. lia. Qed.

Lemma uwrap_small w x : in_u w x -> uwrap w x = x.
Proof. apply Z.mod_small. Qed.

Lemma pow2_double w : 0 < w -> 2 ^ w = 2 * 2 ^ (w - 1).
Proof. intros. rewrite <- Z.pow_succ_r by lia. f_equal. lia. Qed.

Lemma swrap_small w x : 0 < w -> in_s w x -> swrap w x = x.
Proof.
  intros Hw [? ?]. unfold swrap. rewrite Z.mod_small; [lia|].
  rewrite (pow2_double w) by lia. lia.
Qed.

Lemma swrap_range w x : 0 < w -> in_s w (swrap w x).
Proof.
  intros Hw. unfold swrap, in_s.
  pose proof (Z.mod_pos_bound (x + 2 ^ (w - 1)) (2 ^ w) ltac:(lia)).
  rewrite (pow2_double w) in * by lia. lia.
Qed.

Lemma i64_small x : - 2 ^ 63 <= x < 2 ^ 63 -> i64 x = x.
Proof. intros. apply swrap_small; unfold in_s; simpl; lia. Qed.

(** Wrapping a sum whose first argument is already wrapped. *)
Lemma uwrap_add_l w x y : uwrap w (uwrap w x + y) = uwrap w (x + y).
Proof. unfold uwrap. apply Zplus_mod_idemp_l. Qed.

Lemma swrap_add_l w x y : 0 < w -> swrap w (swrap w x + y) = swrap w (x + y).
Proof.
  intros Hw. unfold swrap. f_equal.
  set (m := 2 ^ w); set (h := 2 ^ (w - 1)).
  replace ((x + h) mod m - h + y + h) with ((x + h) mod m + y) by lia.
  rewrite Zplus_mod_idemp_l. f_equal. lia.
Qed.

#[export] Hint Resolve uwrap_range swrap_range : go.

(** Equality modulo [2^w]: counters that wrap are compared up to it, by setoid
    rewriting. *)
Definition eqw (w a b : Z) : Prop := uwrap w a = uwrap w b.
Notation "a ≡[ w ] b" := (eqw w a b) (at level 70, format "a  ≡[ w ]  b") : go_scope.

#[export] Instance eqw_equivalence w : Equivalence (eqw w).
Proof. unfold eqw. split; [by intros x|by intros x y|intros x y z; congruence]. Qed.

#[export] Instance eqw_add_proper w : Proper (eqw w ==> eqw w ==> eqw w) Z.add.
Proof.
  unfold eqw, uwrap. intros x x' Hx y y' Hy.
  by rewrite (Zplus_mod x y), (Zplus_mod x' y'), Hx, Hy.
Qed.

Lemma uwrap_eqw w x : uwrap w x ≡[w] x.
Proof. unfold eqw, uwrap. apply Zmod_mod. Qed.

Lemma eqw_eq w x y : x = y -> x ≡[w] y.
Proof. by intros ->. Qed.

Lemma eqw_diff w x y : 0 <= w -> x ≡[w] y <-> exists k, x = y + k * 2 ^ w.
Proof.
  intros Hw. unfold eqw, uwrap. split.
  - intros He. exists (x / 2 ^ w - y / 2 ^ w).
    pose proof (Z.div_mod x (2 ^ w)). pose proof (Z.div_mod y (2 ^ w)). lia.
  - intros [k ->]. apply Z_mod_plus_full.
Qed.

Lemma i64_eqw x : i64 x ≡[64] x.
Proof.
  apply eqw_diff; [lia|]. unfold swrap.
  pose proof (Z.div_mod (x + 2 ^ (64 - 1)) (2 ^ 64) ltac:(lia)).
  exists (- ((x + 2 ^ (64 - 1)) / 2 ^ 64)). lia.
Qed.

(** Signed numbers of the width that are equal modulo it are equal. *)
Lemma eqw_signed w x y : 0 < w -> in_s w x -> in_s w y -> x ≡[w] y -> x = y.
Proof.
  intros Hw Hx Hy [k Hk]%eqw_diff; [|lia]. unfold in_s in *.
  rewrite (pow2_double w) in Hk by lia. assert (k = 0) by nia. lia.
Qed.

Lemma eqw_small w x y : in_u w x -> in_u w y -> x ≡[w] y -> x = y.
Proof. unfold eqw. intros Hx Hy. by rewrite !uwrap_small. Qed.

(** Go's [/] and [%] on signed integers truncate toward zero. *)
Abbreviation go_div := Z.quot.
Abbreviation go_rem := Z.rem.

Lemma go_rem_nonneg a b : 0 <= a -> 0 < b -> go_rem a b = a mod b.
Proof. intros. apply Z.rem_mod_nonneg; lia. Qed.

(** ** Time

    An instant is a number of nanoseconds (since the Unix epoch); a duration
    is an [int64] number of nanoseconds.  [time.Time{}] is 1 January of year 1. *)

Abbreviation time := Z (only parsing).
Abbreviation duration := Z (only parsing).
Definition Nanosecond : duration := 1.
Definition Millisecond : duration := 1000000.
Definition Second : duration := 1000000000.
Definition Minute : duration := 60 * Second.
Definition Hour : duration := 60 * Minute.

Definition time_zero : time := -62135596800 * Second.

Definition maxDuration : duration := 2 ^ 63 - 1.
Definition minDuration : duration := - 2 ^ 63.

(** [t.Sub(u)]: the result saturates at the range of [time.Duration]. *)
Definition time_Sub (t u : time) : duration :=
  Z.max minDuration (Z.min maxDuration (t - u)).

(** [t.Add(d)]; the wide range of [time.Time] is not exceeded here. *)
Definition time_Add (t : time) (d : duration) : time := t + d.

Lemma time_Sub_mono t t' u : t <= t' -> time_Sub t u <= time_Sub t' u.
Proof. unfold time_Sub. lia. Qed.

Lemma time_Sub_exact t u :
  minDuration <= t - u <= maxDuration -> time_Sub t u = t - u.
Proof. unfold time_Sub. lia. Qed.

(** A bound strictly inside the range of durations is tested exactly. *)
Lemma time_Sub_gt t u d :
  minDuration <= d < maxDuration -> (d < time_Sub t u <-> d < t - u).
Proof. unfold time_Sub, minDuration, maxDuration. lia. Qed.

Lemma time_Sub_lt t u d :
  minDuration < d <= maxDuration -> (time_Sub t u < d <-> t - u < d).
Proof. unfold time_Sub, minDuration, maxDuration. lia. Qed.

(** ** Case analysis on boolean comparisons of integers *)

Ltac zcase1 :=
  match goal with
  | |- context [?a <? ?b] => destruct (Z.ltb_spec a b)
  | |- context [?a <=? ?b] => destruct (Z.leb_spec a b)
  | |- context [?a =? ?b] => destruct (Z.eqb_spec a b)
  | H : context [?a <? ?b] |- _ => destruct (Z.ltb_spec a b)
  | H : context [?a <=? ?b] |- _ => destruct (Z.leb_spec a b)
  | H : context [?a =? ?b] |- _ => destruct (Z.eqb_spec a b)
  end.
Ltac zcases := repeat (zcase1; simpl in *; try lia); try lia.

(** ** Outcomes: a Go computation returns or panics *)

Inductive outcome (A : Type) : Type :=
| Ret (a : A)
| Panic.
Global Arguments Ret {A} a.
Global Arguments Panic {A}.

#[export] Instance outcome_ret : MRet outcome := @Ret.
#[export] Instance outcome_bind : MBind outcome := fun A B f o =>
  match o with Ret a => f a | Panic => Panic end.

(** [l[i]]: an index outside the slice panics. *)
Definition index {A} (l : list A) (i : Z) : outcome A :=
  if (0 <=? i) then
    match l !! Z.to_nat i with Some x => Ret x | None => Panic end
  else Panic.

Lemma index_in_range {A} `{!Inhabited A} (l : list A) (i : Z) :
  0 <= i < Z.of_nat (length l) -> index l i = Ret (l !!! Z.to_nat i).
Proof.
  intros Hi. unfold index. rewrite (proj2 (Z.leb_le _ _)) by lia.
  by rewrite list_lookup_lookup_total_lt by lia.
Qed.

(** ** The first minimum of a list

    Several loops of the program keep the best element so far together with
    its value, which starts at a sentinel ([-1]) that stands for "unset". *)

Section first_min.
Context {A V : Type}.
(** Elements are compared by an integer key of their value. *)
Variables (val : A -> V) (key : V -> Z).

(** [x] is the first element of [l] with the least value. *)
Definition first_min (l : list A) (x : A) : Prop :=
  exists l1 l2, l = l1 ++ x :: l2 /\
    (forall y, y ∈ l1 -> key (val x) < key (val y)) /\
    (forall y, y ∈ l2 -> key (val x) <= key (val y)).

Lemma first_min_le l x y : first_min l x -> y ∈ l -> key (val x) <= key (val y).
Proof.
  intros (l1 & l2 & -> & H1 & H2) [Hy|[->|Hy]%elem_of_cons]%elem_of_app; [|lia|auto].
  apply H1 in Hy. lia.
Qed.

Lemma first_min_elem l x : first_min l x -> x ∈ l.
Proof. intros (l1 & l2 & -> & _). set_solver. Qed.

(** Appending an element keeps the first minimum or replaces it. *)
Lemma first_min_snoc l x b :
  first_min l x -> first_min (l ++ [b]) (if key (val b) <? key (val x) then b else x).
Proof.
  intros Hx. destruct (Z.ltb_spec (key (val b)) (key (val x))) as [Hlt|Hge].
  - exists l, []. split; [done|]. split; [|set_solver].
    intros y Hy. pose proof (first_min_le _ _ _ Hx Hy). lia.
  - destruct Hx as (l1 & l2 & -> & H1 & H2).
    exists l1, (l2 ++ [b]). split; [by rewrite <- app_assoc|]. split; [done|].
    intros y [Hy|Hy]%elem_of_app; [auto|]. apply list_elem_of_singleton in Hy as ->. lia.
Qed.
End first_min.

Section min_scan.
Context {A V : Type}.
Variables (val : A -> V) (key : V -> Z) (unset : V -> bool) (ltb : V -> V -> bool).

Fixpoint min_scan (l : list A) (sel : option A) (m : V) : option A :=
  match l with
  | [] => sel
  | b :: l' =>
      if unset m || ltb (val b) m then min_scan l' (Some b) (val b)
      else min_scan l' sel m
  end.

(** The values met are compared as integers and never look unset. *)
Definition ordered_by_key (l : list A) : Prop :=
  (forall a, a ∈ l -> unset (val a) = false) /\
  (forall a b, a ∈ l -> b ∈ l -> ltb (val a) (val b) = (key (val a) <? key (val b))).

Lemma min_scan_acc l done x :
  ordered_by_key (done ++ l) -> first_min val key done x ->
  exists y, min_scan l (Some x) (val x) = Some y /\ first_min val key (done ++ l) y.
Proof.
  revert done x. induction l as [|b l IH]; intros done x Ho Hx; simpl.
  { exists x. by rewrite app_nil_r. }
  pose proof (first_min_elem _ _ _ _ Hx) as Hin.
  pose proof (first_min_snoc _ _ _ _ b Hx) as Hs.
  destruct Ho as [Hu Hl]. rewrite Hu by set_solver. simpl.
  rewrite Hl by set_solver.
  replace (done ++ b :: l) with ((done ++ [b]) ++ l) in * by (by rewrite <- app_assoc).
  destruct (Z.ltb_spec (key (val b)) (key (val x))); by apply IH.
Qed.

Lemma min_scan_spec l m :
  l <> [] -> unset m = true -> ordered_by_key l ->
  exists y, min_scan l None m = Some y /\ first_min val key l y.
Proof.
  destruct l as [|b l]; [done|]. intros _ Hm Ho. simpl. rewrite Hm. simpl.
  apply (min_scan_acc l [b] b Ho). exists [], []. set_solver.
Qed.
End min_scan.

(** ** Filters *)

Lemma filter_none {A} (P : A -> Prop) `{!forall x, Decision (P x)} (l : list A) :
  Forall (fun x => ~ P x) l -> filter P l = [].
Proof. induction 1; [done|]. by rewrite filter_cons_False. Qed.

Lemma pair_fst {A B} (x : A * B) (a : A) : fst x = a -> x = (a, snd x).
Proof. by destruct x as [y b]; cbn; intros ->. Qed.

Lemma sublist_same_length {A} (l k : list A) :
  l `sublist_of` k -> length l = length k -> l = k.
Proof.
  induction 1 as [|x l k Hs IH|x l k Hs IH]; cbn; intros Hl; [done|f_equal; auto|].
  apply sublist_length in Hs. lia.
Qed.

Lemma rtc_invariant {A} (R : A -> A -> Prop) (P : A -> Prop) (x y : A) :
  (forall a b, R a b -> P a -> P b) -> P x -> rtc R x y -> P y.
Proof. intros Hs Hx Hr. induction Hr; eauto. Qed.

Lemma filter_all {A} (P : A -> Prop) `{!forall x, Decision (P x)} (l : list A) :
  Forall P l -> filter P l = l.
Proof. induction 1; [done|]. rewrite filter_cons_True by done. by f_equal. Qed.

Lemma filter_ext_in {A} (P Q : A -> Prop) `{!forall x, Decision (P x)}
    `{!forall x, Decision (Q x)} (l : list A) :
  (forall x, x ∈ l -> P x <-> Q x) -> filter P l = filter Q l.
Proof.
  induction l as [|x l IH]; intros HPQ; [done|]. rewrite !filter_cons.
  rewrite IH by set_solver. specialize (HPQ x ltac:(set_solver)).
  destruct (decide (P x)), (decide (Q x)); tauto.
Qed.

Lemma StronglySorted_filter {A} (R : relation A) (P : A -> Prop) `{!forall x, Decision (P x)}
    (l : list A) : StronglySorted R l -> StronglySorted R (filter P l).
Proof.
  induction 1 as [|x l Hl IH Hx]; [constructor|]. rewrite filter_cons.
  case_decide; [|done]. constructor; [done|]. rewrite Forall_forall in *.
  intros y [_ Hy]%list_elem_of_filter. auto.
Qed.

Lemma Forall_filter {A} (P Q : A -> Prop) `{!forall x, Decision (P x)} (l : list A) :
  Forall Q l -> Forall Q (filter P l).
Proof. rewrite !Forall_forall. intros HQ x [_ Hx]%list_elem_of_filter. auto. Qed.

(** A weaker test keeps at least as many elements. *)
Lemma length_filter_mono {A} (P Q : A -> Prop) `{!forall x, Decision (P x)}
    `{!forall x, Decision (Q x)} (l : list A) :
  (forall x, x ∈ l -> P x -> Q x) -> (length (filter P l) <= length (filter Q l))%nat.
Proof.
  induction l as [|x l IH]; intros HPQ; [done|]. rewrite !filter_cons.
  assert (length (filter P l) <= length (filter Q l))%nat by (apply IH; set_solver).
  destruct (decide (P x)), (decide (Q x)); simpl; try lia. exfalso. set_solver.
Qed.

(** ** Consecutive counters modulo a size *)

Lemma seqZ_mod_rotation (c n : Z) :
  0 < n -> (fun k => k mod n) <$> seqZ c n ≡ₚ seqZ 0 n.
Proof.
  intros Hn. set (r := c mod n).
  assert (0 <= r < n) as Hr by (apply Z.mod_pos_bound; lia).
  assert (forall a m d, 0 <= a -> a + m <= n ->
    (fun k => k mod n) <$> seqZ (a + n * d) m = seqZ a m) as Hshift.
  { intros a m d Ha Hm. rewrite <- (Z.add_comm (n * d) a), <- (fmap_add_seqZ (n * d) a).
    rewrite <- list_fmap_compose. rewrite <- (list_fmap_id (seqZ a m)) at 2.
    apply list_fmap_ext. intros i x Hx. apply list_elem_of_lookup_2, elem_of_seqZ in Hx.
    simpl. rewrite Z.add_comm, (Z.mul_comm n), Z_mod_plus_full, Z.mod_small; lia. }
  assert (c = r + n * (c / n)) as Hc by (pose proof (Z.div_mod c n); lia).
  assert (seqZ c n = seqZ (r + n * (c / n)) (n - r) ++ seqZ (0 + n * (c / n + 1)) r) as ->.
  { replace (seqZ c n) with (seqZ (r + n * (c / n)) ((n - r) + r)) by (f_equal; lia).
    rewrite seqZ_app by lia. do 2 f_equal. lia. }
  assert (seqZ 0 n = seqZ 0 r ++ seqZ r (n - r)) as ->.
  { replace (seqZ 0 n) with (seqZ 0 (r + (n - r))) by (f_equal; lia).
    by rewrite seqZ_app by lia. }
  rewrite fmap_app, !Hshift by lia. apply Permutation_app_comm.
Qed.

Lemma list_as_seqZ {A} `{!Inhabited A} (l : list A) :
  (fun i => l !!! Z.to_nat i) <$> seqZ 0 (Z.of_nat (length l)) = l.
Proof.
  apply list_eq. intros i. rewrite list_lookup_fmap.
  destruct (decide (i < length l)%nat) as [Hi|Hi].
  - rewrite (list_lookup_lookup_total_lt l i Hi).
    rewrite (proj2 (lookup_seqZ 0 (Z.of_nat (length l)) i (Z.of_nat i))) by lia.
    simpl. by rewrite Nat2Z.id.
  - rewrite (lookup_ge_None_2 l) by lia. rewrite lookup_ge_None_2; [done|].
    rewrite length_seqZ. lia.
Qed.

(** ** Sums over a list whose entries are updated one at a time *)

Definition sum_by {A} (f : A -> Z) (l : list A) : Z := foldr (fun x n => f x + n) 0 l.

Lemma sum_by_app {A} (f : A -> Z) l k : sum_by f (l ++ k) = sum_by f l + sum_by f k.
Proof. induction l as [|x l IH]; [done|]. cbn. fold (sum_by f (l ++ k)) (sum_by f l). lia. Qed.

Lemma sum_by_snoc {A} (f : A -> Z) l x : sum_by f (l ++ [x]) = sum_by f l + f x.
Proof. rewrite sum_by_app. unfold sum_by at 2. cbn. lia. Qed.

Lemma sum_by_insert {A} (f : A -> Z) l i x y :
  l !! i = Some x -> sum_by f (<[i:=y]> l) = sum_by f l - f x + f y.
Proof.
  revert i. induction l as [|z l IH]; intros [|i] Hi; simplify_eq/=; [lia|].
  fold (sum_by f (<[i:=y]> l)) (sum_by f l). rewrite (IH i Hi). lia.
Qed.

Lemma sum_by_le {A} (f g : A -> Z) l : (forall x, f x <= g x) -> sum_by f l <= sum_by g l.
Proof.
  intros Hfg. induction l as [|x l IH]; [done|]. cbn.
  fold (sum_by f l) (sum_by g l). specialize (Hfg x). lia.
Qed.

Lemma sum_by_nonneg {A} (f : A -> Z) l : (forall x, 0 <= f x) -> 0 <= sum_by f l.
Proof. intros Hf. induction l as [|x l IH]; [done|]. cbn. fold (sum_by f l). specialize (Hf x). lia. Qed.

Lemma sum_by_unit {A} (f : A -> Z) l :
  (forall x, 0 <= f x <= 1) -> 0 <= sum_by f l <= Z.of_nat (length l).
Proof.
  intros Hf. induction l as [|x l IH]; [done|]. cbn -[Z.of_nat]. fold (sum_by f l).
  specialize (Hf x). lia.
Qed.

Lemma sum_by_all_zero {A} (f : A -> Z) l : Forall (fun x => f x = 0) l -> sum_by f l = 0.
Proof. induction 1 as [|x l Hx _ IH]; [done|]. cbn. fold (sum_by f l). lia. Qed.

(** An entry of a sum of naturals that is zero. *)
Lemma sum_by_zero {A} (f : A -> Z) l i x :
  (forall x, 0 <= f x) -> sum_by f l = 0 -> l !! i = Some x -> f x = 0.
Proof.
  intros Hf. revert i. induction l as [|y l IH]; intros i Hs Hi; [done|].
  cbn in Hs. fold (sum_by f l) in Hs.
  pose proof (Hf y). pose proof (sum_by_nonneg f l Hf).
  destruct i; simplify_eq/=; [lia|]. apply (IH i); [lia|done].
Qed.

(** An entry is at most the sum. *)
Lemma sum_by_elem {A} (f : A -> Z) l i x :
  (forall x, 0 <= f x) -> l !! i = Some x -> f x <= sum_by f l.
Proof.
  intros Hf. revert i. induction l as [|y l IH]; intros [|i] Hi; simplify_eq/=;
    fold (sum_by f l).
  - pose proof (sum_by_nonneg f l Hf). lia.
  - pose proof (IH i Hi). pose proof (Hf y). lia.
Qed.

(** Two sums over distinct entries that differ at one of them. *)
Lemma sum_by_update {A} (f g : A -> Z) l x :
  NoDup l -> x ∈ l -> (forall y, y <> x -> f y = g y) -> sum_by g l = sum_by f l - f x + g x.
Proof.
  intros Hnd Hx Hfg. induction l as [|y l IH]; [by apply not_elem_of_nil in Hx|].
  apply NoDup_cons in Hnd as [Hy Hnd]. cbn. fold (sum_by f l) (sum_by g l).
  apply elem_of_cons in Hx as [->|Hx].
  - assert (sum_by g l = sum_by f l) as ->; [|lia].
    clear -Hy Hfg. induction l as [|z l IH]; [done|]. cbn. fold (sum_by f l) (sum_by g l).
    rewrite IH, (Hfg z) by set_solver. done.
  - rewrite (IH Hnd Hx), (Hfg y) by set_solver. lia.
Qed.

(** What the entries hold, as a multiset. *)
Lemma bind_insert {A B} (f : A -> list B) l i x y :
  l !! i = Some x -> f x ++ (<[i:=y]> l ≫= f) ≡ₚ f y ++ (l ≫= f).
Proof.
  revert i. induction l as [|z l IH]; intros [|i] Hi; simplify_eq/=.
  - by rewrite !(assoc (++)), (comm (++) (f x) (f y)).
  - rewrite !(assoc (++)), (comm (++) (f x) (f z)), (comm (++) (f y) (f z)).
    rewrite <- !(assoc (++)). by rewrite (IH i Hi).
Qed.

Lemma i32_small x : - 2147483648 <= x < 2147483648 -> i32 x = x.
Proof. intros Hx. apply swrap_small; [lia|]. exact Hx. Qed.

Lemma sum_by_Permutation {A} (f : A -> Z) l k : l ≡ₚ k -> sum_by f l = sum_by f k.
Proof. induction 1; cbn in *; unfold sum_by in *; lia. Qed.

(** ** Maps

    Go visits the entries of a map in no fixed order: an operation that ranges over a
    map takes the order of the visit as an argument. *)

Definition iterates {V} (order : list (string * V)) (m : gmap string V) : Prop :=
  order ≡ₚ map_to_list m.

(** A sum over the entries of a map. *)
Definition sum_map {V} (f : string * V -> Z) (m : gmap string V) : Z := sum_by f (map_to_list m).

Lemma sum_map_insert {V} (f : string * V -> Z) m k v :
  m !! k = None -> sum_map f (<[k:=v]> m) = f (k, v) + sum_map f m.
Proof.
  intros Hk. unfold sum_map.
  by rewrite (sum_by_Permutation _ _ _ (map_to_list_insert m k v Hk)).
Qed.

Lemma sum_map_delete {V} (f : string * V -> Z) m k v :
  m !! k = Some v -> sum_map f (delete k m) = sum_map f m - f (k, v).
Proof.
  intros Hk. unfold sum_map.
  rewrite <- (sum_by_Permutation _ _ _ (map_to_list_delete m k v Hk)). cbn.
  unfold sum_by. lia.
Qed.
