(* ===== verification/GoFloat.v ===== *)
(** * Go's [float64]: IEEE 754 binary64 with round to nearest, ties to even

    Every finite binary64 value is an integer multiple of [2^-1074], so a
    finite float is the integer [n] that stands for [n * 2^-1074]; the values
    with at most 53 significant bits are the representable ones, subnormals
    included.  An operation computes the exact rational result and rounds it
    once ([rnd]), overflowing to an infinity from [2^1024] on.  The sign of
    zero is not represented: no modelled code divides by a zero that could be
    negative. *)

From S2P Require Import Prelude.

(** ** Rounding of rationals *)

(** [rne a b] is the integer nearest to [a / b] (for [0 < b]), ties to even. *)
Definition rne (a b : Z) : Z :=
  let q := a / b in
  let r := a mod b in
  if 2 * r <? b then q
  else if b <? 2 * r then q + 1
  else if Z.even q then q else q + 1.

(** The exponent of the last of the 53 significant bits of [a / b]. *)
Definition expo (a b : Z) : Z := Z.max 0 (Z.log2 (a / b) - 52).

Definition rnd_pos (a b : Z) : Z :=
  let e := expo a b in rne a (b * 2 ^ e) * 2 ^ e.

(** [rnd a b] rounds the rational [a / b], [0 < b], to 53 significant bits. *)
Definition rnd (a b : Z) : Z :=
  if 0 <=? a then rnd_pos a b else - rnd_pos (- a) b.

(** ** Values and operations *)

Inductive f64 : Type :=
| Fin (n : Z)
| PInf
| NInf
| NaN.
#[export] Instance f64_eq_dec : EqDecision f64.
Proof. solve_decision. Defined.

(** [1.0], in multiples of [2^-1074]. *)
Definition one_units : Z := 2 ^ 1074.
Definition overflow_units : Z := 2 ^ 2098.

Definition fl (a b : Z) : f64 :=
  let n := rnd a b in
  if overflow_units <=? n then PInf
  else if n <=? - overflow_units then NInf
  else Fin n.

Definition fneg (x : f64) : f64 :=
  match x with Fin n => Fin (- n) | PInf => NInf | NInf => PInf | NaN => NaN end.

Definition fadd (x y : f64) : f64 :=
  match x, y with
  | Fin a, Fin b => fl (a + b) 1
  | NaN, _ | _, NaN => NaN
  | PInf, NInf | NInf, PInf => NaN
  | PInf, _ | _, PInf => PInf
  | NInf, _ | _, NInf => NInf
  end.

Definition fsub (x y : f64) : f64 := fadd x (fneg y).

(** The infinity with the sign of [s]; [NaN] for [s = 0]. *)
Definition finf (s : Z) : f64 :=
  if 0 <? s then PInf else if s <? 0 then NInf else NaN.

Definition fsgn (x : f64) : Z :=
  match x with Fin a => Z.sgn a | PInf => 1 | NInf => -1 | NaN => 0 end.

Definition fmul (x y : f64) : f64 :=
  match x, y with
  | Fin a, Fin b => fl (a * b) one_units
  | NaN, _ | _, NaN => NaN
  | _, _ => finf (fsgn x * fsgn y)
  end.

Definition fdiv (x y : f64) : f64 :=
  match x, y with
  | Fin a, Fin b =>
      if b =? 0 then finf (Z.sgn a)
      else fl (a * Z.sgn b * one_units) (Z.abs b)
  | NaN, _ | _, NaN => NaN
  | Fin _, _ => Fin 0
  | _, Fin b => finf (fsgn x * (if 0 <=? b then 1 else -1))
  | _, _ => NaN
  end.

(** Comparisons; every comparison with [NaN] is false. *)
Definition fltb (x y : f64) : bool :=
  match x, y with
  | Fin a, Fin b => a <? b
  | NInf, Fin _ | NInf, PInf | Fin _, PInf => true
  | _, _ => false
  end.
Definition fleb (x y : f64) : bool :=
  match x, y with
  | Fin a, Fin b => a <=? b
  | NInf, Fin _ | NInf, PInf | Fin _, PInf | NInf, NInf | PInf, PInf => true
  | _, _ => false
  end.
Definition feqb (x y : f64) : bool :=
  match x, y with
  | Fin a, Fin b => a =? b
  | NInf, NInf | PInf, PInf => true
  | _, _ => false
  end.

(** [float64(z)] of an integer and [int64(x)] of a float.  Go leaves the
    conversion of an out-of-range float to the implementation; on amd64 it is
    the least [int64]. *)
Definition of_int (z : Z) : f64 := fl (z * one_units) 1.
Definition to_int64 (x : f64) : Z :=
  match x with
  | Fin n =>
      let t := go_div n one_units in
      if (- 2 ^ 63 <=? t) && (t <? 2 ^ 63) then t else - 2 ^ 63
  | _ => - 2 ^ 63
  end.

(** A decimal constant [a / b] of the source. *)
Definition of_ratio (a b : Z) : f64 := fl (a * one_units) b.

(** [d.Seconds()]. *)
Definition Seconds (d : duration) : f64 :=
  fadd (of_int (go_div d Second)) (fdiv (of_int (go_rem d Second)) (of_int Second)).

(** ** Rounding lemmas *)

Global Arguments fl : simpl never.
Global Arguments of_int : simpl never.
Global Arguments of_ratio : simpl never.

Lemma rne_bounds a b : 0 < b -> a / b <= rne a b <= a / b + 1.
Proof. intros. unfold rne. repeat case_match; lia. Qed.

Lemma rne_exact k b : 0 < b -> rne (k * b) b = k.
Proof.
  intros. unfold rne. rewrite Z.div_mul, Z.mod_mul by lia.
  by rewrite (proj2 (Z.ltb_lt _ _)) by lia.
Qed.

Lemma rne_mono a b c d : 0 < b -> 0 < d -> a * d <= c * b -> rne a b <= rne c d.
Proof.
  intros Hb Hd Hle.
  pose proof (rne_bounds a b Hb) as B1. pose proof (rne_bounds c d Hd) as B2.
  pose proof (Z.div_mod a b ltac:(lia)) as E1. pose proof (Z.mod_pos_bound a b Hb).
  pose proof (Z.div_mod c d ltac:(lia)) as E2. pose proof (Z.mod_pos_bound c d Hd).
  assert (a / b <= c / d) as Hq by (apply Z.div_le_lower_bound; nia).
  destruct (decide (a / b < c / d)); [lia|].
  assert (a / b = c / d) as Heq by lia.
  unfold rne in *. rewrite Heq in *.
  set (q := c / d) in *. set (r1 := a mod b) in *. set (r2 := c mod d) in *.
  assert (r1 * d <= r2 * b) by nia.
  destruct (Z.ltb_spec (2 * r1) b), (Z.ltb_spec (2 * r2) d),
    (Z.ltb_spec b (2 * r1)), (Z.ltb_spec d (2 * r2)), (Z.even q); nia.
Qed.

Lemma expo_nonneg a b : 0 <= expo a b.
Proof. unfold expo. lia. Qed.

Lemma pow2_pos e : 0 <= e -> 0 < 2 ^ e.
Proof. lia. Qed.
#[export] Hint Resolve expo_nonneg pow2_pos : go.

Lemma expo_upper a b : 0 <= a -> 0 < b -> a < b * 2 ^ (expo a b + 53).
Proof.
  intros Ha Hb. unfold expo.
  set (e := Z.max 0 (Z.log2 (a / b) - 52)).
  assert (a / b < 2 ^ (e + 53)) as Hq.
  { destruct (decide (a / b <= 0)); [pose proof (pow2_pos (e + 53)); lia|].
    apply Z.log2_lt_pow2; lia. }
  pose proof (Z.mul_succ_div_gt a b Hb). nia.
Qed.

Lemma expo_lower a b : 0 <= a -> 0 < b -> 0 < expo a b -> b * 2 ^ (expo a b + 52) <= a.
Proof.
  intros Ha Hb He. unfold expo in *.
  assert (2 ^ (Z.log2 (a / b)) <= a / b) as Hq.
  { apply Z.log2_spec. destruct (decide (0 < a / b)); [done|].
    rewrite Z.log2_nonpos in He by lia. lia. }
  replace (Z.max 0 (Z.log2 (a / b) - 52) + 52) with (Z.log2 (a / b)) by lia.
  pose proof (Z.mul_div_le a b Hb). nia.
Qed.

Lemma expo_mono a b c d :
  0 < b -> 0 < d -> 0 <= a -> a * d <= c * b -> expo a b <= expo c d.
Proof.
  intros. unfold expo.
  assert (a / b <= c / d).
  { apply Z.div_le_lower_bound; [done|]. pose proof (Z.mul_div_le a b). nia. }
  pose proof (Z.log2_le_mono (a / b) (c / d)). lia.
Qed.

(** The significand never exceeds [2^53]. *)
Lemma rne_expo_le a b : 0 <= a -> 0 < b -> rne a (b * 2 ^ expo a b) <= 2 ^ 53.
Proof.
  intros Ha Hb. pose proof (expo_upper a b Ha Hb) as Hu. pose proof (expo_nonneg a b).
  rewrite <- (rne_exact (2 ^ 53) 1) by lia. apply rne_mono; [nia|lia|].
  rewrite Z.pow_add_r in Hu by lia. nia.
Qed.

Lemma rnd_pos_mono a b c d :
  0 < b -> 0 < d -> 0 <= a -> a * d <= c * b -> rnd_pos a b <= rnd_pos c d.
Proof.
  intros Hb Hd Ha Hle. unfold rnd_pos.
  assert (0 <= c) as Hc by nia.
  pose proof (expo_mono a b c d Hb Hd Ha Hle) as He.
  pose proof (expo_nonneg a b) as Hn1. pose proof (expo_nonneg c d) as Hn2.
  destruct (decide (expo a b = expo c d)) as [Heq|Hne].
  - rewrite Heq. apply Z.mul_le_mono_nonneg_r; [lia|].
    apply rne_mono; [nia|nia|]. pose proof (pow2_pos (expo c d)). nia.
  - pose proof (rne_expo_le a b Ha Hb) as H1.
    pose proof (expo_lower c d Hc Hd ltac:(lia)) as Hl.
    assert (2 ^ 52 <= rne c (d * 2 ^ expo c d)) as H2.
    { rewrite <- (rne_exact (2 ^ 52) 1) by lia. apply rne_mono; [lia|nia|].
      rewrite Z.pow_add_r in Hl by lia. nia. }
    transitivity (2 ^ 53 * 2 ^ expo a b); [apply Z.mul_le_mono_nonneg_r; lia|].
    transitivity (2 ^ 52 * 2 ^ expo c d); [|apply Z.mul_le_mono_nonneg_r; lia].
    rewrite <- !Z.pow_add_r by lia. apply Z.pow_le_mono_r; lia.
Qed.

Lemma rnd_pos_nonneg a b : 0 <= a -> 0 < b -> 0 <= rnd_pos a b.
Proof.
  intros. unfold rnd_pos. pose proof (expo_nonneg a b).
  pose proof (rne_bounds a (b * 2 ^ expo a b) ltac:(nia)).
  pose proof (Z.div_pos a (b * 2 ^ expo a b)). nia.
Qed.

Lemma rnd_mono a b c d : 0 < b -> 0 < d -> a * d <= c * b -> rnd a b <= rnd c d.
Proof.
  intros Hb Hd Hle. unfold rnd.
  destruct (Z.leb_spec 0 a), (Z.leb_spec 0 c).
  - by apply rnd_pos_mono.
  - nia.
  - pose proof (rnd_pos_nonneg (- a) b). pose proof (rnd_pos_nonneg c d). lia.
  - assert (rnd_pos (- c) d <= rnd_pos (- a) b); [|lia]. apply rnd_pos_mono; nia.
Qed.

Lemma rnd_opp a b : 0 < b -> rnd (- a) b = - rnd a b.
Proof.
  intros Hb. unfold rnd. destruct (Z.leb_spec 0 a), (Z.leb_spec 0 (- a)).
  - assert (a = 0) as -> by lia. unfold rnd_pos. simpl.
    assert (forall e, 0 <= e -> rne 0 (b * 2 ^ e) = 0) as Hz.
    { intros. rewrite <- (Z.mul_0_l (b * 2 ^ e)) at 1. apply rne_exact. nia. }
    by rewrite !Hz by apply expo_nonneg.
  - by rewrite Z.opp_involutive.
  - lia.
  - lia.
Qed.

(** ** Representable values *)

Definition repr (n : Z) : Prop := rnd n 1 = n.

Lemma repr_pos_scaled m k : 0 <= m < 2 ^ 53 -> 0 <= k -> repr (m * 2 ^ k).
Proof.
  intros Hm Hk. unfold repr, rnd. rewrite (proj2 (Z.leb_le _ _)) by nia.
  unfold rnd_pos. rewrite !Z.mul_1_l.
  assert (expo (m * 2 ^ k) 1 <= k) as He.
  { unfold expo. rewrite Z.div_1_r. destruct (decide (m = 0)) as [->|].
    - simpl. lia.
    - rewrite Z.log2_mul_pow2 by lia. pose proof (Z.log2_lt_pow2 m 53). lia. }
  pose proof (expo_nonneg (m * 2 ^ k) 1).
  set (e := expo (m * 2 ^ k) 1) in *.
  replace (m * 2 ^ k) with ((m * 2 ^ (k - e)) * 2 ^ e)
    by (rewrite <- Z.mul_assoc, <- Z.pow_add_r by lia; do 2 f_equal; lia).
  by rewrite rne_exact by lia.
Qed.

Lemma repr_scaled m k : - 2 ^ 53 <= m <= 2 ^ 53 -> 0 <= k -> repr (m * 2 ^ k).
Proof.
  intros Hm Hk.
  assert (forall x, 0 <= x <= 2 ^ 53 -> repr (x * 2 ^ k)) as Hpos.
  { intros x Hx. destruct (decide (x = 2 ^ 53)) as [->|].
    - replace (2 ^ 53 * 2 ^ k) with (2 ^ 52 * 2 ^ (k + 1))
        by (rewrite <- !Z.pow_add_r by lia; f_equal; lia).
      apply repr_pos_scaled; lia.
    - apply repr_pos_scaled; lia. }
  destruct (decide (0 <= m)); [apply Hpos; lia|].
  unfold repr. replace (m * 2 ^ k) with (- ((- m) * 2 ^ k)) by lia.
  rewrite rnd_opp by lia. f_equal. apply Hpos. lia.
Qed.

Lemma repr_0 : repr 0.
Proof. by apply (repr_scaled 0 0). Qed.

Lemma rnd_pos_repr a b : 0 <= a -> 0 < b -> repr (rnd_pos a b).
Proof.
  intros Ha Hb. pose proof (rnd_pos_nonneg a b Ha Hb) as Hn. unfold rnd_pos in *.
  pose proof (expo_nonneg a b). apply repr_scaled; [|done].
  pose proof (rne_expo_le a b Ha Hb). pose proof (pow2_pos (expo a b)). nia.
Qed.

Lemma rnd_repr a b : 0 < b -> repr (rnd a b).
Proof.
  intros Hb. unfold rnd. destruct (Z.leb_spec 0 a).
  - by apply rnd_pos_repr.
  - unfold repr. rewrite rnd_opp by lia. f_equal. apply rnd_pos_repr; lia.
Qed.

(** A representable bound on the exact value bounds the rounded value. *)
Lemma rnd_le a b x : 0 < b -> repr x -> a <= x * b -> rnd a b <= x.
Proof. intros Hb Hx Hle. rewrite <- Hx. apply rnd_mono; lia. Qed.

Lemma rnd_ge a b x : 0 < b -> repr x -> x * b <= a -> x <= rnd a b.
Proof. unfold repr. intros Hb Hx Hle. rewrite <- Hx at 1. apply rnd_mono; lia. Qed.

Lemma rnd_exact a b x : 0 < b -> repr x -> a = x * b -> rnd a b = x.
Proof.
  intros Hb Hx ->. pose proof (rnd_le (x * b) b x Hb Hx). pose proof (rnd_ge (x * b) b x Hb Hx). lia.
Qed.

#[export] Hint Resolve repr_0 rnd_repr : go.

(** Small integers convert exactly. *)
Lemma repr_int z : - 2 ^ 53 <= z <= 2 ^ 53 -> repr (z * one_units).
Proof. intros. by apply repr_scaled. Qed.

Lemma of_int_exact z : - 2 ^ 53 <= z <= 2 ^ 53 -> of_int z = Fin (z * one_units).
Proof.
  intros Hz. unfold of_int, fl. rewrite (rnd_exact _ 1 (z * one_units)) by
    (auto using repr_int; lia).
  assert (overflow_units = 2 ^ 1024 * one_units) as -> by reflexivity.
  assert (0 < one_units) by reflexivity. assert (2 ^ 53 < 2 ^ 1024) by reflexivity.
  rewrite (proj2 (Z.leb_gt _ _)) by nia. by rewrite (proj2 (Z.leb_gt _ _)) by nia.
Qed.

(** ** Quotients of small integers *)

Lemma rnd_cancel a b k : 0 < b -> 0 < k -> rnd (a * k) (b * k) = rnd a b.
Proof. intros. apply Z.le_antisymm; apply rnd_mono; nia. Qed.

Lemma one_units_pos : 0 < one_units.
Proof. done. Qed.

(** The ratio [float64(c) / float64(w)] is the rounded rational [c / w]. *)
Lemma fdiv_of_int c w :
  0 <= c <= 2 ^ 53 -> 0 < w <= 2 ^ 53 ->
  fdiv (of_int c) (of_int w) = Fin (rnd (c * one_units) w).
Proof.
  intros Hc Hw. rewrite !of_int_exact by lia. simpl.
  pose proof one_units_pos as Hu. set (u := one_units) in *.
  rewrite (proj2 (Z.eqb_neq _ _)) by nia.
  assert (Z.abs (w * u) = w * u) as -> by nia.
  assert (Z.sgn (w * u) = 1) as -> by (apply Z.sgn_pos; nia).
  rewrite Z.mul_1_r. unfold fl. rewrite rnd_cancel by lia.
  pose proof (rnd_ge (c * u) w 0 ltac:(lia) repr_0 ltac:(nia)) as Hlo.
  pose proof (rnd_le (c * u) w (c * u) ltac:(lia) (repr_int c ltac:(lia)) ltac:(nia)) as Hhi.
  assert (overflow_units = 2 ^ 1024 * u) as -> by reflexivity.
  assert (2 ^ 53 < 2 ^ 1024) by reflexivity.
  rewrite (proj2 (Z.leb_gt _ _)) by nia. by rewrite (proj2 (Z.leb_gt _ _)) by nia.
Qed.

(** ** Relative error of rounding *)

Lemma rne_error a b : 0 < b -> 2 * Z.abs (rne a b * b - a) <= b.
Proof.
  intros Hb. unfold rne.
  pose proof (Z.div_mod a b ltac:(lia)) as E. pose proof (Z.mod_pos_bound a b Hb).
  set (q := a / b) in *. set (r := a mod b) in *. clearbody q r. subst a.
  destruct (Z.ltb_spec (2 * r) b), (Z.ltb_spec b (2 * r)), (Z.even q); lia.
Qed.

(** A value in the normal range is off by at most half a unit in the last place. *)
Lemma rnd_pos_error a b : 0 < b -> 2 ^ 52 * b <= a -> 2 ^ 53 * Z.abs (rnd_pos a b * b - a) <= a.
Proof.
  intros Hb Ha. unfold rnd_pos. pose proof (expo_nonneg a b) as He.
  pose proof (pow2_pos _ He) as Hp.
  pose proof (rne_error a (b * 2 ^ expo a b) ltac:(nia)) as Herr.
  assert (b * 2 ^ expo a b * 2 ^ 52 <= a) as Hl.
  { destruct (decide (expo a b = 0)) as [->|]; [lia|].
    pose proof (expo_lower a b ltac:(lia) Hb ltac:(lia)) as Hl.
    rewrite Z.pow_add_r in Hl by lia. lia. }
  set (r := rne _ _) in *.
  replace (r * 2 ^ expo a b * b - a) with (r * (b * 2 ^ expo a b) - a) by lia.
  change (2 ^ 53) with (2 ^ 52 * 2). nia.
Qed.

(** Rounded ratios in strict order come from ratios in strict order. *)
Lemma rnd_ratio_lt c1 w1 c2 w2 :
  0 < w1 -> 0 < w2 -> rnd (c1 * one_units) w1 < rnd (c2 * one_units) w2 -> c1 * w2 < c2 * w1.
Proof.
  intros Hw1 Hw2 Hlt. pose proof one_units_pos.
  destruct (decide (c1 * w2 < c2 * w1)) as [|Hge]; [done|exfalso].
  pose proof (rnd_mono (c2 * one_units) w2 (c1 * one_units) w1 Hw2 Hw1 ltac:(nia)). lia.
Qed.

(** Rounding separates distinct ratios of small integers. *)
Lemma rnd_ratio_separates c1 w1 c2 w2 :
  0 <= c1 -> 0 < w1 <= 2 ^ 53 -> 0 <= c2 -> 0 < w2 <= 2 ^ 53 -> c1 * w2 < 2 ^ 52 ->
  rnd (c1 * one_units) w1 <= rnd (c2 * one_units) w2 -> c1 * w2 <= c2 * w1.
Proof.
  intros Hc1 Hw1 Hc2 Hw2 Hsmall Hle. pose proof one_units_pos as HU.
  destruct (decide (c1 * w2 <= c2 * w1)) as [|Hgt]; [done|exfalso].
  assert (rnd (c2 * one_units) w2 <= rnd (c1 * one_units) w1) as Hge
    by (apply rnd_mono; nia).
  assert (2 ^ 105 <= one_units) as Hbig by done.
  set (U := one_units) in *. clearbody U.
  unfold rnd in *.
  rewrite (proj2 (Z.leb_le 0 (c1 * U))), (proj2 (Z.leb_le 0 (c2 * U))) in * by nia.
  assert (1 <= c1) by nia.
  pose proof (rnd_pos_error (c1 * U) w1 ltac:(lia) ltac:(nia)) as E1.
  assert (2 ^ 53 * Z.abs (rnd_pos (c2 * U) w2 * w2 - c2 * U) <= c2 * U) as E2.
  { destruct (decide (c2 = 0)) as [->|].
    - pose proof (rnd_le 0 w2 0 ltac:(lia) repr_0 ltac:(lia)) as H0. unfold rnd in H0. simpl in H0.
      pose proof (rnd_pos_nonneg 0 w2 ltac:(lia) ltac:(lia)). rewrite !Z.mul_0_l. lia.
    - apply rnd_pos_error; nia. }
  assert (rnd_pos (c1 * U) w1 = rnd_pos (c2 * U) w2) as Heq by lia.
  rewrite Heq in E1. set (r := rnd_pos (c2 * U) w2) in *. clearbody r. clear Hle Hge Heq.
  assert (2 ^ 53 * (c1 * U * w2 - c2 * U * w1) <= c1 * U * w2 + c2 * U * w1) as Hsum.
  { assert (2 ^ 53 * (c1 * U - r * w1) <= c1 * U) by lia.
    assert (2 ^ 53 * (r * w2 - c2 * U) <= c2 * U) by lia.
    nia. }
  assert (2 ^ 53 * (c1 * w2 - c2 * w1) <= c1 * w2 + c2 * w1) by nia. lia.
Qed.

(** ** Bounds of operations *)

(** A value between small integers is finite and rounds between them. *)
Lemma fl_between a b x y :
  0 < b -> - 2 ^ 53 <= x -> y <= 2 ^ 53 -> x * one_units * b <= a <= y * one_units * b ->
  exists n, fl a b = Fin n /\ x * one_units <= n <= y * one_units.
Proof.
  intros Hb Hx Hy Ha. pose proof one_units_pos as Hu.
  assert (x <= y) by (apply Z.mul_le_mono_pos_r with (one_units * b); nia).
  pose proof (rnd_ge a b (x * one_units) Hb (repr_int x ltac:(lia)) ltac:(lia)).
  pose proof (rnd_le a b (y * one_units) Hb (repr_int y ltac:(lia)) ltac:(lia)).
  exists (rnd a b). split; [|done]. unfold fl.
  assert (overflow_units = 2 ^ 1024 * one_units) as -> by reflexivity.
  assert (2 ^ 53 < 2 ^ 1024) by reflexivity. set (u := one_units) in *.
  rewrite (proj2 (Z.leb_gt _ _)) by nia. by rewrite (proj2 (Z.leb_gt _ _)) by nia.
Qed.

(** Neither negative nor [NaN]. *)
Definition fnonneg (x : f64) : Prop :=
  match x with Fin n => 0 <= n | PInf => True | _ => False end.

Lemma fl_nonneg a b : 0 <= a -> 0 < b -> fnonneg (fl a b).
Proof.
  intros Ha Hb. pose proof (rnd_ge a b 0 Hb repr_0 ltac:(lia)) as Hr. unfold fl.
  destruct (Z.leb_spec overflow_units (rnd a b)); [done|].
  assert (0 < overflow_units) by reflexivity.
  rewrite (proj2 (Z.leb_gt _ _)) by lia. done.
Qed.

Lemma fadd_nonneg x y : fnonneg x -> fnonneg y -> fnonneg (fadd x y).
Proof. destruct x, y; simpl; try done. intros. apply fl_nonneg; lia. Qed.

Lemma fmul_nonneg a b : 0 <= a -> 0 <= b -> fnonneg (fmul (Fin a) (Fin b)).
Proof. intros. apply fl_nonneg; [nia|apply one_units_pos]. Qed.

Lemma Seconds_nonneg d : 0 <= d <= maxDuration -> exists n, Seconds d = Fin n /\ 0 <= n.
Proof.
  intros [Hd1 Hd2]. unfold Seconds, maxDuration, Second in *.
  rewrite Z.quot_div_nonneg, go_rem_nonneg by lia.
  pose proof (Z.mod_pos_bound d 1000000000 ltac:(lia)).
  assert (0 <= d / 1000000000 < 2 ^ 52) as Hq
    by (split; [apply Z.div_pos; lia|apply Z.div_lt_upper_bound; lia]).
  rewrite fdiv_of_int, of_int_exact by lia. pose proof one_units_pos as Hu.
  pose proof (rnd_ge (d mod 1000000000 * one_units) 1000000000 0 ltac:(lia) repr_0 ltac:(nia)).
  pose proof (rnd_le (d mod 1000000000 * one_units) 1000000000 (1 * one_units) ltac:(lia)
    (repr_int 1 ltac:(lia)) ltac:(nia)).
  destruct (fl_between (d / 1000000000 * one_units + rnd (d mod 1000000000 * one_units) 1000000000)
    1 0 (2 ^ 53)) as (n & Hn & Hlo & _); [lia..|set (u := one_units) in *; nia|].
  exists n. split; [exact Hn|]. lia.
Qed.

Lemma Seconds_0 : Seconds 0 = Fin 0.
Proof. by vm_compute. Qed.

Lemma fadd_int a b :
  - 2 ^ 53 <= a + b <= 2 ^ 53 ->
  fadd (Fin (a * one_units)) (Fin (b * one_units)) = Fin ((a + b) * one_units).
Proof.
  intros Hab. rewrite <- (of_int_exact (a + b)) by done. unfold of_int. simpl. f_equal. lia.
Qed.

Lemma fsub_int a b :
  - 2 ^ 53 <= a - b <= 2 ^ 53 ->
  fsub (Fin (a * one_units)) (Fin (b * one_units)) = Fin ((a - b) * one_units).
Proof.
  intros Hab. unfold fsub, fneg. replace (- (b * one_units)) with (- b * one_units) by lia.
  rewrite fadd_int by lia. f_equal.
Qed.

(** ** The product of an average and a factor *)

(** The relative error of two roundings in a row, scaled to integers. *)
Lemma two_roundings_upper e U c n T f a m :
  0 < e -> 0 < U -> 0 < n -> 0 <= T -> 0 <= f -> 0 <= a ->
  4 * e * (a * n) <= (4 * e + 1) * (T * U) -> 4 * e * (m * U) <= (4 * e + 1) * (a * f) -> c * U <= m ->
  e * (c * n * U) <= (e + 1) * (T * f).
Proof.
  intros He HU Hn HT Hf Ha H1 H2 H3.
  assert (4 * e * (c * U * U) <= (4 * e + 1) * (a * f)) as H4.
  { etrans; [|exact H2]. apply Z.mul_le_mono_nonneg_l; [lia|]. by apply Z.mul_le_mono_pos_r. }
  assert (4 * e * (4 * e) * (c * n * U) * U <= (4 * e + 1) * (4 * e + 1) * (T * f) * U) as H.
  { transitivity ((4 * e + 1) * f * (4 * e * (a * n))).
    2:{ replace ((4 * e + 1) * (4 * e + 1) * (T * f) * U) with ((4 * e + 1) * f * ((4 * e + 1) * (T * U))) by ring.
        apply Z.mul_le_mono_nonneg_l; nia. }
    replace (4 * e * (4 * e) * (c * n * U) * U) with (4 * e * n * (4 * e * (c * U * U))) by ring.
    transitivity (4 * e * n * ((4 * e + 1) * (a * f))); [apply Z.mul_le_mono_nonneg_l; nia|]. apply Z.eq_le_incl. ring. }
  apply Z.mul_le_mono_pos_r in H; [|done].
  assert (0 <= T * f) by nia. set (x := c * n * U) in *. set (y := T * f) in *. clearbody x y. nia.
Qed.

Lemma two_roundings_lower e U c n T f a m :
  0 < e -> 0 < U -> 0 < n -> 0 <= T -> 0 <= f -> 0 <= a ->
  (4 * e - 1) * (T * U) <= 4 * e * (a * n) -> (4 * e - 1) * (a * f) <= 4 * e * (m * U) -> m < c * U ->
  (e - 1) * (T * f) < e * (c * n * U).
Proof.
  intros He HU Hn HT Hf Ha H1 H2 H3.
  assert ((4 * e - 1) * (a * f) < 4 * e * (c * U * U)) as H4.
  { eapply Z.le_lt_trans; [exact H2|]. apply Z.mul_lt_mono_pos_l; [lia|]. by apply Z.mul_lt_mono_pos_r. }
  assert ((4 * e - 1) * (4 * e - 1) * (T * f) * U < 4 * e * (4 * e) * (c * n * U) * U) as H.
  { apply Z.le_lt_trans with ((4 * e - 1) * f * (4 * e * (a * n))).
    - replace ((4 * e - 1) * (4 * e - 1) * (T * f) * U) with ((4 * e - 1) * f * ((4 * e - 1) * (T * U))) by ring.
      apply Z.mul_le_mono_nonneg_l; nia.
    - replace ((4 * e - 1) * f * (4 * e * (a * n))) with (4 * e * n * ((4 * e - 1) * (a * f))) by ring.
      replace (4 * e * (4 * e) * (c * n * U) * U) with (4 * e * n * (4 * e * (c * U * U))) by ring.
      apply Z.mul_lt_mono_pos_l; nia. }
  apply Z.mul_lt_mono_pos_r in H; [|done].
  assert (0 <= T * f) by nia. set (x := c * n * U) in *. set (y := T * f) in *. clearbody x y. nia.
Qed.

Lemma rnd_error a b :
  0 < b -> a = 0 \/ 2 ^ 52 * b <= a -> 2 ^ 53 * Z.abs (rnd a b * b - a) <= a.
Proof.
  intros Hb [->|Ha].
  - rewrite (rnd_exact 0 b 0) by (auto with go; lia). lia.
  - unfold rnd. rewrite (proj2 (Z.leb_le 0 a)) by lia. by apply rnd_pos_error.
Qed.

(** [float64(t) / float64(n) * lf] of small integers, compared with an integer. *)
Lemma scaled_average_cmp c t n f :
  0 <= c <= 2 ^ 53 -> 0 <= t <= 2 ^ 53 -> 0 < n <= 2 ^ 53 -> 2 ^ 110 <= f <= 2 ^ 53 * one_units ->
  if fleb (of_int c) (fmul (fdiv (of_int t) (of_int n)) (Fin f))
  then 2 ^ 51 * (c * n * one_units) <= (2 ^ 51 + 1) * (t * f)
  else (2 ^ 51 - 1) * (t * f) < 2 ^ 51 * (c * n * one_units).
Proof.
  intros Hc Ht Hn Hf. rewrite fdiv_of_int, of_int_exact by lia. cbn [fmul].
  assert (2 ^ 300 <= one_units) as Hbig by done.
  assert (repr (2 ^ 106 * one_units)) as Hr106 by (apply (repr_scaled 1 1180); lia).
  assert (2 ^ 106 * one_units < overflow_units) as Hov by done.
  pose proof one_units_pos as HU. set (U := one_units) in *.
  set (a := rnd (t * U) n). set (m := rnd (a * f) U).
  assert (2 ^ 53 * Z.abs (a * n - t * U) <= t * U) as E1.
  { apply rnd_error; [lia|]. destruct (decide (t = 0)) as [->|]; [by left|right].
    transitivity (1 * 2 ^ 300); [nia|]. apply Z.mul_le_mono_nonneg; lia. }
  assert (0 <= a) as Ha0 by (apply rnd_ge; auto with go; nia).
  assert (a <= 2 ^ 53 * U) as Ha1 by (apply rnd_le; [lia|apply (repr_int (2 ^ 53)); lia|nia]).
  assert (2 ^ 53 * Z.abs (m * U - a * f) <= a * f) as E2.
  { apply rnd_error; [lia|]. destruct (decide (t = 0)) as [->|].
    - left. assert (a = 0) as ->; [|done]. unfold a. apply rnd_exact; auto with go; lia.
    - right. assert (U <= 2 ^ 54 * a) as Hlow.
      { assert (U <= t * U) by nia. assert (U <= 2 * (a * n)) by lia. nia. }
      assert (2 ^ 110 * a <= a * f) by nia. lia. }
  assert (0 <= m) as Hm0 by (apply rnd_ge; auto with go; nia).
  assert (m <= 2 ^ 106 * U) as Hm1 by (apply rnd_le; [lia|done|nia]).
  assert (fl (a * f) U = Fin m) as ->.
  { unfold fl. fold m. rewrite (proj2 (Z.leb_gt overflow_units m)) by lia.
    by rewrite (proj2 (Z.leb_gt m _)) by lia. }
  cbn [fleb]. clearbody a m. clear Hov Hr106 Hbig.
  destruct (Z.leb_spec (c * U) m) as [Hle|Hlt].
  - apply (two_roundings_upper (2 ^ 51) U c n t f a m); lia.
  - apply (two_roundings_lower (2 ^ 51) U c n t f a m); lia.
Qed.
