(* ===== verification/GoStd.v ===== *)
(** * The parts of Go's standard library the program relies on

    [hash/fnv] (FNV-1a, 32 bits), [sort.Search], [sort.Slice] on integers,
    [fmt.Sprintf] of decimal integers, and the byte-string functions of
    package [strings]. *)

From stdpp Require Import pretty.
From S2P Require Import Prelude.

(** ** Bytes of a string *)

Definition byte_of (c : Ascii.ascii) : Z := Z.of_N (Ascii.N_of_ascii c).

Fixpoint bytes (s : string) : list Z :=
  match s with
  | EmptyString => []
  | String c s' => byte_of c :: bytes s'
  end.

(** The decimal form of an integer ([%d]). *)
Definition itoa (i : Z) : string := pretty i.

#[export] Instance itoa_inj : Inj (=) (=) itoa.
Proof. intros i j. apply (inj pretty). Qed.

Lemma itoa_nonempty z : itoa z <> "".
Proof.
  unfold itoa. destruct z as [|p|p]; try done.
  change (pretty (N.pos p) <> ""). intros He.
  revert He. unfold pretty, pretty_N. case_decide; [done|].
  rewrite pretty_N_go_step by lia. generalize (pretty_N_char (N.pos p `mod` 10)) as c.
  intros c. generalize (N.pos p `div` 10)%N as n.
  assert (forall n s, s <> "" -> pretty_N_go n s <> "") as Hgo.
  { intros n. induction (N.lt_wf_0 n) as [n _ IH]. intros s Hs.
    destruct (decide (n = 0)%N) as [->|Hn]; [by rewrite pretty_N_go_0|].
    rewrite pretty_N_go_step by lia. apply IH; [apply N.div_lt; lia|done]. }
  intros n He. by apply (Hgo n (String c "")) in He.
Qed.

(** ** FNV-1a *)

Definition fnv_offset32 : Z := 2166136261.
Definition fnv_prime32 : Z := 16777619.

Definition fnv1a_step (hash b : Z) : Z := u32 (Z.lxor hash b * fnv_prime32).
Definition fnv1a_32 (data : list Z) : Z := foldl fnv1a_step fnv_offset32 data.

Example fnv1a_32_foobar : fnv1a_32 (bytes "foobar") = 3214735720.
Proof. vm_compute. reflexivity. Qed.

Lemma fnv1a_32_range data : in_u 32 (fnv1a_32 data).
Proof.
  unfold fnv1a_32. assert (in_u 32 fnv_offset32) as H by done. revert H.
  generalize fnv_offset32. induction data as [|b data IH]; intros x Hx; [done|].
  simpl. apply IH, uwrap_range. lia.
Qed.

(** ** [sort.Search] *)

(** The loop of [sort.Search]; [fuel] bounds the number of iterations. *)
Fixpoint search_loop (fuel : nat) (f : Z -> bool) (i j : Z) : Z :=
  match fuel with
  | O => i
  | S fuel =>
      if i <? j then
        let h := Z.shiftr (i + j) 1 in
        if negb (f h) then search_loop fuel f (h + 1) j else search_loop fuel f i h
      else i
  end.

(** An interval of [n] positions is exhausted in at most [n] iterations. *)
Definition sort_Search (n : Z) (f : Z -> bool) : Z := search_loop (S (Z.to_nat n)) f 0 n.

(** [r] is the least position of [[0, n)] where [f] holds, or [n]. *)
Definition least_true (n : Z) (f : Z -> bool) (r : Z) : Prop :=
  0 <= r <= n /\ (forall k, 0 <= k < r -> f k = false) /\ (r < n -> f r = true).

Definition monotone_on (n : Z) (f : Z -> bool) : Prop :=
  forall a b, 0 <= a <= b -> b < n -> f a = true -> f b = true.

Lemma search_loop_spec fuel f n i j :
  monotone_on n f -> 0 <= i <= j -> j <= n -> j - i < Z.of_nat fuel ->
  (forall k, 0 <= k < i -> f k = false) -> (j < n -> f j = true) ->
  least_true n f (search_loop fuel f i j).
Proof.
  intros Hm. revert i j. induction fuel as [|fuel IH]; intros i j Hij Hj Hf Hlo Hhi; [lia|].
  simpl. destruct (Z.ltb_spec i j) as [Hlt|Hge].
  2:{ assert (i = j) as -> by lia. by split; [lia|]. }
  rewrite Z.shiftr_div_pow2 by lia. change (2 ^ 1) with 2. set (m := (i + j) / 2).
  assert (i <= m < j) as Hmid.
  { unfold m. split; [apply Z.div_le_lower_bound; lia|apply Z.div_lt_upper_bound; lia]. }
  destruct (f m) eqn:E; simpl; apply IH; try lia; try done.
  intros k Hk. destruct (f k) eqn:Ek; [|done].
  by rewrite (Hm k m) in E by (done || lia).
Qed.

Lemma sort_Search_spec n f : 0 <= n -> monotone_on n f -> least_true n f (sort_Search n f).
Proof. intros. apply search_loop_spec; try done; lia. Qed.

(** ** [sort.Slice] on integers

    Any algorithm returns the same list here, since the sorted permutation of a
    list of integers is unique. *)

Definition sort_ints (l : list Z) : list Z := merge_sort Z.le l.

#[export] Instance Zle_total : Total Z.le.
Proof. intros x y. lia. Qed.

Lemma sort_ints_perm l : sort_ints l ≡ₚ l.
Proof. apply merge_sort_Permutation. Qed.

Lemma sort_ints_sorted l : StronglySorted Z.le (sort_ints l).
Proof. apply StronglySorted_merge_sort; [intros ? ? ?; lia|apply _]. Qed.

Lemma elem_of_sort_ints x l : x ∈ sort_ints l <-> x ∈ l.
Proof. by rewrite sort_ints_perm. Qed.

Lemma StronglySorted_lookup_le (l : list Z) i j x y :
  StronglySorted Z.le l -> (i <= j)%nat -> l !! i = Some x -> l !! j = Some y -> x <= y.
Proof.
  intros Hs. revert i j. induction Hs as [|a l Hs IH Ha]; intros i j Hij Hi Hj; [done|].
  destruct i as [|i], j as [|j]; simpl in *; simplify_eq; try lia.
  - rewrite Forall_forall in Ha. apply Ha. by apply list_elem_of_lookup_2 in Hj.
  - eapply (IH i j); eauto. lia.
Qed.

(** ** Package strings *)

Fixpoint str_drop (n : nat) (s : string) : string :=
  match n, s with
  | O, _ => s
  | S n', String _ s' => str_drop n' s'
  | S _, EmptyString => ""
  end.
Fixpoint str_take (n : nat) (s : string) : string :=
  match n, s with
  | S n', String a s' => String a (str_take n' s')
  | _, _ => ""
  end.

Fixpoint HasPrefix (s pre : string) {struct pre} : bool :=
  match pre, s with
  | EmptyString, _ => true
  | String a pre', String b s' => bool_decide (a = b) && HasPrefix s' pre'
  | _, EmptyString => false
  end.

(** [len(s) >= len(suffix) && s[len(s)-len(suffix):] == suffix] *)
Definition HasSuffix (s suf : string) : bool :=
  (String.length suf <=? String.length s)%nat &&
  bool_decide (str_drop (String.length s - String.length suf) s = suf).

(** [strings.Index]: the offset of the first occurrence, or [-1]. *)
Fixpoint index_from (i : Z) (s sub : string) : Z :=
  if HasPrefix s sub then i
  else match s with EmptyString => -1 | String _ s' => index_from (i + 1) s' sub end.
Definition str_Index (s sub : string) : Z := index_from 0 s sub.

Definition TrimPrefix (s pre : string) : string :=
  if HasPrefix s pre then str_drop (String.length pre) s else s.

Lemma str_app_cons a (s t : string) : String a s +:+ t = String a (s +:+ t).
Proof. done. Qed.

Lemma str_app_nil_r (s : string) : s +:+ "" = s.
Proof. induction s as [|a s IH]; [done|]. rewrite !str_app_cons. cbn. f_equal. apply IH. Qed.

Lemma str_app_assoc (a b c : string) : (a +:+ b) +:+ c = a +:+ (b +:+ c).
Proof. induction a as [|x a IH]; [done|]. rewrite !str_app_cons. cbn. f_equal. apply IH. Qed.

Lemma str_length_app (a b : string) : String.length (a +:+ b) = (String.length a + String.length b)%nat.
Proof. induction a as [|x a IH]; [done|]. rewrite !str_app_cons. cbn. f_equal. apply IH. Qed.

Lemma str_take_drop n s : str_take n s +:+ str_drop n s = s.
Proof. revert s. induction n as [|n IH]; intros [|a s]; cbn; try done. rewrite str_app_cons. f_equal. apply IH. Qed.

Lemma str_drop_app a b : str_drop (String.length a) (a +:+ b) = b.
Proof. induction a as [|x a IH]; [done|]. apply IH. Qed.

Lemma str_take_app a b : str_take (String.length a) (a +:+ b) = a.
Proof. induction a as [|x a IH]; [by destruct b|]. rewrite str_app_cons. cbn. f_equal. apply IH. Qed.

Lemma HasPrefix_spec s pre : HasPrefix s pre = true <-> exists r, s = pre +:+ r.
Proof.
  revert s. induction pre as [|a pre IH]; intros s; cbn.
  { split; [intros _; by exists s|by destruct s]. }
  destruct s as [|b s]; [split; [done|by intros [r ?]]|].
  rewrite andb_true_iff, bool_decide_eq_true, IH. split.
  - intros [-> [r ->]]. by exists r.
  - intros [r Hr]. rewrite str_app_cons in Hr. simplify_eq. split; [done|]. by exists r.
Qed.

Lemma HasSuffix_spec s suf : HasSuffix s suf = true <-> exists r, s = r +:+ suf.
Proof.
  unfold HasSuffix. rewrite andb_true_iff, bool_decide_eq_true, Nat.leb_le. split.
  - intros [_ Hd]. exists (str_take (String.length s - String.length suf) s).
    rewrite <- Hd at 2. by rewrite str_take_drop.
  - intros [r ->]. rewrite str_length_app. split; [lia|].
    replace (String.length r + String.length suf - String.length suf)%nat with (String.length r) by lia.
    apply str_drop_app.
Qed.

Lemma TrimPrefix_app pre r : TrimPrefix (pre +:+ r) pre = r.
Proof.
  unfold TrimPrefix. rewrite (proj2 (HasPrefix_spec _ _)) by eauto. apply str_drop_app.
Qed.

(** The first occurrence: what precedes it contains none. *)
Lemma index_from_spec i s sub :
  0 <= i ->
  let r := index_from i s sub in
  (r = -1 /\ forall a b, s <> a +:+ sub +:+ b) \/
  (exists a b, s = a +:+ sub +:+ b /\ r = i + Z.of_nat (String.length a) /\
     forall a' b', s = a' +:+ sub +:+ b' -> (String.length a <= String.length a')%nat).
Proof.
  revert i. induction s as [|c s IH]; intros i Hi; cbn -[HasPrefix].
  - destruct (HasPrefix "" sub) eqn:E.
    + apply HasPrefix_spec in E as [r Hr]. right. exists "", r. split; [done|]. cbn. split; [lia|]. lia.
    + left. split; [done|]. intros a b Hab. destruct a; [|done].
      assert (HasPrefix "" sub = true) by (apply HasPrefix_spec; eauto). congruence.
  - destruct (HasPrefix (String c s) sub) eqn:E.
    + apply HasPrefix_spec in E as [r Hr]. right. exists "", r. split; [done|]. cbn. split; [lia|]. lia.
    + assert (forall b, String c s <> sub +:+ b) as Hno.
      { intros b Hb. assert (HasPrefix (String c s) sub = true) by (apply HasPrefix_spec; eauto). congruence. }
      destruct (IH (i + 1) ltac:(lia)) as [[-> Hn]|(a & b & -> & -> & Hmin)].
      * left. split; [done|]. intros [|c' a] b Hab; [by eapply Hno|].
        rewrite str_app_cons in Hab. simplify_eq. by eapply Hn.
      * right. exists (String c a), b. split; [done|]. cbn. split; [lia|].
        intros [|c' a'] b' Hab; [by eapply Hno in Hab|]. cbn.
        rewrite str_app_cons in Hab. simplify_eq. apply le_n_S. by eapply Hmin.
Qed.

(** ** HTTP headers (packages net/http and net/textproto)

    A header maps canonical names to lists of values. *)

Definition is_upper (c : Z) : bool := (65 <=? c) && (c <=? 90).
Definition is_lower (c : Z) : bool := (97 <=? c) && (c <=? 122).
Definition is_digit (c : Z) : bool := (48 <=? c) && (c <=? 57).

(** The bytes of a token (RFC 7230). *)
Definition validHeaderFieldByte (a : Ascii.ascii) : bool :=
  let c := byte_of a in
  is_upper c || is_lower c || is_digit c ||
  bool_decide (c ∈ [33; 35; 36; 37; 38; 39; 42; 43; 45; 46; 94; 95; 96; 124; 126]).

Definition ascii_of_byte (c : Z) : Ascii.ascii := Ascii.ascii_of_N (Z.to_N c).

Fixpoint canonical_loop (upper : bool) (s : string) : string :=
  match s with
  | EmptyString => ""
  | String a s' =>
      let c := byte_of a in
      let c := if upper && is_lower c then c - 32
               else if negb upper && is_upper c then c + 32 else c in
      String (ascii_of_byte c) (canonical_loop (c =? 45) s')
  end.

Fixpoint str_forallb (f : Ascii.ascii -> bool) (s : string) : bool :=
  match s with EmptyString => true | String a s' => f a && str_forallb f s' end.

Definition CanonicalHeaderKey (s : string) : string :=
  if str_forallb validHeaderFieldByte s then canonical_loop true s else s.

Abbreviation Header := (gmap string (list string)).
Definition Header_Get (k : string) (h : Header) : string :=
  match h !! CanonicalHeaderKey k with Some (v :: _) => v | _ => "" end.
Definition Header_Set (k v : string) (h : Header) : Header := <[CanonicalHeaderKey k := [v]]> h.
Definition Header_Add (k v : string) (h : Header) : Header :=
  <[CanonicalHeaderKey k := default [] (h !! CanonicalHeaderKey k) ++ [v]]> h.
Definition Header_Del (k : string) (h : Header) : Header := delete (CanonicalHeaderKey k) h.

Example CanonicalHeaderKey_examples :
  CanonicalHeaderKey "x-forwarded-FOR" = "X-Forwarded-For" /\ CanonicalHeaderKey "a b" = "a b".
Proof. vm_compute. auto. Qed.

Lemma Header_Get_Set k k' v h :
  Header_Get k' (Header_Set k v h) =
  if decide (CanonicalHeaderKey k = CanonicalHeaderKey k') then v else Header_Get k' h.
Proof.
  unfold Header_Get, Header_Set. case_decide as E; [by rewrite E, lookup_insert_eq|].
  by rewrite lookup_insert_ne.
Qed.

Lemma Header_Get_Del k k' h :
  Header_Get k' (Header_Del k h) =
  if decide (CanonicalHeaderKey k = CanonicalHeaderKey k') then "" else Header_Get k' h.
Proof.
  unfold Header_Get, Header_Del. case_decide as E; [by rewrite E, lookup_delete_eq|].
  by rewrite lookup_delete_ne.
Qed.

(** ** More of package strings, and net.SplitHostPort

    [ToLower] and [TrimSpace] are given on ASCII, which is what header values and
    addresses consist of. *)

Definition lower_ascii (a : Ascii.ascii) : Ascii.ascii :=
  if is_upper (byte_of a) then ascii_of_byte (byte_of a + 32) else a.
Fixpoint ToLower (s : string) : string :=
  match s with EmptyString => "" | String a s' => String (lower_ascii a) (ToLower s') end.

Definition Contains (s sub : string) : bool := 0 <=? str_Index s sub.

Definition is_space (a : Ascii.ascii) : bool := bool_decide (byte_of a ∈ [9; 10; 11; 12; 13; 32]).
Fixpoint trim_left (s : string) : string :=
  match s with String a s' => if is_space a then trim_left s' else s | EmptyString => "" end.
Fixpoint trim_right (s : string) : string :=
  match s with
  | EmptyString => ""
  | String a s' =>
      let t := trim_right s' in
      if is_space a && bool_decide (t = "") then "" else String a t
  end.
Definition TrimSpace (s : string) : string := trim_right (trim_left s).

(** [strings.Split(s, sep)] for a separator of one byte. *)
Fixpoint Split (sep : Ascii.ascii) (s : string) : list string :=
  match s with
  | EmptyString => [""]
  | String a s' =>
      if bool_decide (a = sep) then "" :: Split sep s'
      else match Split sep s' with
           | x :: l => String a x :: l
           | [] => [String a ""]
           end
  end.

(** [strings.Replace(s, old, new, 1)] *)
Definition Replace1 (s old new : string) : string :=
  let i := str_Index s old in
  if i <? 0 then s
  else str_take (Z.to_nat i) s +:+ new +:+ str_drop (Z.to_nat i + String.length old) s.

(** The last position of a byte, or [-1]. *)
Fixpoint last_index_from (i r : Z) (c : Ascii.ascii) (s : string) : Z :=
  match s with
  | EmptyString => r
  | String a s' => last_index_from (i + 1) (if bool_decide (a = c) then i else r) c s'
  end.
Definition LastIndexByte (s : string) (c : Ascii.ascii) : Z := last_index_from 0 (-1) c s.
Definition IndexByte (s : string) (c : Ascii.ascii) : Z := str_Index s (String c "").

Definition colon : Ascii.ascii := ascii_of_byte 58.
Definition lbracket : Ascii.ascii := ascii_of_byte 91.
Definition rbracket : Ascii.ascii := ascii_of_byte 93.
Definition comma : Ascii.ascii := ascii_of_byte 44.

(** The host, or [None] for an error. *)
Definition SplitHostPort (hostport : string) : option string :=
  let i := LastIndexByte hostport colon in
  if i <? 0 then None
  else if HasPrefix hostport (String lbracket "") then
    let e := IndexByte hostport rbracket in
    if e <? 0 then None
    else if negb (e + 1 =? i) then None
    else if 0 <=? IndexByte (str_drop 1 hostport) lbracket then None
    else if 0 <=? IndexByte (str_drop (Z.to_nat (e + 1)) hostport) rbracket then None
    else Some (str_drop 1 (str_take (Z.to_nat e) hostport))
  else
    let host := str_take (Z.to_nat i) hostport in
    if 0 <=? IndexByte host colon then None
    else if 0 <=? IndexByte hostport lbracket then None
    else if 0 <=? IndexByte hostport rbracket then None
    else Some host.

Example SplitHostPort_examples :
  SplitHostPort "10.0.0.1:80" = Some "10.0.0.1" /\ SplitHostPort "[::1]:443" = Some "::1" /\
  SplitHostPort "::1:443" = None /\ SplitHostPort "10.0.0.1" = None.
Proof. vm_compute. auto. Qed.

Example strings_examples :
  ToLower "WebSocket" = "websocket" /\ TrimSpace "  a b " = "a b" /\ Split comma "a,,b" = ["a"; ""; "b"] /\
  Replace1 "/a/b/a" "/a" "/c" = "/c/b/a".
Proof. vm_compute. auto. Qed.

(** A string without a byte has no index for it, and conversely. *)
Definition lacks (c : Ascii.ascii) (s : string) : Prop := forall a b, s <> a +:+ String c b.

Lemma lacks_cons c a s : lacks c (String a s) <-> a <> c /\ lacks c s.
Proof.
  unfold lacks. split.
  - intros H. split; [intros ->; by apply (H "" s)|]. intros x y ->. by apply (H (String a x) y).
  - intros [Hne H] [|x l] y Heq; rewrite ?str_app_cons in Heq.
    + change ("" +:+ String c y) with (String c y) in Heq. by injection Heq.
    + injection Heq as <- Heq. by apply (H l y).
Qed.

Lemma Split_first sep a rest : lacks sep a -> exists l, Split sep (a +:+ String sep rest) = a :: l.
Proof.
  induction a as [|x a IH]; intros Ha.
  - exists (Split sep rest). change ("" +:+ String sep rest) with (String sep rest). cbn. by rewrite bool_decide_true.
  - apply lacks_cons in Ha as [Hx [l Hl]%IH]. exists l. rewrite str_app_cons. cbn.
    by rewrite bool_decide_false, Hl by done.
Qed.

Lemma Split_lacks sep a : lacks sep a -> Split sep a = [a].
Proof.
  induction a as [|x a IH]; intros Ha; [done|]. apply lacks_cons in Ha as [Hx Ha]. cbn.
  by rewrite bool_decide_false, IH by done.
Qed.

(** ** Requests (package net/http): the fields the program reads *)

Record HTTPRequest := mkHTTPRequest {
  rq_Host : string;
  rq_Path : string;
  rq_RawQuery : string;
  rq_Header : Header;
  rq_RemoteAddr : string;
  rq_TLS : bool
}.
#[export] Instance eta_HTTPRequest : Eta HTTPRequest := fun r =>
  mkHTTPRequest (rq_Host r) (rq_Path r) (rq_RawQuery r) (rq_Header r) (rq_RemoteAddr r) (rq_TLS r).

(** [s[i]]: an index outside the string panics. *)
Definition str_at (s : string) (i : nat) : outcome Ascii.ascii :=
  match String.get i s with Some a => Ret a | None => Panic end.
