(* ===== verification/GoTime.v ===== *)
(** * Times and durations as text, as package [time] prints and reads them

    [time.Time.Format(time.RFC3339)] appears in the test backends, the JSON form of a
    [time.Time] is its [RFC3339Nano] form, and [time.Duration.String] renders durations in
    log lines, statistics and the status page.  A time is an instant (nanoseconds since the
    Unix epoch); what is printed depends on the offset of the zone it is printed in, given
    in minutes.  The calendar is the proleptic Gregorian one, with day 0 the first of
    January of the year 0. *)

From S2P Require Import Prelude GoStd.

(** ** Decimal digits *)

Definition digit_char (d : Z) : Ascii.ascii := ascii_of_byte (48 + d).
Definition digit_val (c : Ascii.ascii) : option Z :=
  if is_digit (byte_of c) then Some (byte_of c - 48) else None.

(** The last [n] decimal digits of [z], the most significant first. *)
Fixpoint digits (n : nat) (z : Z) : string :=
  match n with
  | O => ""
  | S n => String (digit_char ((z / 10 ^ Z.of_nat n) mod 10)) (digits n z)
  end.

(** Exactly [n] digits from the front of the text. *)
Fixpoint read_num (n : nat) (acc : Z) (s : string) : option (Z * string) :=
  match n with
  | O => Some (acc, s)
  | S n =>
      match s with
      | EmptyString => None
      | String c s => d ← digit_val c; read_num n (acc * 10 + d) s
      end
  end.

Definition expect (c : Ascii.ascii) (s : string) : option string :=
  match s with
  | String c' s => if bool_decide (c' = c) then Some s else None
  | EmptyString => None
  end.

(** [n] digits whose value lies in [[lo, hi]] ([parseUint]). *)
Definition read_field (n : nat) (lo hi : Z) (s : string) : option (Z * string) :=
  r ← read_num n 0 s; if (lo <=? r.1) && (r.1 <=? hi) then Some r else None.

Lemma digit_val_char d : 0 <= d < 10 -> digit_val (digit_char d) = Some d.
Proof.
  intros Hd. assert (Forall (fun d => digit_val (digit_char d) = Some d) (seqZ 0 10)) as H by repeat constructor.
  apply (proj1 (Forall_forall _ _) H), elem_of_seqZ. lia.
Qed.

Lemma read_num_digits n acc z rest :
  read_num n acc (digits n z +:+ rest) = Some (acc * 10 ^ Z.of_nat n + z mod 10 ^ Z.of_nat n, rest).
Proof.
  revert acc. induction n as [|n IH]; intros acc.
  { cbn. rewrite Z.mod_1_r. do 2 f_equal. lia. }
  cbn [digits]. rewrite str_app_cons. cbn [read_num].
  rewrite digit_val_char by (apply Z.mod_pos_bound; lia). cbn [mbind option_bind].
  rewrite IH. do 2 f_equal.
  rewrite Nat2Z.inj_succ, Z.pow_succ_r by lia.
  assert (0 < 10 ^ Z.of_nat n) by (apply Z.pow_pos_nonneg; lia).
  rewrite (Z.mul_comm 10), Z.rem_mul_r by lia. lia.
Qed.

Lemma read_field_digits n lo hi z rest :
  0 <= z < 10 ^ Z.of_nat n -> lo <= z <= hi ->
  read_field n lo hi (digits n z +:+ rest) = Some (z, rest).
Proof.
  intros Hz Hr. unfold read_field. rewrite read_num_digits. cbn [mbind option_bind fst].
  rewrite Z.mod_small, Z.add_0_l by done.
  by rewrite (proj2 (Z.leb_le _ _)), (proj2 (Z.leb_le _ _)) by lia.
Qed.

Lemma expect_cons c rest : expect c (String c rest) = Some rest.
Proof. cbn. by rewrite bool_decide_eq_true_2. Qed.

(** ** The calendar *)

Definition is_leap (y : Z) : bool :=
  (y mod 4 =? 0) && (negb (y mod 100 =? 0) || (y mod 400 =? 0)).

Definition month_lengths (y : Z) : list Z :=
  [31; if is_leap y then 29 else 28; 31; 30; 31; 30; 31; 31; 30; 31; 30; 31].

(** Days before the first of January of year [y]. *)
Definition days_before_year (y : Z) : Z :=
  365 * y + (y + 3) / 4 - (y + 99) / 100 + (y + 399) / 400.

(** 400 years have 146097 days; the quotient is off by at most one. *)
Definition year_of (day : Z) : Z :=
  let y := day * 400 / 146097 in
  if days_before_year (y + 1) <=? day then y + 1
  else if day <? days_before_year y then y - 1 else y.

Fixpoint month_walk (lengths : list Z) (m d : Z) : Z * Z :=
  match lengths with
  | [] => (m, d)
  | l :: ls => if d <? l then (m, d) else month_walk ls (m + 1) (d - l)
  end.

Definition daysIn (y m : Z) : Z := default 0 (month_lengths y !! Z.to_nat (m - 1)).
Definition days_before_month (y m : Z) : Z := sum_by (fun l => l) (take (Z.to_nat (m - 1)) (month_lengths y)).

Definition epoch_day : Z := 719528.

Record civil := mkCivil {
  year : Z; month : Z; day : Z; hour : Z; minute : Z; second : Z; nanosecond : Z
}.

Definition day_seconds : Z := 86400.

(** The fields of an instant in a zone [off] minutes ahead of UTC. *)
Definition civil_of (off : Z) (t : time) : civil :=
  let s := t / Second + off * 60 in
  let days := s / day_seconds + epoch_day in
  let sod := s mod day_seconds in
  let y := year_of days in
  let md := month_walk (month_lengths y) 1 (days - days_before_year y) in
  mkCivil y md.1 (md.2 + 1) (sod / 3600) (sod / 60 mod 60) (sod mod 60) (t mod Second).

(** [time.Date] in a zone [off] minutes ahead of UTC. *)
Definition instant_of (off : Z) (c : civil) : time :=
  let days := days_before_year (year c) + days_before_month (year c) (month c) + (day c - 1) in
  let s := (days - epoch_day) * day_seconds + hour c * 3600 + minute c * 60 + second c in
  (s - off * 60) * Second + nanosecond c.

Lemma year_of_spec d : days_before_year (year_of d) <= d < days_before_year (year_of d + 1).
Proof.
  unfold year_of. set (y := d * 400 / 146097).
  assert (days_before_year (y - 1) <= d < days_before_year (y + 2)) as [Hlo Hhi].
  { unfold days_before_year, y. Z.to_euclidean_division_equations. lia. }
  replace (y + 2) with (y + 1 + 1) in Hhi by lia.
  destruct (Z.leb_spec (days_before_year (y + 1)) d); [lia|].
  destruct (Z.ltb_spec d (days_before_year y)); [|lia].
  by replace (y - 1 + 1) with y by lia.
Qed.

Lemma year_length y : days_before_year (y + 1) - days_before_year y = if is_leap y then 366 else 365.
Proof.
  unfold days_before_year, is_leap.
  destruct (Z.eqb_spec (y mod 4) 0), (Z.eqb_spec (y mod 100) 0), (Z.eqb_spec (y mod 400) 0); cbn;
    Z.to_euclidean_division_equations; lia.
Qed.

Lemma month_lengths_sum y : sum_by (fun l => l) (month_lengths y) = if is_leap y then 366 else 365.
Proof. unfold month_lengths. by destruct (is_leap y). Qed.

Lemma month_walk_spec ls m d :
  0 <= d < sum_by (fun l => l) ls ->
  exists k l, month_walk ls m d = (m + Z.of_nat k, d - sum_by (fun l => l) (take k ls)) /\
    ls !! k = Some l /\ 0 <= d - sum_by (fun l => l) (take k ls) < l.
Proof.
  revert m d. induction ls as [|l ls IH]; intros m d Hd; cbn [month_walk]; [cbn in Hd; lia|].
  cbn in Hd. fold (sum_by (fun l : Z => l) ls) in Hd. destruct (Z.ltb_spec d l).
  - exists 0%nat, l. cbn. repeat split; try lia. f_equal; lia.
  - destruct (IH (m + 1) (d - l)) as (k & l' & E & Hk & Hb); [lia|].
    exists (S k), l'. rewrite E. cbn [take lookup list_lookup].
    change (sum_by (fun l => l) (l :: take k ls)) with (l + sum_by (fun l => l) (take k ls)).
    repeat split; [f_equal; lia|done|lia|lia].
Qed.

(** What the fields of a civil time are, and that they determine the instant. *)
Record civil_ok (c : civil) : Prop := mkCivilOk {
  co_month : 1 <= month c <= 12;
  co_day : 1 <= day c <= daysIn (year c) (month c);
  co_hour : 0 <= hour c <= 23;
  co_minute : 0 <= minute c <= 59;
  co_second : 0 <= second c <= 59;
  co_nano : 0 <= nanosecond c < Second
}.

Lemma month_of_day y d :
  0 <= d < (if is_leap y then 366 else 365) ->
  let md := month_walk (month_lengths y) 1 d in
  1 <= md.1 <= 12 /\ 0 <= md.2 < daysIn y md.1 /\ days_before_month y md.1 + md.2 = d.
Proof.
  intros Hd. rewrite <- month_lengths_sum in Hd.
  destruct (month_walk_spec _ 1 d Hd) as (k & l & E & Hk & Hb). cbv zeta. rewrite E.
  cbn [fst snd]. unfold days_before_month, daysIn.
  replace (Z.to_nat (1 + Z.of_nat k - 1)) with k by lia. rewrite Hk. change (default 0 (Some l)) with l.
  pose proof (lookup_lt_Some _ _ _ Hk) as Hlt. change (length (month_lengths y)) with 12%nat in Hlt. repeat split; lia.
Qed.

Lemma civil_of_ok off t : civil_ok (civil_of off t).
Proof.
  unfold civil_of. set (s := t / Second + off * 60). set (dd := s / day_seconds + epoch_day).
  pose proof (year_of_spec dd) as Hy. pose proof (year_length (year_of dd)) as Hl.
  destruct (month_of_day (year_of dd) (dd - days_before_year (year_of dd))) as (Hm & Hd & _); [lia|].
  pose proof (Z.mod_pos_bound s day_seconds ltac:(done)).
  unfold day_seconds in *.
  split; cbn [year month day hour minute second nanosecond]; [done|lia|..|apply Z.mod_pos_bound; done];
    Z.to_euclidean_division_equations; lia.
Qed.

Lemma instant_of_civil off t : instant_of off (civil_of off t) = t.
Proof.
  unfold civil_of, instant_of. set (s := t / Second + off * 60). set (dd := s / day_seconds + epoch_day).
  cbn [year month day hour minute second nanosecond].
  pose proof (year_of_spec dd) as Hy. pose proof (year_length (year_of dd)) as Hl.
  destruct (month_of_day (year_of dd) (dd - days_before_year (year_of dd))) as (_ & _ & He); [lia|].
  replace (days_before_year (year_of dd) +
    days_before_month (year_of dd)
      (month_walk (month_lengths (year_of dd)) 1 (dd - days_before_year (year_of dd))).1 +
    ((month_walk (month_lengths (year_of dd)) 1 (dd - days_before_year (year_of dd))).2 + 1 - 1)) with dd by lia.
  assert (s mod day_seconds / 3600 * 3600 + s mod day_seconds / 60 mod 60 * 60 + s mod day_seconds mod 60
          = s mod day_seconds) as Hs.
  { unfold day_seconds. Z.to_euclidean_division_equations. lia. }
  pose proof (Z.div_mod s day_seconds ltac:(done)).
  pose proof (Z.div_mod t Second ltac:(done)). unfold dd, s in *. lia.
Qed.

Example civil_of_leap : civil_of 0 (1709164800 * Second + 7) = mkCivil 2024 2 29 0 0 0 7.
Proof. reflexivity. Qed.

(** ** Printing *)

Definition char0 : Ascii.ascii := ascii_of_byte 48.

(** The year with at least four digits and its sign ([appendInt(b, year, 4)]). *)
Definition year_text (y : Z) : string :=
  let pad n := if n <? 10000 then digits 4 n else itoa n in
  if y <? 0 then "-" +:+ pad (- y) else pad y.

Fixpoint strip_zeros (s : string) : string :=
  match s with
  | EmptyString => EmptyString
  | String c s =>
      let r := strip_zeros s in
      if bool_decide (r = "") && bool_decide (c = char0) then "" else String c r
  end.

(** [.999999999]: the nanoseconds without the trailing zeros, nothing when there are none. *)
Definition fraction_text (ns : Z) : string :=
  if ns =? 0 then "" else "." +:+ strip_zeros (digits 9 ns).

Definition zone_text (off : Z) : string :=
  if off =? 0 then "Z"
  else (if off <? 0 then "-" else "+") +:+ digits 2 (Z.abs off / 60) +:+ ":" +:+ digits 2 (Z.abs off mod 60).

Definition seconds_text (c : civil) : string :=
  year_text (year c) +:+ "-" +:+ digits 2 (month c) +:+ "-" +:+ digits 2 (day c) +:+ "T" +:+
  digits 2 (hour c) +:+ ":" +:+ digits 2 (minute c) +:+ ":" +:+ digits 2 (second c).

(** [t.Format(time.RFC3339)] and [t.Format(time.RFC3339Nano)]. *)
Definition Format_RFC3339 (off : Z) (t : time) : string :=
  seconds_text (civil_of off t) +:+ zone_text off.
Definition Format_RFC3339Nano (off : Z) (t : time) : string :=
  let c := civil_of off t in
  seconds_text c +:+ fraction_text (nanosecond c) +:+ zone_text off.

(** ** Reading ([parseRFC3339]) *)

Fixpoint span_digits (s : string) : string * string :=
  match s with
  | EmptyString => (EmptyString, EmptyString)
  | String c r =>
      match digit_val c with
      | Some _ => let '(ds, rest) := span_digits r in (String c ds, rest)
      | None => (EmptyString, s)
      end
  end.

(** The value of the first [k] digits after the point, as if zeros followed. *)
Fixpoint fraction_value (k : nat) (s : string) : Z :=
  match k, s with
  | S k, String c s => default 0 (digit_val c) * 10 ^ Z.of_nat k + fraction_value k s
  | _, _ => 0
  end.

(** A point with at least one digit is a fraction; anything else is left to the zone. *)
Definition read_fraction (s : string) : Z * string :=
  match s with
  | String c r =>
      let '(ds, rest) := span_digits r in
      if bool_decide (c = ascii_of_byte 46) && negb (bool_decide (ds = "")) then (fraction_value 9 ds, rest)
      else (0, s)
  | EmptyString => (0, s)
  end.

(** The whole rest is [Z] or a signed [hh:mm]. *)
Definition read_zone (s : string) : option Z :=
  if bool_decide (s = "Z") then Some 0
  else match s with
       | String sign s =>
           '(hh, s) ← read_field 2 0 23 s; s ← expect colon s; '(mm, s) ← read_field 2 0 59 s;
           if bool_decide (s = "") then
             if bool_decide (sign = ascii_of_byte 43) then Some (hh * 60 + mm)
             else if bool_decide (sign = ascii_of_byte 45) then Some (- (hh * 60 + mm)) else None
           else None
       | EmptyString => None
       end.

Definition dash : Ascii.ascii := ascii_of_byte 45.
Definition letterT : Ascii.ascii := ascii_of_byte 84.

Definition parse_RFC3339 (s : string) : option time :=
  '(y, s) ← read_field 4 0 9999 s; s ← expect dash s;
  '(mo, s) ← read_field 2 1 12 s; s ← expect dash s;
  '(d, s) ← read_field 2 1 (daysIn y mo) s; s ← expect letterT s;
  '(h, s) ← read_field 2 0 23 s; s ← expect colon s;
  '(mi, s) ← read_field 2 0 59 s; s ← expect colon s;
  '(sec, s) ← read_field 2 0 59 s;
  let '(ns, s) := read_fraction s in
  off ← read_zone s;
  Some (instant_of off (mkCivil y mo d h mi sec ns)).

(** [Time.MarshalJSON] (between the quotes) and [Time.UnmarshalJSON] of a string. *)
Inductive time_error := YearOutOfRange | ZoneOutOfRange | NotAString | BadTime.
#[export] Instance time_error_eq_dec : EqDecision time_error.
Proof. solve_decision. Defined.

Definition time_text (off : Z) (t : time) : result time_error string :=
  let y := year (civil_of off t) in
  if (y <? 0) || (9999 <? y) then Err YearOutOfRange
  else if 24 <=? Z.abs off / 60 then Err ZoneOutOfRange
  else Ok (Format_RFC3339Nano off t).

Example time_text_utc : time_text 0 (1709164800 * Second + 70) = Ok "2024-02-29T00:00:00.00000007Z".
Proof. reflexivity. Qed.
Example time_text_zone : time_text (-210) (1709164800 * Second) = Ok "2024-02-28T20:30:00-03:30".
Proof. reflexivity. Qed.
Example parse_RFC3339_day : parse_RFC3339 "2023-02-29T00:00:00Z" = None.
Proof. reflexivity. Qed.

(** ** Reading what was printed *)

Lemma fraction_value_strip k s : fraction_value k (strip_zeros s) = fraction_value k s.
Proof.
  revert k. induction s as [|c s IH]; intros k; [done|]. cbn [strip_zeros].
  destruct k as [|k]; [by case_match; destruct (bool_decide _)|].
  case_match eqn:E; cbn [fraction_value]; [|by rewrite IH].
  apply andb_prop in E as [E1%bool_decide_eq_true E2%bool_decide_eq_true]. subst c.
  rewrite <- IH, E1. cbn. by destruct k.
Qed.

Lemma fraction_value_digits k z : fraction_value k (digits k z) = z mod 10 ^ Z.of_nat k.
Proof.
  induction k as [|k IH]; cbn [fraction_value digits]; [by rewrite Z.mod_1_r|].
  rewrite digit_val_char by (apply Z.mod_pos_bound; lia). rewrite IH.
  change (default 0 (Some ((z / 10 ^ Z.of_nat k) mod 10))) with ((z / 10 ^ Z.of_nat k) mod 10).
  rewrite Nat2Z.inj_succ, Z.pow_succ_r by lia.
  assert (0 < 10 ^ Z.of_nat k) by (apply Z.pow_pos_nonneg; lia).
  rewrite (Z.mul_comm 10), Z.rem_mul_r by lia. lia.
Qed.

(** All characters are digits. *)
Definition all_digits (s : string) : bool := str_forallb (fun c => is_digit (byte_of c)) s.

Lemma all_digits_digits n z : all_digits (digits n z) = true.
Proof.
  induction n as [|n IH]; [done|]. unfold all_digits in *. cbn [digits str_forallb]. rewrite IH.
  pose proof (digit_val_char ((z / 10 ^ Z.of_nat n) mod 10) ltac:(apply Z.mod_pos_bound; lia)) as H.
  unfold digit_val in H. by destruct (is_digit _).
Qed.

Lemma all_digits_strip s : all_digits s = true -> all_digits (strip_zeros s) = true.
Proof.
  unfold all_digits. induction s as [|c s IH]; [done|]. cbn [strip_zeros str_forallb].
  intros [Hc Hs]%andb_prop. case_match; [done|]. cbn [str_forallb]. by rewrite Hc, IH.
Qed.

(** The text does not start with a digit. *)
Definition no_digit (s : string) : Prop :=
  match s with String c _ => digit_val c = None | EmptyString => True end.

Lemma span_digits_app ds rest :
  all_digits ds = true -> no_digit rest -> span_digits (ds +:+ rest) = (ds, rest).
Proof.
  unfold all_digits. intros Hd Hr. induction ds as [|c ds IH].
  { change (EmptyString +:+ rest) with rest. destruct rest as [|c r]; [done|].
    cbn [span_digits]. cbn in Hr. by rewrite Hr. }
  cbn [str_forallb] in Hd. apply andb_prop in Hd as [Hc Hd].
  rewrite str_app_cons. cbn [span_digits]. unfold digit_val at 1. by rewrite Hc, IH.
Qed.

Lemma zone_text_starts off : exists c r, zone_text off = String c r /\ digit_val c = None /\ c <> ascii_of_byte 46.
Proof.
  unfold zone_text. repeat case_match; do 2 eexists; (split; [reflexivity|by vm_compute]).
Qed.

Lemma read_fraction_text ns off :
  0 <= ns < Second -> read_fraction (fraction_text ns +:+ zone_text off) = (ns, zone_text off).
Proof.
  intros Hns. destruct (zone_text_starts off) as (c & r & Ez & Hc & Hdot). unfold fraction_text.
  destruct (Z.eqb_spec ns 0) as [->|Hnz].
  { change ("" +:+ zone_text off) with (zone_text off). rewrite Ez. cbn [read_fraction].
    destruct (span_digits r). by rewrite bool_decide_eq_false_2. }
  assert (fraction_value 9 (strip_zeros (digits 9 ns)) = ns) as Hv.
  { rewrite fraction_value_strip, fraction_value_digits. by apply Z.mod_small. }
  pose proof (all_digits_strip _ (all_digits_digits 9 ns)) as Hd.
  revert Hv Hd. generalize (strip_zeros (digits 9 ns)). intros ds Hv Hd.
  change ("." +:+ ds) with (String (ascii_of_byte 46) ds). rewrite str_app_cons.
  cbn [read_fraction]. rewrite span_digits_app; [|done|by rewrite Ez].
  rewrite bool_decide_eq_true_2 by done. cbn [andb]. rewrite bool_decide_eq_false_2, Hv; [done|].
  intros ->. cbn in Hv. lia.
Qed.

Lemma read_zone_text off : Z.abs off / 60 < 24 -> read_zone (zone_text off) = Some off.
Proof.
  intros Hoff. unfold zone_text. destruct (Z.eqb_spec off 0) as [->|Hnz]; [done|].
  assert (forall sign, sign <> ascii_of_byte 90 ->
    read_zone (String sign (digits 2 (Z.abs off / 60) +:+ ":" +:+ digits 2 (Z.abs off mod 60))) =
    if bool_decide (sign = ascii_of_byte 43) then Some (Z.abs off)
    else if bool_decide (sign = ascii_of_byte 45) then Some (- Z.abs off) else None) as Hr.
  { intros sign Hs. unfold read_zone. rewrite bool_decide_eq_false_2 by (intros [=]; done).
    rewrite read_field_digits by (cbn; Z.to_euclidean_division_equations; lia). cbn [mbind option_bind].
    change (":" +:+ ?s) with (String colon s). rewrite expect_cons. cbn [mbind option_bind].
    rewrite <- (str_app_nil_r (digits 2 (Z.abs off mod 60))), read_field_digits
      by (cbn; Z.to_euclidean_division_equations; lia). cbn [mbind option_bind].
    rewrite (bool_decide_eq_true_2 ("" = "")) by done.
    by replace (Z.abs off / 60 * 60 + Z.abs off mod 60) with (Z.abs off)
      by (Z.to_euclidean_division_equations; lia). }
  destruct (Z.ltb_spec off 0).
  - change ("-" +:+ ?s) with (String (ascii_of_byte 45) s). rewrite Hr by done. cbn. f_equal. lia.
  - change ("+" +:+ ?s) with (String (ascii_of_byte 43) s). rewrite Hr by done. cbn. f_equal. lia.
Qed.

Lemma daysIn_le y m : daysIn y m <= 31.
Proof.
  assert (Forall (fun l => l <= 31) (month_lengths y)) as H
    by (unfold month_lengths; destruct (is_leap y); repeat (constructor; [done|]); constructor).
  unfold daysIn. destruct (month_lengths y !! Z.to_nat (m - 1)) as [l|] eqn:E; [|done].
  exact (Forall_lookup_1 _ _ _ _ H E).
Qed.

Lemma year_text_small y : 0 <= y <= 9999 -> year_text y = digits 4 y.
Proof.
  intros Hy. unfold year_text. rewrite (proj2 (Z.ltb_ge _ _)), (proj2 (Z.ltb_lt _ _)) by lia. done.
Qed.

(** One field and the character after it. *)
Lemma read_field_then {A} n lo hi z c rest (f : Z -> string -> option A) :
  0 <= z < 10 ^ Z.of_nat n -> lo <= z <= hi ->
  ('(v, s) ← read_field n lo hi (digits n z +:+ String c rest); s ← expect c s; f v s) = f z rest.
Proof. intros. rewrite read_field_digits by done. cbn [mbind option_bind]. by rewrite expect_cons. Qed.

(** A time is read back from its JSON text. *)
Lemma parse_time_text off t s : time_text off t = Ok s -> parse_RFC3339 s = Some t.
Proof.
  unfold time_text. destruct (civil_of_ok off t) as [Hmo Hd Hh Hmi Hs Hn].
  pose proof (instant_of_civil off t) as Ht. unfold Format_RFC3339Nano.
  destruct (civil_of off t) as [y mo d h mi sec ns]. cbn [year month day hour minute second nanosecond] in *.
  destruct ((y <? 0) || (9999 <? y)) eqn:Ey; [done|]. apply orb_false_elim in Ey as [?%Z.ltb_ge ?%Z.ltb_ge].
  destruct (Z.leb_spec 24 (Z.abs off / 60)); [done|]. intros [= <-].
  pose proof (daysIn_le y mo). unfold seconds_text. cbn [year month day hour minute second].
  rewrite year_text_small by lia. rewrite !str_app_assoc. unfold parse_RFC3339.
  do 2 change ("-" +:+ ?s) with (String dash s). do 2 change (":" +:+ ?s) with (String colon s).
  change ("T" +:+ ?s) with (String letterT s).
  do 5 (etrans; [apply read_field_then; cbn; lia|]; cbv beta).
  rewrite read_field_digits by (cbn; lia). cbn [mbind option_bind].
  rewrite read_fraction_text, read_zone_text by lia. cbn [mbind option_bind]. by rewrite Ht.
Qed.

(** ** Durations ([time.Duration.String]) *)

(** [fmtFrac]: the fraction of [v] in units of [10^prec], nothing when it is zero. *)
Definition frac_text (prec : nat) (v : Z) : string :=
  let f := v mod 10 ^ Z.of_nat prec in
  if f =? 0 then "" else "." +:+ strip_zeros (digits prec f).

(** An amount of [10^prec] nanoseconds with its fraction. *)
Definition amount_text (prec : nat) (u : Z) : string := itoa (u / 10 ^ Z.of_nat prec) +:+ frac_text prec u.

Definition micro_sign : string := String (ascii_of_byte 194) (String (ascii_of_byte 181) "").

(** The magnitude: below a second in the largest unit that fits, else in seconds with
    minutes and hours in front of them when there are any. *)
Definition magnitude_text (u : Z) : string :=
  if u =? 0 then "0s"
  else if u <? 1000 then amount_text 0 u +:+ "ns"
  else if u <? Millisecond then amount_text 3 u +:+ micro_sign +:+ "s"
  else if u <? Second then amount_text 6 u +:+ "ms"
  else
    let s := u / Second in
    let secs := itoa (s mod 60) +:+ frac_text 9 u +:+ "s" in
    let mins := s / 60 in
    if mins =? 0 then secs
    else if mins / 60 =? 0 then itoa (mins mod 60) +:+ "m" +:+ secs
    else itoa (mins / 60) +:+ "h" +:+ itoa (mins mod 60) +:+ "m" +:+ secs.

Definition Duration_String (d : duration) : string :=
  if d <? 0 then "-" +:+ magnitude_text (- d) else magnitude_text d.

Example Duration_String_ms : Duration_String (1500 * Millisecond) = "1.5s".
Proof. reflexivity. Qed.
Example Duration_String_min : Duration_String (90 * Minute + 10) = "1h30m0.00000001s".
Proof. reflexivity. Qed.
Example Duration_String_us : Duration_String (-2500) = "-2.5" +:+ micro_sign +:+ "s".
Proof. reflexivity. Qed.
Example Duration_String_min64 : Duration_String minDuration = "-2562047h47m16.854775808s".
Proof. vm_compute. reflexivity. Qed.
