(* ===== verification/Mux.v ===== *)
(** * The request multiplexer [http.ServeMux]

    The proxy, the admin server and the test backends put a multiplexer in front of their
    handlers.  It matches the path of the request as it was sent ([URL.EscapedPath]); a
    path that is not clean is not handled but redirected to its clean form.  Modelled for
    the patterns of the program: [/], which every path matches, and paths without a
    trailing slash, which match themselves.  Paths with percent-escapes are outside the
    model: the routing tree compares them after unescaping a segment. *)

From S2P Require Import Prelude GoStd.

(** ** Clean paths *)

Definition slash : Ascii.ascii := ascii_of_byte 47.

Fixpoint join_slash (l : list string) : string :=
  match l with
  | [] => ""
  | [s] => s
  | s :: l => s +:+ String slash (join_slash l)
  end.

(** [path.Clean] of a rooted path, one segment after another; the stack is reversed. *)
Definition clean_step (stack : list string) (seg : string) : list string :=
  if bool_decide (seg = "") || bool_decide (seg = ".") then stack
  else if bool_decide (seg = "..") then tail stack
  else seg :: stack.
Definition clean_segments (segs : list string) : list string := reverse (foldl clean_step [] segs).

Definition rooted (p : string) : string := if HasPrefix p "/" then p else String slash p.

(** [cleanPath] of net/http: a trailing slash is kept. *)
Definition cleanPath (p : string) : string :=
  if bool_decide (p = "") then "/"
  else
    let p := rooted p in
    let segs := clean_segments (Split slash p) in
    let np := String slash (join_slash segs) in
    if HasSuffix p "/" && negb (bool_decide (segs = [])) then np +:+ "/" else np.

(** ** Matching *)

Inductive mux_verdict :=
| BadRequestTarget
| MovedPermanently (location : string)
| Handler (pattern : string)
| NoHandler.
#[export] Instance mux_verdict_eq_dec : EqDecision mux_verdict.
Proof. solve_decision. Defined.

(** The pattern equal to the path, else [/]. *)
Definition mux_match (patterns : list string) (path : string) : mux_verdict :=
  if bool_decide (path ∈ patterns) then Handler path
  else if bool_decide ("/" ∈ patterns) then Handler "/" else NoHandler.

(** [ServeMux.ServeHTTP]: the target [*] is refused, CONNECT is not redirected. *)
Definition ServeMux (patterns : list string) (method path : string) : mux_verdict :=
  if bool_decide (path = "*") then BadRequestTarget
  else if bool_decide (method = "CONNECT") then mux_match patterns path
  else
    let clean := cleanPath path in
    if bool_decide (clean = path) then mux_match patterns clean else MovedPermanently clean.

Example cleanPath_ex : cleanPath "//a/./b/../c/" = "/a/c/" /\ cleanPath "/../x" = "/x" /\ cleanPath "" = "/" /\
  cleanPath "/a/." = "/a" /\ cleanPath "/" = "/" /\ cleanPath "//" = "/".
Proof. vm_compute. auto 10. Qed.

(** ** Cleaning is idempotent *)

Lemma Split_nonempty sep s : Split sep s <> [].
Proof. destruct s; cbn; [done|]. case_bool_decide; [done|]. by destruct (Split sep s). Qed.

Lemma Split_app sep a b : Split sep (a +:+ String sep b) = Split sep a ++ Split sep b.
Proof.
  induction a as [|x a IH].
  - change ("" +:+ String sep b) with (String sep b). cbn. by rewrite bool_decide_true.
  - rewrite str_app_cons. cbn [Split]. rewrite IH. case_bool_decide; [done|].
    pose proof (Split_nonempty sep a). by destruct (Split sep a).
Qed.

Lemma Split_cons sep a rest : lacks sep a -> Split sep (a +:+ String sep rest) = a :: Split sep rest.
Proof. intros Ha. by rewrite Split_app, Split_lacks. Qed.

Lemma Split_all_lack sep s : Forall (lacks sep) (Split sep s).
Proof.
  induction s as [|c s IH]; cbn.
  - constructor; [|done]. intros [|??] ? H; [done|by rewrite str_app_cons in H].
  - case_bool_decide as Hc.
    + constructor; [|done]. intros [|??] ? H; [done|by rewrite str_app_cons in H].
    + destruct (Split sep s) as [|x l].
      * constructor; [|done]. apply lacks_cons. split; [done|]. intros [|??] ? H; [done|by rewrite str_app_cons in H].
      * apply Forall_cons in IH as [Hx Hl]. constructor; [|done]. by apply lacks_cons.
Qed.

(** A segment that cleaning keeps. *)
Definition kept (seg : string) : Prop := seg <> "" /\ seg <> "." /\ seg <> ".." /\ lacks slash seg.

Lemma clean_step_kept stack seg : Forall kept stack -> lacks slash seg -> Forall kept (clean_step stack seg).
Proof.
  intros Hs Hl. unfold clean_step. destruct (decide (seg = "")) as [->|H1]; [done|].
  destruct (decide (seg = ".")) as [->|H2]; [done|]. rewrite !bool_decide_eq_false_2 by done. cbn [orb].
  case_bool_decide; [by destruct Hs|]. by constructor.
Qed.

Lemma clean_segments_kept segs : Forall (lacks slash) segs -> Forall kept (clean_segments segs).
Proof.
  intros Hl. unfold clean_segments. apply Forall_reverse.
  assert (forall stack, Forall kept stack -> Forall kept (foldl clean_step stack segs)) as H; [|by apply H].
  induction Hl as [|seg segs Hseg _ IH]; intros stack Hs; [done|]. cbn. by apply IH, clean_step_kept.
Qed.

Lemma foldl_clean_kept segs stack :
  Forall kept segs -> foldl clean_step stack segs = reverse segs ++ stack.
Proof.
  intros H. revert stack. induction H as [|seg segs (H1 & H2 & H3 & _) _ IH]; intros stack; [done|].
  cbn [foldl]. rewrite IH, reverse_cons, <- app_assoc. cbn [app]. f_equal.
  unfold clean_step. by rewrite !bool_decide_eq_false_2.
Qed.

Lemma clean_segments_id segs : Forall kept segs -> clean_segments segs = segs.
Proof. intros H. unfold clean_segments. by rewrite foldl_clean_kept, app_nil_r, reverse_involutive. Qed.

(** The segments of a path with or without a trailing slash. *)
Lemma Split_join segs t :
  Forall kept segs -> segs <> [] -> t = [] \/ t = [""] ->
  Split slash (join_slash segs +:+ match t with [] => "" | _ => "/" end) = segs ++ t.
Proof.
  intros H Hne Ht. induction H as [|seg segs (_ & _ & _ & Hl) Hs IH]; [done|].
  destruct segs as [|seg' segs].
  - destruct Ht as [-> | ->]; cbn [join_slash].
    + rewrite str_app_nil_r. by apply Split_lacks.
    + change (seg +:+ "/") with (seg +:+ String slash ""). by rewrite Split_cons.
  - cbn [join_slash]. rewrite str_app_assoc, str_app_cons, Split_cons by done. cbn [app]. f_equal. by apply IH.
Qed.

Lemma clean_segments_app_empty segs : clean_segments (segs ++ [""]) = clean_segments segs.
Proof. unfold clean_segments. by rewrite foldl_app. Qed.

Lemma join_slash_last segs : Forall kept segs -> segs <> [] -> HasSuffix (String slash (join_slash segs)) "/" = false.
Proof.
  intros H Hne. apply not_true_is_false. intros [r Hr]%HasSuffix_spec. change "/" with (String slash "") in Hr.
  assert (Split slash (String slash (join_slash segs)) = "" :: segs) as E.
  { cbn [Split]. rewrite bool_decide_true by done. f_equal.
    pose proof (Split_join segs [] H Hne (or_introl eq_refl)) as E. by rewrite str_app_nil_r, app_nil_r in E. }
  assert (last (Split slash (r +:+ String slash "")) = Some "") as Hlast by (rewrite Split_app; apply last_snoc).
  rewrite <- Hr, E in Hlast.
  destruct (exists_last Hne) as (l & x & ->). rewrite app_comm_cons, last_snoc in Hlast. injection Hlast as ->.
  apply Forall_app in H as [_ H]. by apply Forall_cons in H as [(? & _) _].
Qed.

Lemma cleanPath_shape p :
  exists segs, Forall kept segs /\
    (cleanPath p = String slash (join_slash segs) \/
     segs <> [] /\ cleanPath p = String slash (join_slash segs) +:+ "/").
Proof.
  unfold cleanPath. case_bool_decide; [by exists []; split; [|left]|].
  exists (clean_segments (Split slash (rooted p))). split; [apply clean_segments_kept, Split_all_lack|].
  destruct (HasSuffix (rooted p) "/"); cbn [andb]; [|by left].
  case_bool_decide; cbn [negb]; [by left|by right].
Qed.

(** A redirect leads to a path that is not redirected again. *)
Lemma cleanPath_idem p : cleanPath (cleanPath p) = cleanPath p.
Proof.
  destruct (cleanPath_shape p) as (segs & Hk & [->|[Hne ->]]); unfold cleanPath.
  - rewrite bool_decide_eq_false_2 by done. unfold rooted. change (HasPrefix (String slash _) "/") with true. cbv iota zeta.
    destruct (decide (segs = [])) as [->|Hne]; [reflexivity|].
    rewrite join_slash_last by done. cbn [andb].
    change (String slash (join_slash segs)) with ("" +:+ String slash (join_slash segs)).
    rewrite Split_app. pose proof (Split_join segs [] Hk Hne (or_introl eq_refl)) as E.
    rewrite str_app_nil_r, app_nil_r in E. rewrite E.
    change (clean_segments (Split slash "" ++ segs)) with (clean_segments segs). by rewrite clean_segments_id.
  - rewrite str_app_cons, bool_decide_eq_false_2 by done. unfold rooted.
    change (HasPrefix (String slash _) "/") with true. cbv iota zeta.
    assert (HasSuffix (String slash (join_slash segs +:+ "/")) "/" = true) as ->.
    { apply HasSuffix_spec. exists (String slash (join_slash segs)). by rewrite str_app_cons. }
    assert (clean_segments (Split slash (String slash (join_slash segs +:+ "/"))) = segs) as ->.
    { change (String slash (join_slash segs +:+ "/")) with ("" +:+ String slash (join_slash segs +:+ "/")).
      rewrite Split_app, (Split_join segs [""] Hk Hne (or_intror eq_refl)).
      change (clean_segments (Split slash "" ++ segs ++ [""])) with (clean_segments (segs ++ [""])).
      by rewrite clean_segments_app_empty, clean_segments_id. }
    rewrite bool_decide_eq_false_2 by done. cbn [andb negb]. by rewrite str_app_cons.
Qed.

Lemma cleanPath_rooted p : exists r, cleanPath p = String slash r.
Proof.
  destruct (cleanPath_shape p) as (segs & _ & [->|[_ ->]]); [by eexists|]. rewrite str_app_cons. by eexists.
Qed.

(** A client that follows a redirect reaches the handlers: there are no redirect loops. *)
Lemma ServeMux_follow patterns method path location :
  ServeMux patterns method path = MovedPermanently location ->
  ServeMux patterns method location = mux_match patterns location /\ cleanPath location = location.
Proof.
  unfold ServeMux, mux_match. case_bool_decide; [done|].
  case_bool_decide as Hm; [by repeat case_bool_decide|]. case_bool_decide as Hc; [by repeat case_bool_decide|].
  intros [= <-]. destruct (cleanPath_rooted path) as [r E].
  rewrite (bool_decide_eq_false_2 (cleanPath path = "*")) by (rewrite E; done).
  rewrite (bool_decide_eq_true_2 (cleanPath (cleanPath path) = cleanPath path)) by apply cleanPath_idem.
  by rewrite !cleanPath_idem.
Qed.

Lemma mux_match_root path : mux_match ["/"] path = Handler "/".
Proof.
  unfold mux_match. case_bool_decide as H; [|done]. apply list_elem_of_singleton in H. by rewrite H.
Qed.

(** With a handler for [/], what is handled is exactly what is clean. *)
Lemma ServeMux_root method path :
  ServeMux ["/"] method path =
  if bool_decide (path = "*") then BadRequestTarget
  else if bool_decide (method = "CONNECT") || bool_decide (cleanPath path = path) then Handler "/"
  else MovedPermanently (cleanPath path).
Proof.
  unfold ServeMux. rewrite !mux_match_root. by repeat case_bool_decide.
Qed.
