(* ===== verification/Json.v ===== *)
(** * JSON as package [encoding/json] writes and reads it

    The text layer: strings are escaped and unescaped on their UTF-8 encoding, a value is
    printed compactly ([Marshal]) or over several lines ([MarshalIndent]), and text is
    read back by a recursive-descent parser.  A string or a number of the value tree is
    kept as its literal, as the decoder of the package keeps it; what a literal means is
    decided when it is stored. *)

From stdpp Require Import pretty.
From S2P Require Import Prelude GoStd GoTime.

(** ** UTF-8 *)

Definition in_bytes (lo hi : Z) (c : Ascii.ascii) : bool := (lo <=? byte_of c) && (byte_of c <=? hi).
Definition is_ascii (c : Ascii.ascii) : bool := byte_of c <? 128.
Definition is_cont : Ascii.ascii -> bool := in_bytes 128 191.

Definition two_ok (a b : Ascii.ascii) : bool := in_bytes 194 223 a && is_cont b.
Definition three_ok (a b c : Ascii.ascii) : bool :=
  (in_bytes 224 224 a && in_bytes 160 191 b || in_bytes 225 236 a && is_cont b ||
   in_bytes 237 237 a && in_bytes 128 159 b || in_bytes 238 239 a && is_cont b) && is_cont c.
Definition four_ok (a b c d : Ascii.ascii) : bool :=
  (in_bytes 240 240 a && in_bytes 144 191 b || in_bytes 241 243 a && is_cont b ||
   in_bytes 244 244 a && in_bytes 128 143 b) && is_cont c && is_cont d.

(** What [utf8.DecodeRune] finds, from left to right: an ASCII character, the bytes of a
    longer sequence, or a byte that starts none. *)
Inductive chunk := CAscii (c : Ascii.ascii) | CMulti (bytes : string) | CBad (c : Ascii.ascii).
#[export] Instance chunk_eq_dec : EqDecision chunk.
Proof. solve_decision. Defined.

Definition str1 (a : Ascii.ascii) : string := String a "".
Definition str2 (a b : Ascii.ascii) : string := String a (str1 b).
Definition str3 (a b c : Ascii.ascii) : string := String a (str2 b c).
Definition str4 (a b c d : Ascii.ascii) : string := String a (str3 b c d).

Fixpoint chunks (s : string) : list chunk :=
  match s with
  | EmptyString => []
  | String a s1 =>
      if is_ascii a then CAscii a :: chunks s1
      else match s1 with
           | EmptyString => [CBad a]
           | String b s2 =>
               if two_ok a b then CMulti (str2 a b) :: chunks s2
               else match s2 with
                    | EmptyString => CBad a :: chunks s1
                    | String c s3 =>
                        if three_ok a b c then CMulti (str3 a b c) :: chunks s3
                        else match s3 with
                             | EmptyString => CBad a :: chunks s1
                             | String d s4 =>
                                 if four_ok a b c d then CMulti (str4 a b c d) :: chunks s4
                                 else CBad a :: chunks s1
                             end
                    end
           end
  end.

Definition flatten {A} (f : A -> string) (l : list A) : string := foldr (fun x s => f x +:+ s) "" l.

Definition chunk_bytes (c : chunk) : string :=
  match c with CAscii a => str1 a | CMulti m => m | CBad a => str1 a end.

(** [utf8.ValidString]. *)
Definition is_bad (c : chunk) : bool := match c with CBad _ => true | _ => false end.
Definition valid_utf8 (s : string) : bool := forallb (fun c => negb (is_bad c)) (chunks s).

(** [utf8.AppendRune]; surrogates and values out of range become U+FFFD. *)
Definition RuneError : Z := 65533.
Definition EncodeRune (r : Z) : string :=
  let r := if (r <? 0) || (1114111 <? r) || ((55296 <=? r) && (r <=? 57343)) then RuneError else r in
  let b x := ascii_of_byte x in
  if r <? 128 then str1 (b r)
  else if r <? 2048 then str2 (b (192 + r / 64)) (b (128 + r mod 64))
  else if r <? 65536 then str3 (b (224 + r / 4096)) (b (128 + r / 64 mod 64)) (b (128 + r mod 64))
  else str4 (b (240 + r / 262144)) (b (128 + r / 4096 mod 64)) (b (128 + r / 64 mod 64)) (b (128 + r mod 64)).

(** ** Hexadecimal digits *)

Definition hex_char (d : Z) : Ascii.ascii := if d <? 10 then ascii_of_byte (48 + d) else ascii_of_byte (87 + d).
Definition hex_val (c : Ascii.ascii) : option Z :=
  let b := byte_of c in
  if is_digit b then Some (b - 48)
  else if (97 <=? b) && (b <=? 102) then Some (b - 87)
  else if (65 <=? b) && (b <=? 70) then Some (b - 55) else None.

(** ** Escaping ([appendString] with HTML escaping) *)

Definition dq : Ascii.ascii := ascii_of_byte 34.
Definition bslash : Ascii.ascii := ascii_of_byte 92.
Definition letter_u : Ascii.ascii := ascii_of_byte 117.

(** The characters that have a two-character escape, with the letter after the backslash. *)
Definition short_escapes : list (Z * Z) :=
  [(34, 34); (92, 92); (8, 98); (12, 102); (10, 110); (13, 114); (9, 116)].

Definition html_unsafe (b : Z) : bool := bool_decide (b ∈ [60; 62; 38]).

Definition escape_ascii (c : Ascii.ascii) : string :=
  let b := byte_of c in
  match list_find (fun p => p.1 = b) short_escapes with
  | Some (_, p) => str2 bslash (ascii_of_byte p.2)
  | None =>
      if (b <? 32) || html_unsafe b
      then str2 bslash letter_u +:+ "00" +:+ str2 (hex_char (b / 16)) (hex_char (b mod 16))
      else str1 c
  end.

(** U+2028 and U+2029 are escaped, and a byte that is not UTF-8 is replaced. *)
Definition line_sep : string := EncodeRune 8232.
Definition par_sep : string := EncodeRune 8233.

Definition escape_chunk (c : chunk) : string :=
  match c with
  | CAscii a => escape_ascii a
  | CMulti m =>
      if bool_decide (m = line_sep) then str2 bslash letter_u +:+ "2028"
      else if bool_decide (m = par_sep) then str2 bslash letter_u +:+ "2029" else m
  | CBad _ => str2 bslash letter_u +:+ "fffd"
  end.

Definition escape (s : string) : string := flatten escape_chunk (chunks s).

(** ** Unescaping ([unquote]) *)

Definition hex4 (a b c d : chunk) : option Z :=
  match a, b, c, d with
  | CAscii a, CAscii b, CAscii c, CAscii d =>
      a ← hex_val a; b ← hex_val b; c ← hex_val c; d ← hex_val d;
      Some (((a * 16 + b) * 16 + c) * 16 + d)
  | _, _, _, _ => None
  end.

Definition is_surrogate (r : Z) : bool := (55296 <=? r) && (r <=? 57343).

(** [utf16.DecodeRune]: a high surrogate followed by a low one. *)
Definition utf16_decode (r1 r2 : Z) : option Z :=
  if (55296 <=? r1) && (r1 <=? 56319) && (56320 <=? r2) && (r2 <=? 57343)
  then Some ((r1 - 55296) * 1024 + (r2 - 56320) + 65536) else None.

(** The character a short escape stands for. *)
Definition unescape_char (e : Z) : option Z :=
  match list_find (fun p => p.2 = e) short_escapes with
  | Some (_, p) => Some p.1
  | None => if e =? 47 then Some 47 else None
  end.

Definition is_char (c : Ascii.ascii) (k : chunk) : bool := bool_decide (k = CAscii c).

(** The decoder only unescapes literals that passed the scanner, so that a malformed
    escape is not met here: it is dropped. *)
Fixpoint unescape (l : list chunk) : string :=
  match l with
  | [] => ""
  | k :: l1 =>
      if is_char bslash k then
        match l1 with
        | [] => ""
        | e :: l2 =>
            if is_char letter_u e then
              match l2 with
              | h1 :: h2 :: h3 :: h4 :: l3 =>
                  let r := default RuneError (hex4 h1 h2 h3 h4) in
                  if is_surrogate r then
                    match l3 with
                    | b :: u :: k1 :: k2 :: k3 :: k4 :: l4 =>
                        match
                          (if is_char bslash b && is_char letter_u u
                           then r2 ← hex4 k1 k2 k3 k4; utf16_decode r r2 else None)
                        with
                        | Some r => EncodeRune r +:+ unescape l4
                        | None => EncodeRune RuneError +:+ unescape l3
                        end
                    | _ => EncodeRune RuneError +:+ unescape l3
                    end
                  else EncodeRune r +:+ unescape l3
              | _ => ""
              end
            else
              match e with
              | CAscii e =>
                  match unescape_char (byte_of e) with
                  | Some b => String (ascii_of_byte b) (unescape l2)
                  | None => unescape l2
                  end
              | _ => unescape l2
              end
        end
      else match k with
           | CBad _ => EncodeRune RuneError +:+ unescape l1
           | _ => chunk_bytes k +:+ unescape l1
           end
  end.

Definition unquote (s : string) : string := unescape (chunks s).

Example unquote_pair : unquote "\ud83d\ude00" = EncodeRune 128512.
Proof. reflexivity. Qed.
Example unquote_lone : unquote "\ud83dx" = EncodeRune RuneError +:+ "x".
Proof. reflexivity. Qed.
Example escape_html : escape "<a&b>" = "\u003ca\u0026b\u003e".
Proof. reflexivity. Qed.

(** ** A string is read back from its escaped form *)

Lemma str_append_nil (s : string) : "" +:+ s = s.
Proof. reflexivity. Qed.

Lemma flatten_app {A} (f : A -> string) l k : flatten f (l ++ k) = flatten f l +:+ flatten f k.
Proof. induction l as [|x l IH]; [done|]. cbn [flatten foldr app]. fold (flatten f (l ++ k)). by rewrite IH, <- str_app_assoc. Qed.

(** A multi-byte sequence is found again whatever follows it, and none of its bytes is ASCII. *)
Definition wf_multi (m : string) : Prop :=
  (forall t, chunks (m +:+ t) = CMulti m :: chunks t) /\ str_forallb (fun c => negb (is_ascii c)) m = true.
Definition wf_chunk (k : chunk) : Prop :=
  match k with CAscii c => is_ascii c = true | CMulti m => wf_multi m | CBad c => is_ascii c = false end.

Ltac byte_cases :=
  unfold wf_multi, two_ok, three_ok, four_ok, is_cont, in_bytes, is_ascii in *;
  rewrite ?orb_true_iff, ?andb_true_iff, ?orb_true_iff, ?andb_true_iff, ?Z.leb_le, ?Z.leb_gt, ?Z.ltb_lt, ?Z.ltb_ge in *.

Lemma two_wf a b : two_ok a b = true -> wf_multi (str2 a b).
Proof.
  intros H. assert (is_ascii a = false /\ is_ascii b = false) as [Ha Hb] by (byte_cases; lia).
  split; [|cbn [str_forallb str2 str1]; by rewrite Ha, Hb]. intros t.
  change (str2 a b +:+ t) with (String a (String b t)). cbn [chunks]. by rewrite Ha, H.
Qed.

Lemma three_wf a b c : three_ok a b c = true -> wf_multi (str3 a b c).
Proof.
  intros H. assert (is_ascii a = false /\ is_ascii b = false /\ is_ascii c = false) as (Ha & Hb & Hc)
    by (byte_cases; lia).
  assert (two_ok a b = false) as Hn by (apply not_true_is_false; intros H'; byte_cases; lia).
  split; [|cbn [str_forallb str3 str2 str1]; by rewrite Ha, Hb, Hc]. intros t.
  change (str3 a b c +:+ t) with (String a (String b (String c t))). cbn [chunks]. by rewrite Ha, Hn, H.
Qed.

Lemma four_wf a b c d : four_ok a b c d = true -> wf_multi (str4 a b c d).
Proof.
  intros H. assert (is_ascii a = false /\ is_ascii b = false /\ is_ascii c = false /\ is_ascii d = false)
    as (Ha & Hb & Hc & Hd) by (byte_cases; lia).
  assert (two_ok a b = false) as Hn by (apply not_true_is_false; intros H'; byte_cases; lia).
  assert (three_ok a b c = false) as Hm by (apply not_true_is_false; intros H'; byte_cases; lia).
  split; [|cbn [str_forallb str4 str3 str2 str1]; by rewrite Ha, Hb, Hc, Hd]. intros t.
  change (str4 a b c d +:+ t) with (String a (String b (String c (String d t)))). cbn [chunks].
  by rewrite Ha, Hn, Hm, H.
Qed.

(** The chunks of a string are well formed and make it up. *)
Lemma chunks_ind (Q : string -> list chunk -> Prop) :
  Q "" [] ->
  (forall k s, wf_chunk k -> Q s (chunks s) -> Q (chunk_bytes k +:+ s) (k :: chunks s)) ->
  forall s, Q s (chunks s).
Proof.
  intros H0 Hs s.
  remember (String.length s) as n eqn:En. assert (String.length s <= n)%nat as Hn by lia. clear En.
  revert s Hn. induction n as [|n IH]; intros [|a s1] Hn; [done|cbn in Hn; lia|done|].
  cbn [String.length] in Hn. cbn [chunks]. destruct (is_ascii a) eqn:Ea.
  { apply (Hs (CAscii a)); [done|apply IH; lia]. }
  assert (Q (String a s1) (CBad a :: chunks s1)) as Hbad by (apply (Hs (CBad a)); [done|apply IH; lia]).
  destruct s1 as [|b s2]; [done|]. cbn [String.length] in Hn. destruct (two_ok a b) eqn:E2.
  { apply (Hs (CMulti (str2 a b))); [by apply two_wf|apply IH; lia]. }
  destruct s2 as [|c s3]; [done|]. cbn [String.length] in Hn. destruct (three_ok a b c) eqn:E3.
  { apply (Hs (CMulti (str3 a b c))); [by apply three_wf|apply IH; lia]. }
  destruct s3 as [|d s4]; [done|]. cbn [String.length] in Hn. destruct (four_ok a b c d) eqn:E4; [|done].
  apply (Hs (CMulti (str4 a b c d))); [by apply four_wf|apply IH; lia].
Qed.

Lemma chunks_wf s : Forall wf_chunk (chunks s).
Proof. by apply (chunks_ind (fun _ l => Forall wf_chunk l)); [|intros; constructor]. Qed.

Lemma chunks_bytes s : flatten chunk_bytes (chunks s) = s.
Proof.
  apply (chunks_ind (fun s l => flatten chunk_bytes l = s)); [done|].
  intros k s' _ IH. cbn [flatten foldr]. fold (flatten chunk_bytes (chunks s')). by rewrite IH.
Qed.

(** What is left of a chunk after a round trip: a bad byte becomes U+FFFD. *)
Definition clean_chunk (k : chunk) : string :=
  match k with CBad _ => EncodeRune RuneError | _ => chunk_bytes k end.
Definition ToValidUTF8 (s : string) : string := flatten clean_chunk (chunks s).

Lemma unquote_escape_ascii c t : is_ascii c = true -> unquote (escape_ascii c +:+ t) = String c (unquote t).
Proof. destruct c as [[] [] [] [] [] [] [] []]; intros H; try discriminate H; reflexivity. Qed.

Lemma unquote_escape_chunk k t : wf_chunk k -> unquote (escape_chunk k +:+ t) = clean_chunk k +:+ unquote t.
Proof.
  destruct k as [c|m|c]; intros Hk; cbn [escape_chunk clean_chunk].
  - by apply unquote_escape_ascii.
  - destruct (decide (m = line_sep)) as [->|]; [reflexivity|]. rewrite bool_decide_eq_false_2 by done.
    destruct (decide (m = par_sep)) as [->|]; [reflexivity|]. rewrite bool_decide_eq_false_2 by done.
    unfold unquote. destruct Hk as [Hk _]. rewrite Hk. reflexivity.
  - reflexivity.
Qed.

Lemma unquote_flatten l : Forall wf_chunk l -> unquote (flatten escape_chunk l) = flatten clean_chunk l.
Proof.
  induction 1 as [|k l Hk _ IH]; [done|]. cbn [flatten foldr].
  fold (flatten escape_chunk l). fold (flatten clean_chunk l). by rewrite unquote_escape_chunk, IH.
Qed.

Lemma unquote_escape s : unquote (escape s) = ToValidUTF8 s.
Proof. apply unquote_flatten, chunks_wf. Qed.

Lemma ToValidUTF8_valid s : valid_utf8 s = true -> ToValidUTF8 s = s.
Proof.
  intros Hv. rewrite <- (chunks_bytes s) at 2. unfold ToValidUTF8, valid_utf8 in *.
  induction (chunks s) as [|k l IH]; [done|]. cbn [forallb] in Hv. apply andb_prop in Hv as [Hk Hl].
  cbn [flatten foldr]. fold (flatten clean_chunk l). fold (flatten chunk_bytes l). rewrite IH by done.
  by destruct k.
Qed.

(** ** Values *)

(** A string or a key is the text between its quotes, a number its literal. *)
Inductive json :=
| JNull
| JBool (b : bool)
| JNum (lit : string)
| JStr (raw : string)
| JArr (elems : list json)
| JObj (members : list (string * json)).

Section json_induction.
Variable Q : json -> Prop.
Hypothesis Hnull : Q JNull.
Hypothesis Hbool : forall b, Q (JBool b).
Hypothesis Hnum : forall lit, Q (JNum lit).
Hypothesis Hstr : forall raw, Q (JStr raw).
Hypothesis Harr : forall l, Forall Q l -> Q (JArr l).
Hypothesis Hobj : forall l, Forall (fun p => Q p.2) l -> Q (JObj l).

(** Induction that reaches the elements of arrays and the members of objects. *)
Fixpoint json_nested_ind (j : json) : Q j :=
  match j with
  | JNull => Hnull
  | JBool b => Hbool b
  | JNum l => Hnum l
  | JStr r => Hstr r
  | JArr l =>
      Harr l ((fix go l := match l return Forall Q l with
                           | [] => Forall_nil_2 _
                           | j :: l => Forall_cons_2 _ _ _ (json_nested_ind j) (go l)
                           end) l)
  | JObj l =>
      Hobj l ((fix go l := match l return Forall (fun p => Q p.2) l with
                           | [] => Forall_nil_2 _
                           | p :: l => Forall_cons_2 _ _ _ (json_nested_ind p.2) (go l)
                           end) l)
  end.
End json_induction.

(** ** Printing *)

(** The layout: what starts a line at a depth, and what separates a key from its value.
    [MarshalIndent(v, "", "  ")] and [Marshal(v)]. *)
Record layout := mkLayout { newline : nat -> string; key_sep : string }.

Fixpoint spaces (n : nat) : string := match n with O => "" | S n => "  " +:+ spaces n end.
Definition indented : layout := mkLayout (fun d => String (ascii_of_byte 10) (spaces d)) ": ".
Definition compact : layout := mkLayout (fun _ => "") ":".

Fixpoint join (sep : string) (l : list string) : string :=
  match l with
  | [] => ""
  | [s] => s
  | s :: l => s +:+ sep +:+ join sep l
  end.

Definition quote (raw : string) : string := String dq (raw +:+ str1 dq).

(** Empty arrays and objects take no line of their own. *)
Definition print_block (st : layout) (d : nat) (opening closing : Ascii.ascii) (items : list string) : string :=
  match items with
  | [] => str2 opening closing
  | _ => String opening (newline st (S d) +:+ join (String comma (newline st (S d))) items +:+
                         newline st d +:+ str1 closing)
  end.

Definition lbrace : Ascii.ascii := ascii_of_byte 123.
Definition rbrace : Ascii.ascii := ascii_of_byte 125.

Fixpoint print (st : layout) (d : nat) (j : json) : string :=
  match j with
  | JNull => "null"
  | JBool b => if b then "true" else "false"
  | JNum lit => lit
  | JStr raw => quote raw
  | JArr l => print_block st d lbracket rbracket (map (print st (S d)) l)
  | JObj l => print_block st d lbrace rbrace (map (fun p => quote p.1 +:+ key_sep st +:+ print st (S d) p.2) l)
  end.

(** ** Scanning literals *)

Definition is_ws (c : Ascii.ascii) : bool := bool_decide (byte_of c ∈ [32; 9; 13; 10]).

Fixpoint skip_ws (s : string) : string :=
  match s with
  | String c r => if is_ws c then skip_ws r else s
  | EmptyString => s
  end.

Definition is_hex (c : Ascii.ascii) : bool := bool_decide (is_Some (hex_val c)).
Definition is_escape (c : Ascii.ascii) : bool := bool_decide (is_Some (unescape_char (byte_of c))).

(** The body of a string up to its closing quote: control characters are refused, and so
    are unknown escapes. *)
Fixpoint scan_string (s : string) : option (string * string) :=
  match s with
  | EmptyString => None
  | String c s1 =>
      if bool_decide (c = dq) then Some ("", s1)
      else if bool_decide (c = bslash) then
        match s1 with
        | EmptyString => None
        | String e s2 =>
            if is_escape e then '(raw, r) ← scan_string s2; Some (String c (String e raw), r)
            else if bool_decide (e = letter_u) then
              match s2 with
              | String h1 (String h2 (String h3 (String h4 s3))) =>
                  if is_hex h1 && is_hex h2 && is_hex h3 && is_hex h4
                  then '(raw, r) ← scan_string s3; Some (String c (String e (str4 h1 h2 h3 h4 +:+ raw)), r)
                  else None
              | _ => None
              end
            else None
        end
      else if byte_of c <? 32 then None
      else '(raw, r) ← scan_string s1; Some (String c raw, r)
  end.

Fixpoint span (f : Ascii.ascii -> bool) (s : string) : string * string :=
  match s with
  | EmptyString => (EmptyString, EmptyString)
  | String c r => if f c then let '(a, b) := span f r in (String c a, b) else (EmptyString, s)
  end.

Definition is_numchar (c : Ascii.ascii) : bool :=
  is_digit (byte_of c) || bool_decide (byte_of c ∈ [43; 45; 46; 101; 69]).

(** The grammar of numbers: [-? (0 | [1-9][0-9]* ) (. [0-9]+)? ([eE] [+-]? [0-9]+)?]. *)
Definition valid_exponent (s : string) : bool :=
  match s with
  | EmptyString => true
  | String e r =>
      let r := match r with
               | String c r' => if bool_decide (byte_of c ∈ [43; 45]) then r' else r
               | EmptyString => r
               end in
      bool_decide (byte_of e ∈ [101; 69]) && negb (bool_decide (r = "")) && all_digits r
  end.

Definition valid_fraction (s : string) : bool :=
  match s with
  | String c r =>
      if byte_of c =? 46 then let '(ds, r) := span_digits r in negb (bool_decide (ds = "")) && valid_exponent r
      else valid_exponent s
  | EmptyString => true
  end.

Definition strip_minus (s : string) : string :=
  match s with
  | String c r => if bool_decide (c = dash) then r else s
  | EmptyString => s
  end.

Definition valid_number (lit : string) : bool :=
  match strip_minus lit with
  | String c r =>
      if bool_decide (c = char0) then valid_fraction r
      else if is_digit (byte_of c) then valid_fraction (span_digits r).2 else false
  | EmptyString => false
  end.

(** A number ends where no character of a number follows; what was taken has to be one. *)
Definition scan_number (s : string) : option (string * string) :=
  let '(lit, r) := span is_numchar s in if valid_number lit then Some (lit, r) else None.

(** [strconv.ParseInt(lit, 10, 64)]. *)
Fixpoint dec_value (acc : Z) (s : string) : option Z :=
  match s with
  | EmptyString => Some acc
  | String c r => d ← digit_val c; dec_value (acc * 10 + d) r
  end.

Definition ParseInt (lit : string) : option Z :=
  let ds := strip_minus lit in
  if bool_decide (ds = "") then None
  else n ← dec_value 0 ds;
       let z := if bool_decide (ds = lit) then n else - n in
       if (- 2 ^ 63 <=? z) && (z <? 2 ^ 63) then Some z else None.

(** ** Parsing *)

Inductive parse_error := Syntax | OutOfFuel.
#[export] Instance parse_error_eq_dec : EqDecision parse_error.
Proof. solve_decision. Defined.

#[export] Instance result_ret {E} : MRet (result E) := @Ok E.
#[export] Instance result_bind {E} : MBind (result E) := fun A B f r =>
  match r with Ok a => f a | Err e => Err e end.

Definition or_syntax {A} (o : option A) : result parse_error A :=
  match o with Some a => Ok a | None => Err Syntax end.

Definition maxNestingDepth : Z := 10000.

(** The word at the front of the text. *)
Definition read_word (word : string) (j : json) (s : string) : result parse_error (json * string) :=
  if HasPrefix s word then Ok (j, str_drop (String.length word) s) else Err Syntax.

(** Another item after a comma, or the end of the block. *)
Inductive after := More (s : string) | Closed (s : string).
Definition read_after (closing : Ascii.ascii) (s : string) : result parse_error after :=
  match skip_ws s with
  | String c r =>
      if bool_decide (c = comma) then Ok (More r)
      else if bool_decide (c = closing) then Ok (Closed r) else Err Syntax
  | EmptyString => Err Syntax
  end.

(** The key of a member with its colon. *)
Definition read_key (s : string) : result parse_error (string * string) :=
  match skip_ws s with
  | String c r =>
      if bool_decide (c = dq) then
        '(raw, r) ← or_syntax (scan_string r);
        r ← or_syntax (expect colon (skip_ws r)); Ok (raw, r)
      else Err Syntax
  | EmptyString => Err Syntax
  end.

(** An opening bracket at nesting depth [d]; an empty block closes at once. *)
Definition open_block (closing : Ascii.ascii) (d : Z) (r : string) : result parse_error (option string) :=
  if maxNestingDepth <? d + 1 then Err Syntax
  else match expect closing (skip_ws r) with Some r => Ok (Some r) | None => Ok None end.

Fixpoint parse_value (fuel : nat) (d : Z) (s : string) : result parse_error (json * string) :=
  match fuel with
  | O => Err OutOfFuel
  | S fuel =>
      match skip_ws s with
      | EmptyString => Err Syntax
      | String c r =>
          if bool_decide (c = dq) then '(raw, r) ← or_syntax (scan_string r); Ok (JStr raw, r)
          else if bool_decide (c = lbracket) then
            o ← open_block rbracket d r;
            match o with
            | Some r => Ok (JArr [], r)
            | None => '(l, r) ← parse_elems fuel (d + 1) r; Ok (JArr l, r)
            end
          else if bool_decide (c = lbrace) then
            o ← open_block rbrace d r;
            match o with
            | Some r => Ok (JObj [], r)
            | None => '(l, r) ← parse_members fuel (d + 1) r; Ok (JObj l, r)
            end
          else if byte_of c =? 116 then read_word "true" (JBool true) (String c r)
          else if byte_of c =? 102 then read_word "false" (JBool false) (String c r)
          else if byte_of c =? 110 then read_word "null" JNull (String c r)
          else '(lit, r) ← or_syntax (scan_number (String c r)); Ok (JNum lit, r)
      end
  end
with parse_elems (fuel : nat) (d : Z) (s : string) : result parse_error (list json * string) :=
  match fuel with
  | O => Err OutOfFuel
  | S fuel =>
      '(j, r) ← parse_value fuel d s;
      a ← read_after rbracket r;
      match a with
      | Closed r => Ok ([j], r)
      | More r => '(l, r) ← parse_elems fuel d r; Ok (j :: l, r)
      end
  end
with parse_members (fuel : nat) (d : Z) (s : string) : result parse_error (list (string * json) * string) :=
  match fuel with
  | O => Err OutOfFuel
  | S fuel =>
      '(k, r) ← read_key s;
      '(j, r) ← parse_value fuel d r;
      a ← read_after rbrace r;
      match a with
      | Closed r => Ok ([(k, j)], r)
      | More r => '(l, r) ← parse_members fuel d r; Ok ((k, j) :: l, r)
      end
  end.

(** Each call of [parse_value] consumes a character, and an element or a member takes two
    calls: twice the length of the text is enough. *)
Definition parse_fuel (s : string) : nat := S (2 * String.length s).

(** The whole text is one value, with white space around it. *)
Definition parse (s : string) : result parse_error json :=
  '(j, r) ← parse_value (parse_fuel s) 0 s;
  if bool_decide (skip_ws r = "") then Ok j else Err Syntax.

Example parse_print_ex :
  parse (print indented 0 (JObj [("a", JArr [JNum "-1.5e3"; JNull]); ("b", JObj []); ("c\u0020", JBool true)])) =
  Ok (JObj [("a", JArr [JNum "-1.5e3"; JNull]); ("b", JObj []); ("c\u0020", JBool true)]).
Proof. vm_compute. reflexivity. Qed.
Example parse_trailing_comma : parse "[1,]" = Err Syntax.
Proof. reflexivity. Qed.
Example parse_leading_zero : parse " 01 " = Err Syntax.
Proof. reflexivity. Qed.

(** ** The parser never runs out of fuel *)

Abbreviation slen := String.length.

Lemma skip_ws_length s : (slen (skip_ws s) <= slen s)%nat.
Proof. induction s as [|c s IH]; [done|]. cbn. case_match; cbn; lia. Qed.

Lemma scan_string_length s raw r : scan_string s = Some (raw, r) -> (slen r < slen s)%nat.
Proof.
  remember (slen s) as n eqn:En. assert (slen s <= n)%nat as Hn by lia. rewrite En. clear En.
  revert s raw r Hn. induction n as [|n IH]; intros [|c s] raw r Hn H; cbn [slen] in *; [done|lia|done|].
  cbn [scan_string] in H.
  repeat (case_match; try discriminate H); simplify_option_eq; cbn [slen] in *; try lia;
    match goal with IH : forall s raw r, _ -> scan_string s = _ -> _, H : scan_string ?s = Some ?x |- _ =>
      destruct x; simplify_eq; apply IH in H; lia end.
Qed.

Lemma span_length f s a b : span f s = (a, b) -> (slen s = slen a + slen b)%nat.
Proof.
  revert a b. induction s as [|c s IH]; intros a b; cbn; [by intros [= <- <-]|].
  case_match; [|by intros [= <- <-]]. destruct (span f s) as [a' b']. intros [= <- <-].
  cbn. by rewrite (IH _ _ eq_refl).
Qed.

Lemma scan_number_length s lit r : scan_number s = Some (lit, r) -> (slen r < slen s)%nat.
Proof.
  unfold scan_number. destruct (span is_numchar s) as [a b] eqn:E. apply span_length in E.
  destruct a; [done|]. case_match; [|done]. intros [= <- <-]. cbn in *. lia.
Qed.

Lemma expect_length c s r : expect c s = Some r -> slen s = S (slen r).
Proof. destruct s; cbn; [done|]. case_match; [|done]. by intros [= <-]. Qed.

Lemma read_word_length w j s j' r :
  w <> "" -> read_word w j s = Ok (j', r) -> (slen r < slen s)%nat.
Proof.
  intros Hw. unfold read_word. destruct (HasPrefix s w) eqn:E; [|done]. apply HasPrefix_spec in E as [t ->].
  rewrite str_drop_app. intros [= <- <-]. rewrite str_length_app. destruct w; [done|cbn; lia].
Qed.

Lemma read_after_length c s a :
  read_after c s = Ok a -> (slen (match a with More r | Closed r => r end) < slen s)%nat.
Proof.
  unfold read_after. pose proof (skip_ws_length s). destruct (skip_ws s) as [|c' r]; [done|]. cbn in *.
  repeat case_match; intros [= <-]; lia.
Qed.

Lemma or_syntax_ok {A} (o : option A) a : or_syntax o = Ok a -> o = Some a.
Proof. destruct o; by intros [= <-]. Qed.

(** One step of the monad in a hypothesis. *)
Ltac bind_inv H :=
  match type of H with
  | (?x ≫= _) = Ok _ =>
      let E := fresh "E" in destruct x as [?|?] eqn:E; [cbn [mbind result_bind] in H|discriminate H]
  end.

Lemma read_key_length s k r : read_key s = Ok (k, r) -> (slen r < slen s)%nat.
Proof.
  unfold read_key. pose proof (skip_ws_length s). destruct (skip_ws s) as [|c' t]; [done|]. cbn [slen] in *.
  case_match; [|done]. intros H'. bind_inv H'. destruct a as [raw u].
  apply or_syntax_ok, scan_string_length in E. bind_inv H'. simplify_eq.
  apply or_syntax_ok, expect_length in E0. pose proof (skip_ws_length u). lia.
Qed.

Lemma open_block_length c d s r : open_block c d s = Ok (Some r) -> (slen r < slen s)%nat.
Proof.
  unfold open_block. pose proof (skip_ws_length s). case_match; [done|].
  destruct (expect _ _) eqn:E; [|done]. apply expect_length in E. intros [= <-]. lia.
Qed.

Lemma parse_consumes fuel :
  (forall d s j r, parse_value fuel d s = Ok (j, r) -> (slen r < slen s)%nat) /\
  (forall d s l r, parse_elems fuel d s = Ok (l, r) -> (slen r < slen s)%nat) /\
  (forall d s l r, parse_members fuel d s = Ok (l, r) -> (slen r < slen s)%nat).
Proof.
  induction fuel as [|fuel (IHv & IHe & IHm)]; [done|]. split_and!.
  - intros d s j r. cbn [parse_value]. pose proof (skip_ws_length s) as Hws.
    destruct (skip_ws s) as [|c t]; [done|]. cbn [slen] in Hws. intros H.
    repeat match type of H with (if ?b then _ else _) = _ => destruct b end;
      try (apply read_word_length in H; [cbn [slen] in H; lia|done]); bind_inv H.
    + destruct a as [raw u]. apply or_syntax_ok, scan_string_length in E. simplify_eq. lia.
    + destruct a as [u|]; [apply open_block_length in E; simplify_eq; lia|]. bind_inv H.
      destruct a as [l u]. apply IHe in E0. simplify_eq. lia.
    + destruct a as [u|]; [apply open_block_length in E; simplify_eq; lia|]. bind_inv H.
      destruct a as [l u]. apply IHm in E0. simplify_eq. lia.
    + destruct a as [lit u]. apply or_syntax_ok, scan_number_length in E. cbn [slen] in E. simplify_eq. lia.
  - intros d s l r H. cbn [parse_elems] in H. bind_inv H. destruct a as [j u]. apply IHv in E. bind_inv H.
    apply read_after_length in E0. destruct a as [v|v]; [|simplify_eq; lia]. bind_inv H.
    destruct a as [k w]. apply IHe in E1. simplify_eq. lia.
  - intros d s l r H. cbn [parse_members] in H. bind_inv H. destruct a as [k t]. apply read_key_length in E.
    bind_inv H. destruct a as [j u]. apply IHv in E0. bind_inv H.
    apply read_after_length in E1. destruct a as [v|v]; [|simplify_eq; lia]. bind_inv H.
    destruct a as [m w]. apply IHm in E2. simplify_eq. lia.
Qed.

(** A step that cannot be what ran out. *)
Lemma bind_fuel {A B} (x : result parse_error A) (f : A -> result parse_error B) :
  x <> Err OutOfFuel -> (forall a, x = Ok a -> f a <> Err OutOfFuel) -> (x ≫= f) <> Err OutOfFuel.
Proof. intros Hx Hf. destruct x as [a|[]]; cbn; [by apply Hf|done|done]. Qed.

Lemma or_syntax_fuel {A} (o : option A) : or_syntax o <> Err OutOfFuel.
Proof. by destruct o. Qed.

Lemma read_after_fuel c s : read_after c s <> Err OutOfFuel.
Proof. unfold read_after. by repeat case_match. Qed.

Lemma read_key_fuel s : read_key s <> Err OutOfFuel.
Proof.
  unfold read_key. repeat case_match; try done. apply bind_fuel; [apply or_syntax_fuel|].
  intros [raw r] _. apply bind_fuel; [apply or_syntax_fuel|done].
Qed.

Lemma open_block_fuel c d s : open_block c d s <> Err OutOfFuel.
Proof. unfold open_block. by repeat case_match. Qed.

#[local] Hint Resolve or_syntax_fuel read_after_fuel read_key_fuel open_block_fuel : core.

Lemma parse_fuel_enough fuel :
  (forall d s, (2 * slen s < fuel)%nat -> parse_value fuel d s <> Err OutOfFuel) /\
  (forall d s, (S (2 * slen s) < fuel)%nat -> parse_elems fuel d s <> Err OutOfFuel) /\
  (forall d s, (S (2 * slen s) < fuel)%nat -> parse_members fuel d s <> Err OutOfFuel).
Proof.
  induction fuel as [|fuel (IHv & IHe & IHm)]; [by split_and!; intros; lia|].
  destruct (parse_consumes fuel) as (Hv & _ & _). split_and!; intros d s Hs.
  - cbn [parse_value]. pose proof (skip_ws_length s) as Hws.
    destruct (skip_ws s) as [|c t]; [done|]. cbn [slen] in Hws.
    repeat match goal with |- (if ?b then _ else _) <> _ => destruct b end;
      try (unfold read_word; by case_match); apply bind_fuel; auto.
    + by intros [].
    + intros [u|] _; [done|]. apply bind_fuel; [apply IHe; lia|by intros []].
    + intros [u|] _; [done|]. apply bind_fuel; [apply IHm; lia|by intros []].
    + by intros [].
  - cbn [parse_elems]. apply bind_fuel; [apply IHv; lia|]. intros [j r] Hj%Hv.
    apply bind_fuel; [auto|]. intros [v|v] Ha%read_after_length; [|done].
    apply bind_fuel; [apply IHe; lia|by intros []].
  - cbn [parse_members]. apply bind_fuel; [auto|]. intros [k t] Hk%read_key_length.
    apply bind_fuel; [apply IHv; lia|]. intros [j r] Hj%Hv.
    apply bind_fuel; [auto|]. intros [v|v] Ha%read_after_length; [|done].
    apply bind_fuel; [apply IHm; lia|by intros []].
Qed.

Lemma parse_total s : parse s <> Err OutOfFuel.
Proof.
  unfold parse. apply bind_fuel.
  - apply (parse_fuel_enough (parse_fuel s)). unfold parse_fuel. lia.
  - intros [j r] _. by case_match.
Qed.

(** ** Printed values are parsed back *)

Definition all_ws (s : string) : bool := str_forallb is_ws s.

(** The body of a string literal, and the literal of a number. *)
Definition raw_ok (raw : string) : Prop := forall t, scan_string (raw +:+ String dq t) = Some (raw, t).
Definition num_ok (lit : string) : Prop := valid_number lit = true /\ str_forallb is_numchar lit = true.

Fixpoint wf_json (j : json) : Prop :=
  match j with
  | JNull | JBool _ => True
  | JNum lit => num_ok lit
  | JStr raw => raw_ok raw
  | JArr l => (fix go l := match l with [] => True | j :: l => wf_json j /\ go l end) l
  | JObj l => (fix go l := match l with [] => True | (k, j) :: l => raw_ok k /\ wf_json j /\ go l end) l
  end.

Fixpoint height (j : json) : Z :=
  match j with
  | JArr l => 1 + foldr (fun j h => Z.max (height j) h) 0 l
  | JObj l => 1 + foldr (fun p h => Z.max (height p.2) h) 0 l
  | _ => 0
  end.

Lemma wf_json_arr l : wf_json (JArr l) <-> Forall wf_json l.
Proof. induction l as [|j l IH]; [done|]. rewrite Forall_cons, <- IH. done. Qed.

Lemma wf_json_obj l : wf_json (JObj l) <-> Forall (fun p => raw_ok p.1 /\ wf_json p.2) l.
Proof. induction l as [|[k j] l IH]; [done|]. rewrite Forall_cons, <- IH. cbn. tauto. Qed.

Lemma foldr_max_le {A} (f : A -> Z) (l : list A) n :
  foldr (fun x h => Z.max (f x) h) 0 l <= n <-> Forall (fun x => f x <= n) l /\ 0 <= n.
Proof. induction l as [|x l IH]; cbn; [|rewrite Forall_cons; rewrite Z.max_lub_iff, IH]; firstorder. Qed.

Definition layout_ok (st : layout) : Prop :=
  (forall d, all_ws (newline st d) = true) /\ exists w, key_sep st = String colon w /\ all_ws w = true.

Lemma indented_ok : layout_ok indented.
Proof.
  split; [|by exists " "]. intros d. cbn. induction d as [|d IH]; [done|]. cbn. exact IH.
Qed.
Lemma compact_ok : layout_ok compact.
Proof. split; [done|]. by exists "". Qed.

(** What may follow a number. *)
Definition ends (s : string) : Prop := match s with String c _ => is_numchar c = false | EmptyString => True end.

Lemma skip_ws_app w s : all_ws w = true -> skip_ws (w +:+ s) = skip_ws s.
Proof.
  unfold all_ws. induction w as [|c w IH]; [done|]. cbn [str_forallb]. intros [Hc Hw]%andb_prop.
  rewrite str_app_cons. cbn [skip_ws]. by rewrite Hc, IH.
Qed.

Lemma parse_value_ws fuel d w s : all_ws w = true -> parse_value fuel d (w +:+ s) = parse_value fuel d s.
Proof. intros Hw. destruct fuel as [|fuel]; [done|]. cbn [parse_value]. by rewrite skip_ws_app. Qed.

Lemma ws_not_num c : is_ws c = true -> is_numchar c = false.
Proof.
  unfold is_ws, is_numchar. rewrite bool_decide_eq_true. intros H.
  repeat (apply elem_of_cons in H as [H|H]; [by rewrite H|]). by apply not_elem_of_nil in H.
Qed.

Lemma ends_ws w c s : all_ws w = true -> is_numchar c = false -> ends (w +:+ String c s).
Proof.
  destruct w as [|a w]; cbn [all_ws str_forallb]; [done|]. intros [Ha _]%andb_prop _. by apply ws_not_num.
Qed.

Lemma span_app f a b :
  str_forallb f a = true -> match b with String c _ => f c = false | EmptyString => True end ->
  span f (a +:+ b) = (a, b).
Proof.
  intros Ha Hb. induction a as [|c a IH].
  { rewrite str_append_nil. destruct b as [|c b]; [done|]. cbn. by rewrite Hb. }
  cbn [str_forallb] in Ha. apply andb_prop in Ha as [Hc Ha]. rewrite str_app_cons. cbn [span].
  by rewrite Hc, IH.
Qed.

Lemma scan_number_app lit s : num_ok lit -> ends s -> scan_number (lit +:+ s) = Some (lit, s).
Proof. intros [Hv Hn] Hs. unfold scan_number. by rewrite span_app, Hv. Qed.

Lemma read_after_close c w s :
  all_ws w = true -> is_ws c = false -> c <> comma -> read_after c (w +:+ String c s) = Ok (Closed s).
Proof.
  intros Hw Hc Hne. unfold read_after. rewrite skip_ws_app by done. cbn [skip_ws]. rewrite Hc.
  by rewrite bool_decide_eq_false_2, bool_decide_eq_true_2.
Qed.

Lemma read_after_more c s : read_after c (String comma s) = Ok (More s).
Proof. reflexivity. Qed.

Lemma read_key_quote w k w' s :
  all_ws w = true -> raw_ok k -> read_key (w +:+ quote k +:+ String colon (w' +:+ s)) = Ok (k, w' +:+ s).
Proof.
  intros Hw Hk. unfold read_key, quote. rewrite skip_ws_app by done.
  rewrite str_app_cons, str_app_assoc. change (str1 dq +:+ ?s) with (String dq s).
  change (skip_ws (String dq ?s)) with (String dq s). cbv iota.
  rewrite bool_decide_eq_true_2 by done. by rewrite Hk.
Qed.

(** Values start with a character that neither closes a block nor is white space. *)
Lemma print_head st d j :
  wf_json j -> exists c r, print st d j = String c r /\ is_ws c = false /\ c <> rbracket.
Proof.
  destruct j as [|[]|lit|raw|l|l]; intros Hj; cbn [print]; try (by do 2 eexists).
  - destruct Hj as [Hv Hn]. destruct lit as [|c r]; [done|]. exists c, r. split; [done|].
    cbn [str_forallb] in Hn. apply andb_prop in Hn as [Hc _]. split.
    + destruct (is_ws c) eqn:E; [|done]. apply ws_not_num in E. congruence.
    + intros ->. done.
  - unfold print_block. destruct (map _ l); by do 2 eexists.
  - unfold print_block. destruct (map _ l); by do 2 eexists.
Qed.

Ltac slen_lia :=
  repeat progress (repeat rewrite str_length_app in *; cbn [String.length] in *); lia.

Section print_parse.
Variable st : layout.
Hypothesis Hst : layout_ok st.

(** The value is read back in front of anything that may follow it. *)
Definition reads_back (j : json) : Prop :=
  forall n fuel d rest, wf_json j -> d + height j <= maxNestingDepth -> ends rest ->
    (2 * slen (print st n j +:+ rest) < fuel)%nat ->
    parse_value fuel d (print st n j +:+ rest) = Ok (j, rest).

Lemma join_cons2 sep a b l : join sep (a :: b :: l) = a +:+ sep +:+ join sep (b :: l).
Proof. reflexivity. Qed.

Lemma parse_elems_print n w w' cw l fuel d rest :
  l <> [] -> all_ws w = true -> all_ws w' = true -> all_ws cw = true ->
  Forall reads_back l -> Forall wf_json l -> Forall (fun j => d + height j <= maxNestingDepth) l ->
  (S (2 * slen (w +:+ join (String comma w') (map (print st n) l) +:+ cw +:+ String rbracket rest)) < fuel)%nat ->
  parse_elems fuel d (w +:+ join (String comma w') (map (print st n) l) +:+ cw +:+ String rbracket rest) =
  Ok (l, rest).
Proof.
  intros Hl Hw Hw' Hcw. revert w Hw fuel.
  induction l as [|j l IH]; [done|]. intros w Hw fuel [Hj HQ]%Forall_cons [Hwf HW]%Forall_cons [Hd HD]%Forall_cons Hf.
  destruct fuel as [|fuel]; [lia|]. cbn [parse_elems]. rewrite parse_value_ws by done.
  destruct l as [|j' l].
  - cbn [map join] in *. rewrite Hj; [|done|done|by apply ends_ws|slen_lia].
    cbn [mbind result_bind]. by rewrite read_after_close.
  - cbn [map] in Hf |- *. rewrite join_cons2, !str_app_assoc in Hf |- *.
    rewrite Hj; [|done|done|done|slen_lia]. cbn [mbind result_bind].
    rewrite str_app_cons, read_after_more. cbn [mbind result_bind].
    rewrite IH; [done|done|done|done|done|done|].
    cbn [map] in *. slen_lia.
Qed.

Definition print_member (n : nat) (p : string * json) : string := quote p.1 +:+ key_sep st +:+ print st n p.2.

Lemma parse_members_print n w w' cw l fuel d rest :
  l <> [] -> all_ws w = true -> all_ws w' = true -> all_ws cw = true ->
  Forall (fun p => reads_back p.2) l -> Forall (fun p => raw_ok p.1 /\ wf_json p.2) l ->
  Forall (fun p => d + height p.2 <= maxNestingDepth) l ->
  (S (2 * slen (w +:+ join (String comma w') (map (print_member n) l) +:+ cw +:+ String rbrace rest)) < fuel)%nat ->
  parse_members fuel d (w +:+ join (String comma w') (map (print_member n) l) +:+ cw +:+ String rbrace rest) =
  Ok (l, rest).
Proof.
  destruct Hst as [_ (kw & Hks & Hkw)].
  intros Hl Hw Hw' Hcw. revert w Hw fuel.
  induction l as [|[k j] l IH]; [done|].
  intros w Hw fuel [Hj HQ]%Forall_cons [[Hk Hwf] HW]%Forall_cons [Hd HD]%Forall_cons Hf. cbn [fst snd] in *.
  destruct fuel as [|fuel]; [lia|]. cbn [parse_members].
  destruct l as [|p l].
  - cbn [map join] in *. unfold print_member in *. cbn [fst snd] in *.
    rewrite Hks, !str_app_assoc, str_app_cons in Hf |- *.
    rewrite read_key_quote by done. cbn [mbind result_bind]. rewrite parse_value_ws by done.
    rewrite Hj; [|done|done|by apply ends_ws|slen_lia].
    cbn [mbind result_bind]. by rewrite read_after_close.
  - cbn [map] in Hf |- *. rewrite join_cons2 in Hf |- *.
    unfold print_member at 1 in Hf. unfold print_member at 1. cbn [fst snd] in *.
    rewrite Hks, !str_app_assoc, !str_app_cons in Hf |- *.
    rewrite read_key_quote by done. cbn [mbind result_bind]. rewrite parse_value_ws by done.
    rewrite Hj; [|done|done|done|slen_lia].
    cbn [mbind result_bind]. rewrite read_after_more. cbn [mbind result_bind].
    rewrite IH; [done|done|done|done|done|done|cbn [map] in *; slen_lia].
Qed.

Lemma open_block_items closing d w s :
  d + 1 <= maxNestingDepth -> all_ws w = true ->
  (exists c r, s = String c r /\ is_ws c = false /\ c <> closing) ->
  open_block closing d (w +:+ s) = Ok None.
Proof.
  intros Hd Hw (c & r & -> & Hc & Hne). unfold open_block. rewrite (proj2 (Z.ltb_ge _ _)) by lia.
  rewrite skip_ws_app by done. cbn [skip_ws]. rewrite Hc. cbn [expect]. by rewrite bool_decide_eq_false_2.
Qed.

Lemma join_head sep (c : Ascii.ascii) r l : exists r', join sep (String c r :: l) = String c r'.
Proof. destruct l; cbn [join]; [by eexists|]. rewrite str_app_cons. by eexists. Qed.

Lemma print_block_items n opening closing items :
  items <> [] ->
  print_block st n opening closing items =
  String opening (newline st (S n) +:+ join (String comma (newline st (S n))) items +:+
                  newline st n +:+ str1 closing).
Proof. by destruct items. Qed.

Lemma reads_back_arr l : Forall reads_back l -> reads_back (JArr l).
Proof.
  intros HQ n fuel d rest Hwf%wf_json_arr Hd Hr Hf. cbn [height] in Hd.
  assert (Forall (fun j => height j <= maxNestingDepth - (d + 1)) l /\ 0 <= maxNestingDepth - (d + 1)) as [Hh H0]
    by (apply foldr_max_le; lia).
  destruct fuel as [|fuel]; [lia|]. destruct (decide (l = [])) as [->|Hl].
  { cbn -[maxNestingDepth open_block]. unfold open_block. rewrite (proj2 (Z.ltb_ge _ _)) by lia. reflexivity. }
  destruct Hst as [Hnl _]. cbn [print] in Hf |- *. rewrite print_block_items in Hf |- * by (by destruct l).
  rewrite str_app_cons, !str_app_assoc in Hf |- *. change (str1 rbracket +:+ rest) with (String rbracket rest) in Hf |- *.
  cbn [parse_value]. change (skip_ws (String lbracket ?s)) with (String lbracket s). cbv iota.
  change (bool_decide (lbracket = dq)) with false. change (bool_decide (lbracket = lbracket)) with true. cbv iota.
  destruct l as [|j l]; [done|]. rewrite open_block_items; [|lia|done|].
  - cbn [mbind result_bind]. rewrite parse_elems_print; [done|done|done|done|done|done|done| |slen_lia].
    eapply Forall_impl; [exact Hh|]. intros j' Hj. cbn in Hj. lia.
  - apply Forall_cons in Hwf as [Hj _]. destruct (print_head st (S n) j Hj) as (c & r & E & Hc & Hne).
    cbn [map]. rewrite E. destruct (join_head (String comma (newline st (S n))) c r (map (print st (S n)) l)) as [r' ->].
    rewrite str_app_cons. by do 2 eexists.
Qed.

Lemma reads_back_obj l : Forall (fun p => reads_back p.2) l -> reads_back (JObj l).
Proof.
  intros HQ n fuel d rest Hwf%wf_json_obj Hd Hr Hf. cbn [height] in Hd.
  assert (Forall (fun p => height p.2 <= maxNestingDepth - (d + 1)) l /\ 0 <= maxNestingDepth - (d + 1)) as [Hh H0]
    by (apply (foldr_max_le (fun p => height p.2)); lia).
  destruct fuel as [|fuel]; [lia|]. destruct (decide (l = [])) as [->|Hl].
  { cbn -[maxNestingDepth open_block]. unfold open_block. rewrite (proj2 (Z.ltb_ge _ _)) by lia. reflexivity. }
  destruct Hst as [Hnl _]. cbn [print] in Hf |- *. fold (print_member (S n)) in Hf |- *.
  rewrite print_block_items in Hf |- * by (by destruct l).
  rewrite str_app_cons, !str_app_assoc in Hf |- *. change (str1 rbrace +:+ rest) with (String rbrace rest) in Hf |- *.
  cbn [parse_value]. change (skip_ws (String lbrace ?s)) with (String lbrace s). cbv iota.
  change (bool_decide (lbrace = dq)) with false. change (bool_decide (lbrace = lbracket)) with false.
  change (bool_decide (lbrace = lbrace)) with true. cbv iota.
  destruct l as [|[k j] l]; [done|]. rewrite open_block_items; [|lia|done|].
  - cbn [mbind result_bind]. rewrite parse_members_print; [done|done|done|done|done|done|done| |slen_lia].
    eapply Forall_impl; [exact Hh|]. intros [k' j'] Hj. cbn in *. lia.
  - cbn [map]. unfold print_member at 1, quote. rewrite str_app_cons.
    match goal with |- context [join ?sep (String dq ?r :: ?m)] => destruct (join_head sep dq r m) as [r' ->] end.
    rewrite str_app_cons. by do 2 eexists.
Qed.

Lemma reads_back_num lit : reads_back (JNum lit).
Proof.
  intros n [|fuel] d rest [Hv Hn] _ Hr Hf; [lia|]. cbn [print parse_value].
  destruct lit as [|c r]; [done|]. pose proof Hn as Hn'. cbn [str_forallb] in Hn'. apply andb_prop in Hn' as [Hc _].
  rewrite str_app_cons. cbn [skip_ws].
  assert (is_ws c = false) as -> by (destruct (is_ws c) eqn:E; [apply ws_not_num in E; by rewrite Hc in E|done]).
  assert (forall b, is_numchar (ascii_of_byte b) = false -> bool_decide (c = ascii_of_byte b) = false) as Hne.
  { intros b Hb. apply bool_decide_eq_false_2. intros ->. by rewrite Hc in Hb. }
  unfold dq, lbracket, lbrace. rewrite !Hne by reflexivity.
  assert (forall b, is_numchar (ascii_of_byte b) = false -> byte_of (ascii_of_byte b) = b -> byte_of c =? b = false) as Hnb.
  { intros b Hb Hbb. apply Z.eqb_neq. intros E. rewrite <- Hbb in E. unfold is_numchar in *. by rewrite <- E, Hc in Hb. }
  rewrite !Hnb by reflexivity. rewrite <- str_app_cons, scan_number_app by done. done.
Qed.

Lemma reads_back_all j : reads_back j.
Proof.
  induction j using json_nested_ind.
  - intros n [|fuel] d rest ????; [lia|reflexivity].
  - intros n [|fuel] d rest ????; [lia|]. by destruct b.
  - apply reads_back_num.
  - intros n [|fuel] d rest Hraw _ _ Hf; [lia|]. cbn [print]. unfold quote. rewrite str_app_cons, str_app_assoc.
    cbn [parse_value]. change (skip_ws (String dq ?s)) with (String dq s). cbv iota.
    change (bool_decide (dq = dq)) with true. cbv iota. change (str1 dq +:+ rest) with (String dq rest).
    by rewrite Hraw.
  - by apply reads_back_arr.
  - by apply reads_back_obj.
Qed.

(** White space after the value does not matter ([Encoder.Encode] ends the line). *)
Lemma parse_print_ws j w :
  wf_json j -> height j <= maxNestingDepth -> all_ws w = true -> parse (print st 0 j +:+ w) = Ok j.
Proof.
  intros Hj Hh Hw. unfold parse.
  rewrite (reads_back_all j 0%nat (parse_fuel (print st 0 j +:+ w)) 0 w); [|done|lia| |unfold parse_fuel; lia].
  - cbn [mbind result_bind]. rewrite <- (str_app_nil_r w), skip_ws_app by done. done.
  - destruct w as [|c w]; [done|]. cbn [all_ws str_forallb] in Hw. apply andb_prop in Hw as [Hc _].
    by apply ws_not_num.
Qed.

Lemma parse_print j : wf_json j -> height j <= maxNestingDepth -> parse (print st 0 j) = Ok j.
Proof. intros Hj Hh. rewrite <- (str_app_nil_r (print st 0 j)). by apply parse_print_ws. Qed.
End print_parse.

(** ** The literals the encoder writes *)

Lemma scan_string_plain m t raw r :
  str_forallb (fun c => negb (is_ascii c)) m = true -> scan_string t = Some (raw, r) ->
  scan_string (m +:+ t) = Some (m +:+ raw, r).
Proof.
  intros Hm Ht. induction m as [|c m IH]; [done|]. cbn [str_forallb] in Hm. apply andb_prop in Hm as [Hc Hm].
  apply negb_true_iff in Hc. unfold is_ascii in Hc. apply Z.ltb_ge in Hc.
  rewrite !str_app_cons. cbn [scan_string].
  rewrite !bool_decide_eq_false_2 by (intros ->; vm_compute in Hc; done).
  rewrite (proj2 (Z.ltb_ge _ _)) by lia. by rewrite IH.
Qed.

(** An escape is scanned in one step. *)
Lemma scan_string_escape_ascii c t :
  is_ascii c = true ->
  scan_string (escape_ascii c +:+ t) = ('(raw, r) ← scan_string t; Some (escape_ascii c +:+ raw, r)).
Proof. destruct c as [[] [] [] [] [] [] [] []]; intros Hc; try discriminate Hc; reflexivity. Qed.

Lemma scan_string_u h t raw r :
  h ∈ ["2028"; "2029"; "fffd"] -> scan_string t = Some (raw, r) ->
  scan_string ((str2 bslash letter_u +:+ h) +:+ t) = Some ((str2 bslash letter_u +:+ h) +:+ raw, r).
Proof.
  intros Hh Ht.
  transitivity ('(raw, r) ← scan_string t; Some ((str2 bslash letter_u +:+ h) +:+ raw, r)); [|by rewrite Ht].
  repeat (apply elem_of_cons in Hh as [->|Hh]; [reflexivity|]). by apply not_elem_of_nil in Hh.
Qed.

Lemma scan_string_escape_chunk k t raw r :
  wf_chunk k -> scan_string t = Some (raw, r) ->
  scan_string (escape_chunk k +:+ t) = Some (escape_chunk k +:+ raw, r).
Proof.
  intros Hk Ht. destruct k as [c|m|c]; cbn [escape_chunk].
  - by rewrite scan_string_escape_ascii, Ht.
  - destruct (bool_decide (m = line_sep)); [|destruct (bool_decide (m = par_sep))];
      [by apply scan_string_u; [set_solver|]..|]. destruct Hk as [_ Hk]. by apply scan_string_plain.
  - by apply scan_string_u; [set_solver|].
Qed.

Lemma raw_ok_escape s : raw_ok (escape s).
Proof.
  intros t. unfold escape. pose proof (chunks_wf s) as H. induction H as [|k l Hk _ IH]; [done|].
  cbn [flatten foldr]. fold (flatten escape_chunk l). rewrite str_app_assoc.
  by apply scan_string_escape_chunk.
Qed.

(** Decimal integers. *)
Lemma pretty_N_char_digit n : (n < 10)%N -> pretty_N_char n = digit_char (Z.of_N n).
Proof.
  intros Hn. assert (Forall (fun d => pretty_N_char (Z.to_N d) = digit_char d) (seqZ 0 10)) as H by repeat constructor.
  rewrite <- (proj1 (Forall_forall _ _) H (Z.of_N n)) by (apply elem_of_seqZ; lia). by rewrite N2Z.id.
Qed.

Lemma pretty_N_go_value x s : dec_value 0 (pretty_N_go x s) = dec_value (Z.of_N x) s.
Proof.
  revert s. induction (N.lt_wf_0 x) as [x _ IH]. intros s.
  destruct (decide (x = 0)%N) as [->|Hx]; [by rewrite pretty_N_go_0|].
  rewrite pretty_N_go_step by lia. rewrite IH by (apply N.div_lt; lia). cbn [dec_value].
  pose proof (N.mod_lt x 10 ltac:(done)). pose proof (N.div_mod x 10 ltac:(done)).
  set (m := (x `mod` 10)%N) in *. set (q := (x `div` 10)%N) in *. clearbody m q.
  rewrite pretty_N_char_digit, digit_val_char by lia. cbn [mbind option_bind]. f_equal. lia.
Qed.

(** A positive number starts with a digit other than zero, and only digits follow. *)
Lemma pretty_N_go_head x s :
  (0 < x)%N -> all_digits s = true ->
  exists c r, pretty_N_go x s = String c r /\ c <> char0 /\ is_digit (byte_of c) = true /\ all_digits r = true.
Proof.
  revert s. induction (N.lt_wf_0 x) as [x _ IH]. intros s Hx Hs. rewrite pretty_N_go_step by lia.
  pose proof (N.mod_lt x 10 ltac:(done)) as Hm. pose proof (N.div_mod x 10 ltac:(done)) as Hdm.
  assert (x `div` 10 < x)%N as Hlt by (apply N.div_lt; lia).
  set (m := (x `mod` 10)%N) in *. set (q := (x `div` 10)%N) in *. clearbody m q.
  assert (is_digit (byte_of (pretty_N_char m)) = true) as Hd.
  { rewrite pretty_N_char_digit by done.
    pose proof (digit_val_char (Z.of_N m) ltac:(lia)) as H. unfold digit_val in H.
    by destruct (is_digit _). }
  destruct (decide (q = 0)%N) as [E|E].
  - rewrite E, pretty_N_go_0. do 2 eexists. split; [done|]. split; [|done].
    rewrite pretty_N_char_digit by done. intros Hc. apply (f_equal digit_val) in Hc.
    rewrite digit_val_char in Hc by lia. change (digit_val char0) with (Some 0) in Hc. injection Hc. lia.
  - apply IH; [done|lia|]. unfold all_digits in *. cbn [str_forallb]. by rewrite Hd.
Qed.

Lemma pretty_N_shape n :
  (exists c r, pretty n = String c r /\ c <> char0 /\ is_digit (byte_of c) = true /\ all_digits r = true) \/
  (n = 0%N /\ pretty n = "0").
Proof.
  destruct (decide (n = 0)%N) as [->|Hn]; [by right|]. left.
  unfold pretty, pretty_N. rewrite decide_False by done. apply pretty_N_go_head; [lia|done].
Qed.

Lemma pretty_N_value n : dec_value 0 (pretty n) = Some (Z.of_N n).
Proof.
  destruct (decide (n = 0)%N) as [->|Hn]; [done|]. unfold pretty, pretty_N. rewrite decide_False by done.
  by rewrite pretty_N_go_value.
Qed.

Lemma digits_numchars s : all_digits s = true -> str_forallb is_numchar s = true.
Proof.
  unfold all_digits, is_numchar. induction s as [|c s IH]; [done|]. cbn [str_forallb].
  intros [-> Hs]%andb_prop. by rewrite IH.
Qed.

Lemma digit_not_dash c : is_digit (byte_of c) = true -> c <> dash.
Proof. by intros H ->. Qed.

(** The decimal form of a positive number, after an optional sign. *)
Lemma positive_literal p :
  num_ok (pretty (Npos p)) /\ num_ok (String dash (pretty (Npos p))) /\
  strip_minus (pretty (Npos p)) = pretty (Npos p) /\ pretty (Npos p) <> "".
Proof.
  destruct (pretty_N_shape (Npos p)) as [(c & r & -> & Hc & Hd & Hr)|[? _]]; [|done].
  assert (strip_minus (String c r) = String c r) as Hs.
  { cbn [strip_minus]. rewrite bool_decide_eq_false_2; [done|by apply digit_not_dash]. }
  assert (valid_number (String c r) = true) as Hv.
  { unfold valid_number. rewrite Hs, bool_decide_eq_false_2, Hd by done.
    rewrite <- (str_app_nil_r r), span_digits_app by done. done. }
  assert (str_forallb is_numchar (String c r) = true) as Hn.
  { apply digits_numchars. unfold all_digits in *. cbn [str_forallb]. by rewrite Hd. }
  split_and!; [done| |done|done]. split.
  - unfold valid_number. change (strip_minus (String dash ?s)) with s. unfold valid_number in Hv.
    by rewrite Hs in Hv.
  - cbn [str_forallb] in *. by rewrite Hn.
Qed.

Lemma itoa_literal z : num_ok (itoa z).
Proof. destruct z as [|p|p]; [done|apply positive_literal..]. Qed.

Lemma ParseInt_itoa z : in_s 64 z -> ParseInt (itoa z) = Some z.
Proof.
  intros Hz. unfold in_s in Hz. change (2 ^ (64 - 1)) with (2 ^ 63) in Hz.
  destruct z as [|p|p]; [done|..]; destruct (positive_literal p) as (_ & _ & Hs & Hne);
    pose proof (pretty_N_value (Npos p)) as Hv; unfold ParseInt.
  - change (itoa (Z.pos p)) with (pretty (N.pos p)).
    rewrite Hs, bool_decide_eq_false_2, Hv by done. cbn [mbind option_bind].
    rewrite bool_decide_eq_true_2 by done. cbv zeta. change (Z.of_N (N.pos p)) with (Z.pos p).
    by rewrite (proj2 (Z.leb_le _ _)), (proj2 (Z.ltb_lt _ _)) by lia.
  - change (itoa (Z.neg p)) with (String dash (pretty (N.pos p))).
    change (strip_minus (String dash ?s)) with s. rewrite bool_decide_eq_false_2, Hv by done.
    cbn [mbind option_bind]. rewrite bool_decide_eq_false_2.
    2:{ intros E. apply (f_equal String.length) in E. cbn in E. lia. }
    cbv zeta. change (- Z.of_N (N.pos p)) with (Z.neg p).
    by rewrite (proj2 (Z.leb_le _ _)), (proj2 (Z.ltb_lt _ _)) by lia.
Qed.
