(* ===== verification/JsonCodec.v ===== *)
(** * Encoding Go values as JSON and decoding JSON into Go values

    [encoding/json] works by reflection: a value carries its type.  [val] is such a value
    for the types the program marshals: strings, int, bool, [time.Time], slices,
    [map[string]string] and structs without tags.  A slice carries the zero value of its
    elements and the elements that lie between its length and its capacity, because
    decoding a second array into the same slice reuses them. *)

From S2P Require Import Prelude GoStd GoTime Json.

(** ** Values *)

Inductive val :=
| VString (s : string)
| VInt (z : Z)
| VBool (b : bool)
| VTime (t : time)
| VSlice (zero : val) (contents : option (list val * list val))
| VMap (m : option (gmap string string))
| VStruct (fields : list (string * val)).

(** ** Encoding *)

Inductive json_error :=
| SyntaxError
| UnmarshalTypeError
| TimeError (e : time_error).
#[export] Instance json_error_eq_dec : EqDecision json_error.
Proof. solve_decision. Defined.

Definition str_le (a b : string) : Prop := String.leb a b = true.
#[export] Instance str_le_dec a b : Decision (str_le a b).
Proof. unfold str_le. apply _. Defined.

(** The entries of a map, sorted by key. *)
Definition sorted_entries (m : gmap string string) : list (string * string) :=
  merge_sort (fun p q => str_le p.1 q.1) (map_to_list m).

Section encode.
(** The offset of the local zone from UTC, in minutes, at an instant. *)
Variable zone : time -> Z.

Fixpoint encode (v : val) : result json_error json :=
  match v with
  | VString s => Ok (JStr (escape s))
  | VInt z => Ok (JNum (itoa z))
  | VBool b => Ok (JBool b)
  | VTime t => match time_text (zone t) t with Ok s => Ok (JStr s) | Err e => Err (TimeError e) end
  | VSlice _ None => Ok JNull
  | VSlice _ (Some (l, _)) =>
      l ← mapM encode l; Ok (JArr l)
  | VMap None => Ok JNull
  | VMap (Some m) => Ok (JObj ((fun p => (escape p.1, JStr (escape p.2))) <$> sorted_entries m))
  | VStruct fs =>
      l ← mapM (fun p => j ← encode p.2; Ok (escape p.1, j)) fs; Ok (JObj l)
  end.

(** [json.MarshalIndent(v, "", "  ")] and [json.Marshal(v)]. *)
Definition MarshalIndent (v : val) : result json_error string :=
  j ← encode v; Ok (print indented 0 j).
Definition Marshal (v : val) : result json_error string :=
  j ← encode v; Ok (print compact 0 j).
End encode.

(** ** Decoding *)

(** [foldName]: ASCII letters in upper case; of the other characters only the long s and
    the Kelvin sign fold to ASCII. *)
Definition upper_ascii (c : Ascii.ascii) : Ascii.ascii :=
  if is_lower (byte_of c) then ascii_of_byte (byte_of c - 32) else c.
Definition fold_chunk (k : chunk) : string :=
  match k with
  | CAscii c => str1 (upper_ascii c)
  | CMulti m =>
      if bool_decide (m = EncodeRune 383) then "S"
      else if bool_decide (m = EncodeRune 8490) then "K" else m
  | CBad _ => EncodeRune RuneError
  end.
Definition foldName (s : string) : string := flatten fold_chunk (chunks s).

(** The field a key selects: the one of that name, else the first whose name folds alike. *)
Definition find_field (key : string) (fs : list (string * val)) : option nat :=
  match list_find (fun p => p.1 = key) fs with
  | Some (i, _) => Some i
  | None => fst <$> list_find (fun p => foldName p.1 = foldName key) fs
  end.

(** The value after decoding, and whether an [UnmarshalTypeError] was saved: decoding goes
    on after such an error, while an error of [Time.UnmarshalJSON] ends it. *)
Definition decoded (A : Type) : Type := result json_error (A * bool).

(** The next element to decode into: an existing one, or a zero value. *)
Definition next_elem (zero : val) (cur : list val) : val * list val :=
  match cur with [] => (zero, []) | v :: cur => (v, cur) end.

Section containers.
Variable dec : json -> val -> decoded val.

Fixpoint decode_elems (zero : val) (js : list json) (cur : list val) : decoded (list val) :=
  match js with
  | [] => Ok ([], false)
  | j :: js =>
      let '(v, cur) := next_elem zero cur in
      '(v, e1) ← dec j v; '(l, e2) ← decode_elems zero js cur; Ok (v :: l, e1 || e2)
  end.

(** Every value of a map is decoded into a zero string. *)
Fixpoint decode_entries (ms : list (string * json)) (m : gmap string string) : decoded (gmap string string) :=
  match ms with
  | [] => Ok (m, false)
  | (k, j) :: ms =>
      '(v, e1) ← dec j (VString "");
      '(m, e2) ← decode_entries ms (match v with VString s => <[unquote k := s]> m | _ => m end);
      Ok (m, e1 || e2)
  end.

(** Unknown keys are skipped; a key that appears twice is decoded twice. *)
Fixpoint decode_fields (ms : list (string * json)) (fs : list (string * val)) : decoded (list (string * val)) :=
  match ms with
  | [] => Ok (fs, false)
  | (k, j) :: ms =>
      match i ← find_field (unquote k) fs; p ← fs !! i; Some (i, p) with
      | None => decode_fields ms fs
      | Some (i, (name, v)) =>
          '(v, e1) ← dec j v; '(fs, e2) ← decode_fields ms (<[i := (name, v)]> fs); Ok (fs, e1 || e2)
      end
  end.
End containers.

Fixpoint decode (j : json) (v : val) : decoded val :=
  match j, v with
  | JNull, VSlice zero _ => Ok (VSlice zero None, false)
  | JNull, VMap _ => Ok (VMap None, false)
  | JNull, _ => Ok (v, false)
  | JStr raw, VTime _ =>
      match parse_RFC3339 raw with Some t => Ok (VTime t, false) | None => Err (TimeError BadTime) end
  | _, VTime _ => Err (TimeError NotAString)
  | JStr raw, VString _ => Ok (VString (unquote raw), false)
  | JBool b, VBool _ => Ok (VBool b, false)
  | JNum lit, VInt _ =>
      match ParseInt lit with Some z => Ok (VInt z, false) | None => Ok (v, true) end
  | JArr [], VSlice zero _ => Ok (VSlice zero (Some ([], [])), false)
  | JArr js, VSlice zero contents =>
      let '(vis, hid) := default ([], []) contents in
      '(l, e) ← decode_elems decode zero js (vis ++ hid);
      Ok (VSlice zero (Some (l, drop (length js) (vis ++ hid))), e)
  | JObj ms, VMap m => '(m, e) ← decode_entries decode ms (default ∅ m); Ok (VMap (Some m), e)
  | JObj ms, VStruct fs => '(fs, e) ← decode_fields decode ms fs; Ok (VStruct fs, e)
  | _, _ => Ok (v, true)
  end.

(** [json.Unmarshal]: the text is checked first; the first saved error is returned after
    decoding. *)
Definition Unmarshal (data : string) (v : val) : result json_error val :=
  match parse data with
  | Err _ => Err SyntaxError
  | Ok j =>
      '(v, saved) ← decode j v;
      if (saved : bool) then Err UnmarshalTypeError else Ok v
  end.

(** Two arrays under the same key: the second is decoded into the elements of the first. *)
Example decode_twice :
  Unmarshal (print compact 0 (JObj [("A", JArr [JObj [("x", JNum "1")]; JObj [("y", JNum "2")]]);
                                    ("a", JArr [JObj [("Y", JNum "3")]])]))
    (VStruct [("A", VSlice (VStruct [("X", VInt 0); ("Y", VInt 0)]) None)]) =
  Ok (VStruct [("A", VSlice (VStruct [("X", VInt 0); ("Y", VInt 0)])
                       (Some ([VStruct [("X", VInt 1); ("Y", VInt 3)]], [VStruct [("X", VInt 0); ("Y", VInt 2)]])))]).
Proof. vm_compute. reflexivity. Qed.

(** ** A value is read back from its encoding *)

(** The text of a time contains nothing that is escaped. *)
Definition is_plain (c : Ascii.ascii) : bool :=
  (32 <=? byte_of c) && negb (bool_decide (c = dq)) && negb (bool_decide (c = bslash)).

Lemma str_forallb_app f (a b : string) : str_forallb f (a +:+ b) = str_forallb f a && str_forallb f b.
Proof. induction a as [|c a IH]; [done|]. rewrite str_app_cons. cbn [str_forallb]. by rewrite IH, andb_assoc. Qed.

Lemma scan_string_all_plain s t : str_forallb is_plain s = true -> scan_string (s +:+ String dq t) = Some (s, t).
Proof.
  induction s as [|c s IH]; [done|]. cbn [str_forallb]. intros [Hc Hs]%andb_prop.
  unfold is_plain in Hc. apply andb_prop in Hc as [[Hc H1]%andb_prop H2]. apply Z.leb_le in Hc.
  rewrite str_app_cons. cbn [scan_string].
  destruct (bool_decide (c = dq)), (bool_decide (c = bslash)); try done.
  rewrite (proj2 (Z.ltb_ge _ _)) by lia. by rewrite IH.
Qed.

Lemma digits_plain s : all_digits s = true -> str_forallb is_plain s = true.
Proof.
  unfold all_digits. induction s as [|c s IH]; [done|]. cbn [str_forallb]. intros [Hc Hs]%andb_prop.
  rewrite IH by done. rewrite andb_true_r. unfold is_plain.
  assert (c <> dq /\ c <> bslash) as [H1 H2] by (split; intros ->; vm_compute in Hc; done).
  rewrite !bool_decide_eq_false_2 by done. unfold is_digit in Hc. apply andb_prop in Hc as [Hc%Z.leb_le _].
  by rewrite (proj2 (Z.leb_le _ _)) by lia.
Qed.

Lemma time_text_plain off t s : time_text off t = Ok s -> str_forallb is_plain s = true.
Proof.
  unfold time_text. destruct (_ || _) eqn:Ey; [done|]. apply orb_false_elim in Ey as [?%Z.ltb_ge ?%Z.ltb_ge].
  case_match; [done|]. intros [= <-]. unfold Format_RFC3339Nano, seconds_text.
  rewrite year_text_small by lia. rewrite !str_forallb_app.
  rewrite !(digits_plain (digits _ _)) by (apply all_digits_digits).
  change (str_forallb is_plain "-") with true. change (str_forallb is_plain ":") with true.
  change (str_forallb is_plain "T") with true. cbn [andb].
  apply andb_true_intro. split.
  - unfold fraction_text. case_match; [done|]. rewrite str_forallb_app.
    apply andb_true_intro. split; [done|]. apply digits_plain, all_digits_strip, all_digits_digits.
  - unfold zone_text. case_match; [done|]. rewrite !str_forallb_app.
    rewrite !(digits_plain (digits _ _)) by (apply all_digits_digits). by case_match.
Qed.

Lemma raw_ok_time off t s : time_text off t = Ok s -> raw_ok s.
Proof. intros H u. eapply scan_string_all_plain, time_text_plain, H. Qed.

Lemma unquote_escape_valid s : valid_utf8 s = true -> unquote (escape s) = s.
Proof. intros. by rewrite unquote_escape, ToValidUTF8_valid. Qed.

Section roundtrip.
Variable zone : time -> Z.

(** [v] is a value of the type whose zero value is [z], at most [n] levels deep, that JSON
    can carry: strings and keys are UTF-8, integers have 64 bits, times have a text. *)
Fixpoint fits (n : nat) (z v : val) : Prop :=
  match z, v with
  | VString _, VString s => valid_utf8 s = true
  | VInt _, VInt i => in_s 64 i
  | VBool _, VBool _ => True
  | VTime _, VTime t => is_ok (time_text (zone t) t) = true
  | VSlice z0 _, VSlice z1 None => z0 = z1
  | VMap _, VMap None => True
  | _, _ =>
      match n, z, v with
      | S n, VSlice z0 None, VSlice z1 (Some (l, hid)) => z0 = z1 /\ hid = [] /\ Forall (fits n z0) l
      | S _, VMap None, VMap (Some m) => map_Forall (fun k s => valid_utf8 k = true /\ valid_utf8 s = true) m
      | S n, VStruct fz, VStruct fv =>
          Forall2 (fun p q => p.1 = q.1 /\ fits n p.2 q.2) fz fv /\
          NoDup fv.*1 /\ Forall (fun name => valid_utf8 name = true) fv.*1
      | _, _, _ => False
      end
  end.

(** The encoding exists, is well formed and decodes to the value. *)
Definition carries (n : nat) (z v : val) : Prop :=
  exists j, encode zone v = Ok j /\ wf_json j /\ height j <= Z.of_nat n /\ decode j z = Ok (v, false).

Lemma carries_elems n z l :
  Forall (carries n z) l ->
  exists js, mapM (encode zone) l = Ok js /\ Forall wf_json js /\
    Forall (fun j => height j <= Z.of_nat n) js /\ decode_elems decode z js [] = Ok (l, false).
Proof.
  induction 1 as [|v l (j & E & Hw & Hh & D) _ (js & Es & Hws & Hhs & Ds)]; [by exists []|].
  exists (j :: js). change (mapM (encode zone) (v :: l)) with (j ← encode zone v; js ← mapM (encode zone) l; Ok (j :: js)).
  rewrite E. cbn [mbind result_bind]. rewrite Es. cbn [mbind result_bind decode_elems next_elem].
  rewrite D. cbn [mbind result_bind]. rewrite Ds. by split_and!; [|constructor..|].
Qed.

Lemma find_field_pre pre name v fs :
  name ∉ pre.*1 -> find_field name (pre ++ (name, v) :: fs) = Some (length pre).
Proof.
  intros Hn. unfold find_field.
  assert (list_find (fun p => p.1 = name) (pre ++ (name, v) :: fs) = Some (length pre, (name, v))) as ->; [|done].
  apply list_find_Some. split_and!; [by rewrite list_lookup_middle|done|].
  intros k y Hk Hlt E. rewrite lookup_app_l in Hk by done. apply Hn.
  rewrite <- E. apply list_elem_of_fmap_2. by eapply list_elem_of_lookup_2.
Qed.

Lemma carries_fields n pre fz fv :
  Forall2 (fun p q => p.1 = q.1 /\ carries n p.2 q.2) fz fv ->
  NoDup (pre ++ fv).*1 -> Forall (fun name => valid_utf8 name = true) fv.*1 ->
  exists js, mapM (fun p => j ← encode zone p.2; Ok (escape p.1, j)) fv = Ok js /\
    Forall (fun p => raw_ok p.1 /\ wf_json p.2) js /\ Forall (fun p => height p.2 <= Z.of_nat n) js /\
    decode_fields decode js (pre ++ fz) = Ok (pre ++ fv, false).
Proof.
  intros H. revert pre. induction H as [|[nm z] [nm' v] fz fv [Hn (j & E & Hw & Hh & D)] _ IH]; intros pre Hnd Hv.
  { by exists []. }
  cbn [fst snd] in *. subst nm'. rewrite fmap_cons in Hv. apply Forall_cons in Hv as [Hnm Hv]. cbn in Hnm.
  destruct (IH (pre ++ [(nm, v)])) as (js & Es & Hws & Hhs & Ds); [by rewrite <- app_assoc|done|].
  exists ((escape nm, j) :: js).
  change (mapM ?f ((nm, v) :: fv)) with (x ← (j ← encode zone v; Ok (escape nm, j)); js ← mapM f fv; Ok (x :: js)).
  rewrite E. cbn [mbind result_bind]. rewrite Es. cbn [mbind result_bind decode_fields].
  rewrite fmap_app, fmap_cons in Hnd. cbn in Hnd. apply NoDup_app in Hnd as (_ & Hnd & _).
  rewrite unquote_escape_valid by done. rewrite find_field_pre.
  2:{ intros Hin. apply (Hnd nm Hin). constructor. }
  cbn [mbind option_bind]. rewrite list_lookup_middle by done. cbn [mbind option_bind].
  rewrite D. cbn [mbind result_bind]. rewrite insert_app_r_alt, Nat.sub_diag by done. cbn [list_insert insert].
  rewrite <- !app_assoc in Ds. cbn in Ds. rewrite Ds.
  split_and!; [done|constructor; [by split; [apply raw_ok_escape|]|done]|by constructor|done].
Qed.

Definition encode_entry (p : string * string) : string * json := (escape p.1, JStr (escape p.2)).

Lemma decode_entries_encoded l m :
  Forall (fun p => valid_utf8 p.1 = true /\ valid_utf8 p.2 = true) l ->
  decode_entries decode (encode_entry <$> l) m = Ok (foldl (fun m p => <[p.1 := p.2]> m) m l, false).
Proof.
  intros H. revert m. induction H as [|[k s] l [Hk Hs] _ IH]; intros m; [done|].
  rewrite fmap_cons. cbn [fst snd] in *. cbn [decode_entries encode_entry decode mbind result_bind fst snd].
  by rewrite !unquote_escape_valid, IH by done.
Qed.

Lemma foldl_insert_map (l : list (string * string)) :
  NoDup l.*1 -> foldl (fun (m : gmap string string) p => <[p.1 := p.2]> m) ∅ l = list_to_map l.
Proof.
  induction l as [|[k s] l IH] using rev_ind; [done|]. rewrite fmap_app. intros (H & Hk & _)%NoDup_app.
  rewrite foldl_snoc, IH by done. cbn. rewrite list_to_map_snoc; [done|].
  intros Hin. apply (Hk k Hin). constructor.
Qed.

Lemma carries_map n m :
  map_Forall (fun k s => valid_utf8 k = true /\ valid_utf8 s = true) m ->
  carries (S n) (VMap None) (VMap (Some m)).
Proof.
  intros Hm. exists (JObj (encode_entry <$> sorted_entries m)).
  assert (sorted_entries m ≡ₚ map_to_list m) as Hp by apply merge_sort_Permutation.
  assert (Forall (fun p => valid_utf8 p.1 = true /\ valid_utf8 p.2 = true) (sorted_entries m)) as Hv.
  { rewrite Hp. apply Forall_forall. intros [k s] Hin%elem_of_map_to_list. exact (Hm _ _ Hin). }
  split_and!; [done|..].
  - apply wf_json_obj, Forall_fmap. eapply Forall_impl; [exact Hv|]. intros [k s] _. split; apply raw_ok_escape.
  - cbn [height]. assert (foldr (fun p h => Z.max (height p.2) h) 0 (encode_entry <$> sorted_entries m) <= 0); [|lia].
    apply (foldr_max_le (fun p : string * json => height p.2)). split; [|done]. apply Forall_fmap.
    by apply Forall_forall.
  - cbn [decode]. change (default ∅ (@None (gmap string string))) with (∅ : gmap string string).
    rewrite decode_entries_encoded by done.
    assert (NoDup (sorted_entries m).*1) as Hnd by (rewrite Hp; apply NoDup_fst_map_to_list).
    cbn [mbind result_bind]. rewrite foldl_insert_map by done.
    by rewrite (list_to_map_proper _ (map_to_list m)), list_to_map_to_list.
Qed.

Lemma carries_string n s0 s : valid_utf8 s = true -> carries n (VString s0) (VString s).
Proof.
  intros Hs. eexists. split_and!; [done|apply raw_ok_escape|cbn; lia|]. cbn [decode]. by rewrite unquote_escape_valid.
Qed.

Lemma carries_int n i0 i : in_s 64 i -> carries n (VInt i0) (VInt i).
Proof.
  intros Hi. eexists. split_and!; [done|apply itoa_literal|cbn; lia|]. cbn [decode]. by rewrite ParseInt_itoa.
Qed.

Lemma carries_bool n b0 b : carries n (VBool b0) (VBool b).
Proof. eexists. split_and!; [done|done|cbn; lia|done]. Qed.

Lemma carries_time n t0 t : is_ok (time_text (zone t) t) = true -> carries n (VTime t0) (VTime t).
Proof.
  destruct (time_text _ _) as [s|] eqn:E; [|done]. intros _. exists (JStr s). unfold encode. rewrite E.
  split_and!; [done|by eapply raw_ok_time|cbn; lia|]. cbn [decode]. by rewrite (parse_time_text _ _ _ E).
Qed.

Lemma carries_nil_slice n z c : carries n (VSlice z c) (VSlice z None).
Proof. eexists. split_and!; [done|done|cbn; lia|done]. Qed.

Lemma carries_nil_map n m : carries n (VMap m) (VMap None).
Proof. eexists. split_and!; [done|done|cbn; lia|done]. Qed.

Lemma carries_slice n z l : Forall (carries n z) l -> carries (S n) (VSlice z None) (VSlice z (Some (l, []))).
Proof.
  intros (js & E & Hw & Hh & D)%carries_elems. exists (JArr js). cbn [encode]. rewrite E.
  split_and!; [done|by apply wf_json_arr|..].
  - cbn [height]. assert (foldr (fun j h => Z.max (height j) h) 0 js <= Z.of_nat n); [|lia].
    apply foldr_max_le. split; [done|lia].
  - destruct js as [|j js]; [by destruct l|]. cbn [decode default from_option app].
    change (default ([], []) (@None (list val * list val))) with (@nil val, @nil val). cbn [app].
    by rewrite D.
Qed.

Lemma carries_struct n fz fv :
  Forall2 (fun p q => p.1 = q.1 /\ carries n p.2 q.2) fz fv ->
  NoDup fv.*1 -> Forall (fun name => valid_utf8 name = true) fv.*1 ->
  carries (S n) (VStruct fz) (VStruct fv).
Proof.
  intros H Hnd Hv. destruct (carries_fields n [] fz fv H Hnd Hv) as (js & E & Hw & Hh & D).
  exists (JObj js). cbn [encode]. rewrite E. split_and!; [done|by apply wf_json_obj| |].
  - cbn [height]. assert (foldr (fun p h => Z.max (height p.2) h) 0 js <= Z.of_nat n); [|lia].
    apply (foldr_max_le (fun p : string * json => height p.2)). split; [done|lia].
  - cbn [decode]. cbn [app] in D. by rewrite D.
Qed.

Lemma fits_carries n z v : fits n z v -> carries n z v.
Proof.
  revert z v. induction n as [|n IH]; intros z v Hf;
    destruct z as [| | | |z c|[]|fz], v as [| | | |z' [[l hid]|]|[m|]|fv]; cbn [fits] in Hf;
    try destruct c; try done; subst;
    try solve [by apply carries_string|by apply carries_int|by apply carries_bool|by apply carries_time
              |by apply carries_nil_slice|by apply carries_nil_map|by apply carries_map].
  - destruct Hf as (-> & -> & Hl). apply carries_slice. eapply Forall_impl; [exact Hl|]. auto.
  - destruct Hf as (H & Hnd & Hv). apply carries_struct; [|done|done].
    eapply Forall2_impl; [exact H|]. intros p q [Hn Hp]. auto.
Qed.

(** Decoding the text of a value into the zero value of its type gives the value back,
    whatever the layout. *)
Lemma Unmarshal_print_ws st n z v w :
  layout_ok st -> Z.of_nat n <= maxNestingDepth -> all_ws w = true -> fits n z v ->
  exists j, encode zone v = Ok j /\ Unmarshal (print st 0 j +:+ w) z = Ok v.
Proof.
  intros Hst Hn Hws (j & E & Hw & Hh & D)%fits_carries. exists j. split; [done|].
  unfold Unmarshal. rewrite parse_print_ws by (done || lia). by rewrite D.
Qed.

Lemma Unmarshal_print st n z v :
  layout_ok st -> Z.of_nat n <= maxNestingDepth -> fits n z v ->
  exists j, encode zone v = Ok j /\ Unmarshal (print st 0 j) z = Ok v.
Proof.
  intros Hst Hn Hf. destruct (Unmarshal_print_ws st n z v "" Hst Hn eq_refl Hf) as (j & E & H).
  exists j. by rewrite str_app_nil_r in H.
Qed.
End roundtrip.

(** ** Decoding keeps the type of a value *)

Inductive ty :=
| TString | TInt | TBool | TTime
| TSlice (t : ty)
| TMap
| TStruct (fields : list (string * ty)).

Inductive typed : ty -> val -> Prop :=
| typed_string s : typed TString (VString s)
| typed_int z : typed TInt (VInt z)
| typed_bool b : typed TBool (VBool b)
| typed_time t : typed TTime (VTime t)
| typed_nil t z : typed t z -> typed (TSlice t) (VSlice z None)
| typed_slice t z l hid : typed t z -> Forall (typed t) (l ++ hid) -> typed (TSlice t) (VSlice z (Some (l, hid)))
| typed_map m : typed TMap (VMap m)
| typed_struct ts fs : Forall2 (fun p q => p.1 = q.1 /\ typed p.2 q.2) ts fs -> typed (TStruct ts) (VStruct fs).
#[export] Hint Constructors typed : go.

(** The result of a decoder that keeps types and fails only on times. *)
Definition keeps (t : ty) (r : decoded val) : Prop :=
  match r with Ok (v, _) => typed t v | Err e => exists te, e = TimeError te end.
Definition keeps_all {A} (Q : A -> Prop) (r : decoded A) : Prop :=
  match r with Ok (a, _) => Q a | Err e => exists te, e = TimeError te end.

Lemma decode_elems_typed t zero js cur :
  Forall (fun j => forall t v, typed t v -> keeps t (decode j v)) js ->
  typed t zero -> Forall (typed t) cur -> keeps_all (Forall (typed t)) (decode_elems decode zero js cur).
Proof.
  intros H Hz. revert cur. induction H as [|j js Hj _ IH]; intros cur Hc; [constructor|]. cbn [decode_elems].
  destruct (next_elem zero cur) as [v cur'] eqn:En.
  assert (typed t v /\ Forall (typed t) cur') as [Hv Hc'].
  { destruct Hc as [|v0 cur0 ??]; cbn in En; by simplify_eq. }
  specialize (Hj t v Hv). destruct (decode j v) as [[v' e1]|e]; cbn in *; [|done].
  specialize (IH cur' Hc'). destruct (decode_elems decode zero js cur') as [[l e2]|e]; cbn in *; [|done].
  by constructor.
Qed.

Lemma decode_entries_typed ms m :
  Forall (fun p => forall t v, typed t v -> keeps t (decode p.2 v)) ms ->
  keeps_all (fun _ => True) (decode_entries decode ms m).
Proof.
  intros H. revert m. induction H as [|[k j] ms Hj _ IH]; intros m; [done|]. cbn [decode_entries].
  specialize (Hj TString (VString "") (typed_string _)). cbn [snd] in Hj.
  destruct (decode j (VString "")) as [[v e1]|e]; cbn [mbind result_bind]; [|done].
  specialize (IH (match v with VString s => <[unquote k := s]> m | _ => m end)).
  by destruct (decode_entries decode ms _) as [[]|].
Qed.

Lemma decode_fields_typed ts ms fs :
  Forall (fun p => forall t v, typed t v -> keeps t (decode p.2 v)) ms ->
  Forall2 (fun p q => p.1 = q.1 /\ typed p.2 q.2) ts fs ->
  keeps_all (fun fs => Forall2 (fun p q => p.1 = q.1 /\ typed p.2 q.2) ts fs) (decode_fields decode ms fs).
Proof.
  intros H. revert fs. induction H as [|[k j] ms Hj _ IH]; intros fs Hf; [done|]. cbn [decode_fields].
  destruct (find_field (unquote k) fs) as [i|]; cbn [mbind option_bind]; [|by apply IH].
  destruct (fs !! i) as [[name v]|] eqn:Ei; cbn [mbind option_bind]; [|by apply IH].
  destruct (Forall2_lookup_r _ _ _ _ _ Hf Ei) as ([name' t] & Et & Hn & Hv). cbn [fst snd] in *.
  specialize (Hj t v Hv). destruct (decode j v) as [[v' e1]|e]; cbn [keeps mbind result_bind] in *; [|done].
  assert (Forall2 (fun p q => p.1 = q.1 /\ typed p.2 q.2) ts (<[i := (name, v')]> fs)) as Hf'.
  { rewrite <- (list_insert_id ts i (name', t)) by done. by apply Forall2_insert. }
  specialize (IH _ Hf'). by destruct (decode_fields decode ms _) as [[]|].
Qed.

Lemma decode_typed j : forall t v, typed t v -> keeps t (decode j v).
Proof.
  induction j as [|b|lit|raw|js IH|ms IH] using json_nested_ind; intros t v Hv.
  - destruct Hv; cbn; auto with go.
  - destruct Hv; cbn; eauto with go.
  - destruct Hv; cbn; try case_match; cbn; eauto with go.
  - destruct Hv; cbn; try case_match; cbn; eauto with go.
  - destruct js as [|j js].
    { destruct Hv; cbn; eauto with go. }
    destruct Hv as [| | | |t z Hz|t z l hid Hz Hl| |]; cbn [decode]; try (cbn; by eauto with go).
    + change (default ([], []) (@None (list val * list val))) with (@nil val, @nil val). cbv iota.
      pose proof (decode_elems_typed t z (j :: js) [] IH Hz (Forall_nil_2 _)) as H. cbn [app] in *.
      destruct (decode_elems _ _ _ _) as [[l e]|]; cbn in *; [|done]. constructor; [done|].
      by rewrite app_nil_r.
    + change (default ([], []) (Some (l, hid))) with (l, hid). cbv iota.
      pose proof (decode_elems_typed t z (j :: js) (l ++ hid) IH Hz Hl) as H.
      destruct (decode_elems _ _ _ _) as [[l' e]|]; cbn -[drop] in *; [|done]. constructor; [done|].
      apply Forall_app_2; [done|]. by apply Forall_drop.
  - destruct Hv as [| | | | | |m|ts fs Hf]; cbn [decode]; try (cbn; by eauto with go).
    + pose proof (decode_entries_typed ms (default ∅ m) IH) as H.
      destruct (decode_entries _ _ _) as [[]|]; cbn in *; [constructor|done].
    + pose proof (decode_fields_typed ts ms fs IH Hf) as H.
      destruct (decode_fields _ _ _) as [[]|]; cbn in *; [by constructor|done].
Qed.

(** Unmarshalling returns a value of the type asked for or one of three errors, and the
    syntax error exactly when the text is not JSON. *)
Lemma Unmarshal_typed t data v :
  typed t v ->
  match Unmarshal data v with
  | Ok v' => typed t v' /\ exists j, parse data = Ok j
  | Err SyntaxError => parse data = Err Syntax
  | Err _ => exists j, parse data = Ok j
  end.
Proof.
  intros Hv. unfold Unmarshal. pose proof (parse_total data) as Ht. destruct (parse data) as [j|[]]; [|done|done].
  pose proof (decode_typed j t v Hv) as Hk. destruct (decode j v) as [[v' []]|e]; cbn in *; eauto.
  destruct Hk as [te ->]. eauto.
Qed.

(** ** Values of the program that fit *)

Definition utf8_ok (s : string) : Prop := valid_utf8 s = true.

Create HintDb fits.

Section fits.
Variable zone : time -> Z.

Lemma fits_string n z s : utf8_ok s -> fits zone n (VString z) (VString s).
Proof. by destruct n. Qed.
Lemma fits_int n z i : in_s 64 i -> fits zone n (VInt z) (VInt i).
Proof. by destruct n. Qed.
Lemma fits_bool n z b : fits zone n (VBool z) (VBool b).
Proof. by destruct n. Qed.
Lemma fits_time n z t : is_ok (time_text (zone t) t) = true -> fits zone n (VTime z) (VTime t).
Proof. by destruct n. Qed.

(** A struct fits when its fields do; the names are constants of the program. *)
Lemma fits_struct n fz fv :
  Forall2 (fun p q => p.1 = q.1 /\ fits zone n p.2 q.2) fz fv ->
  bool_decide (NoDup fv.*1) && forallb valid_utf8 fv.*1 = true -> fits zone (S n) (VStruct fz) (VStruct fv).
Proof.
  intros H [Hn%bool_decide_eq_true Hv]%andb_prop. cbn. split_and!; [done|done|].
  apply Forall_forall. intros x Hx. by eapply forallb_forall in Hv; [|apply list_elem_of_In].
Qed.
End fits.

#[export] Hint Resolve fits_string fits_int fits_bool fits_time : fits.
Ltac fits_fields :=
  apply fits_struct;
  [repeat (constructor; [split; [done|cbn [snd]; eauto with fits]|]); try constructor|vm_compute; reflexivity].
