(* ===== verification/Backend.v ===== *)
(** * Backends and the backend pool (src/pkg/backend/backend.go, pool.go)

    A [*Backend] is shared between the pool, the load balancers, the routes,
    the sessions and the health checker, so backends live in a heap: a pointer
    is an index into the heap, and a pool is a list of pointers. *)

From S2P Require Import Prelude.

(** ** Backend *)

Record Backend := mkBackend {
  name : string;
  address : string;
  weight : Z;
  activeConnections : Z;
  healthy : bool
}.
#[export] Instance eta_Backend : Eta Backend := fun b =>
  mkBackend (name b) (address b) (weight b) (activeConnections b) (healthy b).
#[export] Instance Backend_eq_dec : EqDecision Backend.
Proof. solve_decision. Defined.
#[export] Instance Backend_inhabited : Inhabited Backend :=
  populate (mkBackend "" "" 0 0 false).

(** The heap of backends; [p : bptr] is valid in [h] when [p < length h]. *)
Abbreviation bptr := nat.
Abbreviation heap := (list Backend).

Definition NewBackend (nm addr : string) (w : Z) : Backend :=
  mkBackend nm addr w 0 true.

(** Allocation of a backend in the heap: the new pointer and the new heap. *)
Definition alloc (b : Backend) (h : heap) : bptr * heap := (length h, h ++ [b]).

Definition Backend_Name (h : heap) (p : bptr) : string := name (h !!! p).
Definition Backend_Address (h : heap) (p : bptr) : string := address (h !!! p).
Definition Backend_Weight (h : heap) (p : bptr) : Z := weight (h !!! p).
Definition IsHealthy (h : heap) (p : bptr) : bool := healthy (h !!! p).
Definition ActiveConnections (h : heap) (p : bptr) : Z := activeConnections (h !!! p).

Definition MarkHealthy (p : bptr) (h : heap) : heap :=
  alter (fun b => b <| healthy := true |>) p h.
Definition MarkUnhealthy (p : bptr) (h : heap) : heap :=
  alter (fun b => b <| healthy := false |>) p h.
Definition IncrementConnections (p : bptr) (h : heap) : heap :=
  alter (fun b => b <| activeConnections ::= fun c => i64 (c + 1) |>) p h.
Definition DecrementConnections (p : bptr) (h : heap) : heap :=
  alter (fun b => b <| activeConnections ::= fun c => i64 (c - 1) |>) p h.

(** ** Pool *)

Record Pool := mkPool { backends : list bptr }.
#[export] Instance eta_Pool : Eta Pool := fun p => mkPool (backends p).

Definition NewPool : Pool := mkPool [].

Definition Pool_Add (b : bptr) (p : Pool) : Pool := p <| backends ::= fun l => l ++ [b] |>.

(** The loop of [Remove]: drop the first backend with the given name. *)
Fixpoint remove_first (h : heap) (nm : string) (l : list bptr) : option (list bptr) :=
  match l with
  | [] => None
  | b :: l' =>
      if bool_decide (Backend_Name h b = nm) then Some l'
      else match remove_first h nm l' with
           | Some r => Some (b :: r)
           | None => None
           end
  end.

Definition Pool_Remove (h : heap) (nm : string) (p : Pool) : bool * Pool :=
  match remove_first h nm (backends p) with
  | Some l => (true, p <| backends := l |>)
  | None => (false, p)
  end.

Fixpoint find_by_name (h : heap) (nm : string) (l : list bptr) : option bptr :=
  match l with
  | [] => None
  | b :: l' => if bool_decide (Backend_Name h b = nm) then Some b else find_by_name h nm l'
  end.

Definition Pool_Get (h : heap) (nm : string) (p : Pool) : option bptr :=
  find_by_name h nm (backends p).
Definition GetByName (h : heap) (nm : string) (p : Pool) : option bptr := Pool_Get h nm p.

Definition Pool_All (p : Pool) : list bptr := backends p.

(** The loop of [Healthy]: append the healthy backends to [result] in order. *)
Fixpoint collect_healthy (h : heap) (l acc : list bptr) : list bptr :=
  match l with
  | [] => acc
  | b :: l' => collect_healthy h l' (if IsHealthy h b then acc ++ [b] else acc)
  end.

Definition Healthy (h : heap) (p : Pool) : list bptr := collect_healthy h (backends p) [].

Definition Pool_Size (p : Pool) : Z := Z.of_nat (length (backends p)).

Fixpoint count_healthy (h : heap) (l : list bptr) (count : Z) : Z :=
  match l with
  | [] => count
  | b :: l' => count_healthy h l' (if IsHealthy h b then count + 1 else count)
  end.

Definition HealthySize (h : heap) (p : Pool) : Z := count_healthy h (backends p) 0.

(** A pool is well formed when its pointers are allocated. *)
Definition valid (h : heap) (p : bptr) : Prop := (p < length h)%nat.
Definition Pool_wf (h : heap) (p : Pool) : Prop := Forall (valid h) (backends p).

(** ** Lemmas on the heap *)

Lemma lookup_total_alter_eq (f : Backend -> Backend) (h : heap) (p : bptr) :
  valid h p -> alter f p h !!! p = f (h !!! p).
Proof.
  intros [b Hb]%lookup_lt_is_Some.
  rewrite !list_lookup_total_alt, list_lookup_alter_eq, Hb. done.
Qed.

Lemma lookup_total_alter_ne (f : Backend -> Backend) (h : heap) (p q : bptr) :
  p <> q -> alter f p h !!! q = h !!! q.
Proof. intros. rewrite !list_lookup_total_alt, list_lookup_alter_ne; done. Qed.

Lemma alter_valid (f : Backend -> Backend) (h : heap) (p q : bptr) :
  valid (alter f p h) q <-> valid h q.
Proof. unfold valid. by rewrite length_alter. Qed.

Lemma IsHealthy_mark h p q (v : bool) :
  valid h p ->
  IsHealthy (alter (fun b => b <| healthy := v |>) p h) q =
  if decide (p = q) then v else IsHealthy h q.
Proof.
  intros Hv. unfold IsHealthy. case_decide; subst.
  - by rewrite lookup_total_alter_eq.
  - by rewrite lookup_total_alter_ne.
Qed.

(** ** Lemmas on the pool *)

Lemma collect_healthy_acc h l acc :
  collect_healthy h l acc = acc ++ filter (fun b => IsHealthy h b = true) l.
Proof.
  revert acc. induction l as [|b l IH]; intros acc; simpl; [by rewrite app_nil_r|].
  rewrite IH, filter_cons. destruct (IsHealthy h b) eqn:E.
  - rewrite decide_True by done. by rewrite <- app_assoc.
  - by rewrite decide_False.
Qed.

Lemma Healthy_filter h p : Healthy h p = filter (fun b => IsHealthy h b = true) (backends p).
Proof. unfold Healthy. by rewrite collect_healthy_acc. Qed.

Lemma elem_of_Healthy h p b :
  b ∈ Healthy h p <-> b ∈ backends p /\ IsHealthy h b = true.
Proof. rewrite Healthy_filter, list_elem_of_filter. tauto. Qed.

Lemma count_healthy_acc h l c :
  count_healthy h l c = c + Z.of_nat (length (filter (fun b => IsHealthy h b = true) l)).
Proof.
  revert c. induction l as [|b l IH]; intros c; simpl; [lia|].
  rewrite IH, filter_cons. destruct (IsHealthy h b) eqn:E.
  - rewrite decide_True by done. simpl. lia.
  - by rewrite decide_False.
Qed.

Lemma HealthySize_length h p : HealthySize h p = Z.of_nat (length (Healthy h p)).
Proof. unfold HealthySize. by rewrite count_healthy_acc, Healthy_filter. Qed.

Lemma Healthy_valid h p b : Pool_wf h p -> b ∈ Healthy h p -> valid h b.
Proof. intros Hwf [Hb _]%elem_of_Healthy. exact (proj1 (Forall_forall _ _) Hwf b Hb). Qed.

Lemma find_by_name_Some h nm l b :
  find_by_name h nm l = Some b -> b ∈ l /\ Backend_Name h b = nm.
Proof.
  induction l as [|x l IH]; simpl; [done|].
  case_bool_decide; [intros [= ->]|intros [? ?]%IH]; split; try done; set_solver.
Qed.

Lemma find_by_name_None h nm l :
  find_by_name h nm l = None <-> Forall (fun b => Backend_Name h b <> nm) l.
Proof.
  induction l as [|x l IH]; simpl; [split; auto|].
  rewrite Forall_cons. case_bool_decide; [split; [done|intros [? _]; congruence]|tauto].
Qed.

Lemma remove_first_spec h nm l l' :
  remove_first h nm l = Some l' ->
  exists l1 b l2, l = l1 ++ b :: l2 /\ l' = l1 ++ l2 /\ Backend_Name h b = nm /\
    Forall (fun x => Backend_Name h x <> nm) l1.
Proof.
  revert l'. induction l as [|x l IH]; intros l'; simpl; [done|].
  case_bool_decide as Hx.
  - intros [= <-]. exists [], x, l. auto.
  - destruct (remove_first h nm l) as [r|] eqn:E; [|done]. intros [= <-].
    destruct (IH r eq_refl) as (l1 & b & l2 & -> & -> & Hb & Hl).
    exists (x :: l1), b, l2. auto.
Qed.

Lemma remove_first_None h nm l :
  remove_first h nm l = None <-> find_by_name h nm l = None.
Proof.
  induction l as [|x l IH]; simpl; [done|]. case_bool_decide; [done|].
  destruct (remove_first h nm l); rewrite <- IH; split; done.
Qed.

#[export] Hint Resolve Healthy_valid : go.

(** ** A concrete pool, for examples *)

Definition heap3 : heap :=
  [NewBackend "a" "10.0.0.1:80" 1; NewBackend "b" "10.0.0.2:80" 1; NewBackend "c" "10.0.0.3:80" 2].
Definition pool3 : Pool := mkPool [0; 1; 2]%nat.
