(* ===== verification/Balancers.v ===== *)
(** * Load balancing algorithms (src/pkg/lb: interface.go, roundrobin.go,
    leastconn.go, weighted.go)

    Each algorithm is its state and its [Select]; the pool and the heap of
    backends are arguments, because the balancer only holds a pointer to the
    pool.  [LoadBalancer] is the Go interface and [LoadBalancerLaws] what its
    clients (session affinity, the proxy) rely on. *)

From S2P Require Import Prelude Backend GoFloat.

(** ** The interface *)

Class LoadBalancer (S : Type) := {
  Select : heap -> Pool -> S -> outcome (option bptr) * S;
  Name : S -> string
}.

(** A selection is good when it is a healthy backend of the pool, or nil only
    because the pool has no healthy backend. *)
Definition good_selection (h : heap) (p : Pool) (r : outcome (option bptr)) : Prop :=
  match r with
  | Ret (Some b) => b ∈ Healthy h p
  | Ret None => Healthy h p = []
  | Panic => False
  end.

(** [ready] is the precondition of the algorithm on its own state and the
    weights of the backends; under it every selection is good. *)
Class LoadBalancerLaws (S : Type) `{LoadBalancer S} := {
  ready : heap -> Pool -> S -> Prop;
  Select_good h p s : ready h p s -> good_selection h p (fst (Select h p s))
}.

(** [n] successive selections on an unchanged pool. *)
Fixpoint selections {S} `{LoadBalancer S} (n : nat) (h : heap) (p : Pool) (s : S)
  : list (outcome (option bptr)) :=
  match n with
  | O => []
  | Datatypes.S n' => let '(r, s') := Select h p s in r :: selections n' h p s'
  end.

(** ** Round robin *)

Record RoundRobin := mkRoundRobin { rr_current : Z }.
#[export] Instance eta_RoundRobin : Eta RoundRobin := fun r => mkRoundRobin (rr_current r).

Definition NewRoundRobin : RoundRobin := mkRoundRobin 0.

Definition RoundRobin_Select (h : heap) (p : Pool) (rr : RoundRobin)
  : outcome (option bptr) * RoundRobin :=
  let bs := Healthy h p in
  if (length bs =? 0)%nat then (Ret None, rr)
  else
    let next := u64 (rr_current rr + 1) in
    let idx := u64 (next - 1) mod Z.of_nat (length bs) in
    (match index bs idx with Ret b => Ret (Some b) | Panic => Panic end,
     rr <| rr_current := next |>).

Definition RoundRobin_Name (rr : RoundRobin) : string := "round-robin".

#[export] Instance RoundRobin_LoadBalancer : LoadBalancer RoundRobin :=
  {| Select := RoundRobin_Select; Name := RoundRobin_Name |}.

(** ** Least connections *)

Definition min_connections (h : heap) (bs : list bptr) : option bptr :=
  min_scan (ActiveConnections h) (Z.eqb (-1)) Z.ltb bs None (-1).

Record LeastConnections := mkLeastConnections {}.

Definition NewLeastConnections : LeastConnections := mkLeastConnections.

Definition LeastConnections_Select (h : heap) (p : Pool) (lc : LeastConnections)
  : outcome (option bptr) * LeastConnections :=
  let bs := Healthy h p in
  if (length bs =? 0)%nat then (Ret None, lc)
  else (Ret (min_connections h bs), lc).

Definition LeastConnections_Name (lc : LeastConnections) : string := "least-connections".

#[export] Instance LeastConnections_LoadBalancer : LoadBalancer LeastConnections :=
  {| Select := LeastConnections_Select; Name := LeastConnections_Name |}.

(** ** Weighted round robin *)

Record WeightedRoundRobin := mkWeightedRoundRobin { wrr_current : Z }.
#[export] Instance eta_WeightedRoundRobin : Eta WeightedRoundRobin :=
  fun w => mkWeightedRoundRobin (wrr_current w).

Definition NewWeightedRoundRobin : WeightedRoundRobin := mkWeightedRoundRobin 0.

Fixpoint sum_weights (h : heap) (bs : list bptr) (totalWeight : Z) : Z :=
  match bs with
  | [] => totalWeight
  | b :: bs' => sum_weights h bs' (i64 (totalWeight + Backend_Weight h b))
  end.

(** The last loop: the first backend whose cumulated weight exceeds [offset]. *)
Fixpoint find_offset (h : heap) (offset : Z) (bs : list bptr) (currentOffset : Z) : option bptr :=
  match bs with
  | [] => None
  | b :: bs' =>
      let currentOffset := i64 (currentOffset + Backend_Weight h b) in
      if offset <? currentOffset then Some b else find_offset h offset bs' currentOffset
  end.

Definition WeightedRoundRobin_Select (h : heap) (p : Pool) (wrr : WeightedRoundRobin)
  : outcome (option bptr) * WeightedRoundRobin :=
  let bs := Healthy h p in
  if (length bs =? 0)%nat then (Ret None, wrr)
  else if (length bs =? 1)%nat then
    (match index bs 0 with Ret b => Ret (Some b) | Panic => Panic end, wrr)
  else
    let totalWeight := sum_weights h bs 0 in
    let next := i64 (wrr_current wrr + 1) in
    let wrr' := wrr <| wrr_current := next |> in
    if totalWeight =? 0 then
      let idx := go_rem (i64 (next - 1)) (Z.of_nat (length bs)) in
      (match index bs idx with Ret b => Ret (Some b) | Panic => Panic end, wrr')
    else
      let offset := go_rem (i64 (next - 1)) totalWeight in
      match find_offset h offset bs 0 with
      | Some b => (Ret (Some b), wrr')
      | None => (match index bs 0 with Ret b => Ret (Some b) | Panic => Panic end, wrr')
      end.

Definition WeightedRoundRobin_Name (wrr : WeightedRoundRobin) : string := "weighted-round-robin".

#[export] Instance WeightedRoundRobin_LoadBalancer : LoadBalancer WeightedRoundRobin :=
  {| Select := WeightedRoundRobin_Select; Name := WeightedRoundRobin_Name |}.

(** ** Weighted least connections *)

(** The body of the loop: connections over weight, a weight [<= 0] counting 1. *)
Definition load_ratio (h : heap) (b : bptr) : f64 :=
  let w := Backend_Weight h b in
  let w := if w <=? 0 then 1 else w in
  fdiv (of_int (ActiveConnections h b)) (of_int w).

Record WeightedLeastConnections := mkWeightedLeastConnections {}.

Definition NewWeightedLeastConnections : WeightedLeastConnections := mkWeightedLeastConnections.

Definition WeightedLeastConnections_Select (h : heap) (p : Pool) (wlc : WeightedLeastConnections)
  : outcome (option bptr) * WeightedLeastConnections :=
  let bs := Healthy h p in
  if (length bs =? 0)%nat then (Ret None, wlc)
  else if (length bs =? 1)%nat then
    (match index bs 0 with Ret b => Ret (Some b) | Panic => Panic end, wlc)
  else
    (Ret (min_scan (load_ratio h) (fun m => feqb m (of_int (-1))) fltb bs None (of_int (-1))), wlc).

Definition WeightedLeastConnections_Name (wlc : WeightedLeastConnections) : string :=
  "weighted-least-connections".

#[export] Instance WeightedLeastConnections_LoadBalancer : LoadBalancer WeightedLeastConnections :=
  {| Select := WeightedLeastConnections_Select; Name := WeightedLeastConnections_Name |}.

(** ** Lemmas *)

#[local] Ltac nonempty_length bs :=
  let E := fresh in destruct (Nat.eqb_spec (length bs) 0) as [E|E];
  [apply nil_length_inv in E; try done|].

(** When the state is a counter, successive selections visit consecutive counters. *)
Lemma selections_counter {S} `{LoadBalancer S} h p (st : Z -> S)
    (f : Z -> outcome (option bptr)) (n : nat) (c : Z) :
  (forall k, c <= k < c + Z.of_nat n -> Select h p (st k) = (f k, st (k + 1))) ->
  selections n h p (st c) = f <$> seqZ c (Z.of_nat n).
Proof.
  revert c. induction n as [|n IH]; intros c Hstep; [done|].
  cbn [selections]. rewrite Hstep by lia. rewrite IH by (intros; apply Hstep; lia).
  rewrite (seqZ_cons c) by lia. simpl. do 3 f_equal; lia.
Qed.

(** *** Round robin *)

Lemma RoundRobin_Select_eq h p k :
  in_u 64 k -> Healthy h p <> [] ->
  RoundRobin_Select h p (mkRoundRobin (u64 k)) =
  (Ret (Some (Healthy h p !!! Z.to_nat (k mod Z.of_nat (length (Healthy h p))))),
   mkRoundRobin (u64 (k + 1))).
Proof.
  intros Hk Hne. unfold RoundRobin_Select. nonempty_length (Healthy h p).
  cbn [rr_current]. rewrite (uwrap_small 64 k Hk). cbn -[uwrap Z.of_nat].
  assert (u64 (u64 (k + 1) - 1) = k) as ->.
  { unfold uwrap. rewrite Zminus_mod_idemp_l. rewrite Z.mod_small; unfold in_u in Hk; lia. }
  set (n := Z.of_nat (length (Healthy h p))).
  pose proof (Z.mod_pos_bound k n ltac:(lia)).
  by rewrite index_in_range by lia.
Qed.

(** Round robin is fair: from any counter value that does not overflow within the round,
    n successive calls of Select on a pool with n healthy backends return every healthy
    backend exactly once (a permutation of the healthy list). *)
Theorem RoundRobin_fair (h : heap) (p : Pool) (c : Z) :
  0 <= c -> c + Z.of_nat (length (Healthy h p)) <= 2 ^ 64 ->
  selections (length (Healthy h p)) h p (mkRoundRobin (u64 c))
    ≡ₚ (fun b => Ret (Some b)) <$> Healthy h p.
Proof.
  intros Hc Hmax. destruct (decide (Healthy h p = [])) as [->|Hne]; [done|].
  set (bs := Healthy h p) in *. set (n := length bs) in *.
  assert (0 < n)%nat by (destruct bs; simpl in *; [done|lia]).
  rewrite (selections_counter h p (fun k => mkRoundRobin (u64 k))
    (fun k => Ret (Some (bs !!! Z.to_nat (k mod Z.of_nat n))))).
  2:{ intros k Hk. apply RoundRobin_Select_eq; [unfold in_u; lia|done]. }
  change (fun k => Ret (Some (bs !!! Z.to_nat (k mod Z.of_nat n)))) with
    ((fun i => Ret (Some (bs !!! Z.to_nat i))) ∘ (fun k => k mod Z.of_nat n)).
  rewrite list_fmap_compose, seqZ_mod_rotation by lia.
  change (fun i => Ret (Some (bs !!! Z.to_nat i))) with
    ((fun b => Ret (Some b)) ∘ (fun i => bs !!! Z.to_nat i)).
  by rewrite list_fmap_compose, (list_as_seqZ bs).
Qed.

#[export] Instance RoundRobin_laws : LoadBalancerLaws RoundRobin.
Proof.
  refine {| ready h p s := in_u 64 (rr_current s) |}.
  intros h p [c] Hc. simpl in *. destruct (decide (Healthy h p = [])) as [E|E].
  - unfold RoundRobin_Select, good_selection. by rewrite E.
  - rewrite <- (uwrap_small 64 c Hc), RoundRobin_Select_eq by done. simpl.
    apply list_elem_of_lookup_total_2.
    pose proof (Z.mod_pos_bound c (Z.of_nat (length (Healthy h p)))).
    destruct (Healthy h p); simpl in *; [done|lia].
Defined.

(** *** Least connections *)

Lemma min_connections_spec h bs :
  bs <> [] -> (forall b, b ∈ bs -> 0 <= ActiveConnections h b) ->
  exists b, min_connections h bs = Some b /\
    first_min (ActiveConnections h) id bs b.
Proof.
  intros Hne Hpos. apply min_scan_spec; [done|done|]. split.
  - intros a Ha. specialize (Hpos a Ha). apply Z.eqb_neq. lia.
  - done.
Qed.

(** LeastConnections.Select returns the first healthy backend, in pool order, among
    those with the fewest active connections, whenever a healthy backend exists and no
    connection counter is negative. *)
Theorem LeastConnections_first_min (h : heap) (p : Pool) (lc : LeastConnections) :
  (forall b, b ∈ Healthy h p -> 0 <= ActiveConnections h b) ->
  Healthy h p <> [] ->
  exists b l1 l2,
    LeastConnections_Select h p lc = (Ret (Some b), lc) /\
    Healthy h p = l1 ++ b :: l2 /\
    (forall x, x ∈ l1 -> ActiveConnections h b < ActiveConnections h x) /\
    (forall x, x ∈ l2 -> ActiveConnections h b <= ActiveConnections h x).
Proof.
  intros Hpos Hne.
  destruct (min_connections_spec h _ Hne Hpos) as (b & Heq & l1 & l2 & Hsplit & H1 & H2).
  exists b, l1, l2. split; [|done]. unfold LeastConnections_Select.
  nonempty_length (Healthy h p). by rewrite Heq.
Qed.

#[export] Instance LeastConnections_laws : LoadBalancerLaws LeastConnections.
Proof.
  refine {| ready h p s := forall b, b ∈ Healthy h p -> 0 <= ActiveConnections h b |}.
  intros h p s Hpos. simpl. unfold LeastConnections_Select, good_selection.
  destruct (decide (Healthy h p = [])) as [E|E]; [by rewrite E|].
  destruct (min_connections_spec h (Healthy h p) E Hpos) as (b & Heq & Hmin).
  nonempty_length (Healthy h p). simpl. rewrite Heq. eapply first_min_elem; exact Hmin.
Defined.

(** *** Weighted round robin *)

(** The exact total weight, and the backends listed as often as they weigh. *)
Definition weight_of (h : heap) (bs : list bptr) : Z :=
  foldr (fun b s => Backend_Weight h b + s) 0 bs.
Definition expand (h : heap) (bs : list bptr) : list bptr :=
  bs ≫= fun b => replicate (Z.to_nat (Backend_Weight h b)) b.

Definition nonneg_weights (h : heap) (bs : list bptr) : Prop :=
  forall b, b ∈ bs -> 0 <= Backend_Weight h b.

Lemma nonneg_weights_cons h b bs :
  nonneg_weights h (b :: bs) <-> 0 <= Backend_Weight h b /\ nonneg_weights h bs.
Proof. unfold nonneg_weights. set_solver. Qed.

Lemma weight_of_nonneg h bs : nonneg_weights h bs -> 0 <= weight_of h bs.
Proof.
  induction bs as [|b bs IH]; simpl; [lia|]. intros [? ?%IH]%nonneg_weights_cons. lia.
Qed.

Lemma sum_weights_exact h bs acc :
  nonneg_weights h bs -> 0 <= acc -> acc + weight_of h bs < 2 ^ 63 ->
  sum_weights h bs acc = acc + weight_of h bs.
Proof.
  revert acc. induction bs as [|b bs IH]; intros acc Hw Ha Hs; simpl in *; [lia|].
  apply nonneg_weights_cons in Hw as [Hb Hw]. pose proof (weight_of_nonneg h bs Hw).
  rewrite i64_small by lia. rewrite IH by (done || lia). lia.
Qed.

(** Offsets from [acc] on select each backend as often as it weighs. *)
Lemma find_offset_expand h bs acc :
  nonneg_weights h bs -> 0 <= acc -> acc + weight_of h bs < 2 ^ 63 ->
  (fun o => find_offset h o bs acc) <$> seqZ acc (weight_of h bs) = Some <$> expand h bs.
Proof.
  revert acc. induction bs as [|b bs IH]; intros acc Hw Ha Hs; simpl in *; [done|].
  apply nonneg_weights_cons in Hw as [Hb Hw]. pose proof (weight_of_nonneg h bs Hw) as Hn.
  set (w := Backend_Weight h b) in *.
  rewrite i64_small by lia. rewrite seqZ_app by lia. rewrite fmap_app.
  change (expand h (b :: bs)) with (replicate (Z.to_nat w) b ++ expand h bs).
  rewrite fmap_app, fmap_replicate. f_equal.
  - symmetry. apply replicate_as_elem_of. rewrite length_fmap, length_seqZ.
    split; [done|]. intros y (o & -> & Ho%elem_of_seqZ)%list_elem_of_fmap.
    by rewrite (proj2 (Z.ltb_lt _ _)) by lia.
  - rewrite <- (IH (acc + w)) by (done || lia). apply list_fmap_ext.
    intros i o Ho%list_elem_of_lookup_2%elem_of_seqZ.
    by rewrite (proj2 (Z.ltb_ge _ _)) by lia.
Qed.

Lemma find_offset_Some h bs acc o :
  nonneg_weights h bs -> 0 <= acc -> acc + weight_of h bs < 2 ^ 63 ->
  acc <= o < acc + weight_of h bs ->
  exists b, find_offset h o bs acc = Some b /\ b ∈ bs.
Proof.
  revert acc. induction bs as [|b bs IH]; intros acc Hw Ha Hs Ho; simpl in *; [lia|].
  apply nonneg_weights_cons in Hw as [Hb Hw]. pose proof (weight_of_nonneg h bs Hw) as Hn.
  rewrite i64_small by lia. zcases.
  - exists b. set_solver.
  - destruct (IH (acc + Backend_Weight h b)) as (x & -> & ?); [done|lia..|].
    exists x. set_solver.
Qed.

(** What one selection does while the counter has not overflowed. *)
Lemma WeightedRoundRobin_Select_eq h p k :
  let bs := Healthy h p in
  (2 <= length bs)%nat -> nonneg_weights h bs -> 0 < weight_of h bs < 2 ^ 63 ->
  0 <= k < 2 ^ 63 ->
  exists b,
    find_offset h (k mod weight_of h bs) bs 0 = Some b /\ b ∈ bs /\
    WeightedRoundRobin_Select h p (mkWeightedRoundRobin (i64 k)) =
      (Ret (Some b), mkWeightedRoundRobin (i64 (k + 1))).
Proof.
  intros bs Hlen Hw Hs Hk.
  pose proof (Z.mod_pos_bound k (weight_of h bs) ltac:(lia)) as Hm.
  destruct (find_offset_Some h bs 0 (k mod weight_of h bs)) as (b & Hb & Hin); [done|lia..|].
  exists b. split; [done|]. split; [done|].
  unfold WeightedRoundRobin_Select. fold bs.
  destruct (Nat.eqb_spec (length bs) 0); [lia|].
  destruct (Nat.eqb_spec (length bs) 1); [lia|].
  rewrite sum_weights_exact by (done || lia). rewrite Z.add_0_l.
  rewrite (proj2 (Z.eqb_neq _ _)) by lia. cbn -[swrap Z.rem].
  rewrite (i64_small k) by lia.
  assert (i64 (i64 (k + 1) - 1) = k) as ->.
  { rewrite <- Z.add_opp_r, swrap_add_l by lia. replace (k + 1 + - (1)) with k by lia. apply i64_small. lia. }
  rewrite go_rem_nonneg by lia. by rewrite Hb.
Qed.

(** C5: Weighted round robin is proportional: over one cycle of W calls (W the sum of
    the non-negative weights of at least two healthy backends) every backend is returned
    exactly weight-many times. *)
Theorem WeightedRoundRobin_proportional (h : heap) (p : Pool) (c : Z) :
  (2 <= length (Healthy h p))%nat ->
  nonneg_weights h (Healthy h p) ->
  0 < weight_of h (Healthy h p) ->
  0 <= c -> c + weight_of h (Healthy h p) < 2 ^ 63 ->
  selections (Z.to_nat (weight_of h (Healthy h p))) h p (mkWeightedRoundRobin (i64 c))
    ≡ₚ (fun b => Ret (Some b)) <$> expand h (Healthy h p).
Proof.
  intros Hlen Hw Hpos Hc Hmax. set (bs := Healthy h p) in *. set (W := weight_of h bs) in *.
  rewrite (selections_counter h p (fun k => mkWeightedRoundRobin (i64 k))
    (fun k => Ret (find_offset h (k mod W) bs 0))).
  2:{ intros k Hk. subst W bs.
      destruct (WeightedRoundRobin_Select_eq h p k) as (b & Hb & _ & Heq); [done|done|lia..|].
      by rewrite Hb. }
  rewrite Z2Nat.id by lia.
  change (fun k => Ret (find_offset h (k mod W) bs 0)) with
    ((Ret ∘ (fun o => find_offset h o bs 0)) ∘ (fun k => k mod W)).
  rewrite list_fmap_compose, seqZ_mod_rotation by lia.
  rewrite list_fmap_compose. unfold W. rewrite find_offset_expand by (done || lia).
  by rewrite <- list_fmap_compose.
Qed.

#[export] Instance WeightedRoundRobin_laws : LoadBalancerLaws WeightedRoundRobin.
Proof.
  refine {| ready h p s :=
    nonneg_weights h (Healthy h p) /\ weight_of h (Healthy h p) < 2 ^ 63 /\
    (Healthy h p = [] \/ 0 < weight_of h (Healthy h p)) /\ 0 <= wrr_current s < 2 ^ 63 |}.
  intros h p [k] (Hw & Hs & Hpos & Hk). cbn [wrr_current] in Hk.
  destruct (Healthy h p) as [|b [|b' bs]] eqn:E; simpl in Hs.
  - simpl. unfold WeightedRoundRobin_Select. by rewrite E.
  - simpl. unfold WeightedRoundRobin_Select. rewrite E. simpl. rewrite E. set_solver.
  - destruct Hpos as [?|Hpos]; [done|]. simpl in Hpos. rewrite <- (i64_small k) by lia.
    destruct (WeightedRoundRobin_Select_eq h p k) as (x & _ & Hx & Heq);
      rewrite ?E; simpl; [lia|done|lia..|].
    rewrite Heq. simpl. by rewrite E in *.
Defined.

(** *** Weighted least connections *)

(** The weight the loop divides by. *)
Definition eff_weight (h : heap) (b : bptr) : Z :=
  if Backend_Weight h b <=? 0 then 1 else Backend_Weight h b.

(** Connection counts and weights of the size a process can reach. *)
Definition small_load (h : heap) (b : bptr) : Prop :=
  0 <= ActiveConnections h b < 2 ^ 26 /\ Backend_Weight h b < 2 ^ 26.

Lemma eff_weight_pos h b : 0 < eff_weight h b.
Proof. unfold eff_weight. zcases. Qed.

Lemma eff_weight_small h b : small_load h b -> 0 < eff_weight h b < 2 ^ 26.
Proof. intros [_ ?]. unfold eff_weight. zcases. Qed.

(** The key of a finite float. *)
Definition units (x : f64) : Z := match x with Fin n => n | _ => 0 end.

Lemma load_ratio_units h b :
  small_load h b ->
  load_ratio h b = Fin (rnd (ActiveConnections h b * one_units) (eff_weight h b)).
Proof.
  intros [Hc Hw]. unfold load_ratio, eff_weight. apply fdiv_of_int; [lia|]. zcases.
Qed.

Lemma load_ratio_ordered h bs :
  (forall b, b ∈ bs -> small_load h b) ->
  ordered_by_key (load_ratio h) units (fun m => feqb m (of_int (-1))) fltb bs.
Proof.
  intros Hs. split.
  - intros a Ha. rewrite load_ratio_units by auto. rewrite of_int_exact by lia. simpl.
    destruct (Hs a Ha) as [Hc _].
    pose proof (eff_weight_pos h a).
    pose proof one_units_pos.
    pose proof (rnd_ge (ActiveConnections h a * one_units) (eff_weight h a) 0
      ltac:(lia) repr_0 ltac:(nia)).
    apply Z.eqb_neq. nia.
  - intros a b Ha Hb. by rewrite !load_ratio_units by auto.
Qed.

(** WeightedLeastConnections.Select, which compares float64 quotients, returns a healthy
    backend whose exact ratio connections/weight is minimal, for counters and weights
    small enough that the rounding of binary64 division keeps distinct ratios apart. *)
Theorem WeightedLeastConnections_min_ratio (h : heap) (p : Pool) (wlc : WeightedLeastConnections) :
  (forall b, b ∈ Healthy h p -> small_load h b) ->
  Healthy h p <> [] ->
  exists b l1 l2,
    WeightedLeastConnections_Select h p wlc = (Ret (Some b), wlc) /\
    Healthy h p = l1 ++ b :: l2 /\
    (forall x, x ∈ l1 -> ActiveConnections h b * eff_weight h x <
                         ActiveConnections h x * eff_weight h b) /\
    (forall x, x ∈ l2 -> ActiveConnections h b * eff_weight h x <=
                         ActiveConnections h x * eff_weight h b).
Proof.
  intros Hs Hne. unfold WeightedLeastConnections_Select.
  destruct (Nat.eqb_spec (length (Healthy h p)) 0) as [E|_]; [by apply nil_length_inv in E|].
  destruct (Nat.eqb_spec (length (Healthy h p)) 1) as [E|_].
  { destruct (Healthy h p) as [|b [|? ?]]; [done| |done].
    exists b, [], []. split; [done|]. set_solver. }
  destruct (min_scan_spec _ _ _ _ _ (of_int (-1)) Hne eq_refl (load_ratio_ordered h _ Hs))
    as (b & -> & l1 & l2 & Hsplit & H1 & H2).
  assert (small_load h b /\ forall x, x ∈ l1 \/ x ∈ l2 -> small_load h x) as [Sb Sx].
  { rewrite Hsplit in Hs. split; [|intros x Hx]; apply Hs; set_solver. }
  exists b, l1, l2. split; [done|]. split; [done|].
  split; intros x Hx; [specialize (H1 x Hx)|specialize (H2 x Hx)].
  - rewrite !load_ratio_units in H1 by auto. by apply rnd_ratio_lt in H1; [|apply eff_weight_pos..].
  - rewrite !load_ratio_units in H2 by auto.
    pose proof (eff_weight_small h b Sb). pose proof (eff_weight_small h x ltac:(auto)).
    destruct Sb as [? _]. destruct (Sx x ltac:(auto)) as [? _].
    eapply rnd_ratio_separates; [| | | | |exact H2]; nia.
Qed.

#[export] Instance WeightedLeastConnections_laws : LoadBalancerLaws WeightedLeastConnections.
Proof.
  refine {| ready h p s := forall b, b ∈ Healthy h p -> small_load h b |}.
  intros h p s Hs. simpl. unfold good_selection.
  destruct (decide (Healthy h p = [])) as [E|E].
  { unfold WeightedLeastConnections_Select. by rewrite E. }
  unfold WeightedLeastConnections_Select.
  destruct (Nat.eqb_spec (length (Healthy h p)) 0) as [E0|_]; [by apply nil_length_inv in E0|].
  destruct (Nat.eqb_spec (length (Healthy h p)) 1) as [E1|_].
  { destruct (Healthy h p) as [|b [|? ?]]; [done| |done]. simpl. set_solver. }
  destruct (min_scan_spec _ _ _ _ _ (of_int (-1)) E eq_refl (load_ratio_ordered h _ Hs))
    as (b & -> & Hmin). simpl. eapply first_min_elem; exact Hmin.
Defined.

(** ** Concrete runs *)

Lemma RoundRobin_fair_witness :
  selections 3 heap3 pool3 (mkRoundRobin (u64 7)) ≡ₚ
    [Ret (Some 0%nat); Ret (Some 1%nat); Ret (Some 2%nat)].
Proof. apply (RoundRobin_fair heap3 pool3 7); [lia|by vm_compute]. Defined.

Lemma LeastConnections_first_min_witness :
  exists b l1 l2,
    LeastConnections_Select (IncrementConnections 0 heap3) pool3 mkLeastConnections =
      (Ret (Some b), mkLeastConnections) /\
    Healthy (IncrementConnections 0 heap3) pool3 = l1 ++ b :: l2 /\
    (forall x, x ∈ l1 -> ActiveConnections (IncrementConnections 0 heap3) b <
                         ActiveConnections (IncrementConnections 0 heap3) x) /\
    (forall x, x ∈ l2 -> ActiveConnections (IncrementConnections 0 heap3) b <=
                         ActiveConnections (IncrementConnections 0 heap3) x).
Proof.
  apply (LeastConnections_first_min (IncrementConnections 0 heap3) pool3 mkLeastConnections);
    [|done].
  apply Forall_forall. change (Healthy _ _) with [0; 1; 2]%nat. by repeat constructor.
Defined.

Lemma WeightedRoundRobin_proportional_witness :
  selections 4 heap3 pool3 (mkWeightedRoundRobin (i64 5)) ≡ₚ
    [Ret (Some 0%nat); Ret (Some 1%nat); Ret (Some 2%nat); Ret (Some 2%nat)].
Proof.
  apply (WeightedRoundRobin_proportional heap3 pool3 5);
    [by vm_compute; lia| |by vm_compute|lia|by vm_compute].
  unfold nonneg_weights. apply Forall_forall. change (Healthy _ _) with [0; 1; 2]%nat. by repeat constructor.
Defined.

Lemma WeightedLeastConnections_min_ratio_witness :
  exists b l1 l2,
    WeightedLeastConnections_Select heap3 pool3 mkWeightedLeastConnections =
      (Ret (Some b), mkWeightedLeastConnections) /\
    Healthy heap3 pool3 = l1 ++ b :: l2 /\
    (forall x, x ∈ l1 -> ActiveConnections heap3 b * eff_weight heap3 x <
                         ActiveConnections heap3 x * eff_weight heap3 b) /\
    (forall x, x ∈ l2 -> ActiveConnections heap3 b * eff_weight heap3 x <=
                         ActiveConnections heap3 x * eff_weight heap3 b).
Proof.
  apply (WeightedLeastConnections_min_ratio heap3 pool3 mkWeightedLeastConnections); [|done].
  apply Forall_forall. change (Healthy _ _) with [0; 1; 2]%nat. by repeat constructor.
Defined.
