(* ===== verification/ConsistentHash.v ===== *)
(** * Consistent hashing (src/pkg/lb/consistent.go)

    The hash ring is a sorted list of 32-bit points with a map from points to
    backends; a key goes to the owner of the first point at or after its hash.
    The bounded-load variant walks the ring past overloaded backends. *)

From S2P Require Import Prelude GoStd Backend GoFloat Balancers.

Definition DefaultVirtualNodes : Z := 150.

Record ConsistentHash := mkConsistentHash {
  virtualNodes : Z;
  ring : list Z;
  ringMap : gmap Z bptr;
  lastKnownSize : Z;
  hashKey : string
}.
#[export] Instance eta_ConsistentHash : Eta ConsistentHash := fun c =>
  mkConsistentHash (virtualNodes c) (ring c) (ringMap c) (lastKnownSize c) (hashKey c).

(** [ch.hash] *)
Definition hash (key : string) : Z := fnv1a_32 (bytes key).

(** [fmt.Sprintf("%s-%d", b.Address(), i)] *)
Definition vnode_key (addr : string) (i : Z) : string := addr +:+ "-" +:+ itoa i.

Definition numVirtualNodes (vn : Z) (h : heap) (b : bptr) : Z :=
  let w := Backend_Weight h b in
  let w := if w <=? 0 then 1 else w in
  i64 (vn * w).

(** The two nested loops of [rebuildRing], over backends and virtual nodes. *)
Definition add_vnode (h : heap) (b : bptr) (acc : list Z * gmap Z bptr) (i : Z) :=
  let hv := hash (vnode_key (Backend_Address h b) i) in
  (acc.1 ++ [hv], <[hv := b]> acc.2).
Definition add_backend (vn : Z) (h : heap) (acc : list Z * gmap Z bptr) (b : bptr) :=
  foldl (add_vnode h b) acc (seqZ 0 (numVirtualNodes vn h b)).
Definition build_ring (vn : Z) (h : heap) (bs : list bptr) : list Z * gmap Z bptr :=
  foldl (add_backend vn h) ([], ∅) bs.

Definition rebuildRing (h : heap) (p : Pool) (ch : ConsistentHash) : ConsistentHash :=
  let bs := Healthy h p in
  let currentSize := Z.of_nat (length bs) in
  if (currentSize =? lastKnownSize ch) && (0 <? Z.of_nat (length (ring ch))) then ch
  else
    let '(r, m) := build_ring (virtualNodes ch) h bs in
    ch <| ring := sort_ints r |> <| ringMap := m |> <| lastKnownSize := currentSize |>.

Definition NewConsistentHash (h : heap) (p : Pool) (vn : Z) (hk : string) : ConsistentHash :=
  let vn := if vn <=? 0 then DefaultVirtualNodes else vn in
  let hk := if bool_decide (hk = "") then "source-ip" else hk in
  rebuildRing h p (mkConsistentHash vn [] ∅ 0 hk).

(** The lookup shared by both variants: index of the first point [>= hv]. *)
Definition search_ring (r : list Z) (hv : Z) : Z :=
  sort_Search (Z.of_nat (length r)) (fun i => hv <=? r !!! Z.to_nat i).

Definition ConsistentHash_SelectWithKey (h : heap) (p : Pool) (key : string) (ch : ConsistentHash)
  : outcome (option bptr) * ConsistentHash :=
  let ch := rebuildRing h p ch in
  if (length (ring ch) =? 0)%nat then (Ret None, ch)
  else
    let idx := search_ring (ring ch) (hash key) in
    let idx := if Z.of_nat (length (ring ch)) <=? idx then 0 else idx in
    (match index (ring ch) idx with
     | Ret x => Ret (ringMap ch !! x)
     | Panic => Panic
     end, ch).

Definition ConsistentHash_Select (h : heap) (p : Pool) (ch : ConsistentHash) :=
  ConsistentHash_SelectWithKey h p "" ch.

Definition ConsistentHash_Name (ch : ConsistentHash) : string := "consistent-hash".

#[export] Instance ConsistentHash_LoadBalancer : LoadBalancer ConsistentHash :=
  {| Select := ConsistentHash_Select; Name := ConsistentHash_Name |}.

(** ** Bounded load *)

Record BoundedLoadConsistentHash := mkBounded {
  bl_ch : ConsistentHash;
  loadFactor : f64
}.
#[export] Instance eta_Bounded : Eta BoundedLoadConsistentHash :=
  fun b => mkBounded (bl_ch b) (loadFactor b).

Definition NewBoundedLoadConsistentHash (h : heap) (p : Pool) (vn : Z) (hk : string) (lf : f64)
  : BoundedLoadConsistentHash :=
  let lf := if fleb lf (Fin 0) then of_ratio 5 4 else lf in
  mkBounded (NewConsistentHash h p vn hk) lf.

Fixpoint sum_connections (h : heap) (bs : list bptr) (total : Z) : Z :=
  match bs with
  | [] => total
  | b :: bs' => sum_connections h bs' (i64 (total + ActiveConnections h b))
  end.

Definition maxLoad (h : heap) (bs : list bptr) (lf : f64) : f64 :=
  let avgLoad := fdiv (of_int (sum_connections h bs 0)) (of_int (Z.of_nat (length bs))) in
  fmul avgLoad lf.

(** Walk the ring from [idx], at most [n] steps, for a backend within the load
    bound; [Ret None] when there is none. *)
Fixpoint walk_ring (n : nat) (h : heap) (ch : ConsistentHash) (ml : f64) (idx : Z)
  : outcome (option bptr) :=
  match n with
  | O => Ret None
  | S n =>
      let idx := if Z.of_nat (length (ring ch)) <=? idx then 0 else idx in
      match index (ring ch) idx with
      | Panic => Panic
      | Ret x =>
          match ringMap ch !! x with
          | Some b =>
              if fleb (of_int (ActiveConnections h b)) ml then Ret (Some b)
              else walk_ring n h ch ml (idx + 1)
          | None => walk_ring n h ch ml (idx + 1)
          end
      end
  end.

Definition Bounded_SelectWithKey (h : heap) (p : Pool) (key : string)
    (bl : BoundedLoadConsistentHash) : outcome (option bptr) * BoundedLoadConsistentHash :=
  let bl := bl <| bl_ch ::= rebuildRing h p |> in
  let ch := bl_ch bl in
  if (length (ring ch) =? 0)%nat then (Ret None, bl)
  else
    let bs := Healthy h p in
    if (length bs =? 0)%nat then (Ret None, bl)
    else
      let ml := maxLoad h bs (loadFactor bl) in
      let idx := search_ring (ring ch) (hash key) in
      match walk_ring (length bs) h ch ml idx with
      | Panic => (Panic, bl)
      | Ret (Some b) => (Ret (Some b), bl)
      | Ret None => (Ret (min_connections h bs), bl)
      end.

Definition Bounded_Select (h : heap) (p : Pool) (bl : BoundedLoadConsistentHash) :=
  Bounded_SelectWithKey h p "" bl.

Definition Bounded_Name (bl : BoundedLoadConsistentHash) : string := "bounded-consistent-hash".

#[export] Instance Bounded_LoadBalancer : LoadBalancer BoundedLoadConsistentHash :=
  {| Select := Bounded_Select; Name := Bounded_Name |}.

(** ** The ring as a set of points *)

(** The points of a backend, and of a list of backends, in insertion order. *)
Definition vnode_hashes (vn : Z) (h : heap) (b : bptr) : list Z :=
  (fun i => hash (vnode_key (Backend_Address h b) i)) <$> seqZ 0 (numVirtualNodes vn h b).
Definition ring_hashes (vn : Z) (h : heap) (bs : list bptr) : list Z :=
  bs ≫= vnode_hashes vn h.

(** [x] is the point the ring assigns to hash [k]: the first point at or after
    [k], or the least point when there is none. *)
Definition succ_point (H : list Z) (k x : Z) : Prop :=
  x ∈ H /\
  ((k <= x /\ forall y, y ∈ H -> k <= y -> x <= y) \/
   ((forall y, y ∈ H -> y < k) /\ forall y, y ∈ H -> x <= y)).

Lemma succ_point_unique H k x y : succ_point H k x -> succ_point H k y -> x = y.
Proof.
  intros [Hx [[Hk1 Hm1]|[Hn1 Hm1]]] [Hy [[Hk2 Hm2]|[Hn2 Hm2]]].
  - pose proof (Hm1 y Hy Hk2). pose proof (Hm2 x Hx Hk1). lia.
  - pose proof (Hn2 x Hx). lia.
  - pose proof (Hn1 y Hy). lia.
  - pose proof (Hm1 y Hy). pose proof (Hm2 x Hx). lia.
Qed.

(** Dropping other points does not change the assignment of [k]. *)
Lemma succ_point_subset H H' k x :
  succ_point H k x -> x ∈ H' -> (forall y, y ∈ H' -> y ∈ H) -> succ_point H' k x.
Proof.
  intros [Hx Hs] Hx' Hsub. split; [done|].
  destruct Hs as [[Hk Hm]|[Hn Hm]]; [left|right]; split; auto.
Qed.

Lemma succ_point_proper H H' k x :
  (forall y, y ∈ H <-> y ∈ H') -> succ_point H k x -> succ_point H' k x.
Proof. intros Heq Hs. eapply succ_point_subset; [done|apply Heq, Hs|apply Heq]. Qed.

(** The binary search of [SelectWithKey] finds the successor point. *)
Definition wrap_index (r : list Z) (k : Z) : Z :=
  if Z.of_nat (length r) <=? search_ring r k then 0 else search_ring r k.

Lemma search_ring_least r k :
  StronglySorted Z.le r ->
  least_true (Z.of_nat (length r)) (fun i => k <=? r !!! Z.to_nat i) (search_ring r k).
Proof.
  intros Hs. apply sort_Search_spec; [lia|]. intros a b Hab Hb Ha.
  apply Z.leb_le in Ha. apply Z.leb_le. transitivity (r !!! Z.to_nat a); [done|].
  eapply (StronglySorted_lookup_le r (Z.to_nat a) (Z.to_nat b)); [done|lia|..];
    apply list_lookup_lookup_total_lt; lia.
Qed.

Lemma wrap_index_range r k :
  StronglySorted Z.le r -> r <> [] -> 0 <= wrap_index r k < Z.of_nat (length r).
Proof.
  intros Hs Hne. destruct (search_ring_least r k Hs) as (Hr & _ & _).
  unfold wrap_index. destruct r; [done|]. simpl in *. zcases.
Qed.

Lemma wrap_index_succ r k :
  StronglySorted Z.le r -> r <> [] -> succ_point r k (r !!! Z.to_nat (wrap_index r k)).
Proof.
  intros Hs Hne. pose proof (wrap_index_range r k Hs Hne) as Hw.
  destruct (search_ring_least r k Hs) as (Hr & Hlo & Hhi).
  split; [apply list_elem_of_lookup_total_2; lia|].
  assert (forall y, y ∈ r -> exists j, (j < length r)%nat /\ y = r !!! j) as Hidx.
  { intros y [j Hj]%list_elem_of_lookup_1. exists j.
    split; [by eapply lookup_lt_Some|symmetry; by apply list_lookup_total_correct]. }
  assert (forall i j, (i <= j < length r)%nat -> r !!! i <= r !!! j) as Hmono.
  { intros i j Hij. eapply (StronglySorted_lookup_le r i j); [done|lia|..];
      apply list_lookup_lookup_total_lt; lia. }
  unfold wrap_index in *. destruct (Z.leb_spec (Z.of_nat (length r)) (search_ring r k)).
  - right. split; intros y (j & Hj & ->)%Hidx.
    + specialize (Hlo (Z.of_nat j) ltac:(lia)). rewrite Nat2Z.id in Hlo.
      by apply Z.leb_gt in Hlo.
    + apply Hmono. lia.
  - left. specialize (Hhi ltac:(lia)). apply Z.leb_le in Hhi. split; [done|].
    intros y (j & Hj & ->)%Hidx Hy. apply Hmono.
    destruct (decide (Z.of_nat j < search_ring r k)); [|lia].
    specialize (Hlo (Z.of_nat j) ltac:(lia)). rewrite Nat2Z.id in Hlo.
    apply Z.leb_gt in Hlo. lia.
Qed.

(** ** What [build_ring] builds *)

Definition own_all (b : bptr) (l : list Z) (m : gmap Z bptr) : gmap Z bptr :=
  foldl (fun m x => <[x := b]> m) m l.

Lemma own_all_lookup b l m x :
  own_all b l m !! x = if decide (x ∈ l) then Some b else m !! x.
Proof.
  unfold own_all. revert m. induction l as [|y l IH]; intros m; simpl; [done|].
  rewrite IH. repeat case_decide; try done; try set_solver.
  - assert (x = y) as -> by set_solver. apply lookup_insert_eq.
  - apply lookup_insert_ne. set_solver.
Qed.

Lemma add_backend_eq vn h acc b :
  add_backend vn h acc b =
  (acc.1 ++ vnode_hashes vn h b, own_all b (vnode_hashes vn h b) acc.2).
Proof.
  unfold add_backend, vnode_hashes, own_all.
  generalize (seqZ 0 (numVirtualNodes vn h b)) as idxs. intros idxs. revert acc.
  induction idxs as [|i idxs IH]; intros [r m]; simpl; [by rewrite app_nil_r|].
  rewrite IH. simpl. by rewrite <- app_assoc.
Qed.

Lemma build_ring_acc vn h bs acc :
  (foldl (add_backend vn h) acc bs).1 = acc.1 ++ ring_hashes vn h bs.
Proof.
  revert acc. induction bs as [|b bs IH]; intros acc; simpl; [by rewrite app_nil_r|].
  rewrite IH, add_backend_eq. simpl. by rewrite <- app_assoc.
Qed.

Lemma build_map_sound vn h bs acc x b :
  (foldl (add_backend vn h) acc bs).2 !! x = Some b ->
  (b ∈ bs /\ x ∈ vnode_hashes vn h b) \/ acc.2 !! x = Some b.
Proof.
  revert acc. induction bs as [|b' bs IH]; intros acc; simpl; [by right|].
  intros [[? ?]|H]%IH; [left; set_solver|].
  rewrite add_backend_eq in H. simpl in H. rewrite own_all_lookup in H.
  case_decide; simplify_eq; [left; set_solver|by right].
Qed.

Lemma build_map_complete vn h bs acc x :
  x ∈ ring_hashes vn h bs \/ is_Some (acc.2 !! x) ->
  is_Some ((foldl (add_backend vn h) acc bs).2 !! x).
Proof.
  revert acc. induction bs as [|b bs IH]; intros acc; simpl.
  { intros [H|H]; [by apply elem_of_nil in H|done]. }
  intros H. apply IH. rewrite add_backend_eq. simpl. rewrite own_all_lookup.
  change (ring_hashes vn h (b :: bs)) with (vnode_hashes vn h b ++ ring_hashes vn h bs) in H.
  rewrite elem_of_app in H. case_decide; [right; eauto|]. tauto.
Qed.

Lemma build_ring_hashes vn h bs : (build_ring vn h bs).1 = ring_hashes vn h bs.
Proof. unfold build_ring. by rewrite build_ring_acc. Qed.

Lemma build_ring_owner vn h bs x :
  x ∈ ring_hashes vn h bs ->
  exists b, (build_ring vn h bs).2 !! x = Some b /\ b ∈ bs /\ x ∈ vnode_hashes vn h b.
Proof.
  intros Hx. destruct (build_map_complete vn h bs ([], ∅) x (or_introl Hx)) as [b Hb].
  exists b. split; [done|].
  destruct (build_map_sound vn h bs ([], ∅) x b Hb) as [?|H]; [done|].
  simpl in H. by rewrite lookup_empty in H.
Qed.

(** ** A ring that reflects the current healthy backends *)

Definition fresh_ring (h : heap) (p : Pool) (ch : ConsistentHash) : Prop :=
  let b := build_ring (virtualNodes ch) h (Healthy h p) in
  ring ch = sort_ints b.1 /\ ringMap ch = b.2 /\
  lastKnownSize ch = Z.of_nat (length (Healthy h p)).

Lemma rebuildRing_rebuilt h p ch :
  Z.of_nat (length (Healthy h p)) <> lastKnownSize ch \/ ring ch = [] ->
  fresh_ring h p (rebuildRing h p ch) /\ virtualNodes (rebuildRing h p ch) = virtualNodes ch.
Proof.
  intros Hc. unfold rebuildRing.
  assert ((Z.of_nat (length (Healthy h p)) =? lastKnownSize ch) &&
          (0 <? Z.of_nat (length (ring ch))) = false) as ->.
  { destruct Hc as [Hc| ->]; [by rewrite (proj2 (Z.eqb_neq _ _) Hc)|apply andb_false_r]. }
  destruct (build_ring (virtualNodes ch) h (Healthy h p)) as [r m] eqn:E.
  unfold fresh_ring. simpl. by rewrite E.
Qed.

(** The code keeps the ring whenever the number of healthy backends is the same. *)
Lemma rebuildRing_same_size h p ch :
  lastKnownSize ch = Z.of_nat (length (Healthy h p)) -> ring ch <> [] -> rebuildRing h p ch = ch.
Proof.
  intros H3 E. unfold rebuildRing. rewrite H3, Z.eqb_refl.
  assert (0 <? Z.of_nat (length (ring ch)) = true) as ->; [|done].
  apply Z.ltb_lt. destruct (ring ch); [done|simpl; lia].
Qed.

Lemma rebuildRing_id h p ch :
  fresh_ring h p ch -> ring ch <> [] -> rebuildRing h p ch = ch.
Proof. intros (_ & _ & H3). by apply rebuildRing_same_size. Qed.

Lemma NewConsistentHash_fresh h p vn hk : fresh_ring h p (NewConsistentHash h p vn hk).
Proof. apply rebuildRing_rebuilt. by right. Qed.

Lemma vnode_hashes_nonempty vn h b :
  0 < numVirtualNodes vn h b -> vnode_hashes vn h b <> [].
Proof.
  unfold vnode_hashes. intros Hn E. apply fmap_nil_inv in E.
  apply (f_equal length) in E. rewrite length_seqZ in E. simpl in E. lia.
Qed.

(** A fresh ring sends a key to the owner of its successor point. *)
Lemma SelectWithKey_fresh h p key ch :
  fresh_ring h p (rebuildRing h p ch) -> ring (rebuildRing h p ch) <> [] ->
  exists x b,
    ConsistentHash_SelectWithKey h p key ch = (Ret (Some b), rebuildRing h p ch) /\
    ringMap (rebuildRing h p ch) !! x = Some b /\
    succ_point (ring_hashes (virtualNodes (rebuildRing h p ch)) h (Healthy h p)) (hash key) x /\
    x ∈ vnode_hashes (virtualNodes (rebuildRing h p ch)) h b /\ b ∈ Healthy h p.
Proof.
  unfold ConsistentHash_SelectWithKey. set (c := rebuildRing h p ch). intros Hf Hne.
  destruct Hf as (Hr & Hm & _). rewrite build_ring_hashes in Hr.
  assert (StronglySorted Z.le (ring c)) as Hs by (rewrite Hr; apply sort_ints_sorted).
  pose proof (wrap_index_range _ (hash key) Hs Hne) as Hw.
  pose proof (wrap_index_succ _ (hash key) Hs Hne) as Hsp.
  set (x := ring c !!! Z.to_nat (wrap_index (ring c) (hash key))) in *.
  apply (succ_point_proper _ (ring_hashes (virtualNodes c) h (Healthy h p))) in Hsp.
  2:{ intros y. rewrite Hr. apply elem_of_sort_ints. }
  destruct (build_ring_owner _ h _ x (proj1 Hsp)) as (b & Hb & Hin & Hx).
  exists x, b. split; [|by rewrite Hm].
  destruct (Nat.eqb_spec (length (ring c)) 0) as [E|_]; [by apply nil_length_inv in E|].
  fold (wrap_index (ring c) (hash key)). rewrite index_in_range by done. fold x.
  by rewrite Hm, Hb.
Qed.

(** ** Properties *)

(** Every healthy backend gets a positive number of virtual nodes. *)
Definition has_vnodes (vn : Z) (h : heap) (bs : list bptr) : Prop :=
  forall b, b ∈ bs -> 0 < numVirtualNodes vn h b.

(** Virtual nodes of different backends never hash to the same point. *)
Definition no_collisions (vn : Z) (h : heap) (bs : list bptr) : Prop :=
  forall b1 b2 x, b1 ∈ bs -> b2 ∈ bs ->
    x ∈ vnode_hashes vn h b1 -> x ∈ vnode_hashes vn h b2 -> b1 = b2.

Lemma NoDup_no_collisions vn h bs : NoDup (ring_hashes vn h bs) -> no_collisions vn h bs.
Proof.
  induction bs as [|b bs IH]; intros Hnd b1 b2 x H1 H2 Hx1 Hx2; [by apply elem_of_nil in H1|].
  change (ring_hashes vn h (b :: bs)) with (vnode_hashes vn h b ++ ring_hashes vn h bs) in Hnd.
  apply NoDup_app in Hnd as (_ & Hdisj & Hnd).
  assert (forall b', b' ∈ bs -> x ∈ vnode_hashes vn h b' -> x ∈ ring_hashes vn h bs) as Hin.
  { intros b' Hb' Hx. apply list_elem_of_bind. eauto. }
  apply elem_of_cons in H1 as [->|H1]; apply elem_of_cons in H2 as [->|H2]; [done|..].
  - destruct (Hdisj x); eauto.
  - destruct (Hdisj x); eauto.
  - by apply (IH Hnd b1 b2 x).
Qed.

Lemma fresh_ring_nonempty h p ch :
  fresh_ring h p ch -> has_vnodes (virtualNodes ch) h (Healthy h p) -> Healthy h p <> [] ->
  ring ch <> [].
Proof.
  intros (Hr & _ & _) Hv Hne Hemp. rewrite build_ring_hashes in Hr.
  destruct (Healthy h p) as [|b bs] eqn:E; [done|].
  apply (vnode_hashes_nonempty (virtualNodes ch) h b); [apply Hv; set_solver|].
  assert (ring_hashes (virtualNodes ch) h (b :: bs) = []) as Hn.
  { apply Permutation_nil_r. by rewrite <- Hemp, Hr, sort_ints_perm. }
  by apply app_eq_nil in Hn as [? _].
Qed.

Lemma SelectWithKey_successor (h : heap) (p : Pool) (key : string) (ch : ConsistentHash) :
  fresh_ring h p ch -> has_vnodes (virtualNodes ch) h (Healthy h p) -> Healthy h p <> [] ->
  exists x b,
    ConsistentHash_SelectWithKey h p key ch = (Ret (Some b), ch) /\
    succ_point (ring_hashes (virtualNodes ch) h (Healthy h p)) (hash key) x /\
    x ∈ vnode_hashes (virtualNodes ch) h b /\ b ∈ Healthy h p.
Proof.
  intros Hf Hv Hne. pose proof (fresh_ring_nonempty h p ch Hf Hv Hne) as Hr.
  destruct (SelectWithKey_fresh h p key ch) as (x & b & H);
    rewrite (rebuildRing_id h p ch Hf Hr) in *; [done..|].
  exists x, b. tauto.
Qed.

(** C17: On a fresh ring, SelectWithKey returns a healthy backend that owns the first
    virtual node clockwise of the key's FNV-1a hash, wrapping around at the end of the
    ring. *)
Theorem ConsistentHash_successor (h : heap) (p : Pool) (key : string) (ch : ConsistentHash) :
  fresh_ring h p ch -> has_vnodes (virtualNodes ch) h (Healthy h p) -> Healthy h p <> [] ->
  exists x b,
    ConsistentHash_SelectWithKey h p key ch = (Ret (Some b), ch) /\
    succ_point (ring_hashes (virtualNodes ch) h (Healthy h p)) (hash key) x /\
    x ∈ vnode_hashes (virtualNodes ch) h b /\ b ∈ Healthy h p.
Proof. apply SelectWithKey_successor. Qed.

(** The ring is rebuilt only when the number of healthy backends changes: if one backend
    turns unhealthy while another recovers, SelectWithKey keeps using the old ring and
    so can return an unhealthy backend. *)
Theorem ConsistentHash_stale_ring (h h' : heap) (p : Pool) (key : string)
    (ch : ConsistentHash) (b1 b2 : bptr) :
  fresh_ring h p ch -> Healthy h p = [b1] -> 0 < numVirtualNodes (virtualNodes ch) h b1 ->
  Healthy h' p = [b2] -> b1 <> b2 ->
  ConsistentHash_SelectWithKey h' p key ch = (Ret (Some b1), ch) /\
  ~ good_selection h' p (fst (ConsistentHash_SelectWithKey h' p key ch)).
Proof.
  intros Hf E1 Hn E2 Hne.
  assert (has_vnodes (virtualNodes ch) h (Healthy h p)) as Hv
    by (rewrite E1; by intros b ->%list_elem_of_singleton).
  destruct (SelectWithKey_successor h p key ch Hf Hv) as (x & b & Heq & _ & _ & Hb);
    [by rewrite E1|].
  rewrite E1 in Hb. apply list_elem_of_singleton in Hb as ->.
  assert (ring ch <> []) as Hr by (apply (fresh_ring_nonempty h p); [done..|by rewrite E1]).
  assert (rebuildRing h' p ch = ch) as Hid'.
  { destruct Hf as (_ & _ & Hl). apply rebuildRing_same_size; [|done]. by rewrite Hl, E1, E2. }
  assert (ConsistentHash_SelectWithKey h' p key ch = (Ret (Some b1), ch)) as Heq'.
  { unfold ConsistentHash_SelectWithKey in *.
    by rewrite Hid'; rewrite (rebuildRing_id h p ch Hf Hr) in Heq. }
  split; [done|]. rewrite Heq'. simpl. rewrite E2. set_solver.
Qed.

(** ** Bounded load *)

(** The walk never leaves the ring and only returns a backend within the bound. *)
Lemma walk_ring_spec n h p ch ml idx :
  fresh_ring h p ch -> ring ch <> [] -> 0 <= idx ->
  walk_ring n h ch ml idx = Ret None \/
  exists b, walk_ring n h ch ml idx = Ret (Some b) /\ b ∈ Healthy h p /\
    fleb (of_int (ActiveConnections h b)) ml = true.
Proof.
  intros Hf Hne. revert idx. induction n as [|n IH]; intros idx Hidx; [by left|].
  simpl. set (i := if _ <=? idx then 0 else idx).
  assert (0 <= i < Z.of_nat (length (ring ch))) as Hi.
  { unfold i. destruct (ring ch); [done|]. simpl. zcases. }
  rewrite index_in_range by done. set (x := ring ch !!! Z.to_nat i).
  assert (x ∈ ring_hashes (virtualNodes ch) h (Healthy h p)) as Hx.
  { rewrite <- build_ring_hashes, <- elem_of_sort_ints, <- (proj1 Hf).
    apply list_elem_of_lookup_total_2. lia. }
  destruct (build_ring_owner _ h _ x Hx) as (b & Hb & Hin & _).
  destruct Hf as (Hr & Hm & Hl). rewrite Hm, Hb.
  destruct (fleb _ ml) eqn:E; [right; eauto|]. apply IH. lia.
Qed.

Lemma Bounded_selects (h : heap) (p : Pool) (key : string)
    (bl : BoundedLoadConsistentHash) :
  fresh_ring h p (bl_ch bl) -> has_vnodes (virtualNodes (bl_ch bl)) h (Healthy h p) ->
  Healthy h p <> [] -> (forall b, b ∈ Healthy h p -> 0 <= ActiveConnections h b) ->
  exists b,
    Bounded_SelectWithKey h p key bl = (Ret (Some b), bl) /\ b ∈ Healthy h p /\
    (fleb (of_int (ActiveConnections h b)) (maxLoad h (Healthy h p) (loadFactor bl)) = true \/
     forall x, x ∈ Healthy h p -> ActiveConnections h b <= ActiveConnections h x).
Proof.
  intros Hf Hv Hne Hpos. pose proof (fresh_ring_nonempty h p _ Hf Hv Hne) as Hr.
  unfold Bounded_SelectWithKey.
  assert (bl <| bl_ch ::= rebuildRing h p |> = bl) as ->.
  { destruct bl; simpl in *. by rewrite (rebuildRing_id h p _ Hf Hr). }
  destruct (Nat.eqb_spec (length (ring (bl_ch bl))) 0) as [E|_]; [by apply nil_length_inv in E|].
  destruct (Nat.eqb_spec (length (Healthy h p)) 0) as [E|_]; [by apply nil_length_inv in E|].
  destruct (walk_ring_spec (length (Healthy h p)) h p (bl_ch bl)
    (maxLoad h (Healthy h p) (loadFactor bl)) (search_ring (ring (bl_ch bl)) (hash key)) Hf Hr)
    as [->|(b & -> & Hb & Hl)].
  - assert (StronglySorted Z.le (ring (bl_ch bl))) as Hs
      by (rewrite (proj1 Hf); apply sort_ints_sorted).
    destruct (search_ring_least _ (hash key) Hs) as [? _]. lia.
  - destruct (min_connections_spec h _ Hne Hpos) as (b & -> & Hmin).
    exists b. split; [done|]. split; [by eapply first_min_elem|].
    right. intros x Hx. by apply (first_min_le _ id _ _ _ Hmin).
  - exists b. auto.
Qed.

(** ** A ring kept across changes of health

    The ring was built for some backends [bs], of which some may have left since.  As
    long as backends only leave, comparing the numbers is enough to notice a change. *)
Definition ring_for (h : heap) (bs : list bptr) (ch : ConsistentHash) : Prop :=
  let b := build_ring (virtualNodes ch) h bs in
  ring ch = sort_ints b.1 /\ ringMap ch = b.2 /\ lastKnownSize ch = Z.of_nat (length bs).

Definition ring_tracks (h : heap) (p : Pool) (ch : ConsistentHash) : Prop :=
  exists bs, ring_for h bs ch /\ Healthy h p `sublist_of` bs.

Lemma fresh_tracks h p ch : fresh_ring h p ch -> ring_tracks h p ch.
Proof. intros Hf. by exists (Healthy h p). Qed.

Lemma rebuildRing_fresh h p ch :
  ring_tracks h p ch ->
  fresh_ring h p (rebuildRing h p ch) /\ virtualNodes (rebuildRing h p ch) = virtualNodes ch.
Proof.
  intros (bs & Hf & Hs).
  destruct (decide (Z.of_nat (length (Healthy h p)) = lastKnownSize ch)) as [Hn|Hn];
    [|apply rebuildRing_rebuilt; by left].
  destruct (decide (ring ch = [])) as [Hr|Hr]; [apply rebuildRing_rebuilt; by right|].
  assert (Healthy h p = bs) as <-.
  { apply sublist_same_length; [done|]. destruct Hf as (_ & _ & Hl). lia. }
  by rewrite (rebuildRing_id h p ch).
Qed.

Lemma fresh_ring_empty h p ch : fresh_ring h p ch -> Healthy h p = [] -> ring ch = [].
Proof. intros (Hr & _) He. rewrite He in Hr. done. Qed.

Lemma SelectWithKey_none h p key ch :
  ring_tracks h p ch -> Healthy h p = [] ->
  fst (ConsistentHash_SelectWithKey h p key ch) = Ret None.
Proof.
  intros [Hf _]%rebuildRing_fresh He. unfold ConsistentHash_SelectWithKey.
  by rewrite (fresh_ring_empty _ _ _ Hf He).
Qed.

Lemma Bounded_none h p key bl :
  Healthy h p = [] -> fst (Bounded_SelectWithKey h p key bl) = Ret None.
Proof. intros He. unfold Bounded_SelectWithKey. rewrite He. by case_match. Qed.

Lemma SelectWithKey_snd h p key ch :
  snd (ConsistentHash_SelectWithKey h p key ch) = rebuildRing h p ch.
Proof. unfold ConsistentHash_SelectWithKey. by case_match. Qed.

Lemma Bounded_snd h p key bl :
  snd (Bounded_SelectWithKey h p key bl) = bl <| bl_ch ::= rebuildRing h p |>.
Proof. unfold Bounded_SelectWithKey. by repeat case_match. Qed.

Lemma SelectWithKey_good h p key ch :
  ring_tracks h p ch -> has_vnodes (virtualNodes ch) h (Healthy h p) ->
  good_selection h p (fst (ConsistentHash_SelectWithKey h p key ch)).
Proof.
  intros Ht Hv. destruct (rebuildRing_fresh h p ch Ht) as [Hf Hvn].
  destruct (decide (Healthy h p = [])) as [He|He]; [by rewrite (SelectWithKey_none h p key ch Ht He)|].
  destruct (SelectWithKey_fresh h p key ch Hf) as (x & b & -> & _ & _ & _ & Hb); [|done].
  apply (fresh_ring_nonempty h p); by rewrite ?Hvn.
Qed.

Lemma Bounded_good h p key bl :
  ring_tracks h p (bl_ch bl) -> has_vnodes (virtualNodes (bl_ch bl)) h (Healthy h p) ->
  (forall b, b ∈ Healthy h p -> 0 <= ActiveConnections h b) ->
  good_selection h p (fst (Bounded_SelectWithKey h p key bl)).
Proof.
  intros Ht Hv Hpos. destruct (rebuildRing_fresh h p _ Ht) as [Hf Hvn].
  destruct (decide (Healthy h p = [])) as [He|He]; [by rewrite (Bounded_none h p key bl He)|].
  rewrite <- Hvn in Hv. pose proof (fresh_ring_nonempty _ _ _ Hf Hv He) as Hr.
  assert (Bounded_SelectWithKey h p key bl =
    Bounded_SelectWithKey h p key (bl <| bl_ch ::= rebuildRing h p |>)) as ->.
  { unfold Bounded_SelectWithKey. destruct bl as [ch lf]. cbn in *. by rewrite (rebuildRing_id _ _ _ Hf Hr). }
  destruct (Bounded_selects h p key (bl <| bl_ch ::= rebuildRing h p |>)) as (b & -> & Hb & _); try done;
    by destruct bl.
Qed.

(** The interface promise of the two variants. *)
#[export] Instance ConsistentHash_laws : LoadBalancerLaws ConsistentHash.
Proof.
  refine {| ready h p ch := ring_tracks h p ch /\ has_vnodes (virtualNodes ch) h (Healthy h p) |}.
  intros h p ch [Ht Hv]. by apply SelectWithKey_good.
Defined.

#[export] Instance Bounded_laws : LoadBalancerLaws BoundedLoadConsistentHash.
Proof.
  refine {| ready h p bl := ring_tracks h p (bl_ch bl) /\
    has_vnodes (virtualNodes (bl_ch bl)) h (Healthy h p) /\
    forall b, b ∈ Healthy h p -> 0 <= ActiveConnections h b |}.
  intros h p bl (Ht & Hv & Hpos). by apply Bounded_good.
Defined.

(** Changes of a heap under which backends keep their address and weight and only
    leave the rotation. *)
Definition shrinks (h h' : heap) : Prop :=
  forall q, Backend_Address h' q = Backend_Address h q /\ Backend_Weight h' q = Backend_Weight h q /\
    (IsHealthy h' q = true -> IsHealthy h q = true).

Lemma Healthy_shrinks h h' p : shrinks h h' -> Healthy h' p `sublist_of` Healthy h p.
Proof.
  intros Hs. rewrite !Healthy_filter. induction (backends p) as [|q l IH]; [done|].
  rewrite !filter_cons. destruct (Hs q) as (_ & _ & Hq).
  repeat case_decide; [by apply sublist_skip|naive_solver|by apply sublist_cons|done].
Qed.

Lemma build_ring_shrinks vn h h' bs : shrinks h h' -> build_ring vn h' bs = build_ring vn h bs.
Proof.
  intros Hs. unfold build_ring. generalize (@nil Z, (∅ : gmap Z bptr)) as acc.
  induction bs as [|b bs IH]; intros acc; [done|]. cbn. rewrite IH. f_equal.
  unfold add_backend, numVirtualNodes. destruct (Hs b) as (Ha & -> & _).
  generalize (seqZ 0 (i64 (vn * if Backend_Weight h b <=? 0 then 1 else Backend_Weight h b))) as l.
  intros l. revert acc. induction l as [|i l IHl]; intros acc; [done|]. cbn.
  unfold add_vnode at 2 4. by rewrite Ha, IHl.
Qed.

Lemma ring_tracks_shrinks h h' p ch : shrinks h h' -> ring_tracks h p ch -> ring_tracks h' p ch.
Proof.
  intros Hs (bs & Hr & Hsub). exists bs. split.
  - unfold ring_for in *. by rewrite (build_ring_shrinks _ _ _ _ Hs).
  - etrans; [by apply Healthy_shrinks|done].
Qed.

Lemma alter_shrinks (f : Backend -> Backend) b h :
  (forall x, address (f x) = address x) -> (forall x, weight (f x) = weight x) ->
  (forall x, healthy (f x) = true -> healthy x = true) -> shrinks h (alter f b h).
Proof.
  intros Ha Hw Hf q. unfold Backend_Address, Backend_Weight, IsHealthy.
  destruct (decide (b = q)) as [->|Hne]; [|by rewrite lookup_total_alter_ne].
  destruct (decide (q < length h)%nat) as [Hv|Hv].
  - rewrite lookup_total_alter_eq, Ha, Hw by done. auto.
  - rewrite !list_lookup_total_alt, !lookup_ge_None_2; [done| |]; rewrite ?length_alter; lia.
Qed.

(** ** Backends that leave

    A backend leaves the rotation when it is marked unhealthy, and the pool when it is
    removed. *)
Inductive leaves : heap * Pool -> heap * Pool -> Prop :=
| leaves_unhealthy b h p : leaves (h, p) (MarkUnhealthy b h, p)
| leaves_removed nm h p p' : Pool_Remove h nm p = (true, p') -> leaves (h, p) (h, p').

Lemma Pool_Remove_sublist h nm p : backends (snd (Pool_Remove h nm p)) `sublist_of` backends p.
Proof.
  unfold Pool_Remove. destruct (remove_first h nm (backends p)) as [l|] eqn:E; [|done].
  destruct (remove_first_spec _ _ _ _ E) as (l1 & b & l2 & -> & -> & _). cbn.
  apply sublist_app; [done|]. by apply sublist_cons.
Qed.

Lemma leaves_shrinks hp hp' :
  rtc leaves hp hp' -> shrinks hp.1 hp'.1 /\ backends hp'.2 `sublist_of` backends hp.2.
Proof.
  induction 1 as [hp|hp hp1 hp2 Hs _ [IH1 IH2]]; [split; [by intros q|done]|].
  assert (shrinks hp.1 hp1.1 /\ backends hp1.2 `sublist_of` backends hp.2) as [H1 H2].
  { destruct Hs as [b h p|nm h p p' Hr]; cbn.
    - split; [|done]. apply alter_shrinks; by intros [].
    - split; [by intros q|]. replace p' with (snd (Pool_Remove h nm p)) by (by rewrite Hr).
      apply Pool_Remove_sublist. }
  split; [|by etrans]. intros q. destruct (H1 q) as (Ha & Hw & Hh), (IH1 q) as (Ha' & Hw' & Hh').
  rewrite Ha', Hw'. auto.
Qed.

Lemma Healthy_sublist h p p' :
  backends p' `sublist_of` backends p -> Healthy h p' `sublist_of` Healthy h p.
Proof.
  rewrite !Healthy_filter. induction 1 as [|x l1 l2 _ IH|x l1 l2 _ IH]; [done|..];
    rewrite !filter_cons; case_decide; auto using sublist_skip, sublist_cons.
Qed.

Lemma leaves_Healthy h p h' p' :
  rtc leaves (h, p) (h', p') -> shrinks h h' /\ Healthy h' p' `sublist_of` Healthy h p.
Proof.
  intros [Hs Hb]%leaves_shrinks. split; [done|].
  etrans; [by apply Healthy_sublist|]. by apply Healthy_shrinks.
Qed.

Lemma vnode_hashes_shrinks vn h h' q : shrinks h h' -> vnode_hashes vn h' q = vnode_hashes vn h q.
Proof. intros Hs. unfold vnode_hashes, numVirtualNodes. by destruct (Hs q) as (-> & -> & _). Qed.

(** C6: Minimal disruption: when any number of backends leave, marked unhealthy or
    removed from the pool, a key whose backend is still healthy and in the pool keeps
    that backend. Assumed: the ring was up to date before (a ring that the comparison of
    counts missed to rebuild is the finding on consistent.go:58), and no two healthy
    backends have a virtual node at the same hash. *)
Theorem ConsistentHash_minimal_disruption
    (h h' : heap) (p p' : Pool) (key : string) (ch : ConsistentHash) (b : bptr) :
  fresh_ring h p ch -> no_collisions (virtualNodes ch) h (Healthy h p) ->
  rtc leaves (h, p) (h', p') ->
  fst (ConsistentHash_SelectWithKey h p key ch) = Ret (Some b) -> b ∈ Healthy h' p' ->
  fst (ConsistentHash_SelectWithKey h' p' key ch) = Ret (Some b).
Proof.
  intros Hf Hcol [Hs Hsub]%leaves_Healthy Hsel Hb.
  assert (ring ch <> []) as Hr.
  { intros E. unfold ConsistentHash_SelectWithKey in Hsel.
    destruct (rebuildRing_rebuilt h p ch (or_intror E)) as [(Hr & _) Hv].
    destruct Hf as (Hr' & _). rewrite Hv, <- Hr', E in Hr. by rewrite Hr in Hsel. }
  destruct (SelectWithKey_fresh h p key ch) as (x & b1 & Heq & _ & Hsp & Hx & Hb1);
    rewrite (rebuildRing_id h p ch Hf Hr) in *; [done..|]. rewrite Heq in Hsel. simplify_eq/=.
  destruct (rebuildRing_fresh h' p' ch) as [Hf' Hvn].
  { exists (Healthy h p). split; [|done]. unfold ring_for. by rewrite (build_ring_shrinks _ _ _ _ Hs). }
  assert (forall y, y ∈ ring_hashes (virtualNodes ch) h' (Healthy h' p') <->
    exists q, q ∈ Healthy h' p' /\ y ∈ vnode_hashes (virtualNodes ch) h q) as Hring'.
  { intros y. unfold ring_hashes. rewrite list_elem_of_bind.
    split; intros (q & ? & ?); exists q; by rewrite (vnode_hashes_shrinks _ _ _ _ Hs) in *. }
  destruct (SelectWithKey_fresh h' p' key ch Hf') as (x' & b' & -> & _ & Hsp' & Hx' & Hb').
  { intros Hemp. destruct Hf' as (Hr' & _). rewrite Hvn, build_ring_hashes in Hr'.
    assert (x ∈ ring (rebuildRing h' p' ch)) as Hin by (rewrite Hr', elem_of_sort_ints, Hring'; eauto).
    rewrite Hemp in Hin. by apply elem_of_nil in Hin. }
  rewrite Hvn, (vnode_hashes_shrinks _ _ _ _ Hs) in *. cbn. do 2 f_equal.
  assert (forall q, q ∈ Healthy h' p' -> q ∈ Healthy h p) as Hin 
    by (intros q Hq; eapply elem_of_submseteq; [exact Hq|by apply sublist_submseteq]).
  assert (x' = x) as ->.
  { eapply succ_point_unique; [exact Hsp'|]. eapply succ_point_subset; [exact Hsp|..].
    - apply Hring'. eauto.
    - intros y (q & Hq & Hy)%Hring'. apply list_elem_of_bind. eauto. }
  eapply Hcol; eauto.
Qed.

(** ** The load bound

    With the connections [c] of a backend and [t] of all [n] healthy backends, and a load
    factor [f] in units of the float format: [c] is at most, or above, [t / n * f], up to a
    relative error of [2^-51]. *)
Definition within_load (c t n f : Z) : Prop := 2 ^ 51 * (c * n * one_units) <= (2 ^ 51 + 1) * (t * f).
Definition over_load (c t n f : Z) : Prop := (2 ^ 51 - 1) * (t * f) < 2 ^ 51 * (c * n * one_units).

(** The connections of all backends, added without wrap-around. *)
Definition connections_of (h : heap) (bs : list bptr) : Z :=
  foldr (fun b t => ActiveConnections h b + t) 0 bs.

Lemma connections_of_bounds h bs :
  (forall b, b ∈ bs -> 0 <= ActiveConnections h b) ->
  0 <= connections_of h bs /\ forall b, b ∈ bs -> ActiveConnections h b <= connections_of h bs.
Proof.
  induction bs as [|x bs IH]; intros Hpos; cbn; [split; [done|set_solver]|].
  pose proof (Hpos x ltac:(set_solver)). destruct IH as [IH1 IH2]; [set_solver|]. fold (connections_of h bs) in *. split; [lia|].
  intros b [->|Hb]%elem_of_cons; [lia|]. specialize (IH2 b Hb). lia.
Qed.

Lemma sum_connections_exact h bs acc :
  (forall b, b ∈ bs -> 0 <= ActiveConnections h b) -> 0 <= acc ->
  acc + connections_of h bs <= 2 ^ 53 -> sum_connections h bs acc = acc + connections_of h bs.
Proof.
  revert acc. induction bs as [|b bs IH]; intros acc Hpos Hacc Hle; cbn in *; [lia|].
  pose proof (Hpos b ltac:(set_solver)).
  destruct (connections_of_bounds h bs) as [? _]; [set_solver|]. fold (connections_of h bs) in *.
  rewrite i64_small by lia. rewrite IH; [lia|set_solver|lia..].
Qed.

(** What the comparison with [maxLoad] decides. *)
Lemma maxLoad_decides h bs f b :
  bs <> [] -> (forall b, b ∈ bs -> 0 <= ActiveConnections h b) -> b ∈ bs ->
  connections_of h bs <= 2 ^ 53 -> Z.of_nat (length bs) <= 2 ^ 53 -> 2 ^ 110 <= f <= 2 ^ 53 * one_units ->
  if fleb (of_int (ActiveConnections h b)) (maxLoad h bs (Fin f))
  then within_load (ActiveConnections h b) (connections_of h bs) (Z.of_nat (length bs)) f
  else over_load (ActiveConnections h b) (connections_of h bs) (Z.of_nat (length bs)) f.
Proof.
  intros Hne Hpos Hb Ht Hn Hf. unfold maxLoad. rewrite sum_connections_exact by (done || lia).
  destruct (connections_of_bounds h bs Hpos) as [H0 H1]. specialize (H1 b Hb). specialize (Hpos b Hb).
  assert (0 < length bs)%nat by (destruct bs; [done|cbn; lia]).
  apply (scaled_average_cmp _ _ _ f); lia.
Qed.

(** The first position of the walk is the backend of plain consistent hashing. *)
Lemma walk_ring_first n h p key ch ml b ch' :
  fresh_ring h p ch -> ring ch <> [] -> ConsistentHash_SelectWithKey h p key ch = (Ret (Some b), ch') ->
  exists idx, 0 <= idx /\ walk_ring (S n) h ch ml (search_ring (ring ch) (hash key)) =
    if fleb (of_int (ActiveConnections h b)) ml then Ret (Some b) else walk_ring n h ch ml idx.
Proof.
  intros Hf Hr. unfold ConsistentHash_SelectWithKey. rewrite (rebuildRing_id h p ch Hf Hr).
  destruct (Nat.eqb_spec (length (ring ch)) 0) as [E|_]; [by apply nil_length_inv in E|].
  assert (StronglySorted Z.le (ring ch)) as Hs by (rewrite (proj1 Hf); apply sort_ints_sorted).
  pose proof (wrap_index_range _ (hash key) Hs Hr) as Hw. unfold wrap_index in Hw. cbn [walk_ring].
  set (idx := if Z.of_nat (length (ring ch)) <=? _ then 0 else _) in *.
  rewrite index_in_range by done. intros [= Hb _]. rewrite Hb. exists (idx + 1). split; [lia|done].
Qed.

(** C32: Bounded-load consistent hashing: the key's own backend (the one plain
    consistent hashing selects) is returned when its connections are at most total
    connections / healthy backends * load factor; otherwise it is over that bound and
    the result is another backend within it, or the healthy backend with the fewest
    connections. The bound is the rational number, the code computes it in float64, and
    both comparisons hold up to a relative error of 2^-51. Assumed: a ring that is up to
    date (see the finding on consistent.go:58), at least one virtual node per backend, a
    healthy backend, counters that are not negative and add up to at most 2^53, and a
    finite load factor between about 2^-964 and 2^53. *)
Theorem Bounded_SelectWithKey_bound (h : heap) (p : Pool) (key : string)
    (bl : BoundedLoadConsistentHash) (f : Z) :
  let t := connections_of h (Healthy h p) in
  let n := Z.of_nat (length (Healthy h p)) in
  fresh_ring h p (bl_ch bl) -> has_vnodes (virtualNodes (bl_ch bl)) h (Healthy h p) ->
  Healthy h p <> [] -> (forall b, b ∈ Healthy h p -> 0 <= ActiveConnections h b) ->
  t <= 2 ^ 53 -> n <= 2 ^ 53 -> loadFactor bl = Fin f -> 2 ^ 110 <= f <= 2 ^ 53 * one_units ->
  exists b own,
    Bounded_SelectWithKey h p key bl = (Ret (Some b), bl) /\ b ∈ Healthy h p /\
    fst (ConsistentHash_SelectWithKey h p key (bl_ch bl)) = Ret (Some own) /\
    (b = own /\ within_load (ActiveConnections h own) t n f \/
     over_load (ActiveConnections h own) t n f /\
     (within_load (ActiveConnections h b) t n f \/
      forall x, x ∈ Healthy h p -> ActiveConnections h b <= ActiveConnections h x)).
Proof.
  intros t n Hf Hv Hne Hpos Ht Hn Hlf Hrange.
  pose proof (fresh_ring_nonempty h p _ Hf Hv Hne) as Hr.
  destruct (SelectWithKey_successor h p key _ Hf Hv Hne) as (_ & own & Hown & _ & _ & Hin).
  pose proof (maxLoad_decides h (Healthy h p) f own Hne Hpos Hin Ht Hn Hrange) as Hdec.
  destruct (Bounded_selects h p key bl Hf Hv Hne Hpos) as (b & Hb & Hbin & Hload).
  pose proof (maxLoad_decides h (Healthy h p) f b Hne Hpos Hbin Ht Hn Hrange) as Hdecb.
  exists b, own. rewrite Hown. split_and!; try done. rewrite Hlf in Hload.
  destruct (Healthy h p) as [|x0 bs] eqn:EH; [done|].
  destruct (walk_ring_first (length bs) h p key (bl_ch bl) (maxLoad h (x0 :: bs) (Fin f)) own _ Hf Hr Hown)
    as (idx & _ & Hwalk).
  destruct (fleb (of_int (ActiveConnections h own)) _) eqn:E.
  - left. split; [|exact Hdec]. revert Hb. unfold Bounded_SelectWithKey. rewrite EH.
    assert (bl <| bl_ch ::= rebuildRing h p |> = bl) as ->.
    { destruct bl; cbn in *. by rewrite (rebuildRing_id h p _ Hf Hr). }
    destruct (Nat.eqb_spec (length (ring (bl_ch bl))) 0) as [E0|_]; [by apply nil_length_inv in E0|].
    rewrite Hlf. cbn [length Nat.eqb] in *. rewrite Hwalk. by intros [= ->].
  - right. split; [exact Hdec|]. destruct Hload as [Hl|Hl]; [left|by right]. by rewrite Hl in Hdecb.
Qed.

(** ** Concrete rings *)

(** A ring over [pool3] with 2 virtual nodes per unit of weight. *)
Definition ring3 : ConsistentHash := NewConsistentHash heap3 pool3 2 "".

Lemma ring3_has_vnodes : has_vnodes (virtualNodes ring3) heap3 (Healthy heap3 pool3).
Proof.
  unfold has_vnodes. apply Forall_forall.
  change (Healthy heap3 pool3) with [0; 1; 2]%nat. by repeat constructor.
Qed.

Lemma ConsistentHash_successor_witness :
  exists x b,
    ConsistentHash_SelectWithKey heap3 pool3 "10.1.1.7" ring3 = (Ret (Some b), ring3) /\
    succ_point (ring_hashes (virtualNodes ring3) heap3 (Healthy heap3 pool3)) (hash "10.1.1.7") x /\
    x ∈ vnode_hashes (virtualNodes ring3) heap3 b /\ b ∈ Healthy heap3 pool3.
Proof.
  apply (ConsistentHash_successor heap3 pool3 "10.1.1.7" ring3);
    [apply NewConsistentHash_fresh|apply ring3_has_vnodes|done].
Defined.

(** The client of backend 1 keeps it when backend 2 fails and backend 0 is removed. *)
Lemma ConsistentHash_minimal_disruption_witness :
  fst (ConsistentHash_SelectWithKey (MarkUnhealthy 2 heap3) (mkPool [1; 2]%nat) "10.1.1.7" ring3) =
  Ret (Some 1%nat).
Proof.
  apply (ConsistentHash_minimal_disruption heap3 (MarkUnhealthy 2 heap3) pool3 (mkPool [1; 2]%nat)
    "10.1.1.7" ring3 1).
  - apply NewConsistentHash_fresh.
  - apply NoDup_no_collisions. apply (bool_decide_unpack _). by vm_compute.
  - eapply rtc_l; [apply (leaves_unhealthy 2)|]. apply rtc_once. by apply (leaves_removed "a").
  - by vm_compute.
  - apply list_elem_of_here.
Defined.

(** Backend 0 fails while backend 1 recovers: the ring still answers 0. *)
Definition heap2 : heap :=
  [NewBackend "a" "10.0.0.1:80" 1; NewBackend "b" "10.0.0.2:80" 1 <| healthy := false |>].
Definition heap2' : heap := MarkHealthy 1 (MarkUnhealthy 0 heap2).
Definition pool2 : Pool := mkPool [0; 1]%nat.

Lemma ConsistentHash_stale_ring_witness :
  ConsistentHash_SelectWithKey heap2' pool2 "10.1.1.7" (NewConsistentHash heap2 pool2 2 "") =
    (Ret (Some 0%nat), NewConsistentHash heap2 pool2 2 "") /\
  ~ good_selection heap2' pool2
      (fst (ConsistentHash_SelectWithKey heap2' pool2 "10.1.1.7" (NewConsistentHash heap2 pool2 2 ""))).
Proof.
  apply (ConsistentHash_stale_ring heap2 heap2' pool2 "10.1.1.7"
    (NewConsistentHash heap2 pool2 2 "") 0 1);
    [apply NewConsistentHash_fresh|done|done|done|done].
Defined.

(** The default factor of 1.25: the backend of the key has two connections, both others
    none, so that it is over the bound of 2 / 3 * 1.25 and another one is returned. *)
Definition heap3_busy : heap := IncrementConnections 1 (IncrementConnections 1 heap3).
Definition ring3_busy : ConsistentHash := NewConsistentHash heap3_busy pool3 2 "".

Lemma Bounded_SelectWithKey_bound_witness :
  exists b,
    Bounded_SelectWithKey heap3_busy pool3 "10.1.1.7" (mkBounded ring3_busy (of_ratio 5 4)) =
      (Ret (Some b), mkBounded ring3_busy (of_ratio 5 4)) /\ b ∈ Healthy heap3_busy pool3 /\
    over_load 2 2 3 (5 * 2 ^ 1072).
Proof.
  destruct (Bounded_SelectWithKey_bound heap3_busy pool3 "10.1.1.7" (mkBounded ring3_busy (of_ratio 5 4))
    (5 * 2 ^ 1072)) as (b & own & H1 & H2 & H3 & H4).
  - apply NewConsistentHash_fresh.
  - unfold has_vnodes. apply Forall_forall.
    change (Healthy heap3_busy pool3) with [0; 1; 2]%nat. by repeat constructor.
  - done.
  - apply Forall_forall. change (Healthy heap3_busy pool3) with [0; 1; 2]%nat. by repeat constructor.
  - done.
  - done.
  - by vm_compute.
  - done.
  - exists b. refine (conj H1 (conj H2 _)).
    assert (own = 1%nat) as -> by (assert (Ret (Some 1%nat) = Ret (Some own)) as E by (rewrite <- H3; by vm_compute); by injection E).
    destruct H4 as [[_ Hw]|[Ho _]]; [|exact Ho]. exfalso. by apply Hw.
Defined.
