(* ===== verification/Affinity.v ===== *)
(** * Session affinity (src/pkg/lb/affinity.go)

    A wrapper around any load balancer that keeps a client on the backend of its
    session; it is proved against the interface [LoadBalancerLaws].  The cleanup
    goroutine is a tick operation until [Stop] closes its channel. *)

From S2P Require Import Prelude GoFloat Backend Balancers.

Record session := mkSession { sess_backend : bptr; lastAccess : time }.

Record SessionAffinity (S : Type) := mkSessionAffinity {
  balancer : S;
  sessions : gmap string session;
  sa_timeout : duration;
  stopped : bool
}.
Global Arguments mkSessionAffinity {S} _ _ _ _.
Global Arguments balancer {S} _.
Global Arguments sessions {S} _.
Global Arguments sa_timeout {S} _.
Global Arguments stopped {S} _.
#[export] Instance eta_SessionAffinity {S} : Eta (SessionAffinity S) := fun s =>
  mkSessionAffinity (balancer s) (sessions s) (sa_timeout s) (stopped s).

Section affinity.
Context {S : Type} `{LoadBalancer S}.

Definition NewSessionAffinity (b : S) (tm : duration) : SessionAffinity S :=
  mkSessionAffinity b ∅ (if tm <=? 0 then 10 * Minute else tm) false.

(** The session that still binds the client, as of [t]. *)
Definition live_session (h : heap) (ip : string) (t : time) (sa : SessionAffinity S) : option session :=
  match sessions sa !! ip with
  | Some s =>
      if (time_Sub t (lastAccess s) <? sa_timeout sa) && IsHealthy h (sess_backend s)
      then Some s else None
  | None => None
  end.

(** [t1] is the reading of [time.Since], [t2] that of the update. *)
Definition SelectWithClientIP (h : heap) (p : Pool) (ip : string) (t1 t2 : time)
    (sa : SessionAffinity S) : outcome (option bptr) * SessionAffinity S :=
  match live_session h ip t1 sa with
  | Some s =>
      (Ret (Some (sess_backend s)),
       sa <| sessions ::= <[ip := mkSession (sess_backend s) t2]> |>)
  | None =>
      let '(r, b) := Select h p (balancer sa) in
      let sa := sa <| balancer := b |> in
      match r with
      | Ret (Some selected) =>
          (Ret (Some selected), sa <| sessions ::= <[ip := mkSession selected t2]> |>)
      | Ret None => (Ret None, sa)
      | Panic => (Panic, sa)
      end
  end.

Definition SessionAffinity_Select (h : heap) (p : Pool) (sa : SessionAffinity S)
  : outcome (option bptr) * SessionAffinity S :=
  let '(r, b) := Select h p (balancer sa) in (r, sa <| balancer := b |>).

Definition SessionAffinity_Name (sa : SessionAffinity S) : string :=
  Name (balancer sa) +:+ "-with-affinity".

Definition SessionAffinity_cleanup (now : time) (sa : SessionAffinity S) : SessionAffinity S :=
  sa <| sessions ::= filter (fun ks => ~ (sa_timeout sa < time_Sub now (lastAccess ks.2))) |>.

(** One turn of the cleanup loop: a tick cleans up unless the loop was stopped. *)
Definition cleanupLoop (now : time) (sa : SessionAffinity S) : SessionAffinity S :=
  if stopped sa then sa else SessionAffinity_cleanup now sa.

Definition ClearSession (ip : string) (sa : SessionAffinity S) : SessionAffinity S :=
  sa <| sessions ::= delete ip |>.
Definition ClearAllSessions (sa : SessionAffinity S) : SessionAffinity S := sa <| sessions := ∅ |>.
Definition SessionCount (sa : SessionAffinity S) : Z := Z.of_nat (size (sessions sa)).

(** Closing the channel twice panics. *)
Definition Stop (sa : SessionAffinity S) : outcome (SessionAffinity S) :=
  if stopped sa then Panic else Ret (sa <| stopped := true |>).

#[export] Instance SessionAffinity_LoadBalancer : LoadBalancer (SessionAffinity S) :=
  {| Select := SessionAffinity_Select; Name := SessionAffinity_Name |}.

(** ** Sessions stick *)

(** What may happen between two requests of a client, in an environment (heap
    and pool) that changes freely. *)
Inductive sa_op :=
| SaSelectIP (h : heap) (p : Pool) (ip : string) (t1 t2 : time)
| SaSelect (h : heap) (p : Pool)
| SaTick (now : time)
| SaClear (ip : string).

Definition sa_step (sa : SessionAffinity S) (o : sa_op) : SessionAffinity S :=
  match o with
  | SaSelectIP h p ip t1 t2 => snd (SelectWithClientIP h p ip t1 t2 sa)
  | SaSelect h p => snd (SessionAffinity_Select h p sa)
  | SaTick now => cleanupLoop now sa
  | SaClear ip => ClearSession ip sa
  end.

(** The operation is about another client, or a tick no later than [t]. *)
Definition leaves (ip : string) (t : time) (o : sa_op) : Prop :=
  match o with
  | SaSelectIP _ _ ip' _ _ => ip' <> ip
  | SaSelect _ _ => True
  | SaTick now => now <= t
  | SaClear ip' => ip' <> ip
  end.

Lemma Select_sessions h p ip t1 t2 sa ip' :
  ip <> ip' -> sessions (snd (SelectWithClientIP h p ip t1 t2 sa)) !! ip' = sessions sa !! ip'.
Proof.
  intros Hne. unfold SelectWithClientIP. destruct sa. destruct (live_session h ip t1 _); cbn.
  - by rewrite lookup_insert_ne.
  - destruct (Select h p _) as [[[b|]|] s']; cbn; [by rewrite lookup_insert_ne|done..].
Qed.

(** The configured timeout never changes, and a live session is kept. *)
Lemma sa_step_keeps o sa ip t b t0 :
  leaves ip t o -> sessions sa !! ip = Some (mkSession b t0) -> time_Sub t t0 <= sa_timeout sa ->
  sessions (sa_step sa o) !! ip = Some (mkSession b t0) /\ sa_timeout (sa_step sa o) = sa_timeout sa.
Proof.
  intros Hl Hs Ht. destruct o as [h p ip' t1 t2|h p|now|ip']; cbn [leaves sa_step] in *.
  - split; [by rewrite Select_sessions|]. unfold SelectWithClientIP. destruct sa.
    destruct (live_session h ip' t1 _); [done|]. cbn. by destruct (Select h p _) as [[[]|] ?].
  - unfold SessionAffinity_Select. destruct (Select h p _). by destruct sa.
  - unfold cleanupLoop. destruct (stopped sa); [done|]. destruct sa. cbn in *. split; [|done].
    apply map_lookup_filter_Some. split; [done|]. cbn. pose proof (time_Sub_mono now t t0 Hl). lia.
  - destruct sa. cbn in *. by rewrite lookup_delete_ne.
Qed.

Lemma sa_run_keeps ops sa ip t b t0 :
  Forall (leaves ip t) ops -> sessions sa !! ip = Some (mkSession b t0) ->
  time_Sub t t0 <= sa_timeout sa ->
  sessions (foldl sa_step sa ops) !! ip = Some (mkSession b t0) /\
  sa_timeout (foldl sa_step sa ops) = sa_timeout sa.
Proof.
  intros Hall. revert sa. induction Hall as [|o ops Ho Hall IH]; intros sa Hs Ht; [done|].
  destruct (sa_step_keeps o sa ip t b t0 Ho Hs Ht) as [Hs' Ht']. cbn.
  destruct (IH (sa_step sa o) Hs') as [? ->]; [by rewrite Ht'|done].
Qed.

(** The session that a successful selection leaves. *)
Lemma SelectWithClientIP_session h p ip t1 t2 sa b sa' :
  SelectWithClientIP h p ip t1 t2 sa = (Ret (Some b), sa') ->
  sessions sa' !! ip = Some (mkSession b t2) /\ sa_timeout sa' = sa_timeout sa.
Proof.
  unfold SelectWithClientIP. destruct sa. destruct (live_session h ip t1 _) as [s|]; cbn.
  - intros [= <- <-]. cbn. by rewrite lookup_insert_eq.
  - destruct (Select h p _) as [[[b'|]|] s']; cbn; intros [= <- <-]. cbn. by rewrite lookup_insert_eq.
Qed.

(** C40: Sessions stick: a client that was given a backend gets the same one again
    within the timeout as long as that backend is healthy, whatever selections for other
    clients, plain selections, cleanup ticks and changes of the heap and pool happen in
    between. A selection is one step (the code has a read section and a write section).
    *)
Theorem SessionAffinity_sticky h p ip t1 t2 sa b sa' ops h' p' t3 t4 :
  SelectWithClientIP h p ip t1 t2 sa = (Ret (Some b), sa') ->
  Forall (leaves ip t3) ops -> time_Sub t3 t2 < sa_timeout sa -> IsHealthy h' b = true ->
  fst (SelectWithClientIP h' p' ip t3 t4 (foldl sa_step sa' ops)) = Ret (Some b).
Proof.
  intros Hsel Hall Ht Hh. destruct (SelectWithClientIP_session _ _ _ _ _ _ _ _ Hsel) as [Hs Htm].
  destruct (sa_run_keeps ops sa' ip t3 b t2 Hall Hs) as [Hs' Htm']; [rewrite Htm; lia|].
  unfold SelectWithClientIP, live_session. rewrite Hs', Htm', Htm. cbn [lastAccess sess_backend].
  by rewrite (proj2 (Z.ltb_lt _ _) Ht), Hh.
Qed.

(** ** Selections are good *)

Context `{!LoadBalancerLaws S}.

(** Every session is bound to a backend of the pool. *)
Definition sessions_in (p : Pool) (sa : SessionAffinity S) : Prop :=
  map_Forall (fun _ s => sess_backend s ∈ backends p) (sessions sa).

(** Session affinity over any load balancer that satisfies the interface laws returns a
    healthy backend of the pool, or nil only when there is none, provided the existing
    sessions point into the pool; and it keeps them there. *)
Theorem SessionAffinity_good h p ip t1 t2 sa :
  ready h p (balancer sa) -> sessions_in p sa ->
  good_selection h p (fst (SelectWithClientIP h p ip t1 t2 sa)) /\
  sessions_in p (snd (SelectWithClientIP h p ip t1 t2 sa)).
Proof.
  intros Hready Hin. unfold SelectWithClientIP.
  destruct (live_session h ip t1 sa) as [s|] eqn:El.
  - unfold live_session in El. destruct (sessions sa !! ip) as [s'|] eqn:Es; [|done].
    destruct (_ <? _); cbn in El; [|done]. destruct (IsHealthy h (sess_backend s')) eqn:Eh; [|done].
    simplify_eq. pose proof (Hin ip s Es) as Hb. cbn in Hb. split.
    + by apply elem_of_Healthy.
    + destruct sa. by apply map_Forall_insert_2.
  - pose proof (Select_good h p (balancer sa) Hready) as Hg.
    destruct (Select h p (balancer sa)) as [[[b|]|] s']; cbn in *.
    + split; [done|]. destruct sa. apply map_Forall_insert_2; [|done]. by apply elem_of_Healthy in Hg as [? _].
    + split; [done|]. by destruct sa.
    + done.
Qed.

#[export] Instance SessionAffinity_laws : LoadBalancerLaws (SessionAffinity S).
Proof.
  refine {| ready h p sa := ready h p (balancer sa) |}. intros h p sa Hready. cbn. unfold SessionAffinity_Select.
  pose proof (Select_good h p (balancer sa) Hready). by destruct (Select h p (balancer sa)).
Defined.
End affinity.

(** ** Instances of the theorems *)

Definition sa0 : SessionAffinity RoundRobin := NewSessionAffinity NewRoundRobin 0.

Lemma SessionAffinity_sticky_witness :
  let sa' := snd (SelectWithClientIP heap3 pool3 "1.2.3.4" 0 0 sa0) in
  fst (SelectWithClientIP heap3 pool3 "1.2.3.4" (5 * Minute) (5 * Minute)
    (foldl sa_step sa' [SaSelectIP heap3 pool3 "5.6.7.8" 1 2; SaTick Minute])) = Ret (Some 0%nat).
Proof.
  apply (SessionAffinity_sticky heap3 pool3 "1.2.3.4" 0 0 sa0 0%nat
    (snd (SelectWithClientIP heap3 pool3 "1.2.3.4" 0 0 sa0))
    [SaSelectIP heap3 pool3 "5.6.7.8" 1 2; SaTick Minute]); try reflexivity.
  constructor; [done|]. constructor; [|constructor]. vm_compute. discriminate.
Defined.

Lemma SessionAffinity_good_witness :
  good_selection heap3 pool3 (fst (SelectWithClientIP heap3 pool3 "1.2.3.4" 0 0 sa0)).
Proof.
  apply (SessionAffinity_good heap3 pool3 "1.2.3.4" 0 0 sa0); [by vm_compute|].
  intros ip s Hs. done.
Defined.
