(* ===== verification/StateMachine.v ===== *)
(** * Backend health states (src/pkg/backend/state.go)

    A state machine owns a pointer to its backend and mirrors its state into the
    backend's [healthy] flag.  An operation maps the machine and the heap of
    backends to the new machine, the new heap and the calls made to listeners
    (which run last in [transitionTo], and [transitionTo] runs last in its
    callers, so that the caller of the operation runs them next). *)

From S2P Require Import Prelude Backend GoFloat.

Inductive State := StateHealthy | StateUnhealthy | StateDraining.
#[export] Instance State_eq_dec : EqDecision State.
Proof. solve_decision. Defined.

Definition State_String (s : State) : string :=
  match s with
  | StateHealthy => "healthy"
  | StateUnhealthy => "unhealthy"
  | StateDraining => "draining"
  end.

Record HealthMetrics := mkHealthMetrics {
  consecutiveSuccesses : Z;
  consecutiveFailures : Z;
  hm_totalSuccesses : Z;
  hm_totalFailures : Z;
  lastCheckTime : option time;
  lastStateChange : option time;
  hm_totalRequests : Z;
  failedRequests : Z;
  totalResponseTime : Z
}.
#[export] Instance eta_HealthMetrics : Eta HealthMetrics := fun m =>
  mkHealthMetrics (consecutiveSuccesses m) (consecutiveFailures m) (hm_totalSuccesses m)
    (hm_totalFailures m) (lastCheckTime m) (lastStateChange m) (hm_totalRequests m)
    (failedRequests m) (totalResponseTime m).

Record StateMachine := mkStateMachine {
  sm_backend : bptr;
  sm_state : State;
  metrics : HealthMetrics;
  healthyThreshold : Z;
  unhealthyThreshold : Z;
  sm_listeners : list nat
}.
#[export] Instance eta_StateMachine : Eta StateMachine := fun s =>
  mkStateMachine (sm_backend s) (sm_state s) (metrics s) (healthyThreshold s)
    (unhealthyThreshold s) (sm_listeners s).

(** A call of listener [ev_listener] with the backend and the two states. *)
Record event := mkEvent {
  ev_listener : nat; ev_backend : bptr; ev_old : State; ev_new : State
}.

Definition NewStateMachine (b : bptr) (ht ut : Z) (now : time) : StateMachine :=
  mkStateMachine b StateHealthy
    (mkHealthMetrics 0 0 0 0 (Some now) (Some now) 0 0 0) ht ut [].

Definition SM_GetState (sm : StateMachine) : State := sm_state sm.
Definition SM_IsHealthy (sm : StateMachine) : bool := bool_decide (SM_GetState sm = StateHealthy).
Definition SM_IsDraining (sm : StateMachine) : bool := bool_decide (SM_GetState sm = StateDraining).

Definition SM_AddListener (i : nat) (sm : StateMachine) : StateMachine :=
  sm <| sm_listeners ::= fun l => l ++ [i] |>.

Abbreviation smh := (StateMachine * heap)%type.

Definition transitionTo (newState : State) (now : time) (s : smh) : smh * list event :=
  let '(sm, h) := s in
  let oldState := SM_GetState sm in
  if bool_decide (oldState = newState) then ((sm, h), [])
  else
    let sm := sm <| sm_state := newState |>
                 <| metrics ::= fun m => m <| lastStateChange := Some now |> |> in
    let h := if bool_decide (newState = StateHealthy) then MarkHealthy (sm_backend sm) h
             else MarkUnhealthy (sm_backend sm) h in
    ((sm, h),
     (fun i => mkEvent i (sm_backend sm) oldState newState) <$> sm_listeners sm).

(** [t1] is the time of the check, [t2] that of the transition. *)
Definition RecordSuccess (t1 t2 : time) (s : smh) : smh * list event :=
  let '(sm, h) := s in
  let sm := sm <| metrics ::= fun m =>
    m <| consecutiveSuccesses ::= fun n => i64 (n + 1) |>
      <| consecutiveFailures := 0 |>
      <| hm_totalSuccesses ::= fun n => i64 (n + 1) |>
      <| lastCheckTime := Some t1 |> |> in
  if healthyThreshold sm <=? consecutiveSuccesses (metrics sm)
  then transitionTo StateHealthy t2 (sm, h) else ((sm, h), []).

Definition RecordFailure (t1 t2 : time) (s : smh) : smh * list event :=
  let '(sm, h) := s in
  let sm := sm <| metrics ::= fun m =>
    m <| consecutiveFailures ::= fun n => i64 (n + 1) |>
      <| consecutiveSuccesses := 0 |>
      <| hm_totalFailures ::= fun n => i64 (n + 1) |>
      <| lastCheckTime := Some t1 |> |> in
  if unhealthyThreshold sm <=? consecutiveFailures (metrics sm)
  then transitionTo StateUnhealthy t2 (sm, h) else ((sm, h), []).

Definition SM_RecordRequest (success : bool) (responseTime : duration) (sm : StateMachine)
  : StateMachine :=
  sm <| metrics ::= fun m =>
    let m := m <| hm_totalRequests ::= fun n => i64 (n + 1) |> in
    if success then m <| totalResponseTime ::= fun n => i64 (n + responseTime) |>
    else m <| failedRequests ::= fun n => i64 (n + 1) |> |>.

Definition StartDraining (t : time) (s : smh) : smh * list event := transitionTo StateDraining t s.

Definition ForceHealthy (t : time) (s : smh) : smh * list event :=
  let '(sm, h) := s in
  let sm := sm <| metrics ::= fun m =>
    m <| consecutiveSuccesses := healthyThreshold sm |> <| consecutiveFailures := 0 |> |> in
  transitionTo StateHealthy t (sm, h).

Definition ForceUnhealthy (t : time) (s : smh) : smh * list event :=
  let '(sm, h) := s in
  let sm := sm <| metrics ::= fun m =>
    m <| consecutiveFailures := unhealthyThreshold sm |> <| consecutiveSuccesses := 0 |> |> in
  transitionTo StateUnhealthy t (sm, h).

Definition SM_GetMetrics (sm : StateMachine) : HealthMetrics := metrics sm.
Definition GetConsecutiveSuccesses (sm : StateMachine) : Z := consecutiveSuccesses (metrics sm).
Definition GetConsecutiveFailures (sm : StateMachine) : Z := consecutiveFailures (metrics sm).
Definition GetTotalRequests (sm : StateMachine) : Z := hm_totalRequests (metrics sm).
Definition GetFailedRequests (sm : StateMachine) : Z := failedRequests (metrics sm).

Definition GetErrorRate (sm : StateMachine) : f64 :=
  let total := hm_totalRequests (metrics sm) in
  if total =? 0 then of_int 0
  else fdiv (of_int (failedRequests (metrics sm))) (of_int total).

Definition GetAverageResponseTime (sm : StateMachine) : duration :=
  let total := i64 (hm_totalRequests (metrics sm) - failedRequests (metrics sm)) in
  if total =? 0 then 0 else i64 (go_div (totalResponseTime (metrics sm)) total).

Definition GetLastCheckTime (sm : StateMachine) : time :=
  default time_zero (lastCheckTime (metrics sm)).
Definition GetLastStateChangeTime (sm : StateMachine) : time :=
  default time_zero (lastStateChange (metrics sm)).

Definition SM_Reset (now : time) (sm : StateMachine) : StateMachine :=
  sm <| metrics := mkHealthMetrics 0 0 0 0 (Some now) (Some now) 0 0 0 |>.

(** The operations on one machine, as a step relation on the machine and the heap. *)
Inductive smstep : smh -> smh -> Prop :=
| sm_success t1 t2 s : smstep s (RecordSuccess t1 t2 s).1
| sm_failure t1 t2 s : smstep s (RecordFailure t1 t2 s).1
| sm_request b d sm h : smstep (sm, h) (SM_RecordRequest b d sm, h)
| sm_drain t s : smstep s (StartDraining t s).1
| sm_force_healthy t s : smstep s (ForceHealthy t s).1
| sm_force_unhealthy t s : smstep s (ForceUnhealthy t s).1
| sm_listen i sm h : smstep (sm, h) (SM_AddListener i sm, h)
| sm_reset t sm h : smstep (sm, h) (SM_Reset t sm, h).

(** A run of health checks: the outcome of each check and its clock readings. *)
Record check := mkCheck { ck_ok : bool; ck_t1 : time; ck_t2 : time }.
Definition run_check (s : smh) (c : check) : smh :=
  (if ck_ok c then RecordSuccess (ck_t1 c) (ck_t2 c) s
   else RecordFailure (ck_t1 c) (ck_t2 c) s).1.
Definition run_checks (s : smh) (cs : list check) : smh := foldl run_check s cs.

(** ** The flag of the backend follows the state *)

Definition in_sync (s : smh) : Prop :=
  valid s.2 (sm_backend s.1) /\ IsHealthy s.2 (sm_backend s.1) = SM_IsHealthy s.1.

Lemma in_sync_transition st t sm h :
  in_sync (sm, h) -> in_sync (transitionTo st t (sm, h)).1.
Proof.
  unfold transitionTo, in_sync, MarkHealthy, MarkUnhealthy, SM_IsHealthy, SM_GetState.
  destruct sm. simpl. intros [Hv Hh]. destruct (bool_decide (sm_state0 = st)); [done|]. simpl.
  destruct (bool_decide (st = StateHealthy)); simpl; rewrite alter_valid; (split; [done|]);
    by rewrite IsHealthy_mark, decide_True by done.
Qed.

(** Only the state and the backend matter. *)
Lemma in_sync_same sm sm' h :
  sm_backend sm' = sm_backend sm -> sm_state sm' = sm_state sm ->
  in_sync (sm, h) -> in_sync (sm', h).
Proof. unfold in_sync, SM_IsHealthy, SM_GetState. simpl. by intros -> ->. Qed.

Lemma in_sync_step s s' : smstep s s' -> in_sync s -> in_sync s'.
Proof.
  intros Hs. destruct Hs as [t1 t2 [sm h]|t1 t2 [sm h]|b d sm h|t [sm h]|t [sm h]|t [sm h]|i sm h|t sm h];
    intros Hi.
  - unfold RecordSuccess. case_match; [apply in_sync_transition|]; by destruct sm.
  - unfold RecordFailure. case_match; [apply in_sync_transition|]; by destruct sm.
  - by destruct sm.
  - by apply in_sync_transition.
  - unfold ForceHealthy. apply in_sync_transition. by destruct sm.
  - unfold ForceUnhealthy. apply in_sync_transition. by destruct sm.
  - by destruct sm.
  - by destruct sm.
Qed.

(** In every state reachable by any sequence of operations of the state machine (checks,
    draining, forcing, reset, listeners) the healthy flag of the backend it owns is true
    exactly when the machine's state is healthy. *)
Theorem StateMachine_in_sync b ht ut now h s :
  valid h b -> IsHealthy h b = true ->
  rtc smstep (NewStateMachine b ht ut now, h) s -> in_sync s.
Proof.
  intros Hv Hh Hr. assert (in_sync (NewStateMachine b ht ut now, h)) as Hi by done.
  revert Hi. induction Hr; [done|]. eauto using in_sync_step.
Qed.

(** ** Hysteresis

    The state after a run of checks, from the history of their outcomes alone:
    the backend is unhealthy exactly when some [U] consecutive failures are not
    followed by [H] consecutive successes. *)

Definition has_run (n : nat) (b : bool) (l : list bool) : Prop :=
  exists l1 l2, l = l1 ++ replicate n b ++ l2.
Definition is_down (H U : nat) (l : list bool) : Prop :=
  exists l1 l2, l = l1 ++ replicate U false ++ l2 /\ ~ has_run H true l2.

(** The length of the run of [b] at the end of [l]. *)
Fixpoint leading (b : bool) (l : list bool) : nat :=
  match l with c :: l' => if decide (b = c) then S (leading b l') else 0 | [] => 0 end.
Definition trailing (b : bool) (l : list bool) : nat := leading b (reverse l).

Lemma trailing_snoc b c l :
  trailing b (l ++ [c]) = if decide (b = c) then S (trailing b l) else 0%nat.
Proof. unfold trailing. by rewrite reverse_snoc. Qed.

Lemma trailing_le b l : (trailing b l <= length l)%nat.
Proof.
  induction l as [|c l IH] using rev_ind; [done|].
  rewrite trailing_snoc, length_app. simpl. case_decide; lia.
Qed.

(** A run at the end of the list is no longer than the trailing run, and the
    trailing run is one. *)
Lemma trailing_ends b l n :
  (n <= trailing b l)%nat <-> exists l1, l = l1 ++ replicate n b.
Proof.
  revert n. induction l as [|c l IH] using rev_ind; intros n.
  { split; [intros Hn; exists []; destruct n; [done|by inversion Hn]|].
    intros [l1 Hl]. symmetry in Hl. apply app_eq_nil in Hl as [_ Hn]. destruct n; [lia|done]. }
  rewrite trailing_snoc. destruct n as [|n].
  { split; [intros _; exists (l ++ [c]); by rewrite app_nil_r|]. case_decide; lia. }
  rewrite replicate_S_end. case_decide as Hc.
  - subst c. split.
    + intros Hn. destruct (proj1 (IH n)) as [l1 ->]; [lia|]. exists l1. by rewrite app_assoc.
    + intros [l1 Hl]. rewrite app_assoc in Hl. apply app_inj_tail in Hl as [-> _].
      assert (n <= trailing b (l1 ++ replicate n b))%nat by (apply IH; eauto). lia.
  - split; [lia|]. intros [l1 Hl]. rewrite app_assoc in Hl.
    apply app_inj_tail in Hl as [_ ->]. done.
Qed.

(** A run in a list extended by one element is in the list or at its end. *)
Lemma has_run_snoc n b l c :
  has_run n b (l ++ [c]) <-> has_run n b l \/ (n <= trailing b (l ++ [c]))%nat.
Proof.
  rewrite trailing_ends. split.
  - intros (l1 & l2 & Hl). destruct l2 as [|x l2 _] using rev_ind.
    + right. exists l1. by rewrite app_nil_r in Hl.
    + rewrite !app_assoc in Hl. apply app_inj_tail in Hl as [-> _].
      left. exists l1, l2. by rewrite app_assoc.
  - intros [(l1 & l2 & ->)|[l1 Hl]].
    + exists l1, (l2 ++ [c]). by rewrite <- !app_assoc.
    + exists l1, []. by rewrite app_nil_r.
Qed.

(** Whatever precedes the last [c] does not count in the trailing run of the other value. *)
Lemma leading_app b c l1 l2 : b <> c -> leading b (l1 ++ c :: l2) = leading b l1.
Proof.
  intros Hbc. induction l1 as [|d l1 IH]; simpl; [by rewrite decide_False|].
  by rewrite IH.
Qed.

Lemma trailing_after U l1 l2 :
  (0 < U)%nat -> trailing true (l1 ++ replicate U false ++ l2) = trailing true l2.
Proof.
  intros HU. destruct U as [|U]; [lia|]. unfold trailing.
  rewrite replicate_S_end, !reverse_app. simpl. rewrite <- !app_assoc. by apply leading_app.
Qed.

Section hysteresis.
Context (H U : nat) (HH : (0 < H)%nat) (HU : (0 < U)%nat).

Lemma is_down_success l :
  is_down H U (l ++ [true]) <-> is_down H U l /\ (trailing true (l ++ [true]) < H)%nat.
Proof.
  split.
  - intros (l1 & l2 & Hl & Hno). destruct l2 as [|x l2 _] using rev_ind.
    { destruct U as [|U']; [lia|]. rewrite app_nil_r, replicate_S_end, app_assoc in Hl.
      by apply app_inj_tail in Hl as [_ ?]. }
    rewrite has_run_snoc in Hno. rewrite Hl, (trailing_after U) by done.
    rewrite !app_assoc in Hl. apply app_inj_tail in Hl as [-> <-].
    apply Decidable.not_or in Hno as [Hno Ht].
    split; [exists l1, l2; by rewrite app_assoc|lia].
  - intros [(l1 & l2 & -> & Hno) Ht]. rewrite <- !app_assoc in *.
    rewrite trailing_after in Ht by done. exists l1, (l2 ++ [true]).
    split; [done|]. rewrite has_run_snoc. intros [?|?]; [done|lia].
Qed.

Lemma is_down_failure l :
  is_down H U (l ++ [false]) <-> is_down H U l \/ (U <= trailing false (l ++ [false]))%nat.
Proof.
  split.
  - intros (l1 & l2 & Hl & Hno). destruct l2 as [|x l2 _] using rev_ind.
    + right. apply trailing_ends. exists l1. by rewrite app_nil_r in Hl.
    + left. rewrite !app_assoc in Hl. apply app_inj_tail in Hl as [-> <-].
      rewrite has_run_snoc in Hno. exists l1, l2. rewrite app_assoc. naive_solver.
  - intros [(l1 & l2 & -> & Hno)|[l1 Hl]%trailing_ends].
    + exists l1, (l2 ++ [false]). rewrite <- !app_assoc. split; [done|].
      rewrite has_run_snoc, trailing_snoc. simpl. intros [?|?]; [done|lia].
    + exists l1, []. rewrite app_nil_r. split; [done|].
      intros (l3 & l4 & Hn). symmetry in Hn. apply app_eq_nil in Hn as [_ Hn].
      apply app_eq_nil in Hn as [Hn _]. by destruct H; [lia|].
Qed.
End hysteresis.

(** What a machine remembers of the history [l] of its checks. *)
Record tracks (sm : StateMachine) (l : list bool) : Prop := {
  tr_succ : consecutiveSuccesses (metrics sm) = Z.of_nat (trailing true l);
  tr_fail : consecutiveFailures (metrics sm) = Z.of_nat (trailing false l);
  tr_down : sm_state sm = StateUnhealthy <->
    is_down (Z.to_nat (healthyThreshold sm)) (Z.to_nat (unhealthyThreshold sm)) l;
  tr_up : sm_state sm <> StateDraining
}.

Lemma tracks_check sm h l c :
  tracks sm l -> 0 < healthyThreshold sm -> 0 < unhealthyThreshold sm ->
  Z.of_nat (length l) + 1 < 2 ^ 63 ->
  let sm' := (run_check (sm, h) c).1 in
  tracks sm' (l ++ [ck_ok c]) /\
  healthyThreshold sm' = healthyThreshold sm /\ unhealthyThreshold sm' = unhealthyThreshold sm.
Proof.
  intros [Hs Hf Hd Hu] HH HU Hlen. pose proof (trailing_le true l). pose proof (trailing_le false l).
  destruct sm as [b st m ht ut ls], m as [cs cf ? ? ? ? ? ? ?]. simpl in *. subst cs cf.
  unfold run_check. destruct (ck_ok c).
  - unfold RecordSuccess, transitionTo, SM_GetState. simpl.
    rewrite (swrap_small 64) by (unfold in_s; lia).
    assert (is_down (Z.to_nat ht) (Z.to_nat ut) (l ++ [true]) <->
      st = StateUnhealthy /\ Z.of_nat (trailing true l) + 1 < ht) as Hdown.
    { rewrite is_down_success, <- Hd, trailing_snoc by lia. simpl.
      split; intros [? ?]; (split; [done|lia]). }
    destruct (Z.leb_spec ht (Z.of_nat (trailing true l) + 1)); [case_bool_decide|]; simpl;
      (split; [split|done]); simpl; rewrite ?trailing_snoc; simpl; try lia; try done;
      rewrite Hdown; subst; split; try done; try (intros []; done || lia); intros; tauto.
  - unfold RecordFailure, transitionTo, SM_GetState. simpl.
    rewrite (swrap_small 64) by (unfold in_s; lia).
    assert (is_down (Z.to_nat ht) (Z.to_nat ut) (l ++ [false]) <->
      st = StateUnhealthy \/ ut <= Z.of_nat (trailing false l) + 1) as Hdown.
    { rewrite is_down_failure, <- Hd, trailing_snoc by lia. simpl.
      split; (intros [?|?]; [by left|right; lia]). }
    destruct (Z.leb_spec ut (Z.of_nat (trailing false l) + 1)); [case_bool_decide|]; simpl;
      (split; [split|done]); simpl; rewrite ?trailing_snoc; simpl; try lia; try done;
      rewrite Hdown; subst; split; try done; auto; try (intros []; done || lia).
Qed.

Lemma tracks_checks cs b ht ut now h :
  0 < ht -> 0 < ut -> Z.of_nat (length cs) < 2 ^ 63 ->
  let sm := (run_checks (NewStateMachine b ht ut now, h) cs).1 in
  tracks sm (ck_ok <$> cs) /\ healthyThreshold sm = ht /\ unhealthyThreshold sm = ut.
Proof.
  intros Hht Hut. induction cs as [|c cs IH] using rev_ind; intros Hlen.
  { split; [|done]. split; try done. simpl. split; [done|]. intros (l1 & l2 & Hl & _).
    symmetry in Hl. apply app_eq_nil in Hl as [_ Hl]. apply app_eq_nil in Hl as [Hl _].
    apply (f_equal length) in Hl. rewrite length_replicate in Hl. simpl in *. lia. }
  rewrite length_app in Hlen. simpl in Hlen. destruct IH as (Ht & Hh & Hu); [lia|].
  unfold run_checks in *. rewrite foldl_snoc, fmap_app.
  destruct (foldl _ _ cs) as [sm h'] eqn:E. simpl in *.
  destruct (tracks_check sm h' (ck_ok <$> cs) c Ht) as (Ht' & -> & ->); [lia|lia| |by subst].
  rewrite length_fmap. lia.
Qed.

(** C4: Hysteresis, from the history alone: after any run of health checks a fresh state
    machine is unhealthy exactly when some unhealthyThreshold consecutive failures are
    not followed anywhere by healthyThreshold consecutive successes, and healthy
    otherwise. Positive thresholds and fewer than 2^63 checks are assumed. *)
Theorem StateMachine_hysteresis (cs : list check) b (ht ut : Z) now h :
  0 < ht -> 0 < ut -> Z.of_nat (length cs) < 2 ^ 63 ->
  let sm := (run_checks (NewStateMachine b ht ut now, h) cs).1 in
  let down := is_down (Z.to_nat ht) (Z.to_nat ut) (ck_ok <$> cs) in
  (sm_state sm = StateUnhealthy <-> down) /\ (sm_state sm = StateHealthy <-> ~ down).
Proof.
  intros Hht Hut Hlen sm down. subst down.
  destruct (tracks_checks cs b ht ut now h Hht Hut Hlen) as ([_ _ Hd Hu] & Hh & Hut').
  fold sm in Hd, Hu, Hh, Hut'. rewrite Hh, Hut' in Hd. rewrite <- Hd.
  destruct (sm_state sm); naive_solver.
Qed.

(** ** Writers other than the machine

    The proxy marks a backend unhealthy directly.  The machine, whose state is
    still healthy, never undoes it: no successful check changes the flag. *)

Lemma RecordSuccess_healthy t1 t2 sm h :
  sm_state sm = StateHealthy ->
  (RecordSuccess t1 t2 (sm, h)).1.2 = h /\
  sm_state (RecordSuccess t1 t2 (sm, h)).1.1 = StateHealthy.
Proof.
  intros Hs. unfold RecordSuccess, transitionTo, SM_GetState. destruct sm. simpl in *. subst.
  by case_match.
Qed.

(** A backend that is marked unhealthy directly, as the proxy does after a failed dial,
    while its state machine is healthy stays out of rotation: no number of successful
    health checks sets its flag again, because a transition to the current state is a
    no-op. *)
Theorem MarkUnhealthy_sticks (cs : list check) sm h :
  sm_state sm = StateHealthy -> valid h (sm_backend sm) ->
  Forall (fun c => ck_ok c = true) cs ->
  IsHealthy (run_checks (sm, MarkUnhealthy (sm_backend sm) h) cs).2 (sm_backend sm) = false.
Proof.
  intros Hs Hv Hall.
  assert (forall sm' h', sm_state sm' = StateHealthy -> (run_checks (sm', h') cs).2 = h') as Hk.
  { clear -Hall. induction Hall as [|c cs Hc Hall IH]; [done|]. intros sm' h' Hs.
    change (run_checks (sm', h') (c :: cs)) with (run_checks (run_check (sm', h') c) cs).
    unfold run_check. rewrite Hc.
    destruct (RecordSuccess_healthy (ck_t1 c) (ck_t2 c) sm' h' Hs) as [Hh Hst].
    destruct (RecordSuccess _ _ _) as [[sm1 h1] evs]. simpl in *. subst. by apply IH. }
  rewrite Hk by done. unfold MarkUnhealthy. by rewrite IsHealthy_mark, decide_True.
Qed.

Lemma in_sync_checks cs s : in_sync s -> in_sync (run_checks s cs).
Proof.
  revert s. induction cs as [|c cs IH]; intros s Hs; [done|]. apply IH.
  unfold run_check. destruct (ck_ok c); eapply in_sync_step; eauto using smstep.
Qed.

Lemma run_checks_backend cs s : sm_backend (run_checks s cs).1 = sm_backend s.1.
Proof.
  revert s. induction cs as [|c cs IH]; intros s; [done|].
  change (run_checks s (c :: cs)) with (run_checks (run_check s c) cs). rewrite IH.
  destruct s as [[] h]. unfold run_check, RecordSuccess, RecordFailure, transitionTo.
  destruct (ck_ok c); simpl; case_match; [case_bool_decide| |case_bool_decide|]; done.
Qed.

(** Successes in a row turn any state into healthy. *)
Lemma successes_recover cs sm h :
  Forall (fun c => ck_ok c = true) cs -> cs <> [] ->
  0 <= consecutiveSuccesses (metrics sm) ->
  healthyThreshold sm <= consecutiveSuccesses (metrics sm) + Z.of_nat (length cs) ->
  consecutiveSuccesses (metrics sm) + Z.of_nat (length cs) < 2 ^ 63 ->
  sm_state (run_checks (sm, h) cs).1 = StateHealthy.
Proof.
  intros Hall. revert sm h. induction Hall as [|c cs Hc Hall IH]; intros sm h; [done|].
  intros _ H0 Hge Hlt. cbn [length] in *.
  change (run_checks (sm, h) (c :: cs)) with (run_checks (run_check (sm, h) c) cs).
  unfold run_check. rewrite Hc.
  destruct cs as [|c' cs].
  - simpl. unfold RecordSuccess, transitionTo, SM_GetState. destruct sm as [? ? [] ? ? ?].
    simpl in *. rewrite (swrap_small 64) by (unfold in_s; lia).
    rewrite (proj2 (Z.leb_le _ _)) by lia. by case_bool_decide.
  - destruct (RecordSuccess _ _ _).1 as [sm' h'] eqn:E. apply IH; [done|..];
    revert E; unfold RecordSuccess, transitionTo, SM_GetState; destruct sm as [? ? [] ? ? ?];
    simpl in *; rewrite (swrap_small 64) by (unfold in_s; lia);
    repeat (case_match || case_bool_decide); intros [= <- <-]; simpl; lia.
Qed.

(** healthyThreshold consecutive successful checks bring a machine in any state back to
    healthy and set the backend's flag; this includes the draining state, which a
    running health checker therefore undoes. *)
Theorem StateMachine_recovers (cs : list check) sm h :
  in_sync (sm, h) -> Forall (fun c => ck_ok c = true) cs -> cs <> [] ->
  0 <= consecutiveSuccesses (metrics sm) ->
  healthyThreshold sm <= Z.of_nat (length cs) ->
  consecutiveSuccesses (metrics sm) + Z.of_nat (length cs) < 2 ^ 63 ->
  let s := run_checks (sm, h) cs in
  sm_state s.1 = StateHealthy /\ IsHealthy s.2 (sm_backend sm) = true.
Proof.
  intros Hi Hall Hne H0 Hge Hlt s.
  assert (sm_state s.1 = StateHealthy) as Hs by (apply successes_recover; auto; lia).
  split; [done|]. destruct (in_sync_checks cs _ Hi) as [_ Hh].
  rewrite run_checks_backend in Hh. unfold SM_IsHealthy, SM_GetState in Hh.
  fold s in Hh. rewrite Hs in Hh. by rewrite bool_decide_true in Hh.
Qed.

(** ** Instances of the theorems *)

Definition sm0 : StateMachine := NewStateMachine 0 2 3 0.
Definition ok_at (t : time) : check := mkCheck true t t.
Definition fail_at (t : time) : check := mkCheck false t t.

Lemma StateMachine_in_sync_witness : in_sync (StartDraining 5 (sm0, heap3)).1.
Proof.
  apply (StateMachine_in_sync 0 2 3 0 heap3); [unfold valid; simpl; lia|done|].
  apply rtc_once, sm_drain.
Defined.

Lemma StateMachine_hysteresis_witness :
  sm_state (run_checks (sm0, heap3) [fail_at 1; fail_at 2; fail_at 3; ok_at 4]).1 = StateUnhealthy.
Proof.
  apply (StateMachine_hysteresis [fail_at 1; fail_at 2; fail_at 3; ok_at 4] 0 2 3 0 heap3);
    [done..|]. exists [], [true]. split; [done|]. intros (l1 & l2 & Hl).
  apply (f_equal length) in Hl. rewrite length_app in Hl. simpl in Hl. lia.
Defined.

Lemma MarkUnhealthy_sticks_witness :
  IsHealthy (run_checks (sm0, MarkUnhealthy 0 heap3) [ok_at 1; ok_at 2; ok_at 3]).2 0 = false.
Proof.
  apply (MarkUnhealthy_sticks [ok_at 1; ok_at 2; ok_at 3] sm0 heap3);
    [done|unfold valid; simpl; lia|by repeat constructor].
Defined.

Lemma StateMachine_recovers_witness :
  let s := (StartDraining 5 (sm0, heap3)).1 in
  sm_state s.1 = StateDraining /\
  sm_state (run_checks s [ok_at 6; ok_at 7]).1 = StateHealthy.
Proof.
  split; [done|].
  apply (StateMachine_recovers [ok_at 6; ok_at 7] (StartDraining 5 (sm0, heap3)).1.1
    (StartDraining 5 (sm0, heap3)).1.2); try done; [|by repeat constructor].
  split; [unfold valid; simpl; lia|done].
Defined.
