(* ===== verification/Health.v ===== *)
(** * Health checking (src/pkg/health: active.go, passive.go, checker.go)

    The active checker turns the outcome of a dial or of an HTTP request (both
    parameters) into a result; the passive checker counts failures per backend;
    the checker feeds both into one state machine per backend and, as the
    listener of every machine, resets the passive counters on recovery. *)

From S2P Require Import Prelude GoFloat Backend StateMachine.

(** ** Active checks *)

Definition CheckTypeTCP : string := "tcp".
Definition CheckTypeHTTP : string := "http".
Definition CheckTypeHTTPS : string := "https".

Inductive check_error :=
| TCPFailed
| RequestInvalid
| HTTPFailed
| UnexpectedStatus (code : Z)
| UnsupportedCheckType (t : string).

Record CheckResult := mkCheckResult {
  cr_Backend : bptr;
  cr_Success : bool;
  cr_Error : option check_error;
  cr_Duration : duration;
  cr_Timestamp : time;
  cr_StatusCode : Z
}.

Record ActiveChecker := mkActiveChecker {
  checkType : string;
  ac_timeout : duration;
  httpPath : string;
  expectedStatusCodes : list Z
}.

Record ActiveCheckerConfig := mkActiveCheckerConfig {
  acc_CheckType : string;
  acc_Timeout : duration;
  acc_HTTPPath : string;
  acc_ExpectedStatusCodes : list Z
}.

Definition NewActiveChecker (config : ActiveCheckerConfig) : ActiveChecker :=
  mkActiveChecker
    (if bool_decide (acc_CheckType config = "") then CheckTypeTCP else acc_CheckType config)
    (if acc_Timeout config =? 0 then 3 * Second else acc_Timeout config)
    (if bool_decide (acc_HTTPPath config = "") then "/health" else acc_HTTPPath config)
    (match acc_ExpectedStatusCodes config with [] => [200] | l => l end).

(** The network: whether a TCP dial succeeds, and the outcome of a GET (the URL
    may be invalid, the request may fail, or there is a status code). *)
Record network := mkNetwork {
  dial_ok : string -> bool;
  http_get : string -> result check_error Z
}.

Definition checkTCP (net : network) (address : string) : option check_error :=
  if dial_ok net address then None else Some TCPFailed.

(** The loop over the expected codes. *)
Fixpoint status_expected (code : Z) (expected : list Z) : bool :=
  match expected with [] => false | c :: l => if code =? c then true else status_expected code l end.

Definition checkHTTP (net : network) (ac : ActiveChecker) (url : string) : Z * option check_error :=
  match http_get net url with
  | Err e => (0, Some e)
  | Ok code =>
      if status_expected code (expectedStatusCodes ac) then (code, None)
      else (code, Some (UnexpectedStatus code))
  end.

(** [t1] is the start, [t2] the reading of [time.Since]. *)
Definition Check (net : network) (h : heap) (ac : ActiveChecker) (t1 t2 : time) (b : bptr) : CheckResult :=
  let '(code, err) :=
    if bool_decide (checkType ac = CheckTypeTCP) then (0, checkTCP net (Backend_Address h b))
    else if bool_decide (checkType ac = CheckTypeHTTP) then
      checkHTTP net ac ("http://" +:+ Backend_Address h b +:+ httpPath ac)
    else if bool_decide (checkType ac = CheckTypeHTTPS) then
      checkHTTP net ac ("https://" +:+ Backend_Address h b +:+ httpPath ac)
    else (0, Some (UnsupportedCheckType (checkType ac))) in
  mkCheckResult b (match err with None => true | Some _ => false end) err (time_Sub t2 t1) t1 code.

(** The collecting loop: results arrive in any order and are stored by index;
    the slice starts with zero values. *)
Definition zero_result : CheckResult := mkCheckResult 0 false None 0 time_zero 0.
Definition collect_results (n : nat) (arrivals : list (nat * CheckResult)) : list CheckResult :=
  foldl (fun rs ir => <[fst ir := snd ir]> rs) (replicate n zero_result) arrivals.

Definition CheckMultiple (check : bptr -> CheckResult) (arrival_order : list nat) (bs : list bptr)
  : list CheckResult :=
  collect_results (length bs)
    (omap (fun i => (fun b => (i, check b)) <$> (bs !! i)) arrival_order).

Definition CheckWithTimeout (net : network) (h : heap) (ac : ActiveChecker) (t1 t2 : time) (b : bptr) :=
  Check net h ac t1 t2 b.

(** ** Passive checks *)

Record PassiveCheckerConfig := mkPassiveConfig {
  pcc_ErrorRateThreshold : f64;
  pcc_MinRequests : Z;
  pcc_ConsecutiveFailures : Z;
  pcc_Window : duration
}.

Record failureTracker := mkTracker {
  ft_consecutiveFailures : Z;
  lastFailureTime : time;
  windowFailures : list time
}.
#[export] Instance eta_failureTracker : Eta failureTracker := fun t =>
  mkTracker (ft_consecutiveFailures t) (lastFailureTime t) (windowFailures t).

Record PassiveChecker := mkPassiveChecker {
  pc_config : PassiveCheckerConfig;
  pc_failures : gmap bptr failureTracker
}.
#[export] Instance eta_PassiveChecker : Eta PassiveChecker := fun p =>
  mkPassiveChecker (pc_config p) (pc_failures p).

Definition NewPassiveChecker (config : PassiveCheckerConfig) : PassiveChecker :=
  mkPassiveChecker
    (mkPassiveConfig
      (if feqb (pcc_ErrorRateThreshold config) (Fin 0) then of_ratio 1 2 else pcc_ErrorRateThreshold config)
      (if pcc_MinRequests config =? 0 then 10 else pcc_MinRequests config)
      (if pcc_ConsecutiveFailures config =? 0 then 5 else pcc_ConsecutiveFailures config)
      (if pcc_Window config =? 0 then 1 * Minute else pcc_Window config)) ∅.

Definition new_tracker : failureTracker := mkTracker 0 time_zero [].

Definition PC_RecordSuccess (b : bptr) (pc : PassiveChecker) : PassiveChecker :=
  let tracker := default new_tracker (pc_failures pc !! b) in
  pc <| pc_failures ::= <[b := tracker <| ft_consecutiveFailures := 0 |>]> |>.

Definition shouldMarkUnhealthy (config : PassiveCheckerConfig) (tracker : failureTracker) : bool :=
  if pcc_ConsecutiveFailures config <=? ft_consecutiveFailures tracker then true
  else if pcc_MinRequests config <=? Z.of_nat (length (windowFailures tracker)) then true
  else false.

(** The failures after the cutoff, in order. *)
Definition in_window (cutoff : time) (l : list time) : list time := filter (fun t => cutoff < t) l.

Definition PC_RecordFailure (b : bptr) (now : time) (pc : PassiveChecker) : bool * PassiveChecker :=
  let tracker := default new_tracker (pc_failures pc !! b) in
  let tracker := tracker <| ft_consecutiveFailures ::= fun n => i64 (n + 1) |>
                         <| lastFailureTime := now |>
                         <| windowFailures ::= fun l => l ++ [now] |> in
  let cutoff := time_Add now (i64 (- pcc_Window (pc_config pc))) in
  let tracker := tracker <| windowFailures ::= in_window cutoff |> in
  (shouldMarkUnhealthy (pc_config pc) tracker, pc <| pc_failures ::= <[b := tracker]> |>).

Definition PC_GetConsecutiveFailures (b : bptr) (pc : PassiveChecker) : Z :=
  match pc_failures pc !! b with Some t => ft_consecutiveFailures t | None => 0 end.

Definition GetWindowFailures (b : bptr) (now : time) (pc : PassiveChecker) : Z :=
  match pc_failures pc !! b with
  | Some t => Z.of_nat (length (in_window (time_Add now (i64 (- pcc_Window (pc_config pc)))) (windowFailures t)))
  | None => 0
  end.

Definition PC_Reset (b : bptr) (pc : PassiveChecker) : PassiveChecker :=
  pc <| pc_failures ::= delete b |>.
Definition ResetAll (pc : PassiveChecker) : PassiveChecker := pc <| pc_failures := ∅ |>.

(** ** The checker *)

Record CheckerConfig := mkCheckerConfig {
  Interval : duration;
  Timeout : duration;
  HealthyThreshold : Z;
  UnhealthyThreshold : Z;
  ActiveCheckType : string;
  HTTPPath : string;
  EnablePassiveChecks : bool;
  ErrorRateThreshold : f64;
  ConsecutiveFailures : Z;
  PassiveCheckWindow : duration
}.

Record Checker := mkChecker {
  ck_pool : Pool;
  activeChecker : ActiveChecker;
  passiveChecker : option PassiveChecker;
  stateMachines : gmap string StateMachine;
  interval : duration;
  ck_healthyThreshold : Z;
  ck_unhealthyThreshold : Z;
  totalChecks : Z;
  successChecks : Z;
  failedChecks : Z
}.
#[export] Instance eta_Checker : Eta Checker := fun c =>
  mkChecker (ck_pool c) (activeChecker c) (passiveChecker c) (stateMachines c) (interval c)
    (ck_healthyThreshold c) (ck_unhealthyThreshold c) (totalChecks c) (successChecks c) (failedChecks c).

(** The listener [c.onStateChange] has number 0. *)
Definition new_machine (b : bptr) (ht ut : Z) (now : time) : StateMachine :=
  SM_AddListener 0 (NewStateMachine b ht ut now).

Definition NewChecker (h : heap) (pool : Pool) (config : CheckerConfig) (now : time) : Checker :=
  let itv := if Interval config =? 0 then 10 * Second else Interval config in
  let tmo := if Timeout config =? 0 then 3 * Second else Timeout config in
  let ht := if HealthyThreshold config =? 0 then 2 else HealthyThreshold config in
  let ut := if UnhealthyThreshold config =? 0 then 3 else UnhealthyThreshold config in
  let ct := if bool_decide (ActiveCheckType config = "") then CheckTypeTCP else ActiveCheckType config in
  mkChecker pool
    (NewActiveChecker (mkActiveCheckerConfig ct tmo (HTTPPath config) []))
    (if EnablePassiveChecks config then
       Some (NewPassiveChecker (mkPassiveConfig (ErrorRateThreshold config) 0
         (ConsecutiveFailures config) (PassiveCheckWindow config)))
     else None)
    (foldl (fun m b => <[Backend_Name h b := new_machine b ht ut now]> m) ∅ (Pool_All pool))
    itv ht ut 0 0 0.

Definition onStateChange (e : event) (c : Checker) : Checker :=
  if bool_decide (ev_new e = StateHealthy) then
    c <| passiveChecker ::= fmap (PC_Reset (ev_backend e)) |>
  else c.

(** Run the listeners called by a machine's operation. *)
Definition run_listeners (evs : list event) (c : Checker) : Checker :=
  foldl (fun c e => onStateChange e c) c evs.

(** An operation on the machine of a backend, with its listeners. *)
Definition on_machine (nm : string) (sm : StateMachine) (op : smh -> smh * list event)
    (s : Checker * heap) : Checker * heap :=
  let '(c, h) := s in
  let '((sm', h'), evs) := op (sm, h) in
  (run_listeners evs (c <| stateMachines ::= <[nm := sm']> |>), h').

(** [t0] dates a new machine; [t1 t2] are the readings of the machine. *)
Definition processResult (r : CheckResult) (t0 t1 t2 : time) (s : Checker * heap) : Checker * heap :=
  let '(c, h) := s in
  let nm := Backend_Name h (cr_Backend r) in
  let sm := match stateMachines c !! nm with
            | Some sm => sm
            | None => new_machine (cr_Backend r) (ck_healthyThreshold c) (ck_unhealthyThreshold c) t0
            end in
  let '(c, h) := on_machine nm sm (if cr_Success r then RecordSuccess t1 t2 else RecordFailure t1 t2) (c, h) in
  let c := if cr_Success r then c <| successChecks ::= fun n => i64 (n + 1) |>
           else c <| failedChecks ::= fun n => i64 (n + 1) |> in
  (c <| totalChecks ::= fun n => i64 (n + 1) |>, h).

(** A result together with the clock readings of its processing. *)
Record timed_result := mkTimed { tr_result : CheckResult; tr_t0 : time; tr_t1 : time; tr_t2 : time }.

Definition process (s : Checker * heap) (r : timed_result) : Checker * heap :=
  processResult (tr_result r) (tr_t0 r) (tr_t1 r) (tr_t2 r) s.

(** One round: the results of all backends, processed in pool order. *)
Definition performHealthChecks (results : list timed_result) (s : Checker * heap) : Checker * heap :=
  if bool_decide (Pool_All (ck_pool s.1) = []) then s else foldl process s results.

(** [runHealthChecks]: one round at the start and one per tick until the checker is
    stopped; [rounds] are the results of the rounds that take place. *)
Definition runHealthChecks (rounds : list (list timed_result)) (s : Checker * heap) :
    Checker * heap :=
  foldl (fun s results => performHealthChecks results s) s rounds.

(** [t] is the reading of the passive checker, [t1 t2] those of the machine. *)
Definition RecordRequest (b : bptr) (success : bool) (responseTime : duration) (t t1 t2 : time)
    (s : Checker * heap) : Checker * heap :=
  let '(c, h) := s in
  match passiveChecker c with
  | None => s
  | Some pc =>
      let nm := Backend_Name h b in
      match stateMachines c !! nm with
      | None => s
      | Some sm =>
          let sm := SM_RecordRequest success responseTime sm in
          let c := c <| stateMachines ::= <[nm := sm]> |> in
          if success then (c <| passiveChecker := Some (PC_RecordSuccess b pc) |>, h)
          else
            let '(mark, pc) := PC_RecordFailure b t pc in
            let c := c <| passiveChecker := Some pc |> in
            if mark then on_machine nm sm (RecordFailure t1 t2) (c, h) else (c, h)
      end
  end.

Definition GetStateMachine (nm : string) (c : Checker) : option StateMachine := stateMachines c !! nm.
Definition GetAllStateMachines (c : Checker) : gmap string StateMachine := stateMachines c.
Definition GetStats (c : Checker) : Z * Z * Z := (totalChecks c, successChecks c, failedChecks c).

Definition AddBackend (h : heap) (b : bptr) (now : time) (c : Checker) : Checker :=
  match stateMachines c !! Backend_Name h b with
  | Some _ => c
  | None => c <| stateMachines ::= <[Backend_Name h b :=
      new_machine b (ck_healthyThreshold c) (ck_unhealthyThreshold c) now]> |>
  end.
Definition RemoveBackend (nm : string) (c : Checker) : Checker := c <| stateMachines ::= delete nm |>.

(** ** Concurrent checks are collected in order *)

Lemma collect_results_lookup (f : nat -> CheckResult) (l : list nat) (rs : list CheckResult) j :
  NoDup l -> Forall (fun i => i < length rs)%nat l ->
  foldl (fun rs ir => <[fst ir := snd ir]> rs) rs ((fun i => (i, f i)) <$> l) !! j =
  if decide (j ∈ l) then Some (f j) else rs !! j.
Proof.
  intros Hnd. revert rs. induction Hnd as [|i l Hi Hnd IH]; intros rs Hall; cbn.
  { by rewrite decide_False by set_solver. }
  apply Forall_cons in Hall as [Hlt Hall]. rewrite IH by (by rewrite length_insert).
  destruct (decide (j ∈ l)) as [Hj|Hj].
  - by rewrite decide_True by set_solver.
  - destruct (decide (i = j)) as [->|Hne].
    + rewrite decide_True by set_solver. by apply list_lookup_insert_eq.
    + rewrite decide_False by set_solver. by apply list_lookup_insert_ne.
Qed.

(** Concurrent active checks are collected by index: in whatever order the goroutines
    deliver their results, CheckMultiple returns the result of each backend at its own
    position. *)
Theorem CheckMultiple_order (check : bptr -> CheckResult) (order : list nat) (bs : list bptr) :
  order ≡ₚ seq 0 (length bs) -> CheckMultiple check order bs = check <$> bs.
Proof.
  intros Hord. unfold CheckMultiple, collect_results.
  assert (forall i, i ∈ order <-> (i < length bs)%nat) as Hin.
  { intros i. rewrite Hord, elem_of_seq. lia. }
  assert (omap (fun i => (fun b => (i, check b)) <$> (bs !! i)) order =
    (fun i => (i, check (bs !!! i))) <$> order) as ->.
  { assert (Forall (fun i => i < length bs)%nat order) as Hall by (apply Forall_forall; intros i; apply Hin).
    clear Hord Hin. induction Hall as [|i l Hi Hl IH]; [done|]. cbn.
    rewrite (list_lookup_lookup_total_lt bs i Hi). cbn. by rewrite IH. }
  apply list_eq. intros j. rewrite (collect_results_lookup (fun i => check (bs !!! i))).
  - rewrite list_lookup_fmap. destruct (decide (j ∈ order)) as [Hj|Hj]; rewrite Hin in Hj.
    + by rewrite (list_lookup_lookup_total_lt bs j Hj).
    + rewrite !lookup_ge_None_2; [done|lia|rewrite length_replicate; lia].
  - rewrite Hord. apply NoDup_seq.
  - apply Forall_forall. intros i Hi%Hin. by rewrite length_replicate.
Qed.

(** ** Passive checks, from the history alone *)

(** A request to a backend: whether it succeeded, and when it failed. *)
Definition pc_step (b : bptr) (pc : PassiveChecker) (o : bool * time) : PassiveChecker :=
  if fst o then PC_RecordSuccess b pc else snd (PC_RecordFailure b (snd o) pc).

(** The times of the failures of a history. *)
Definition failure_times (l : list (bool * time)) : list time :=
  (filter (fun o => fst o = false) l).*2.

Section passive.
Context (cfg : PassiveCheckerConfig) (Hwin : 0 < pcc_Window cfg < 2 ^ 63) (b : bptr).

(** The tracker remembers the trailing failures and the failures still in the window. *)
Record pc_inv (lst : time) (pc : PassiveChecker) (l : list (bool * time)) : Prop := {
  pci_config : pc_config pc = cfg;
  pci_consecutive :
    ft_consecutiveFailures (default new_tracker (pc_failures pc !! b)) = Z.of_nat (trailing false l.*1);
  pci_window c : lst - pcc_Window cfg <= c ->
    in_window c (windowFailures (default new_tracker (pc_failures pc !! b))) =
    in_window c (failure_times l);
  pci_past : Forall (fun t => t <= lst) (failure_times l)
}.

Lemma pc_cutoff now : time_Add now (i64 (- pcc_Window cfg)) = now - pcc_Window cfg.
Proof. unfold time_Add. rewrite swrap_small by (unfold in_s; lia). lia. Qed.

Lemma in_window_twice c c' l : c <= c' -> in_window c' (in_window c l) = in_window c' l.
Proof. intros. unfold in_window. apply list_filter_filter_l. intros. lia. Qed.

Lemma failure_times_snoc l o :
  failure_times (l ++ [o]) = failure_times l ++ (if fst o then [] else [snd o]).
Proof.
  unfold failure_times. rewrite filter_app, fmap_app, filter_cons. destruct o as [[] t]; cbn.
  - by rewrite decide_False.
  - by rewrite decide_True.
Qed.

Lemma pc_inv_mono lst lst' pc l : lst <= lst' -> pc_inv lst pc l -> pc_inv lst' pc l.
Proof.
  intros Hle [Hc Hf Hw Hp]. split; try done; [intros; apply Hw; lia|].
  eapply Forall_impl; [done|]. cbn. lia.
Qed.

(** The tracker after a failure at [now]. *)
Lemma PC_RecordFailure_tracker now pc l :
  pc_inv now pc l -> Z.of_nat (length l) + 1 < 2 ^ 63 ->
  pc_failures (snd (PC_RecordFailure b now pc)) !! b =
  Some (mkTracker (Z.of_nat (trailing false (l.*1 ++ [false]))) now
    (in_window (now - pcc_Window cfg) (failure_times l ++ [now]))) /\
  pc_config (snd (PC_RecordFailure b now pc)) = cfg.
Proof.
  intros [Hc Hf Hw Hp] Hlen. destruct pc as [c m]. cbn in Hc. subst c.
  pose proof (trailing_le false l.*1) as Htr. rewrite length_fmap in Htr.
  unfold PC_RecordFailure. cbn -[in_window]. rewrite lookup_insert_eq. split; [|done].
  cbn in Hf, Hw. destruct (default new_tracker (m !! b)) as [cf lf ws]. cbn -[in_window] in *.
  rewrite Hf, (swrap_small 64), pc_cutoff by (unfold in_s; lia).
  rewrite trailing_snoc, decide_True by done.
  do 2 f_equal; [lia|]. unfold in_window in *. by rewrite !filter_app, Hw by lia.
Qed.

Lemma pc_inv_step lst pc l o :
  pc_inv lst pc l -> lst <= snd o -> Z.of_nat (length l) + 1 < 2 ^ 63 ->
  pc_inv (snd o) (pc_step b pc o) (l ++ [o]).
Proof.
  intros Hi Hle Hlen. apply (pc_inv_mono _ (snd o)) in Hi; [|done].
  destruct o as [[] now]; cbn [fst snd] in *; unfold pc_step; cbn [fst snd].
  - destruct Hi as [Hc Hf Hw Hp]. destruct pc as [c m]. split; cbn -[in_window]; [done| | |].
    + rewrite lookup_insert_eq, fmap_app. change ([(true, now)].*1) with [true].
      by rewrite trailing_snoc, decide_False by done.
    + intros c' Hc'. rewrite lookup_insert_eq, failure_times_snoc, app_nil_r. cbn -[in_window].
      rewrite <- Hw by done. by destruct (default _ _).
    + by rewrite failure_times_snoc, app_nil_r.
  - destruct (PC_RecordFailure_tracker now pc l Hi Hlen) as [Ht Hcfg].
    split; [done|rewrite Ht; cbn; by rewrite fmap_app| |].
    + intros c' Hc'. rewrite Ht. cbn [default windowFailures from_option id].
      rewrite failure_times_snoc. by apply in_window_twice.
    + rewrite failure_times_snoc. apply Forall_app_2; [apply Hi|]. by repeat constructor.
Qed.

Lemma pc_inv_run l lst pc :
  pc_inv lst pc [] -> Forall (fun o => lst <= snd o) l -> StronglySorted Z.le l.*2 ->
  Z.of_nat (length l) < 2 ^ 63 ->
  pc_inv (default lst (last l.*2)) (foldl (pc_step b) pc l) l.
Proof.
  induction l as [|o l IH] using rev_ind; intros Hi Hall Hs Hlen; [done|].
  rewrite fmap_app in *. change ([o].*2) with [snd o] in *.
  rewrite last_snoc, foldl_snoc. cbn [default from_option id].
  apply Forall_app in Hall as [Hall Ho]. apply StronglySorted_app in Hs as (Hle & Hs & _).
  rewrite length_app in Hlen. cbn in Hlen.
  eapply pc_inv_step; [apply IH; [done..|lia]| |lia].
  destruct (last l.*2) as [t|] eqn:E; cbn.
  - apply last_Some_elem_of in E. apply Hle; [done|set_solver].
  - apply Forall_cons in Ho as [? _]. done.
Qed.
End passive.

(** The decision is taken on the tracker that is stored. *)
Lemma PC_RecordFailure_decides b now pc tr :
  pc_failures (snd (PC_RecordFailure b now pc)) !! b = Some tr ->
  fst (PC_RecordFailure b now pc) = shouldMarkUnhealthy (pc_config pc) tr.
Proof.
  destruct pc. unfold PC_RecordFailure. cbn -[in_window shouldMarkUnhealthy].
  rewrite lookup_insert_eq. by intros [= <-].
Qed.

(** C29: The passive checker, which prunes its list as it goes, decides from the whole
    history of a backend: after any run of successes and failures in the order of the
    clock, a failure is reported as unhealthy exactly when the failures since the last
    success, itself included, reach ConsecutiveFailures or the failures within the last
    Window reach MinRequests, with the settings after defaults and a positive window;
    the error rate that is configured plays no part (finding). *)
Theorem PassiveChecker_exact (config : PassiveCheckerConfig) (b : bptr) (l : list (bool * time)) (now : time) :
  let pc0 := NewPassiveChecker config in
  let cfg := pc_config pc0 in
  0 < pcc_Window cfg < 2 ^ 63 -> StronglySorted Z.le (l.*2 ++ [now]) ->
  Z.of_nat (length l) + 1 < 2 ^ 63 ->
  fst (PC_RecordFailure b now (foldl (pc_step b) pc0 l)) =
    ((pcc_ConsecutiveFailures cfg <=? Z.of_nat (trailing false (l.*1 ++ [false]))) ||
     (pcc_MinRequests cfg <=? Z.of_nat (length
        (filter (fun t => now - pcc_Window cfg < t) (failure_times l ++ [now]))))).
Proof.
  intros pc0 cfg Hwin Hs Hlen. apply StronglySorted_app in Hs as (Hle & Hs & _).
  assert (pc_inv cfg b (default now (head l.*2)) pc0 []) as Hi0.
  { split; try done. }
  assert (pc_inv cfg b now (foldl (pc_step b) pc0 l) l) as Hi.
  { pose proof (pc_inv_run cfg Hwin b l (default now (head l.*2)) pc0 Hi0) as Hr.
    eapply (pc_inv_mono cfg b); [|apply Hr; [|done|lia]].
    - destruct (last l.*2) as [t|] eqn:E; cbn.
      + apply last_Some_elem_of in E. apply Hle; [done|set_solver].
      + apply last_None in E. by rewrite E.
    - destruct l as [|o l]; [constructor|]. cbn in *. apply StronglySorted_inv in Hs as [_ Hf].
      constructor; [lia|]. by apply (Forall_fmap snd) in Hf. }
  destruct (PC_RecordFailure_tracker cfg Hwin b now _ l Hi Hlen) as [Ht Hc].
  rewrite (PC_RecordFailure_decides _ _ _ _ Ht), (pci_config _ _ _ _ _ Hi).
  unfold shouldMarkUnhealthy. cbn [ft_consecutiveFailures windowFailures]. unfold in_window.
  destruct (_ <=? _); [done|]. by destruct (_ <=? _).
Qed.

(** ** The checker keeps every backend's flag in line with its own history *)

(** A heap that differs from [h] only in the health flag of [p]. *)
Definition flag_only (p : bptr) (h h' : heap) : Prop :=
  length h' = length h /\ (forall q, name (h' !!! q) = name (h !!! q)) /\
  (forall q, q <> p -> IsHealthy h' q = IsHealthy h q).

Lemma flag_only_mark p h v : flag_only p h (alter (fun b => b <| healthy := v |>) p h).
Proof.
  split; [apply length_alter|]. split.
  - intros q. destruct (decide (p = q)) as [->|Hne]; [|by rewrite lookup_total_alter_ne].
    destruct (decide (q < length h)%nat) as [Hv|Hv]; [rewrite lookup_total_alter_eq by done; by destruct (h !!! q)|].
    rewrite !list_lookup_total_alt, !lookup_ge_None_2; [done| |]; rewrite ?length_alter; lia.
  - intros q Hq. unfold IsHealthy. by rewrite lookup_total_alter_ne.
Qed.

Lemma run_check_heap sm h c : flag_only (sm_backend sm) h (run_check (sm, h) c).2.
Proof.
  assert (flag_only (sm_backend sm) h h) as Hrefl by (by split).
  unfold run_check, RecordSuccess, RecordFailure, transitionTo, MarkHealthy, MarkUnhealthy.
  destruct sm. destruct (ck_ok c); cbn; repeat case_match; cbn; try done; apply flag_only_mark.
Qed.

Lemma run_check_backend sm h c : sm_backend (run_check (sm, h) c).1 = sm_backend sm.
Proof. apply (run_checks_backend [c] (sm, h)). Qed.

Lemma run_listeners_machines evs c : stateMachines (run_listeners evs c) = stateMachines c.
Proof.
  revert c. induction evs as [|e evs IH]; intros c; [done|].
  change (run_listeners (e :: evs) c) with (run_listeners evs (onStateChange e c)). rewrite IH.
  unfold onStateChange. destruct c. by case_bool_decide.
Qed.

Definition as_check (r : timed_result) : check := mkCheck (cr_Success (tr_result r)) (tr_t1 r) (tr_t2 r).
Definition of_backend (b : bptr) (r : timed_result) : Prop := cr_Backend (tr_result r) = b.
#[export] Instance of_backend_dec b r : Decision (of_backend b r).
Proof. unfold of_backend. apply _. Defined.
(** The outcomes of the checks of one backend. *)
Definition history (b : bptr) (rs : list timed_result) : list bool :=
  ck_ok <$> (as_check <$> filter (of_backend b) rs).

Lemma history_snoc b rs r :
  history b (rs ++ [r]) = history b rs ++ (if decide (of_backend b r) then [ck_ok (as_check r)] else []).
Proof.
  unfold history. rewrite filter_app, !fmap_app, filter_cons. by case_decide.
Qed.

Lemma history_length b rs : (length (history b rs) <= length rs)%nat.
Proof. unfold history. rewrite !length_fmap. apply length_filter. Qed.

(** Processing a result whose machine exists. *)
Lemma process_eq c h r sm :
  stateMachines c !! Backend_Name h (cr_Backend (tr_result r)) = Some sm ->
  (process (c, h) r).2 = (run_check (sm, h) (as_check r)).2 /\
  stateMachines (process (c, h) r).1 =
    <[Backend_Name h (cr_Backend (tr_result r)) := (run_check (sm, h) (as_check r)).1]> (stateMachines c).
Proof.
  intros Hsm. unfold process, processResult, run_check, on_machine, as_check. rewrite Hsm. cbn [ck_ok ck_t1 ck_t2].
  destruct (cr_Success (tr_result r)); [destruct (RecordSuccess _ _ _) as [[sm' h'] evs]|
    destruct (RecordFailure _ _ _) as [[sm' h'] evs]]; cbn;
  pose proof (run_listeners_machines evs (c <| stateMachines ::= <[Backend_Name h (cr_Backend (tr_result r)) := sm']> |>)) as Hl;
  destruct (run_listeners _ _); cbn in *; split; try done; subst; by destruct c.
Qed.

(** The machines that [NewChecker] makes. *)
Lemma new_machines (h0 : heap) (ht ut : Z) now b bs (m : gmap string StateMachine) :
  NoDup (Backend_Name h0 <$> bs) -> b ∈ bs ->
  foldl (fun m b => <[Backend_Name h0 b := new_machine b ht ut now]> m) m bs !! Backend_Name h0 b =
  Some (new_machine b ht ut now).
Proof.
  induction bs as [|b' bs IH] using rev_ind; intros Hnd Hb; [set_solver|].
  rewrite foldl_snoc. rewrite fmap_app in Hnd. apply NoDup_app in Hnd as (Hnd & Hdis & _).
  apply elem_of_app in Hb as [Hb|Hb%list_elem_of_singleton]; [|by subst; rewrite lookup_insert_eq].
  rewrite lookup_insert_ne; [by apply IH|]. intros Heq.
  apply (Hdis (Backend_Name h0 b)); [by apply list_elem_of_fmap_2|]. cbn. set_solver.
Qed.
Section checker.
Context (h0 : heap) (pool : Pool) (ht ut : Z) (Hht : 0 < ht) (Hut : 0 < ut).
Context (Hwf : Pool_wf h0 pool) (Hnames : NoDup (Backend_Name h0 <$> backends pool)).

Record ck_inv (c : Checker) (h : heap) (rs : list timed_result) : Prop := {
  cki_names q : Backend_Name h q = Backend_Name h0 q;
  cki_machine b : b ∈ backends pool -> exists sm,
    stateMachines c !! Backend_Name h0 b = Some sm /\ sm_backend sm = b /\ in_sync (sm, h) /\
    healthyThreshold sm = ht /\ unhealthyThreshold sm = ut /\ tracks sm (history b rs)
}.

(** Distinct backends of the pool have distinct names. *)
Lemma names_inj b b' :
  b ∈ backends pool -> b' ∈ backends pool -> Backend_Name h0 b = Backend_Name h0 b' -> b = b'.
Proof.
  intros [i Hi]%list_elem_of_lookup_1 [j Hj]%list_elem_of_lookup_1 Heq.
  assert (i = j) as ->; [|congruence].
  eapply NoDup_lookup; [exact Hnames| |]; rewrite list_lookup_fmap; [by rewrite Hi|by rewrite Hj, Heq].
Qed.

Lemma ck_inv_process c h rs r :
  ck_inv c h rs -> cr_Backend (tr_result r) ∈ backends pool -> Z.of_nat (length rs) + 1 < 2 ^ 63 ->
  ck_inv (process (c, h) r).1 (process (c, h) r).2 (rs ++ [r]).
Proof.
  intros [Hn Hm] Hb Hlen. set (b0 := cr_Backend (tr_result r)) in *.
  destruct (Hm b0 Hb) as (sm & Hsm & Hbk & Hsync & Hh & Hu & Htr).
  destruct (process_eq c h r sm) as [Hheap Hmach]; [by fold b0; rewrite Hn|]. fold b0 in Hmach.
  rewrite Hn in Hmach. destruct (run_check_heap sm h (as_check r)) as (Hl & Hnm & Hother).
  rewrite Hbk in Hother. split.
  - intros q. rewrite Hheap. unfold Backend_Name. rewrite Hnm. apply Hn.
  - intros b Hbin. rewrite Hheap, Hmach, history_snoc. unfold of_backend. fold b0.
    destruct (decide (b0 = b)) as [<-|Hne].
    + exists (run_check (sm, h) (as_check r)).1. rewrite lookup_insert_eq. split; [done|].
      pose proof (history_length b0 rs).
      destruct (tracks_check sm h (history b0 rs) (as_check r) Htr) as (Htr' & -> & ->); [lia|lia|lia|].
      split; [by rewrite run_check_backend|]. split; [|done].
      rewrite <- surjective_pairing. apply (in_sync_checks [as_check r] (sm, h) Hsync).
    + destruct (Hm b Hbin) as (smb & Hsmb & Hbkb & [Hvb Hsb] & Hhb & Hub & Htrb).
      exists smb. rewrite lookup_insert_ne by (intros Heq; apply Hne; by apply names_inj).
      rewrite app_nil_r. split_and!; try done. split; cbn in *.
      * unfold valid in *. by rewrite Hl.
      * rewrite <- Hsb. rewrite Hbkb. by apply Hother.
Qed.

Lemma ck_inv_run c rs :
  ck_inv c h0 [] -> Forall (fun r => cr_Backend (tr_result r) ∈ backends pool) rs ->
  Z.of_nat (length rs) < 2 ^ 63 ->
  ck_inv (foldl process (c, h0) rs).1 (foldl process (c, h0) rs).2 rs.
Proof.
  intros Hi. induction rs as [|r rs IH] using rev_ind; intros Hall Hlen; [done|].
  apply Forall_app in Hall as [Hall [Hr _]%Forall_cons]. rewrite length_app in Hlen. cbn in Hlen.
  rewrite foldl_snoc. specialize (IH Hall ltac:(lia)).
  destruct (foldl process (c, h0) rs) as [c' h']. by apply ck_inv_process; [|done|lia].
Qed.
End checker.

(** Processing a result does not touch the pool. *)
Lemma process_pool s r : ck_pool (process s r).1 = ck_pool s.1.
Proof.
  destruct s as [c h]. unfold process, processResult, on_machine.
  match goal with |- context [ (if ?b then ?x else ?y) (?sm, h) ] =>
    destruct ((if b then x else y) (sm, h)) as [[sm' h'] evs] end.
  cbn. assert (forall evs c, ck_pool (run_listeners evs c) = ck_pool c) as Hl.
  { clear. induction evs as [|e evs IH]; intros c; [done|].
    change (run_listeners (e :: evs) c) with (run_listeners evs (onStateChange e c)). rewrite IH.
    unfold onStateChange. case_bool_decide; by destruct c. }
  set (c1 := run_listeners _ _). assert (ck_pool c1 = ck_pool c) as <-.
  { unfold c1. rewrite Hl. by destruct c. }
  clearbody c1. destruct (cr_Success (tr_result r)); by destruct c1.
Qed.

Lemma process_all_pool rs s : ck_pool (foldl process s rs).1 = ck_pool s.1.
Proof. revert s. induction rs as [|r rs IH]; intros s; [done|]. cbn. by rewrite IH, process_pool. Qed.

(** The rounds of a checker with backends process all results one after the other. *)
Lemma runHealthChecks_flat rounds s :
  Pool_All (ck_pool s.1) <> [] -> runHealthChecks rounds s = foldl process s (concat rounds).
Proof.
  revert s. induction rounds as [|rs rounds IH]; intros s Hne; [done|]. cbn. rewrite foldl_app.
  unfold performHealthChecks at 2. rewrite bool_decide_eq_false_2 by done.
  apply IH. by rewrite process_all_pool.
Qed.

(** C1: End to end: a checker built over a pool of healthy backends with distinct names,
    after any number of rounds of runHealthChecks (whatever results the checks return
    and in whatever order), leaves a backend's healthy flag set if and only if that
    backend's own history is not down (some unhealthyThreshold failures in a row not
    followed by healthyThreshold successes in a row); checks of other backends have no
    effect on it. Positive thresholds and fewer than 2^63 results are assumed; the
    results of the active checks are inputs. *)
Theorem Checker_follows_history h0 pool config now (rounds : list (list timed_result)) b :
  let c := NewChecker h0 pool config now in
  let ht := ck_healthyThreshold c in let ut := ck_unhealthyThreshold c in
  0 < ht -> 0 < ut -> Pool_wf h0 pool -> NoDup (Backend_Name h0 <$> backends pool) ->
  (forall b, b ∈ backends pool -> IsHealthy h0 b = true) ->
  let rs := concat rounds in
  Forall (fun r => cr_Backend (tr_result r) ∈ backends pool) rs -> Z.of_nat (length rs) < 2 ^ 63 ->
  b ∈ backends pool ->
  (IsHealthy (runHealthChecks rounds (c, h0)).2 b = true <->
   ~ is_down (Z.to_nat ht) (Z.to_nat ut) (history b rs)).
Proof.
  intros c ht ut Hht Hut Hwf Hnames Hup rs Hall Hlen Hb.
  assert (ck_inv h0 pool ht ut c h0 []) as Hi.
  { split; [done|]. intros b' Hb'. exists (new_machine b' ht ut now). split_and!; try done.
    - by apply new_machines.
    - split; [by apply (proj1 (Forall_forall _ _) Hwf)|]. cbn. by rewrite Hup.
    - destruct (tracks_checks [] b' ht ut now h0 Hht Hut) as [[? ? ? ?] _]; [cbn; lia|]. by split. }
  rewrite runHealthChecks_flat by (intros Hnil; unfold Pool_All in Hnil; cbn in Hnil;
    rewrite Hnil in Hb; by apply not_elem_of_nil in Hb).
  fold rs. clearbody rs.
  destruct (ck_inv_run h0 pool ht ut Hht Hut Hnames c rs Hi Hall Hlen) as [_ Hm].
  destruct (Hm b Hb) as (sm & _ & Hbk & [_ Hs] & Hh & Hu & [_ _ Hd Hdr]).
  cbn in Hs. rewrite Hbk in Hs. rewrite Hs, <- Hh, <- Hu, <- Hd. unfold SM_IsHealthy, SM_GetState.
  rewrite bool_decide_eq_true. destruct (sm_state sm); naive_solver.
Qed.

(** ** Instances of the theorems *)

Lemma CheckMultiple_order_witness :
  CheckMultiple (fun b => mkCheckResult b true None 0 0 0) [1; 0]%nat [4; 7]%nat =
  [mkCheckResult 4 true None 0 0 0; mkCheckResult 7 true None 0 0 0].
Proof.
  rewrite (CheckMultiple_order (fun b => mkCheckResult b true None 0 0 0) [1; 0]%nat [4; 7]%nat);
    [reflexivity|]. cbn. apply perm_swap.
Defined.

Definition passive_cfg : PassiveCheckerConfig := mkPassiveConfig (Fin 0) 0 2 0.

Lemma PassiveChecker_exact_witness :
  fst (PC_RecordFailure 0 30 (foldl (pc_step 0) (NewPassiveChecker passive_cfg) [(false, 10); (true, 20)])) = false.
Proof.
  rewrite (PassiveChecker_exact passive_cfg 0 [(false, 10); (true, 20)] 30).
  - vm_compute. reflexivity.
  - vm_compute. auto.
  - repeat constructor; cbn; lia.
  - cbn. lia.
Defined.

Definition ck_cfg : CheckerConfig := mkCheckerConfig 0 0 2 1 "" "" true (Fin 0) 0 0.
Definition failed_b0 : timed_result := mkTimed (mkCheckResult 0 false (Some TCPFailed) 5 6 0) 6 7 8.

Lemma Checker_follows_history_witness :
  IsHealthy (runHealthChecks [[failed_b0]; []] (NewChecker heap3 pool3 ck_cfg 0, heap3)).2 0 <> true.
Proof.
  intros Hh.
  refine (proj1 (Checker_follows_history heap3 pool3 ck_cfg 0 [[failed_b0]; []] 0 _ _ _ _ _ _ _ _) Hh _).
  - cbn. lia.
  - cbn. lia.
  - repeat constructor; unfold valid; cbn; lia.
  - cbn. apply (bool_decide_unpack _). vm_compute. exact I.
  - intros b Hb. change (backends pool3) with [0; 1; 2]%nat in Hb.
    repeat (apply elem_of_cons in Hb as [->|Hb]; [done|]). by apply not_elem_of_nil in Hb.
  - repeat constructor.
  - cbn. lia.
  - by left.
  - exists [], []. split; [done|]. intros (l1 & l2 & Hl). by destruct l1.
Defined.
