(* ===== verification/HealthLife.v ===== *)
(** * Starting and stopping the health checker (src/pkg/health/checker.go)

    [Start] runs the checks in a goroutine, [Stop] cancels its context and waits for it.
    The goroutine starts a round, waits for the results of all backends (which the network
    decides, and a cancelled context can make fail), processes them one by one, and
    selects between the context and the ticker.  Each access to shared state is a step.
    The interval is taken to be positive, as time.NewTicker demands ([NewChecker] replaces
    0 by the default). *)

From S2P Require Import Prelude GoFloat Backend StateMachine Health.

(** ** State *)

(** The goroutine: about to begin a round; waiting for the checks; with results to
    process; at the [select]; gone. *)
Inductive check_pc := HBegin | HChecking | HProcess (rs : list timed_result) | HSelect | HDone.

(** [Stop]: not called; waiting for the wait group; returned. *)
Inductive stop_pc := SNone | SWaiting | SReturned.

Record health_life := mkHealthLife {
  hl_checker : Checker * heap;
  hl_cancelled : bool;
  hl_wg : Z;
  hl_pcs : list check_pc;
  hl_stop : stop_pc
}.
#[export] Instance eta_health_life : Eta health_life := fun s =>
  mkHealthLife (hl_checker s) (hl_cancelled s) (hl_wg s) (hl_pcs s) (hl_stop s).

Definition life0 (c : Checker) (h : heap) : health_life := mkHealthLife (c, h) false 0 [] SNone.

(** ** Steps *)

Definition Checker_Start (s : health_life) : health_life :=
  s <| hl_wg ::= fun n => n + 1 |> <| hl_pcs ::= fun l => l ++ [HBegin] |>.

Definition Checker_Stop_step (s : health_life) : option health_life :=
  match hl_stop s with
  | SNone => Some (s <| hl_cancelled := true |> <| hl_stop := SWaiting |>)
  | SWaiting => if hl_wg s =? 0 then Some (s <| hl_stop := SReturned |>) else None
  | SReturned => None
  end.

(** What the environment decides for a goroutine: the results of a round, one for every
    backend of the pool, or which ready case the [select] takes. *)
Inductive check_input := CGo | CResults (rs : list timed_result) | CTick.

Definition check_step (i : nat) (a : check_input) (s : health_life) : option health_life :=
  let go pc := Some (s <| hl_pcs ::= <[i := pc]> |>) in
  match hl_pcs s !! i, a with
  | Some HBegin, CGo =>
      if bool_decide (Pool_All (ck_pool (hl_checker s).1) = []) then go HSelect else go HChecking
  | Some HChecking, CResults rs =>
      if bool_decide ((fun r => cr_Backend (tr_result r)) <$> rs = Pool_All (ck_pool (hl_checker s).1))
      then go (HProcess rs) else None
  | Some (HProcess (r :: rs)), CGo =>
      Some (s <| hl_checker ::= fun c => process c r |> <| hl_pcs ::= <[i := HProcess rs]> |>)
  | Some (HProcess []), CGo => go HSelect
  | Some HSelect, CTick => go HBegin
  | Some HSelect, CGo =>
      if hl_cancelled s then Some (s <| hl_wg ::= fun n => n - 1 |> <| hl_pcs ::= <[i := HDone]> |>) else None
  | _, _ => None
  end.

Inductive hl_action := HlStart | HlStop | HlCheck (i : nat) (a : check_input).

Definition hl_run1 (a : hl_action) (s : health_life) : option health_life :=
  match a with
  | HlStart => Some (Checker_Start s)
  | HlStop => Checker_Stop_step s
  | HlCheck i a => check_step i a s
  end.

Definition hl_step (s s' : health_life) : Prop := exists a, hl_run1 a s = Some s'.

Fixpoint hl_run (l : list hl_action) (s : health_life) : option health_life :=
  match l with
  | [] => Some s
  | a :: l => match hl_run1 a s with Some s => hl_run l s | None => None end
  end.

Lemma hl_run_reaches l s s' : hl_run l s = Some s' -> rtc hl_step s s'.
Proof.
  revert s. induction l as [|a l IH]; intros s; cbn; [by intros [= ->]|].
  destruct (hl_run1 a s) as [s1|] eqn:E; [|done]. intros H. eapply rtc_l; [by exists a|]. by apply IH.
Qed.

(** ** The wait group *)

Definition alive (pc : check_pc) : Z := match pc with HDone => 0 | _ => 1 end.

Record life_inv (s : health_life) : Prop := {
  li_wg : hl_wg s = sum_by alive (hl_pcs s);
  li_stop : hl_stop s <> SNone -> hl_cancelled s = true;
  li_done : HDone ∈ hl_pcs s -> hl_cancelled s = true
}.

Lemma health_life_step a s s' : hl_run1 a s = Some s' -> life_inv s -> life_inv s'.
Proof.
  intros Ha [Hw Hs Hd]. destruct s as [c cn w l st]. destruct a as [| |i a]; cbn in Ha.
  - injection Ha as <-. split; cbn -[sum_by] in *; [rewrite sum_by_snoc; cbn -[sum_by]; lia|done|].
    intros [?|Hx]%elem_of_app; [by apply Hd|]. apply list_elem_of_singleton in Hx. done.
  - destruct st; cbn in Ha; [|destruct (w =? 0)|]; try done; injection Ha as <-; split; cbn -[sum_by] in *; auto.
  - unfold check_step in Ha. cbn -[sum_by] in *.
    destruct (l !! i) as [pc|] eqn:Hi; [|done].
    assert (forall pc', HDone ∈ <[i := pc']> l -> pc' = HDone \/ HDone ∈ l) as Hset.
    { intros pc' [j Hj]%list_elem_of_lookup. destruct (decide (i = j)) as [<-|Hne].
      - rewrite list_lookup_insert_eq in Hj by (by eapply lookup_lt_Some). left. by injection Hj.
      - rewrite list_lookup_insert_ne in Hj by done. right. by eapply list_elem_of_lookup_2. }
    destruct pc as [| |[|r rs]| |], a; try done; repeat case_match; simplify_eq/=; split; cbn -[sum_by]; try done.
    all: try (rewrite (sum_by_insert alive l i _ _ Hi); cbn -[sum_by]; lia).
    all: intros Hx; destruct (Hset _ Hx); [congruence|auto].
Qed.

Lemma life_reach c h s : rtc hl_step (life0 c h) s -> life_inv s.
Proof.
  apply rtc_invariant.
  - intros x y [a Ha]. by eapply health_life_step.
  - split; [done|done|]. by intros ?%elem_of_nil.
Qed.

Lemma sum_alive_nonneg l : 0 <= sum_by alive l.
Proof. apply sum_by_nonneg. intros []; done. Qed.

Lemma sum_alive_zero l pc : sum_by alive l = 0 -> pc ∈ l -> pc = HDone.
Proof.
  induction l as [|x l IH]; [by intros _ ?%elem_of_nil|].
  change (sum_by alive (x :: l)) with (alive x + sum_by alive l). pose proof (sum_alive_nonneg l).
  intros Hz [->|Hin]%elem_of_cons.
  - destruct x; cbn in Hz; done || lia.
  - apply IH; [|done]. destruct x; cbn in Hz; lia.
Qed.

(** When Stop of the health checker returns, every goroutine of the checker has ended,
    and until Start is called again no result is processed and no backend is marked. *)
Theorem Checker_Stop_quiesces (c : Checker) (h : heap) (s s' s'' : health_life) (l : list hl_action) :
  rtc hl_step (life0 c h) s -> hl_stop s = SWaiting -> Checker_Stop_step s = Some s' ->
  Forall (fun a => a <> HlStart) l -> hl_run l s' = Some s'' ->
  Forall (fun pc => pc = HDone) (hl_pcs s') /\ s'' = s'.
Proof.
  intros [Hw _ _]%life_reach Hst Hs Hl Hr. unfold Checker_Stop_step in Hs. rewrite Hst in Hs.
  destruct (Z.eqb_spec (hl_wg s) 0) as [Hz|]; [|done]. injection Hs as <-. rewrite Hw in Hz.
  assert (Forall (fun pc => pc = HDone) (hl_pcs s)) as Hdone.
  { apply Forall_forall. intros pc. by apply sum_alive_zero. }
  destruct s as [ck cn w pcs st]. cbn -[sum_by] in *. split; [done|].
  destruct l as [|a l]; [by injection Hr|]. exfalso. apply Forall_cons in Hl as [Ha _].
  cbn in Hr. destruct a as [| |i a]; [done|done|]. cbn in Hr. unfold check_step in Hr. cbn in Hr.
  destruct (pcs !! i) as [pc|] eqn:Hi; [|done].
  by assert (pc = HDone) as -> by (by eapply Forall_lookup in Hdone).
Qed.

(** ** Stop returns *)

(** The steps a goroutine has left when the ticker is not chosen, with [n] backends. *)
Definition pc_left (n : nat) (pc : check_pc) : Z :=
  match pc with
  | HBegin => Z.of_nat n + 4
  | HChecking => Z.of_nat n + 3
  | HProcess rs => Z.of_nat (length rs) + 2
  | HSelect => 1
  | HDone => 0
  end.

Definition stop_left (pc : stop_pc) : Z := match pc with SNone => 2 | SWaiting => 1 | SReturned => 0 end.

Definition pool_of (s : health_life) : list bptr := Pool_All (ck_pool (hl_checker s).1).

Definition life_left (s : health_life) : Z :=
  stop_left (hl_stop s) + sum_by (pc_left (length (pool_of s))) (hl_pcs s).

(** Everything but a new Start and another tick. *)
Definition quiet (a : hl_action) : Prop := match a with HlStart | HlCheck _ CTick => False | _ => True end.

Lemma life_left_nonneg s : 0 <= life_left s.
Proof.
  unfold life_left. assert (0 <= stop_left (hl_stop s)) by (by destruct (hl_stop s)).
  assert (0 <= sum_by (pc_left (length (pool_of s))) (hl_pcs s)); [|lia].
  apply sum_by_nonneg. intros []; cbn; lia.
Qed.

Lemma quiet_decreases a s s' : quiet a -> hl_run1 a s = Some s' -> life_left s' < life_left s.
Proof.
  intros Hq Ha. destruct s as [[ck hp] cn w l st]. destruct a as [| |i a]; [done|..]; cbn in Ha.
  - destruct st; cbn in Ha; [|destruct (w =? 0)|]; try done; injection Ha as <-;
      unfold life_left, pool_of; cbn -[sum_by]; lia.
  - unfold check_step in Ha. cbn -[sum_by process] in *. destruct (l !! i) as [pc|] eqn:Hi; [|done].
    assert (forall c' w' pc', ck_pool c'.1 = ck_pool ck ->
      pc_left (length (Pool_All (ck_pool ck))) pc' < pc_left (length (Pool_All (ck_pool ck))) pc ->
      life_left (mkHealthLife c' cn w' (<[i := pc']> l) st) < life_left (mkHealthLife (ck, hp) cn w l st)) as Hless.
    { intros c' w' pc' Hp Hlt. unfold life_left, pool_of. cbn -[sum_by]. rewrite Hp.
      rewrite (sum_by_insert _ l i pc pc' Hi). lia. }
    destruct pc as [| |[|r rs]| |], a as [|rs'|]; try done; repeat case_match; try done; injection Ha as <-;
      apply Hless; try done; try exact (process_pool (ck, hp) _); cbn; try lia.
    revert select (bool_decide _ = true). rewrite bool_decide_eq_true. intros E.
    apply (f_equal length) in E. rewrite length_fmap in E. lia.
Qed.

(** A result that the network may always give. *)
Definition no_answer (b : bptr) : timed_result := mkTimed (mkCheckResult b false (Some TCPFailed) 0 0 0) 0 0 0.

Lemma alive_moves s i pc :
  hl_cancelled s = true -> hl_pcs s !! i = Some pc -> pc <> HDone ->
  exists a s', quiet a /\ hl_run1 a s = Some s'.
Proof.
  intros Hc Hi Hd. destruct pc as [| |[|r rs]| |]; try done.
  - exists (HlCheck i CGo). cbn. unfold check_step. rewrite Hi. case_bool_decide; by eexists.
  - exists (HlCheck i (CResults (no_answer <$> pool_of s))). cbn. unfold check_step. rewrite Hi.
    rewrite bool_decide_true; [by eexists|]. unfold pool_of. rewrite <-list_fmap_compose. apply list_fmap_id.
  - exists (HlCheck i CGo). cbn. unfold check_step. rewrite Hi. by eexists.
  - exists (HlCheck i CGo). cbn. unfold check_step. rewrite Hi. by eexists.
  - exists (HlCheck i CGo). cbn. unfold check_step. rewrite Hi, Hc. by eexists.
Qed.

(** Stop of the health checker returns: once it was called, every step but a new Start
    and a further tick of the ticker counts down a bound that depends on the backends
    only, and until Stop has returned such a step is enabled, whatever rounds were under
    way. *)
Theorem Checker_Stop_terminates (c : Checker) (h : heap) (s : health_life) :
  rtc hl_step (life0 c h) s -> hl_stop s <> SNone ->
  0 <= life_left s /\
  (forall a s', quiet a -> hl_run1 a s = Some s' -> life_left s' < life_left s) /\
  (hl_stop s <> SReturned -> exists a s', quiet a /\ hl_run1 a s = Some s').
Proof.
  intros [Hw Hst _]%life_reach Hs. split_and!; [apply life_left_nonneg|intros a s'; apply quiet_decreases|].
  intros Hr. destruct (decide (Exists (fun pc => alive pc = 1) (hl_pcs s))) as [He|He].
  - apply Exists_exists in He as (pc & [i Hi]%list_elem_of_lookup & Hd).
    eapply alive_moves; [by apply Hst|done|by intros ->].
  - exists HlStop. destruct (hl_stop s) eqn:E; try done. cbn. unfold Checker_Stop_step. rewrite E.
    rewrite Hw, sum_by_all_zero, Z.eqb_refl; [by eexists|].
    apply Forall_forall. intros pc Hpc.
    destruct (decide (alive pc = 1)) as [Ha|]; [|by destruct pc].
    destruct He. apply Exists_exists. by exists pc.
Qed.

(** ** Stopping can take backends down

    A round that is under way when Stop cancels the context fails for every backend that
    has not answered; the failures are recorded like any others. *)

Definition ck3 : Checker := NewChecker heap3 pool3 ck_cfg 0.

Definition stop_in_round : list hl_action :=
  [HlStart; HlCheck 0 CGo; HlStop; HlCheck 0 (CResults (no_answer <$> backends pool3));
   HlCheck 0 CGo; HlCheck 0 CGo; HlCheck 0 CGo; HlCheck 0 CGo; HlCheck 0 CGo; HlStop].

Theorem Checker_Stop_can_fail_backends :
  exists s, rtc hl_step (life0 ck3 heap3) s /\ hl_stop s = SReturned /\
    Forall (fun b => IsHealthy heap3 b = true) (backends pool3) /\
    Forall (fun b => IsHealthy (hl_checker s).2 b = false) (backends pool3) /\
    (GetStats (hl_checker s).1 = (3, 0, 3)).
Proof.
  destruct (hl_run stop_in_round (life0 ck3 heap3)) as [s|] eqn:E; [|by vm_compute in E].
  exists s. split; [by eapply hl_run_reaches|].
  assert (Some s = hl_run stop_in_round (life0 ck3 heap3)) as Hs by done.
  vm_compute in Hs. injection Hs as ->. vm_compute. repeat constructor.
Qed.

(** ** Instances of the theorems *)

Definition stopping : list hl_action := [HlStart; HlCheck 0 CGo; HlStop].
Definition life1 : health_life := default (life0 ck3 heap3) (hl_run stopping (life0 ck3 heap3)).
Definition life2 : health_life :=
  default life1 (hl_run [HlCheck 0 (CResults (no_answer <$> backends pool3));
    HlCheck 0 CGo; HlCheck 0 CGo; HlCheck 0 CGo; HlCheck 0 CGo; HlCheck 0 CGo] life1).

Lemma life1_reached : rtc hl_step (life0 ck3 heap3) life1.
Proof. apply (hl_run_reaches stopping). vm_compute. reflexivity. Qed.

Lemma life2_reached : rtc hl_step (life0 ck3 heap3) life2.
Proof.
  etrans; [apply life1_reached|]. apply (hl_run_reaches [HlCheck 0 (CResults (no_answer <$> backends pool3));
    HlCheck 0 CGo; HlCheck 0 CGo; HlCheck 0 CGo; HlCheck 0 CGo; HlCheck 0 CGo]). vm_compute. reflexivity.
Qed.

Lemma Checker_Stop_quiesces_witness :
  exists s', Checker_Stop_step life2 = Some s' /\ Forall (fun pc => pc = HDone) (hl_pcs s').
Proof.
  destruct (Checker_Stop_step life2) as [s'|] eqn:E; [|by vm_compute in E].
  exists s'. split; [done|]. apply (Checker_Stop_quiesces ck3 heap3 life2 s' s' []);
    [apply life2_reached|vm_compute; reflexivity|done|constructor|done].
Defined.

Lemma Checker_Stop_terminates_witness :
  0 <= life_left life1 /\ exists a s', quiet a /\ hl_run1 a life1 = Some s'.
Proof.
  destruct (Checker_Stop_terminates ck3 heap3 life1 life1_reached) as (H1 & _ & H3);
    [vm_compute; discriminate|]. split; [exact H1|]. apply H3. vm_compute. discriminate.
Defined.
