(* ===== verification/CircuitBreaker.v ===== *)
(** * The circuit breaker (src/pkg/resilience/circuit.go)

    The breaker's fields are Go atomics; [beforeRequest] and [afterRequest]
    run at the two ends of a protected call.  [Execute] is the sequential
    composition of the two around one call, as a goroutine that runs alone executes
    it; [cstep] interleaves the ends of concurrent calls, each end as one step, which is
    enough for the counters of requests.  CircuitConc.v interleaves the single atomic
    operations, where state and failures change at different instants.  Each clock
    reading of a handler is an argument, in the order the code reads the clock. *)

From S2P Require Import Prelude GoStd.

Inductive CircuitState := StateClosed | StateOpen | StateHalfOpen.
#[export] Instance CircuitState_eq_dec : EqDecision CircuitState.
Proof. solve_decision. Defined.

Definition CircuitState_String (s : CircuitState) : string :=
  match s with
  | StateClosed => "closed"
  | StateOpen => "open"
  | StateHalfOpen => "half-open"
  end.

(** Errors a protected call may return: the breaker's own, or the function's. *)
Inductive cb_error (E : Type) :=
| ErrCircuitOpen
| ErrTooManyRequests
| FnError (e : E).
Global Arguments ErrCircuitOpen {E}.
Global Arguments ErrTooManyRequests {E}.
Global Arguments FnError {E} e.

(** A listener is identified by a number; [notified] records the calls made
    to listeners, in order. *)
Record CircuitBreaker := mkCircuitBreaker {
  cb_name : string;
  maxFailures : Z;
  timeout : duration;
  halfOpenMaxReqs : Z;
  state : CircuitState;
  failures : Z;
  successes : Z;
  consecutiveFails : Z;
  halfOpenReqs : Z;
  lastFailTime : option time;
  stateChangedTime : option time;
  totalRequests : Z;
  totalSuccesses : Z;
  totalFailures : Z;
  totalRejected : Z;
  listeners : list nat;
  notified : list (nat * CircuitState * CircuitState)
}.
#[export] Instance eta_CircuitBreaker : Eta CircuitBreaker := fun c =>
  mkCircuitBreaker (cb_name c) (maxFailures c) (timeout c) (halfOpenMaxReqs c) (state c)
    (failures c) (successes c) (consecutiveFails c) (halfOpenReqs c) (lastFailTime c)
    (stateChangedTime c) (totalRequests c) (totalSuccesses c) (totalFailures c)
    (totalRejected c) (listeners c) (notified c).

Record CircuitBreakerConfig := mkCBConfig {
  Name : string;
  MaxFailures : Z;
  Timeout : duration;
  MaxConcurrentRequests : Z
}.

Definition NewCircuitBreaker (config : CircuitBreakerConfig) (now : time) : CircuitBreaker :=
  let mf := if MaxFailures config =? 0 then 5 else MaxFailures config in
  let tm := if Timeout config =? 0 then 60 * Second else Timeout config in
  let mc := if MaxConcurrentRequests config =? 0 then 1 else MaxConcurrentRequests config in
  mkCircuitBreaker (Name config) mf tm mc StateClosed 0 0 0 0 None (Some now) 0 0 0 0 [] [].

Definition GetState (cb : CircuitBreaker) : CircuitState := state cb.

Definition setState (newState : CircuitState) (now : time) (cb : CircuitBreaker) : CircuitBreaker :=
  let oldState := GetState cb in
  if bool_decide (oldState = newState) then cb
  else
    cb <| state := newState |>
       <| stateChangedTime := Some now |>
       <| notified ::= fun l => l ++ ((fun i => (i, oldState, newState)) <$> listeners cb) |>.

Definition AddListener (i : nat) (cb : CircuitBreaker) : CircuitBreaker :=
  cb <| listeners ::= fun l => l ++ [i] |>.

Definition getLastFailTime (cb : CircuitBreaker) : time := default time_zero (lastFailTime cb).

Definition GetStateChangedTime (cb : CircuitBreaker) : time :=
  default time_zero (stateChangedTime cb).

(** [t1] is the clock reading of [time.Since], [t2] that of [setState]. *)
Definition beforeRequest {E} (t1 t2 : time) (cb : CircuitBreaker)
  : option (cb_error E) * CircuitBreaker :=
  let cb := cb <| totalRequests ::= fun n => u64 (n + 1) |> in
  match GetState cb with
  | StateClosed => (None, cb)
  | StateOpen =>
      if timeout cb <? time_Sub t1 (getLastFailTime cb) then
        (None, setState StateHalfOpen t2 cb)
      else (Some ErrCircuitOpen, cb <| totalRejected ::= fun n => u64 (n + 1) |>)
  | StateHalfOpen =>
      let cb := cb <| halfOpenReqs ::= fun n => u32 (n + 1) |> in
      if halfOpenMaxReqs cb <? halfOpenReqs cb then
        (Some ErrTooManyRequests,
         cb <| halfOpenReqs ::= fun n => u32 (n + (2 ^ 32 - 1)) |>
            <| totalRejected ::= fun n => u64 (n + 1) |>)
      else (None, cb)
  end.

Definition onSuccess (st : CircuitState) (t : time) (cb : CircuitBreaker) : CircuitBreaker :=
  let cb := cb <| totalSuccesses ::= fun n => u64 (n + 1) |> in
  match st with
  | StateClosed => cb <| failures := 0 |> <| consecutiveFails := 0 |>
  | StateHalfOpen =>
      let cb := cb <| successes ::= fun n => u32 (n + 1) |> in
      if maxFailures cb / 2 <=? successes cb then
        setState StateClosed t cb
          <| failures := 0 |> <| consecutiveFails := 0 |> <| successes := 0 |>
      else cb
  | StateOpen => cb
  end.

Definition onFailure (st : CircuitState) (t1 t2 : time) (cb : CircuitBreaker) : CircuitBreaker :=
  let cb := cb <| totalFailures ::= fun n => u64 (n + 1) |>
               <| failures ::= fun n => u32 (n + 1) |>
               <| consecutiveFails ::= fun n => u32 (n + 1) |>
               <| lastFailTime := Some t1 |> in
  match st with
  | StateClosed => if maxFailures cb <=? failures cb then setState StateOpen t2 cb else cb
  | StateHalfOpen => setState StateOpen t2 cb <| successes := 0 |>
  | StateOpen => cb
  end.

(** [failed] tells whether the function returned an error. *)
Definition afterRequest (failed : bool) (t1 t2 : time) (cb : CircuitBreaker) : CircuitBreaker :=
  let st := GetState cb in
  let cb := if failed then onFailure st t1 t2 cb else onSuccess st t2 cb in
  if bool_decide (st = StateHalfOpen) then
    cb <| halfOpenReqs ::= fun n => u32 (n + (2 ^ 32 - 1)) |>
  else cb.

(** A call: the clock readings of its two ends and the error of the function. *)
Record call (E : Type) := mkCall {
  c_before1 : time; c_before2 : time; c_after1 : time; c_after2 : time;
  c_err : option E
}.
Global Arguments mkCall {E} _ _ _ _ _.
Global Arguments c_before1 {E} _.
Global Arguments c_before2 {E} _.
Global Arguments c_after1 {E} _.
Global Arguments c_after2 {E} _.
Global Arguments c_err {E} _.

Definition Execute {E} (c : call E) (cb : CircuitBreaker) : option (cb_error E) * CircuitBreaker :=
  match beforeRequest (c_before1 c) (c_before2 c) cb with
  | (Some e, cb) => (Some e, cb)
  | (None, cb) =>
      let failed := match c_err c with Some _ => true | None => false end in
      let cb := afterRequest failed (c_after1 c) (c_after2 c) cb in
      (FnError <$> c_err c, cb)
  end.

(** [ExecuteWithContext] hands the context to the function and is otherwise [Execute]. *)
Definition ExecuteWithContext {E C} (ctx : C) (fn : C -> option E) (t1 t2 t3 t4 : time)
    (cb : CircuitBreaker) : option (cb_error E) * CircuitBreaker :=
  match beforeRequest t1 t2 cb with
  | (Some e, cb) => (Some e, cb)
  | (None, cb) =>
      let err := fn ctx in
      let cb := afterRequest (match err with Some _ => true | None => false end) t3 t4 cb in
      (FnError <$> err, cb)
  end.

Definition Reset (now : time) (cb : CircuitBreaker) : CircuitBreaker :=
  setState StateClosed now cb
    <| failures := 0 |> <| successes := 0 |> <| consecutiveFails := 0 |> <| halfOpenReqs := 0 |>.

Record CircuitBreakerMetrics := mkCBMetrics {
  m_State : CircuitState;
  m_TotalRequests : Z;
  m_TotalSuccesses : Z;
  m_TotalFailures : Z;
  m_TotalRejected : Z;
  m_ConsecutiveFailures : Z;
  m_StateChangedAt : time
}.
Definition GetMetrics (cb : CircuitBreaker) : CircuitBreakerMetrics :=
  mkCBMetrics (GetState cb) (totalRequests cb) (totalSuccesses cb) (totalFailures cb)
    (totalRejected cb) (consecutiveFails cb) (GetStateChangedTime cb).

Definition CircuitBreakerMetrics_String (m : CircuitBreakerMetrics) : string :=
  "State: " +:+ CircuitState_String (m_State m) +:+ ", Requests: " +:+ itoa (m_TotalRequests m) +:+
  ", Successes: " +:+ itoa (m_TotalSuccesses m) +:+ ", Failures: " +:+ itoa (m_TotalFailures m) +:+
  ", Rejected: " +:+ itoa (m_TotalRejected m) +:+
  ", ConsecutiveFailures: " +:+ itoa (m_ConsecutiveFailures m).

(** A sequence of calls, one after the other. *)
Fixpoint Executes {E} (cs : list (call E)) (cb : CircuitBreaker)
  : list (option (cb_error E)) * CircuitBreaker :=
  match cs with
  | [] => ([], cb)
  | c :: cs =>
      let '(r, cb) := Execute c cb in
      let '(rs, cb) := Executes cs cb in (r :: rs, cb)
  end.

(** ** Concurrent calls

    A configuration is a breaker and the number of calls in flight. *)

Inductive cstep : CircuitBreaker * nat -> CircuitBreaker * nat -> Prop :=
| step_admit t1 t2 cb cb' n :
    beforeRequest (E:=unit) t1 t2 cb = (None, cb') -> cstep (cb, n) (cb', S n)
| step_reject t1 t2 cb cb' n e :
    beforeRequest (E:=unit) t1 t2 cb = (Some e, cb') -> cstep (cb, n) (cb', n)
| step_finish failed t1 t2 cb n :
    cstep (cb, S n) (afterRequest failed t1 t2 cb, n).

(** An operator may also reset the breaker at any time. *)
Inductive cstep_reset : CircuitBreaker * nat -> CircuitBreaker * nat -> Prop :=
| step_call c c' : cstep c c' -> cstep_reset c c'
| step_reset now cb n : cstep_reset (cb, n) (Reset now cb, n).

(** ** Invariants *)

Record cb_inv (cb : CircuitBreaker) : Prop := {
  inv_max : 0 < maxFailures cb < 2 ^ 32;
  inv_failures : in_u 32 (failures cb);
  inv_reqs : in_u 32 (halfOpenReqs cb);
  inv_closed : state cb = StateClosed -> failures cb < maxFailures cb;
  inv_successes : 0 <= successes cb;
  inv_no_successes : state cb <> StateHalfOpen -> successes cb = 0;
  inv_half_open : state cb = StateHalfOpen -> successes cb = 0 \/ successes cb < maxFailures cb / 2
}.

Ltac unfold_cb :=
  unfold Reset, beforeRequest, afterRequest, onSuccess, onFailure, setState, GetState in *.

(** Case analysis on the breaker's state and on the tests of a handler. *)
Ltac cb_cases :=
  repeat (case_bool_decide || case_match || zcase1); simplify_eq/=; try done.

(** Adding [^uint32(0)] is a decrement modulo 2^32. *)
Lemma u32_dec n : u32 (n + (2 ^ 32 - 1)) = u32 (n - 1).
Proof.
  unfold uwrap. replace (n + (2 ^ 32 - 1)) with (n - 1 + 1 * 2 ^ 32) by lia.
  apply Z_mod_plus_full.
Qed.

Lemma u32_pred n : in_u 32 n -> 0 < n -> u32 (n + (2 ^ 32 - 1)) = n - 1.
Proof. intros [? ?] ?. rewrite u32_dec. apply uwrap_small. unfold in_u. lia. Qed.

Lemma cb_inv_New config now :
  in_u 32 (MaxFailures config) -> cb_inv (NewCircuitBreaker config now).
Proof. intros [? ?]. unfold NewCircuitBreaker. split; simpl; unfold in_u; zcases; auto. Qed.

Lemma cb_inv_before {E} t1 t2 cb r cb' :
  cb_inv cb -> beforeRequest (E:=E) t1 t2 cb = (r, cb') -> cb_inv cb'.
Proof.
  intros [Hm Hf Hr Hc Hs Hn Hh] Hb. destruct cb. unfold_cb. simpl in *.
  cb_cases; split; simpl in *; try done; try (apply uwrap_range; lia); auto.
Qed.

Lemma cb_inv_after failed t1 t2 cb : cb_inv cb -> cb_inv (afterRequest failed t1 t2 cb).
Proof.
  intros [Hm Hf Hr Hc Hs Hn Hh]. destruct cb. unfold_cb. simpl in *.
  assert (forall n, in_u 32 (u32 n)) by (intros; apply uwrap_range; lia).
  destruct failed; cb_cases; split; simpl in *; try done; auto; try (unfold in_u; lia).
  by apply uwrap_range.
Qed.

Lemma cb_inv_Execute {E} (c : call E) cb r cb' :
  cb_inv cb -> Execute c cb = (r, cb') -> cb_inv cb'.
Proof.
  unfold Execute. destruct (beforeRequest _ _ cb) as [[?|] ?] eqn:Eb;
    intros Hi [= <- <-]; [|apply cb_inv_after]; by eapply cb_inv_before.
Qed.

(** ** Accounting *)

(** Every admitted or rejected call is accounted for, modulo the width of the counters. *)
Definition accounted (c : CircuitBreaker * nat) : Prop :=
  let '(cb, n) := c in
  totalRequests cb ≡[64]
  totalSuccesses cb + totalFailures cb + totalRejected cb + Z.of_nat n.

(** Drop the inner wraps and compare the sums. *)
Ltac eqw_solve H := rewrite ?uwrap_eqw, H; apply eqw_eq; lia.

Lemma accounted_step c c' : cstep_reset c c' -> accounted c -> accounted c'.
Proof.
  intros [? ? [t1 t2 cb cb' n H|t1 t2 cb cb' n e H|failed t1 t2 cb n]|now cb n];
    unfold accounted; intros Hi; destruct cb; unfold_cb; simpl in *.
  - cb_cases; eqw_solve Hi.
  - cb_cases; eqw_solve Hi.
  - destruct failed; cb_cases; eqw_solve Hi.
  - cb_cases.
Qed.

(** C31: Accounting: in every reachable state the total of requests equals successes
    plus failures plus rejections plus the calls in flight, modulo the 64-bit width of
    the counters. *)
Theorem CircuitBreaker_accounting config now c :
  rtc cstep_reset (NewCircuitBreaker config now, 0%nat) c -> accounted c.
Proof.
  intros Hr. remember (NewCircuitBreaker config now, 0%nat) as c0 eqn:E0.
  assert (accounted c0) as Hi by by subst. clear E0.
  induction Hr as [|c1 c2 c3 Hs Hr IH]; [done|]. eauto using accounted_step.
Qed.

(** ** Sequential behaviour *)

(** An open breaker whose timeout has not elapsed returns ErrCircuitOpen without running
    the function, and changes nothing but the request and rejection counters. *)
Theorem open_rejects {E} (c : call E) (cb : CircuitBreaker) :
  state cb = StateOpen ->
  time_Sub (c_before1 c) (getLastFailTime cb) <= timeout cb ->
  Execute c cb =
  (Some ErrCircuitOpen,
   cb <| totalRequests ::= fun n => u64 (n + 1) |> <| totalRejected ::= fun n => u64 (n + 1) |>).
Proof.
  intros Hs Ht. unfold Execute. destruct cb. unfold_cb. unfold getLastFailTime in *.
  simpl in *. subst. by rewrite (proj2 (Z.ltb_ge _ _) Ht).
Qed.

(** One failing call on a closed breaker. *)
Lemma Execute_closed_failure {E} (c : call E) e cb :
  cb_inv cb -> state cb = StateClosed -> c_err c = Some e ->
  exists cb', Execute c cb = (Some (FnError e), cb') /\
    cb_inv cb' /\ maxFailures cb' = maxFailures cb /\ failures cb' = failures cb + 1 /\
    state cb' = (if failures cb + 1 =? maxFailures cb then StateOpen else StateClosed).
Proof.
  intros Hi Hs He.
  destruct (Execute c cb) as [r cb'] eqn:Ex.
  pose proof (cb_inv_Execute _ _ _ _ Hi Ex) as Hi'.
  destruct Hi as [Hm Hf _ Hc _ _ _]. specialize (Hc Hs). unfold in_u in Hf.
  revert Ex. unfold Execute. rewrite He. destruct cb. unfold_cb. simpl in *. subst.
  simpl. rewrite (uwrap_small 32 (_ + 1)) by (unfold in_u; lia).
  destruct (Z.leb_spec maxFailures0 (failures0 + 1)); simpl; intros [= <- <-];
    (eexists; split; [done|]); simpl; zcases; auto.
Qed.

(** Failing calls on a closed breaker are all executed and return the function's own
    error, and the breaker opens exactly when the failure count reaches MaxFailures. *)
Theorem CircuitBreaker_trips {E} (cs : list (call E)) (cb : CircuitBreaker) :
  cb_inv cb -> state cb = StateClosed ->
  Forall (fun c => is_Some (c_err c)) cs ->
  failures cb + Z.of_nat (length cs) <= maxFailures cb ->
  fst (Executes cs cb) = (fun c => FnError <$> c_err c) <$> cs /\
  state (snd (Executes cs cb)) =
    (if failures cb + Z.of_nat (length cs) =? maxFailures cb then StateOpen else StateClosed).
Proof.
  revert cb. induction cs as [|c cs IH]; intros cb Hi Hs Hall Hlen; simpl.
  { pose proof (inv_closed cb Hi Hs). split; [done|]. zcases. done. }
  apply Forall_cons in Hall as [[e He] Hall]. cbn [length] in Hlen.
  destruct (Execute_closed_failure c e cb Hi Hs He) as (cb' & -> & Hi' & Hm & Hf & Hst).
  destruct cs as [|c' cs]; [simpl; by rewrite Hst, He|].
  assert (state cb' = StateClosed) as Hs'.
  { rewrite Hst. cbn [length] in Hlen. zcases. done. }
  destruct (IH cb' Hi' Hs' Hall ltac:(rewrite Hm, Hf; lia)) as (Hr & Hfin).
  destruct (Executes (c' :: cs) cb') as [rs cb'']. cbn [fst snd] in *.
  split; [by rewrite Hr, He|]. rewrite Hfin, Hm, Hf. cbn [length].
  by replace (failures cb + 1 + Z.of_nat (S (length cs)))
    with (failures cb + Z.of_nat (S (S (length cs)))) by lia.
Qed.

(** A successful probe in the half-open state, with the request counter one
    below a value [n] that the limit admits. *)
Lemma Execute_half_open_success {E} (c : call E) cb n :
  cb_inv cb -> state cb = StateHalfOpen -> c_err c = None ->
  halfOpenReqs cb = u32 (n - 1) -> 0 <= n <= halfOpenMaxReqs cb -> n < 2 ^ 32 ->
  successes cb + 1 < 2 ^ 32 ->
  exists cb', Execute c cb = (None, cb') /\ cb_inv cb' /\
    maxFailures cb' = maxFailures cb /\ halfOpenMaxReqs cb' = halfOpenMaxReqs cb /\
    halfOpenReqs cb' = u32 (n - 1) /\
    (if maxFailures cb / 2 <=? successes cb + 1 then (state cb' = StateClosed)
     else (state cb' = StateHalfOpen /\ successes cb' = successes cb + 1)).
Proof.
  intros Hi Hs He Hr Hn Hn32 Hsucc.
  destruct (Execute c cb) as [r cb'] eqn:Ex.
  pose proof (cb_inv_Execute _ _ _ _ Hi Ex) as Hi'.
  destruct Hi as [_ _ _ _ Hs0 _ _].
  assert (u32 (u32 (n - 1) + 1) = n) as Hback.
  { rewrite uwrap_add_l. rewrite uwrap_small; unfold in_u; lia. }
  pose proof (u32_dec n) as Hdec.
  revert Ex. unfold Execute. rewrite He. destruct cb. unfold_cb. simpl in *. subst.
  simpl. rewrite Hback, (proj2 (Z.ltb_ge _ _)) by lia. simpl.
  rewrite (uwrap_small 32 (_ + 1)) by (unfold in_u; lia).
  destruct (Z.leb_spec (maxFailures0 / 2) (successes0 + 1)); simpl; intros [= <- <-];
    (eexists; split; [done|]); simpl; split_and!; auto.
Qed.

Lemma half_open_recovers {E} (cs : list (call E)) cb n :
  cb_inv cb -> state cb = StateHalfOpen -> Forall (fun c => c_err c = None) cs ->
  halfOpenReqs cb = u32 (n - 1) -> 0 <= n <= halfOpenMaxReqs cb -> n < 2 ^ 32 ->
  successes cb + Z.of_nat (length cs) = maxFailures cb / 2 -> cs <> [] ->
  fst (Executes cs cb) = (fun _ => None) <$> cs /\ state (snd (Executes cs cb)) = StateClosed.
Proof.
  revert cb. induction cs as [|c cs IH]; intros cb Hi Hs Hall Hr Hn Hn32 Hlen Hne; [done|].
  apply Forall_cons in Hall as [He Hall]. cbn [length] in Hlen.
  pose proof (inv_max cb Hi) as Hmax.
  assert (maxFailures cb / 2 < 2 ^ 32) by (apply Z.div_lt_upper_bound; lia).
  pose proof (inv_successes cb Hi).
  destruct (Execute_half_open_success c cb n) as (cb' & Hx & Hi' & Hm & Hho & Hr' & Hst);
    [done..|lia|]. cbn [Executes]. rewrite Hx.
  destruct cs as [|c' cs].
  - simpl. rewrite (proj2 (Z.leb_le _ _)) in Hst by (simpl in Hlen; lia). done.
  - cbn [length] in Hlen. rewrite (proj2 (Z.leb_gt _ _)) in Hst by lia.
    destruct Hst as [Hst Hsu].
    destruct (IH cb') as [Hres Hfin]; [done|done|done|done|by rewrite Hho|done| |done|].
    { rewrite Hsu, Hm. cbn [length]. lia. }
    destruct (Executes (c' :: cs) cb') as [rs cb'']. cbn [fst snd] in *. by rewrite Hres.
Qed.

(** The first call after the timeout: the breaker turns half-open and the call
    runs without being counted. *)
Lemma Execute_probe_success {E} (c : call E) cb :
  cb_inv cb -> state cb = StateOpen -> c_err c = None ->
  timeout cb < time_Sub (c_before1 c) (getLastFailTime cb) ->
  exists cb', Execute c cb = (None, cb') /\ cb_inv cb' /\
    maxFailures cb' = maxFailures cb /\ halfOpenMaxReqs cb' = halfOpenMaxReqs cb /\
    halfOpenReqs cb' = u32 (halfOpenReqs cb - 1) /\
    (if maxFailures cb / 2 <=? 1 then (state cb' = StateClosed)
     else (state cb' = StateHalfOpen /\ successes cb' = 1)).
Proof.
  intros Hi Hs He Ht.
  destruct (Execute c cb) as [r cb'] eqn:Ex.
  pose proof (cb_inv_Execute _ _ _ _ Hi Ex) as Hi'.
  pose proof (inv_no_successes cb Hi ltac:(congruence)) as Hsu.
  revert Ex. unfold Execute. rewrite He. destruct cb. unfold_cb. unfold getLastFailTime in *.
  simpl in *. subst. simpl. rewrite (proj2 (Z.ltb_lt _ _) Ht). simpl.
  change (u32 (0 + 1)) with 1.
  destruct (Z.leb_spec (maxFailures0 / 2) 1); simpl; intros [= <- <-];
    (eexists; split; [done|]); simpl; split_and!; auto using u32_dec.
Qed.


(** A breaker is wedged when it is half-open and its request counter, with one
    more request, exceeds the limit. *)
Definition wedged (cb : CircuitBreaker) : Prop :=
  state cb = StateHalfOpen /\ halfOpenMaxReqs cb < halfOpenReqs cb + 1 < 2 ^ 32 /\
  0 <= halfOpenReqs cb.

Lemma wedged_Execute {E} (c : call E) cb :
  wedged cb -> exists cb', Execute c cb = (Some ErrTooManyRequests, cb') /\ wedged cb'.
Proof.
  intros (Hs & Hr & H0). unfold Execute. destruct cb. unfold_cb. simpl in *. subst. simpl.
  rewrite (uwrap_small 32 (_ + 1)) by (unfold in_u; lia).
  rewrite (proj2 (Z.ltb_lt _ _)) by lia. eexists. split; [done|].
  unfold wedged. simpl. rewrite u32_pred by (unfold in_u; lia). split; [done|]. lia.
Qed.

Lemma wedged_Executes {E} (cs : list (call E)) cb :
  wedged cb ->
  fst (Executes cs cb) = (fun _ => Some ErrTooManyRequests) <$> cs /\ wedged (snd (Executes cs cb)).
Proof.
  revert cb. induction cs as [|c cs IH]; intros cb Hw; [done|]. cbn [Executes].
  destruct (wedged_Execute c cb Hw) as (cb' & -> & Hw').
  destruct (IH cb' Hw') as [Hr Hf]. destruct (Executes cs cb'). cbn [fst snd] in *.
  by rewrite Hr.
Qed.

(** A failed probe: back to open, and the request counter one lower. *)
Lemma Execute_probe_failure {E} (c : call E) e cb :
  cb_inv cb -> state cb = StateOpen -> c_err c = Some e ->
  timeout cb < time_Sub (c_before1 c) (getLastFailTime cb) ->
  exists cb', Execute c cb = (Some (FnError e), cb') /\ cb_inv cb' /\
    state cb' = StateOpen /\ maxFailures cb' = maxFailures cb /\
    halfOpenMaxReqs cb' = halfOpenMaxReqs cb /\ timeout cb' = timeout cb /\
    halfOpenReqs cb' = u32 (halfOpenReqs cb + (2 ^ 32 - 1)) /\
    getLastFailTime cb' = c_after1 c.
Proof.
  intros Hi Hs He Ht.
  destruct (Execute c cb) as [r cb'] eqn:Ex.
  pose proof (cb_inv_Execute _ _ _ _ Hi Ex) as Hi'.
  revert Ex. unfold Execute. rewrite He. destruct cb. unfold_cb. unfold getLastFailTime in *.
  simpl in *. subst. simpl. rewrite (proj2 (Z.ltb_lt _ _) Ht). simpl. intros [= <- <-].
  eexists. split; [done|]. simpl. split_and!; auto.
Qed.

(** The probe that turns the breaker half-open is not counted on entry but is uncounted
    on exit, so the 32-bit half-open counter underflows: after one failed and one
    successful probe, with MaxFailures at least 4, every later call is rejected with
    ErrTooManyRequests and the breaker stays half-open forever. *)
Theorem CircuitBreaker_wedges {E} (c1 c2 : call E) (cs : list (call E)) (cb : CircuitBreaker) e :
  cb_inv cb -> state cb = StateOpen -> halfOpenReqs cb = 0 ->
  4 <= maxFailures cb -> 0 < halfOpenMaxReqs cb < 2 ^ 32 - 1 ->
  timeout cb < time_Sub (c_before1 c1) (getLastFailTime cb) -> c_err c1 = Some e ->
  timeout cb < time_Sub (c_before1 c2) (c_after1 c1) -> c_err c2 = None ->
  fst (Executes (c1 :: c2 :: cs) cb) =
    Some (FnError e) :: None :: ((fun _ => Some ErrTooManyRequests) <$> cs) /\
  state (snd (Executes (c1 :: c2 :: cs) cb)) = StateHalfOpen.
Proof.
  intros Hi Hs Hr Hm Hmax Ht1 He1 Ht2 He2.
  destruct (Execute_probe_failure c1 e cb Hi Hs He1 Ht1)
    as (cb1 & Hx1 & Hi1 & Hs1 & Hm1 & Hho1 & Hto1 & Hr1 & Hlf1).
  destruct (Execute_probe_success c2 cb1 Hi1 Hs1 He2)
    as (cb2 & Hx2 & Hi2 & Hm2 & Hho2 & Hr2 & Hst2); [by rewrite Hto1, Hlf1|].
  rewrite Hm1, (proj2 (Z.leb_gt _ _)) in Hst2.
  2:{ apply Z.lt_le_trans with (4 / 2); [done|by apply Z.div_le_mono]. }
  assert (wedged cb2) as Hw.
  { rewrite Hr in Hr1. change (u32 (0 + (2 ^ 32 - 1))) with (2 ^ 32 - 1) in Hr1.
    rewrite Hr1 in Hr2. change (u32 (2 ^ 32 - 1 - 1)) with (2 ^ 32 - 2) in Hr2.
    unfold wedged. rewrite Hr2, Hho2, Hho1. split; [apply Hst2|]. lia. }
  destruct (wedged_Executes cs cb2 Hw) as [Hres Hfin].
  cbn [Executes]. rewrite Hx1, Hx2. destruct (Executes cs cb2). cbn [fst snd] in *.
  by rewrite Hres, (proj1 Hfin).
Qed.

(** ** Instances of the theorems

    The default breaker, five failing calls at times 1 to 5 s, and the probes
    that follow the 60 s timeout. *)

Definition cb0 : CircuitBreaker := NewCircuitBreaker (mkCBConfig "backend-1" 0 0 0) 0.
Definition call_at (t : Z) (e : option string) : call string :=
  mkCall (t * Second) (t * Second) (t * Second) (t * Second) e.
Definition five_failures : list (call string) :=
  (fun t => call_at t (Some "refused")) <$> [1; 2; 3; 4; 5].
Definition cb_tripped : CircuitBreaker := snd (Executes five_failures cb0).

Lemma cb0_inv : cb_inv cb0.
Proof. by apply cb_inv_New. Qed.

Lemma cb_tripped_inv : cb_inv cb_tripped.
Proof. split; by vm_compute. Qed.

Lemma CircuitBreaker_accounting_witness :
  accounted (snd (beforeRequest (E:=unit) 7 8 cb0), 1%nat).
Proof.
  apply (CircuitBreaker_accounting (mkCBConfig "backend-1" 0 0 0) 0).
  apply rtc_once, step_call. by apply (step_admit 7 8).
Defined.

Lemma open_rejects_witness :
  fst (Execute (call_at 30 None) cb_tripped) = Some ErrCircuitOpen.
Proof. rewrite (open_rejects (call_at 30 None) cb_tripped); by vm_compute. Defined.

Lemma CircuitBreaker_trips_witness : state (snd (Executes five_failures cb0)) = StateOpen.
Proof.
  apply (CircuitBreaker_trips five_failures cb0 cb0_inv); [done| |by vm_compute].
  repeat (apply Forall_cons; split; [by eexists|]). by apply Forall_nil.
Defined.


Lemma CircuitBreaker_wedges_witness :
  fst (Executes [call_at 66 (Some "refused"); call_at 130 None; call_at 9999 None] cb_tripped) =
    [Some (FnError "refused"); None; Some ErrTooManyRequests].
Proof.
  apply (CircuitBreaker_wedges (call_at 66 (Some "refused")) (call_at 130 None)
    [call_at 9999 None] cb_tripped "refused" cb_tripped_inv); by vm_compute.
Defined.
