(* ===== verification/CircuitConc.v ===== *)
(** * The circuit breaker under concurrent calls (src/pkg/resilience/circuit.go)

    The breaker takes no lock: each of its fields is an atomic of its own.  Here every
    atomic operation of [Execute] and [Reset] is one step of a goroutine: a program counter
    names the next statement, [cb_step] executes it, and the goroutines of a breaker
    interleave in any order ([crun]).  A call that runs alone is the [Execute] of
    CircuitBreaker.v.  The function that a call protects is the step from [Running]; the
    listeners of a state change are called one by one. *)

From S2P Require Import Prelude GoStd CircuitBreaker.

(** ** Statements *)

(** The calls of [setState]: the probe after the timeout, the failure that reaches the
    threshold, a failure while half-open, the last success while half-open, [Reset]. *)
Inductive setter := ProbeSets | FailureSets | ProbeFails | ProbesClose | ResetCloses.

Definition newState (k : setter) : CircuitState :=
  match k with
  | ProbeSets => StateHalfOpen
  | FailureSets | ProbeFails => StateOpen
  | ProbesClose | ResetCloses => StateClosed
  end.

(** The next statement of a goroutine; [st] is the state that [afterRequest] read. *)
Inductive cb_pc :=
(* beforeRequest *)
| BRequests | BLoad | BLastFail | BHalfAdd | BHalfSub | BRejected (e : cb_error unit)
(* the protected function, and the state read by afterRequest *)
| Running | ALoad (failed : bool)
(* onFailure *)
| FTotal (st : CircuitState) | FFailures (st : CircuitState) | FConsecutive (st : CircuitState)
| FLastFail (st : CircuitState) | FCheck | FSuccesses
(* onSuccess *)
| STotal (st : CircuitState) | SAdd | SCheck
| SFailures (st : CircuitState) | SConsecutive (st : CircuitState) | SSuccesses
(* the end of afterRequest *)
| AHalfSub (failed : bool)
(* setState *)
| SetLoad (k : setter) | SetStore (old : CircuitState) (k : setter) | SetTime (old : CircuitState) (k : setter)
| SetListeners (old : CircuitState) (k : setter) | Notify (old : CircuitState) (ls : list nat) (k : setter)
(* Reset *)
| RFailures | RSuccesses | RConsecutive | RHalf
| Finished (result : option (cb_error unit)).
#[export] Instance cb_error_eq_dec {E} `{EqDecision E} : EqDecision (cb_error E).
Proof. solve_decision. Defined.
#[export] Instance setter_eq_dec : EqDecision setter.
Proof. solve_decision. Defined.
#[export] Instance cb_pc_eq_dec : EqDecision cb_pc.
Proof. solve_decision. Defined.

Definition failure : option (cb_error unit) := Some (FnError tt).

(** Where the caller of [setState] goes on. *)
Definition resume (k : setter) : cb_pc :=
  match k with
  | ProbeSets => Running
  | FailureSets => Finished failure
  | ProbeFails => FSuccesses
  | ProbesClose => SFailures StateHalfOpen
  | ResetCloses => RFailures
  end.

(** [t] is the clock if the statement reads it, [failed] what the function returns. *)
Definition cb_step (t : time) (failed : bool) (p : cb_pc) (cb : CircuitBreaker) : CircuitBreaker * cb_pc :=
  match p with
  | BRequests => (cb <| totalRequests ::= fun n => u64 (n + 1) |>, BLoad)
  | BLoad =>
      (cb, match state cb with StateClosed => Running | StateOpen => BLastFail | StateHalfOpen => BHalfAdd end)
  | BLastFail =>
      (cb, if timeout cb <? time_Sub t (getLastFailTime cb) then SetLoad ProbeSets else BRejected ErrCircuitOpen)
  | BHalfAdd =>
      let cb := cb <| halfOpenReqs ::= fun n => u32 (n + 1) |> in
      (cb, if halfOpenMaxReqs cb <? halfOpenReqs cb then BHalfSub else Running)
  | BHalfSub => (cb <| halfOpenReqs ::= fun n => u32 (n + (2 ^ 32 - 1)) |>, BRejected ErrTooManyRequests)
  | BRejected e => (cb <| totalRejected ::= fun n => u64 (n + 1) |>, Finished (Some e))
  | Running => (cb, ALoad failed)
  | ALoad failed => (cb, if failed then FTotal (state cb) else STotal (state cb))
  | FTotal st => (cb <| totalFailures ::= fun n => u64 (n + 1) |>, FFailures st)
  | FFailures st => (cb <| failures ::= fun n => u32 (n + 1) |>, FConsecutive st)
  | FConsecutive st => (cb <| consecutiveFails ::= fun n => u32 (n + 1) |>, FLastFail st)
  | FLastFail st =>
      (cb <| lastFailTime := Some t |>,
       match st with StateClosed => FCheck | StateHalfOpen => SetLoad ProbeFails | StateOpen => Finished failure end)
  | FCheck => (cb, if maxFailures cb <=? failures cb then SetLoad FailureSets else Finished failure)
  | FSuccesses => (cb <| successes := 0 |>, AHalfSub true)
  | STotal st =>
      (cb <| totalSuccesses ::= fun n => u64 (n + 1) |>,
       match st with StateClosed => SFailures StateClosed | StateHalfOpen => SAdd | StateOpen => Finished None end)
  | SAdd => (cb <| successes ::= fun n => u32 (n + 1) |>, SCheck)
  | SCheck => (cb, if maxFailures cb / 2 <=? successes cb then SetLoad ProbesClose else AHalfSub false)
  | SFailures st => (cb <| failures := 0 |>, SConsecutive st)
  | SConsecutive st =>
      (cb <| consecutiveFails := 0 |>, if bool_decide (st = StateHalfOpen) then SSuccesses else Finished None)
  | SSuccesses => (cb <| successes := 0 |>, AHalfSub false)
  | AHalfSub failed =>
      (cb <| halfOpenReqs ::= fun n => u32 (n + (2 ^ 32 - 1)) |>, Finished (if failed then failure else None))
  | SetLoad k => (cb, if bool_decide (state cb = newState k) then resume k else SetStore (state cb) k)
  | SetStore old k => (cb <| state := newState k |>, SetTime old k)
  | SetTime old k => (cb <| stateChangedTime := Some t |>, SetListeners old k)
  | SetListeners old k => (cb, Notify old (listeners cb) k)
  | Notify old [] k => (cb, resume k)
  | Notify old (l :: ls) k => (cb <| notified ::= fun n => n ++ [(l, old, newState k)] |>, Notify old ls k)
  | RFailures => (cb <| failures := 0 |>, RSuccesses)
  | RSuccesses => (cb <| successes := 0 |>, RConsecutive)
  | RConsecutive => (cb <| consecutiveFails := 0 |>, RHalf)
  | RHalf => (cb <| halfOpenReqs := 0 |>, Finished None)
  | Finished r => (cb, Finished r)
  end.

(** ** A goroutine that runs alone *)

(** The clock readings of a call, by the statement that reads. *)
Definition clock (c : call unit) (p : cb_pc) : time :=
  match p with
  | BLastFail => c_before1 c
  | SetTime _ ProbeSets => c_before2 c
  | FLastFail _ => c_after1 c
  | _ => c_after2 c
  end.

Definition alone (c : call unit) (x y : CircuitBreaker * cb_pc) : Prop :=
  cb_step (clock c x.2) (bool_decide (is_Some (c_err c))) x.2 x.1 = y /\ x.2 <> y.2.

Lemma alone_l c cb p cb' p' y :
  cb_step (clock c p) (bool_decide (is_Some (c_err c))) p cb = (cb', p') -> p <> p' ->
  rtc (alone c) (cb', p') y -> rtc (alone c) (cb, p) y.
Proof. intros H Hp Hr. eapply rtc_l; [|exact Hr]. by split. Qed.

Lemma Notify_alone c cb old ls k y :
  rtc (alone c) (cb <| notified ::= fun n => n ++ ((fun i => (i, old, newState k)) <$> ls) |>, resume k) y ->
  rtc (alone c) (cb, Notify old ls k) y.
Proof.
  revert cb. induction ls as [|l ls IH]; intros cb H.
  - eapply alone_l; [reflexivity|by destruct k|]. destruct cb; cbn in *. by rewrite app_nil_r in H.
  - eapply alone_l; [reflexivity|intros [= E]; apply (f_equal length) in E; cbn in E; lia|]. apply IH. destruct cb; cbn in *.
    by rewrite <-(assoc_L (++)).
Qed.

(** The statements of [setState] in sequence are [setState]. *)
Lemma setState_alone c cb k y :
  rtc (alone c) (setState (newState k) (clock c (SetTime (state cb) k)) cb, resume k) y ->
  rtc (alone c) (cb, SetLoad k) y.
Proof.
  unfold setState, GetState. intros H. destruct (bool_decide (state cb = newState k)) eqn:Eb.
  - eapply alone_l; [cbn; by rewrite Eb|by destruct k|done].
  - eapply alone_l; [cbn; by rewrite Eb|done|]. eapply alone_l; [done|done|]. eapply alone_l; [done|done|].
    eapply alone_l; [done|done|]. apply Notify_alone. by destruct cb.
Qed.

Ltac alone1 := eapply alone_l; [reflexivity|done|]; cbn [cb_step clock].

Lemma beforeRequest_alone c cb y :
  rtc (alone c) (match beforeRequest (E:=unit) (c_before1 c) (c_before2 c) cb with
                 | (Some e, cb') => (cb', Finished (Some e))
                 | (None, cb') => (cb', Running)
                 end) y ->
  rtc (alone c) (cb, BRequests) y.
Proof.
  intros H. alone1. unfold beforeRequest, GetState in H. destruct cb as [? ? ? ? st]. cbn in H. destruct st.
  - alone1. done.
  - alone1. unfold getLastFailTime in *. cbn in H. destruct (timeout <? _) eqn:E.
    + eapply alone_l; [cbn; unfold getLastFailTime; cbn; by rewrite E|done|]. by apply setState_alone.
    + eapply alone_l; [cbn; unfold getLastFailTime; cbn; by rewrite E|done|]. by alone1.
  - alone1. destruct (halfOpenMaxReqs <? _) eqn:E.
    + eapply alone_l; [cbn; by rewrite E|done|]. by do 2 alone1.
    + eapply alone_l; [cbn; by rewrite E|done|]. done.
Qed.

Lemma afterRequest_alone c cb failed :
  rtc (alone c) (cb, ALoad failed)
    (afterRequest failed (c_after1 c) (c_after2 c) cb, Finished (if failed then failure else None)).
Proof.
  destruct cb as [? mf ? ? st f su]. unfold afterRequest, onFailure, onSuccess, GetState.
  destruct failed; cbn -[Z.div Z.pow uwrap].
  - do 4 alone1. eapply alone_l; [reflexivity|by destruct st|]. destruct st; cbn -[Z.div Z.pow uwrap].
    + eapply alone_l; [reflexivity|by cbn; case_match|]. cbn -[Z.pow uwrap]. destruct (mf <=? _); [|done].
      by apply setState_alone.
    + done.
    + apply setState_alone. cbn -[Z.pow uwrap]. by do 2 alone1.
  - alone1. eapply alone_l; [reflexivity|by destruct st|]. destruct st; cbn -[Z.div Z.pow uwrap].
    + by do 2 alone1.
    + done.
    + alone1. eapply alone_l; [reflexivity|by cbn -[Z.div]; case_match|]. cbn -[Z.div Z.pow uwrap].
      destruct (mf / 2 <=? _); [|by alone1]. apply setState_alone. cbn -[Z.pow uwrap]. by do 4 alone1.
Qed.

(** A call that no other goroutine interrupts is [Execute]. *)
Theorem Execute_alone (c : call unit) (cb : CircuitBreaker) :
  rtc (alone c) (cb, BRequests) (snd (Execute c cb), Finished (fst (Execute c cb))).
Proof.
  apply beforeRequest_alone. unfold Execute. destruct (beforeRequest _ _ cb) as [[e|] cb'] eqn:Eb; [done|].
  eapply alone_l; [reflexivity|done|]. destruct (c_err c) as [[]|]; apply afterRequest_alone.
Qed.

Theorem Reset_alone (c : call unit) (cb : CircuitBreaker) :
  rtc (alone c) (cb, SetLoad ResetCloses) (Reset (c_after2 c) cb, Finished None).
Proof. apply setState_alone. cbn. do 4 alone1. by destruct cb. Qed.

(** ** Interleaved goroutines

    Besides the breaker and its goroutines, a system remembers how many failing calls were
    added to [failures] since the breaker was made ([failed]), how many of those since
    [failures] was last cleared had read a state other than closed ([late]), and whether a
    call has succeeded or [Reset] was called ([relieved]). *)
Record csys := mkCSys {
  breaker : CircuitBreaker;
  routines : list cb_pc;
  failed : Z;
  late : Z;
  relieved : bool
}.
#[export] Instance eta_csys : Eta csys := fun s =>
  mkCSys (breaker s) (routines s) (failed s) (late s) (relieved s).

Definition fresh_breaker (config : CircuitBreakerConfig) (now : time) : csys :=
  mkCSys (NewCircuitBreaker config now) [] 0 0 false.

(** A goroutine calls [Execute] or [Reset], executes its next statement, or registers a
    listener (under the mutex). *)
Inductive caction := DoExecute | DoReset | DoStep (i : nat) (t : time) (fails : bool) | DoAddListener (l : nat).

Definition record_step (p : cb_pc) (fails : bool) (s : csys) : csys :=
  match p with
  | Running => if fails then s else s <| relieved := true |>
  | FFailures st =>
      s <| failed ::= Z.succ |> <| late ::= fun n => if decide (st = StateClosed) then n else n + 1 |>
  | SFailures _ | RFailures => s <| late := 0 |>
  | _ => s
  end.

Definition cdo (a : caction) (s : csys) : csys :=
  match a with
  | DoExecute => s <| routines ::= fun l => l ++ [BRequests] |>
  | DoReset => s <| routines ::= fun l => l ++ [SetLoad ResetCloses] |> <| relieved := true |>
  | DoAddListener l => s <| breaker ::= AddListener l |>
  | DoStep i t fails =>
      match routines s !! i with
      | None => s
      | Some p =>
          let '(cb, p') := cb_step t fails p (breaker s) in
          record_step p fails s <| breaker := cb |> <| routines ::= <[i := p']> |>
      end
  end.

Definition crun (l : list caction) (s : csys) : csys := foldl (fun s a => cdo a s) s l.

Definition finished (p : cb_pc) : Prop := match p with Finished _ => True | _ => False end.

(** A goroutine that has stored the closed state and not yet cleared [failures]. *)
Definition clearing (p : cb_pc) : Prop :=
  match p with
  | SetTime _ k | SetListeners _ k | Notify _ _ k => newState k = StateClosed
  | SFailures StateHalfOpen | RFailures => True
  | _ => False
  end.

(** A failing call that read the closed state, has been added to [failures], and has
    neither found them below the threshold nor stored the open state yet. *)
Definition tripping (p : cb_pc) : Prop :=
  match p with
  | FConsecutive StateClosed | FLastFail StateClosed | FCheck => True
  | SetLoad FailureSets | SetStore _ FailureSets => True
  | _ => False
  end.

Definition settling (p : cb_pc) : Prop := clearing p \/ tripping p.

(** ** Invariant *)

(** Goroutines that may take the breaker out of the closed state. *)
Definition leaving (p : cb_pc) : Prop :=
  match p with
  | BLastFail | FTotal StateHalfOpen | FFailures StateHalfOpen | FConsecutive StateHalfOpen
  | FLastFail StateHalfOpen => True
  | SetLoad k | SetStore _ k => newState k <> StateClosed
  | _ => False
  end.

(** Goroutines that a success or [Reset] left behind. *)
Definition relieving (p : cb_pc) : Prop :=
  match p with
  | ALoad false | STotal _ | SAdd | SCheck | SFailures _ | SConsecutive _ | SSuccesses => True
  | SetLoad k | SetStore _ k | SetTime _ k | SetListeners _ k | Notify _ _ k => newState k = StateClosed
  | RFailures | RSuccesses | RConsecutive | RHalf => True
  | _ => False
  end.

(** Failing calls that will be counted as late. *)
Definition aware (p : cb_pc) : Prop :=
  match p with FTotal st | FFailures st => st <> StateClosed | _ => False end.

Definition routine_ok (s : csys) (p : cb_pc) : Prop :=
  (leaving p -> maxFailures (breaker s) <= failed s) /\
  (relieved s = false -> ~ relieving p /\ (aware p -> state (breaker s) <> StateClosed)).

Record csys_inv (s : csys) : Prop := {
  ci_max : 0 < maxFailures (breaker s) < 2 ^ 32;
  ci_failures : 0 <= failures (breaker s) <= failed s;
  ci_late : 0 <= late s;
  ci_closed : state (breaker s) = StateClosed ->
    failures (breaker s) < maxFailures (breaker s) + late s \/ Exists settling (routines s);
  ci_left : state (breaker s) <> StateClosed -> maxFailures (breaker s) <= failed s;
  ci_exact : relieved s = false ->
    failures (breaker s) = u32 (failed s) /\ (0 < late s -> state (breaker s) <> StateClosed);
  ci_routines : Forall (routine_ok s) (routines s)
}.

(** One statement, seen by the others: what it may change. *)
Record cstep_rel (s s' : csys) : Prop := {
  cr_max : maxFailures (breaker s') = maxFailures (breaker s);
  cr_failed : failed s <= failed s';
  cr_relieved : relieved s' = false ->
    relieved s = false /\ (state (breaker s) <> StateClosed -> state (breaker s') <> StateClosed)
}.

Lemma routine_ok_mono s s' p : cstep_rel s s' -> routine_ok s p -> routine_ok s' p.
Proof. intros [Hm Hf Hr] [H1 H2]. split; [intros H; specialize (H1 H); lia|]. naive_solver. Qed.

Lemma Exists_at {A} (P : A -> Prop) (l : list A) i x :
  l !! i = Some x -> Exists P l -> P x \/ forall y, Exists P (<[i:=y]> l).
Proof.
  intros Hi Hl. apply list.Exists_exists in Hl as (z & Hz & HP). apply list_elem_of_lookup in Hz as [j Hj].
  destruct (decide (i = j)) as [->|Hne]; [left; by simplify_eq|right]. intros y. apply list.Exists_exists.
  exists z. split; [|done]. apply list_elem_of_lookup. exists j. by rewrite list_lookup_insert_ne.
Qed.

Lemma Exists_new {A} (P : A -> Prop) (l : list A) i x y : l !! i = Some x -> P y -> Exists P (<[i:=y]> l).
Proof.
  intros Hi HP. apply list.Exists_exists. exists y. split; [|done]. apply list_elem_of_lookup. exists i.
  apply list_lookup_insert_eq. by eapply lookup_lt_Some.
Qed.

(** The step of one goroutine as a change of the system. *)
Definition stepped (t : time) (fails : bool) (p : cb_pc) (s : csys) : csys :=
  record_step p fails s <| breaker := fst (cb_step t fails p (breaker s)) |>.

Lemma u32_succ_le n : 0 <= n -> 0 <= u32 (n + 1) <= n + 1.
Proof. intros H. unfold uwrap. split; [by apply Z.mod_pos_bound|apply Z.mod_le; lia]. Qed.

Lemma stepped_rel t fails p s : csys_inv s -> routine_ok s p -> cstep_rel s (stepped t fails p s).
Proof.
  intros Hi [_ Hp]. destruct s as [cb rs n l rel]. unfold stepped, record_step. cbn in *.
  destruct p; cbn; repeat case_match; split; cbn; try done; try lia; try naive_solver.
Qed.

(** Case analysis on the statement that is executed. *)
Ltac step_cases p :=
  destruct p; repeat match goal with k : setter |- _ => destruct k | st : CircuitState |- _ => destruct st end;
  cbn in *; repeat case_match; cbn in *.

Lemma stepped_routine t fails p s :
  csys_inv s -> routine_ok s p -> routine_ok (stepped t fails p s) (snd (cb_step t fails p (breaker s))).
Proof.
  intros [Hm Hf Hl _ Hleft _ _] [H1 H2]. destruct s as [[] rs n l rel]. unfold stepped, routine_ok. cbn in *.
  step_cases p; split; try done; naive_solver lia.
Qed.

Lemma stepped_exact t fails p s :
  csys_inv s -> routine_ok s p -> let s' := stepped t fails p s in
  0 <= failures (breaker s') <= failed s' /\ 0 <= late s' /\
  (state (breaker s') <> StateClosed -> maxFailures (breaker s') <= failed s') /\
  (relieved s' = false ->
    failures (breaker s') = u32 (failed s') /\ (0 < late s' -> state (breaker s') <> StateClosed)).
Proof.
  intros [Hm Hf Hl _ Hleft Hx _] [H1 H2]. destruct s as [[? ? ? ? st0 f] rs n l rel]. unfold stepped. cbn in *.
  pose proof (u32_succ_le f ltac:(lia)) as Hu.
  assert (rel = false -> u32 (f + 1) = u32 (Z.succ n)) as He.
  { intros H. destruct (Hx H) as [-> _]. by rewrite uwrap_add_l. }
  step_cases p; naive_solver lia.
Qed.

Lemma stepped_closed t fails p s i :
  csys_inv s -> routines s !! i = Some p -> let s' := stepped t fails p s in
  state (breaker s') = StateClosed ->
  failures (breaker s') < maxFailures (breaker s') + late s' \/
  Exists settling (<[i := snd (cb_step t fails p (breaker s))]> (routines s)).
Proof.
  intros [Hm Hf Hl Hc _ _ _] Hi s' Hs'.
  assert (failures (breaker s') < maxFailures (breaker s') + late s' \/
    settling (snd (cb_step t fails p (breaker s))) \/
    state (breaker s) = StateClosed /\ maxFailures (breaker s) + late s <= failures (breaker s) /\ ~ settling p)
    as [H|[H|(H1 & H2 & H3)]]; [|by left|right; by eapply Exists_new|].
  - subst s'. destruct s as [[? mf ? ? st0 f] rs n l rel]. unfold stepped, settling in *. cbn in *.
    pose proof (u32_succ_le f ltac:(lia)) as Hu.
    destruct (decide (st0 = StateClosed)) as [->|Hne]; [destruct (decide (mf + l <= f)) as [Hge|Hlt]|].
    + step_cases p; naive_solver lia.
    + step_cases p; first [done | lia | left; lia].
    + step_cases p; naive_solver lia.
  - right. destruct (Hc H1) as [?|He]; [lia|]. destruct (Exists_at _ _ _ _ Hi He) as [?|H]; [done|apply H].
Qed.

Lemma csys_inv_step a s : csys_inv s -> csys_inv (cdo a s).
Proof.
  intros Hi. pose proof Hi as [Hm Hf Hl Hc Hleft Hx Hr]. destruct a as [| |i t fails|ls].
  - split; cbn; try done.
    + intros H. destruct (Hc H) as [?|He]; [by left|right]. apply list.Exists_app. by left.
    + apply Forall_app. split; [done|]. constructor; [|constructor]. unfold routine_ok. cbn. tauto.
  - split; cbn; try done.
    + intros H. destruct (Hc H) as [?|He]; [by left|right]. apply list.Exists_app. by left.
    + apply Forall_app. split; [|constructor; [|constructor]; unfold routine_ok; cbn; split; [tauto|done]]. eapply Forall_impl; [exact Hr|].
      intros p. by apply routine_ok_mono.
  - cbn [cdo]. destruct (routines s !! i) as [p|] eqn:Ei; [|done].
    destruct (cb_step t fails p (breaker s)) as [cb' p'] eqn:Es.
    pose proof (Forall_lookup_1 _ _ _ _ Hr Ei) as Hp.
    pose proof (stepped_rel t fails p s Hi Hp) as Hrel. pose proof (stepped_routine t fails p s Hi Hp) as Hp'.
    pose proof (stepped_closed t fails p s i Hi Ei) as Hc'.
    destruct (stepped_exact t fails p s Hi Hp) as (Hf' & Hl' & Hleft' & Hx').
    rewrite Es in Hp', Hc'. cbn [snd] in Hp', Hc'.
    replace (record_step p fails s <| breaker := cb' |> <| routines ::= <[i:=p']> |>)
      with (stepped t fails p s <| routines := <[i:=p']> (routines s) |>)
      by (unfold stepped; rewrite Es; by destruct s, p, fails).
    generalize dependent (stepped t fails p s). intros s1 Hrel Hp' Hc' Hf' Hl' Hleft' Hx'.
    assert (Forall (routine_ok s1) (<[i:=p']> (routines s))) as Hr'.
    { apply Forall_insert; [|done]. eapply Forall_impl; [exact Hr|]. intros q. by apply routine_ok_mono. }
    pose proof (cr_max _ _ Hrel) as Hmax. destruct s1. cbn in *. split; cbn; try done. by rewrite Hmax.
  - by split.
Qed.

Lemma csys_inv_run l s : csys_inv s -> csys_inv (crun l s).
Proof. unfold crun. revert s. induction l as [|a l IH]; intros s Hs; cbn; [done|]. apply IH. by apply csys_inv_step. Qed.

Lemma csys_inv_fresh config now : in_u 32 (MaxFailures config) -> csys_inv (fresh_breaker config now).
Proof.
  intros [? ?]. split; cbn; try done; zcases; try lia; try constructor. all: done.
Qed.

Lemma maxFailures_run l s : maxFailures (breaker (crun l s)) = maxFailures (breaker s).
Proof.
  unfold crun. revert s. induction l as [|a l IH]; intros s; cbn; [done|]. rewrite IH.
  destruct a as [| |i t fails|ls]; cbn; try done. destruct (routines s !! i) as [p|]; [|done].
  destruct p as [| | | | | | | | | | | | | | | | | | | | | | | | |? [|] ?| | | | |]; cbn; try done; by case_match.
Qed.

(** C7: In every interleaving of the single atomic operations of concurrent calls of
    Execute and Reset on a new breaker (any clock, any outcomes): a closed breaker has
    fewer failures than MaxFailures plus the failing calls that were added since
    failures was last cleared and had read a state other than closed, except while some
    goroutine is between storing closed and clearing failures, or between adding its
    failure and storing open; the breaker never leaves the closed state before
    MaxFailures calls have failed; and when no call is in flight, none has succeeded,
    Reset was not called and fewer than 2^32 have failed, it is closed exactly if fewer
    than MaxFailures have failed. *)
Theorem CircuitBreaker_threshold config now l :
  in_u 32 (MaxFailures config) ->
  let s := crun l (fresh_breaker config now) in
  let max := if decide (MaxFailures config = 0) then 5 else MaxFailures config in
  (state (breaker s) = StateClosed -> failures (breaker s) < max + late s \/ Exists settling (routines s)) /\
  (state (breaker s) <> StateClosed -> max <= failed s) /\
  (Forall finished (routines s) -> relieved s = false -> failed s < 2 ^ 32 ->
    (state (breaker s) = StateClosed <-> failed s < max)).
Proof.
  intros Hmax. cbv zeta. pose proof (csys_inv_run l _ (csys_inv_fresh config now Hmax)) as [Hm Hf Hl Hc Hleft Hx _].
  rewrite maxFailures_run in Hc, Hleft. cbn [breaker fresh_breaker NewCircuitBreaker maxFailures] in Hc, Hleft.
  set (s := crun l _) in *.
  replace (if decide (MaxFailures config = 0) then 5 else MaxFailures config)
    with (if MaxFailures config =? 0 then 5 else MaxFailures config) by (case_decide; zcases; done).
  split; [done|]. split; [done|]. intros Hq Hrel Hn. destruct (Hx Hrel) as [He Hlate]. split.
  - intros Hs. destruct (Hc Hs) as [H|H].
    + rewrite He, uwrap_small in H by (unfold in_u; lia).
      destruct (decide (0 < late s)) as [Hp|Hp]; [by apply Hlate in Hp|lia].
    + exfalso. apply list.Exists_exists in H as (p & Hin & Hp). rewrite Forall_forall in Hq.
      specialize (Hq p Hin). destruct Hp; by destruct p.
  - intros H. destruct (decide (state (breaker s) = StateClosed)) as [|Hne]; [done|]. specialize (Hleft Hne). lia.
Qed.

(** ** Races *)

Definition steps (i n : nat) (t : time) (fails : bool) : list caction := replicate n (DoStep i t fails).

(** Two calls fail one after the other while two more have been admitted; those two fail and
    read the open state, and are descheduled before [failures.Add]. *)
Definition two_waiting : list caction :=
  [DoExecute; DoExecute; DoExecute; DoExecute] ++ steps 2 3 1 true ++ steps 3 3 1 true ++
  steps 0 14 1 true ++ steps 1 14 1 true ++ steps 2 2 1 true ++ steps 3 2 1 true.

(** After the timeout a successful probe closes the breaker and clears [failures]; then the
    two calls go on. *)
Definition late_run : list caction :=
  two_waiting ++ [DoExecute] ++ steps 4 30 (100 * Second) false ++ steps 2 10 (101 * Second) true ++
  steps 3 10 (101 * Second) true.

Definition race_config : CircuitBreakerConfig := mkCBConfig "backend-1" 2 0 0.

(** Late failures leave a closed breaker, with no call in flight, at its threshold, so that
    the next failing call opens it. *)
Theorem late_failures_reach_threshold :
  let s := crun late_run (fresh_breaker race_config 0) in
  Forall finished (routines s) /\ state (breaker s) = StateClosed /\
  failures (breaker s) = maxFailures (breaker s) /\ late s = 2 /\
  let s' := crun (DoExecute :: steps 5 14 (102 * Second) true) s in
  Forall finished (routines s') /\ state (breaker s') = StateOpen.
Proof. cbv zeta. split_and!; vm_compute; try reflexivity; by repeat constructor. Qed.

(** The probe has stored the closed state and not yet cleared [failures] when another call
    fails. *)
Definition reopen_run : list caction :=
  [DoExecute; DoExecute] ++ steps 0 14 1 true ++ steps 1 14 1 true ++
  [DoExecute] ++ steps 2 15 (100 * Second) false ++ [DoExecute] ++ steps 3 14 (100 * Second) true ++
  steps 2 30 (100 * Second) false.

(** The recovered breaker is opened again by the first failure: [setState] comes before
    [failures.Store(0)], so the call still finds the old failures. *)
Theorem recovery_reopened :
  let s := crun reopen_run (fresh_breaker race_config 0) in
  Forall finished (routines s) /\ state (breaker s) = StateOpen /\ failures (breaker s) = 0 /\
  routines s !! 2%nat = Some (Finished None) /\ routines s !! 3%nat = Some (Finished failure).
Proof. cbv zeta. split_and!; vm_compute; try reflexivity; by repeat constructor. Qed.

(** ** Instances of the theorems *)

(** Two calls whose statements interleave. *)
Definition two_failures : csys :=
  crun ([DoExecute; DoExecute] ++ steps 0 7 1 true ++ steps 1 14 2 true ++ steps 0 9 3 true)
    (fresh_breaker race_config 0).

Lemma CircuitBreaker_threshold_witness :
  (state (breaker two_failures) = StateClosed <-> failed two_failures < 2) /\ failed two_failures = 2.
Proof.
  split; [|vm_compute; reflexivity].
  apply (CircuitBreaker_threshold race_config 0
    ([DoExecute; DoExecute] ++ steps 0 7 1 true ++ steps 1 14 2 true ++ steps 0 9 3 true)).
  - by split.
  - vm_compute. by repeat constructor.
  - vm_compute. reflexivity.
  - vm_compute. reflexivity.
Defined.
