(* ===== verification/Retry.v ===== *)
(** * Retries (src/pkg/resilience/retry.go)

    The loop of [RetryWithContext] calls the function, waits for the backoff
    delay and tries again.  What the loop observes of its environment (the
    outcome of each attempt, the context, the random numbers) is an argument
    indexed by the attempt, and the calls of [OnRetry] are recorded. *)

From S2P Require Import Prelude GoFloat.

Section retry.
(** Errors of the function, errors of the context, and [math.Pow]. *)
Context {E C : Type}.
Variable math_Pow : f64 -> f64 -> f64.

Record RetryPolicy := mkRetryPolicy {
  MaxAttempts : Z;
  InitialDelay : duration;
  MaxDelay : duration;
  Multiplier : f64;
  Jitter : f64;
  RetryableErrors : option (E -> bool);
  OnRetry : bool
}.

Inductive retry_error :=
| NonRetryable (e : E)
| MaxRetriesExceeded (attempts : Z) (last : E)
| CancelledAfter (attempts : Z) (c : C)
| CancelledDuringBackoff (c : C).

(** The default policy retries all errors but the two errors of a context. *)
Definition DefaultRetryPolicy (is_context_error : E -> bool) : RetryPolicy :=
  mkRetryPolicy 3 (100 * Millisecond) (10 * Second) (of_int 2) (of_ratio 1 10)
    (Some (fun e => negb (is_context_error e))) false.

(** [r] is the value of [rand.Float64()]. *)
Definition calculateBackoff (attempt : Z) (policy : RetryPolicy) (r : f64) : duration :=
  let delay := fmul (of_int (InitialDelay policy))
                    (math_Pow (Multiplier policy) (of_int (i64 (attempt - 1)))) in
  let delay := if fltb (of_int (MaxDelay policy)) delay then of_int (MaxDelay policy) else delay in
  let delay :=
    if fltb (Fin 0) (Jitter policy) then
      let jitter := fmul (fmul delay (Jitter policy)) (fsub (fmul r (of_int 2)) (of_int 1)) in
      let delay := fadd delay jitter in
      if fltb delay (Fin 0) then Fin 0 else delay
    else delay in
  to_int64 delay.

(** What an attempt meets: its outcome, the error of the context after it, the
    random number of its backoff, and whether the context ends the wait. *)
Record env := mkEnv {
  outcome_of : Z -> option E;
  ctx_err : Z -> option C;
  rand_of : Z -> f64;
  wait_ends : Z -> option C
}.

(** The calls of [OnRetry]: attempt, error and delay. *)
Abbreviation retry_log := (list (Z * E * duration)).

(** The loop; [None] when the fuel runs out before it returns. *)
Fixpoint retry_loop (fuel : nat) (v : env) (policy : RetryPolicy) (attempts : Z) (log : retry_log)
  : option (option retry_error * Z * retry_log) :=
  match fuel with
  | O => None
  | S fuel' =>
      let attempts := i64 (attempts + 1) in
      match outcome_of v attempts with
      | None => Some (None, attempts, log)
      | Some err =>
          if match RetryableErrors policy with Some f => negb (f err) | None => false end then
            Some (Some (NonRetryable err), attempts, log)
          else if (0 <? MaxAttempts policy) && (MaxAttempts policy <=? attempts) then
            Some (Some (MaxRetriesExceeded attempts err), attempts, log)
          else match ctx_err v attempts with
          | Some c => Some (Some (CancelledAfter attempts c), attempts, log)
          | None =>
              let delay := calculateBackoff attempts policy (rand_of v attempts) in
              let log := if OnRetry policy then log ++ [(attempts, err, delay)] else log in
              match wait_ends v attempts with
              | Some c => Some (Some (CancelledDuringBackoff c), attempts, log)
              | None => retry_loop fuel' v policy attempts log
              end
          end
      end
  end.

(** The result, the number of calls of the function, and the log. *)
Definition RetryWithContext (fuel : nat) (v : env) (policy : RetryPolicy) :=
  retry_loop fuel v policy 0 [].

(** The background context has no error and never ends a wait. *)
Definition Retry (fuel : nat) (fn : Z -> option E) (rnd : Z -> f64) (policy : RetryPolicy) :=
  RetryWithContext fuel (mkEnv fn (fun _ => None) rnd (fun _ => None)) policy.

Record Retryer := mkRetryer { policy : RetryPolicy }.
Definition NewRetryer (p : RetryPolicy) : Retryer := mkRetryer p.
Definition Retryer_Execute (fuel : nat) (fn : Z -> option E) (rnd : Z -> f64) (r : Retryer) :=
  Retry fuel fn rnd (policy r).
Definition Retryer_ExecuteWithContext (fuel : nat) (v : env) (r : Retryer) :=
  RetryWithContext fuel v (policy r).

(** ** The number of attempts *)

Definition retryable (p : RetryPolicy) (e : E) : bool :=
  match RetryableErrors p with Some f => f e | None => true end.

(** One failed attempt that the loop survives. *)
Lemma retry_loop_continue fuel v p a log err :
  in_s 64 (a + 1) -> outcome_of v (a + 1) = Some err -> retryable p err = true ->
  (0 < MaxAttempts p -> a + 1 < MaxAttempts p) -> ctx_err v (a + 1) = None ->
  wait_ends v (a + 1) = None ->
  exists log', retry_loop (S fuel) v p a log = retry_loop fuel v p (a + 1) log'.
Proof.
  intros Ha Ho Hr Hm Hc Hw. cbn [retry_loop]. rewrite (swrap_small 64), Ho by (done || lia).
  assert (match RetryableErrors p with Some f => negb (f err) | None => false end = false) as ->.
  { unfold retryable in Hr. destruct (RetryableErrors p); [by rewrite Hr|done]. }
  assert ((0 <? MaxAttempts p) && (MaxAttempts p <=? a + 1) = false) as -> by (zcases; done).
  rewrite Hc, Hw. by eexists.
Qed.

(** [k] failed attempts that the loop survives. *)
Lemma retry_loop_fails k fuel v p a log :
  0 <= a -> a + Z.of_nat k < 2 ^ 63 ->
  (forall i, a < i <= a + Z.of_nat k -> exists err, outcome_of v i = Some err /\ retryable p err = true /\
     ctx_err v i = None /\ wait_ends v i = None) ->
  (0 < MaxAttempts p -> a + Z.of_nat k < MaxAttempts p) ->
  exists log', retry_loop (k + fuel) v p a log = retry_loop fuel v p (a + Z.of_nat k) log'.
Proof.
  revert a log. induction k as [|k IH]; intros a log Ha Hb Hf Hm.
  { exists log. by rewrite Z.add_0_r. }
  destruct (Hf (a + 1) ltac:(lia)) as (err & Ho & Hr & Hc & Hw).
  change (S k + fuel)%nat with (S (k + fuel)).
  destruct (retry_loop_continue (k + fuel) v p a log err) as [log1 ->];
    [unfold in_s; lia|done|done|lia|done|done|].
  destruct (IH (a + 1) log1) as [log' Hl]; [lia|lia| |lia|].
  { intros i Hi. apply Hf. lia. }
  exists log'. rewrite Hl. f_equal. lia.
Qed.

(** Attempt [i] fails in a way that the policy retries. *)
Definition survives (v : env) (p : RetryPolicy) (i : Z) : Prop :=
  exists err, outcome_of v i = Some err /\ retryable p err = true /\
    ctx_err v i = None /\ wait_ends v i = None.

(** After [n - 1] such attempts the loop makes attempt [n]. *)
Lemma retry_reaches fuel v p n :
  (0 < MaxAttempts p -> n <= MaxAttempts p) -> 0 < n < 2 ^ 63 -> (Z.to_nat n <= fuel)%nat ->
  (forall i, 0 < i < n -> survives v p i) ->
  exists f log, RetryWithContext fuel v p = retry_loop (S f) v p (n - 1) log /\ i64 (n - 1 + 1) = n.
Proof.
  intros Hmax Hn Hfuel Hf. unfold RetryWithContext.
  set (k := Z.to_nat (n - 1)). assert (exists f, fuel = (k + S f)%nat) as [f ->].
  { exists (fuel - Z.to_nat n)%nat. subst k. lia. }
  destruct (retry_loop_fails k (S f) v p 0 []) as [log ->]; [lia|lia|intros i Hi; apply Hf; lia|lia|].
  exists f, log. replace (0 + Z.of_nat k) with (n - 1) by lia. split; [done|].
  rewrite (swrap_small 64) by (unfold in_s; lia). lia.
Qed.

(** C39: With MaxAttempts = m > 0 the retry loop terminates within m calls: if attempts
    before n <= m fail retryably and attempt n succeeds, the function is called exactly
    n times and the result is success; if attempt m fails too, the result is
    ErrMaxRetriesExceeded with the last error after exactly m calls. *)
Theorem Retry_attempts fuel v p n :
  0 < MaxAttempts p < 2 ^ 63 -> 0 < n <= MaxAttempts p -> (Z.to_nat n <= fuel)%nat ->
  (forall i, 0 < i < n -> survives v p i) ->
  (outcome_of v n = None -> exists log, RetryWithContext fuel v p = Some (None, n, log)) /\
  (forall err, n = MaxAttempts p -> outcome_of v n = Some err -> retryable p err = true ->
     exists log, RetryWithContext fuel v p = Some (Some (MaxRetriesExceeded n err), n, log)).
Proof.
  intros Hmax Hn Hfuel Hf.
  destruct (retry_reaches fuel v p n) as (f & log & -> & Hi); [lia..|done|].
  cbn [retry_loop]. rewrite Hi. split; [intros ->; by eexists|]. intros err Heq -> Hr.
  assert (match RetryableErrors p with Some f => negb (f err) | None => false end = false) as ->.
  { unfold retryable in Hr. destruct (RetryableErrors p); [by rewrite Hr|done]. }
  assert ((0 <? MaxAttempts p) && (MaxAttempts p <=? n) = true) as -> by (zcases; done).
  by eexists.
Qed.

(** With MaxAttempts = 0 the loop retries without limit: for every n, a function that
    first succeeds at attempt n is called n times. *)
Theorem Retry_zero_unlimited fuel v p (n : Z) :
  MaxAttempts p = 0 -> 0 < n < 2 ^ 63 -> (Z.to_nat n <= fuel)%nat ->
  (forall i, 0 < i < n -> survives v p i) -> outcome_of v n = None ->
  exists log, RetryWithContext fuel v p = Some (None, n, log).
Proof.
  intros Hmax Hn Hfuel Hf Ho.
  destruct (retry_reaches fuel v p n) as (f & log & -> & Hi); [lia..|done|].
  cbn [retry_loop]. rewrite Hi, Ho. by eexists.
Qed.

(** ** The backoff *)

(** [math.Pow] of a non-negative base is neither negative nor [NaN]. *)
Context (Pow_nonneg : forall x y, fnonneg x -> fnonneg (math_Pow x y)).

(** The delay before jitter. *)
Lemma capped_delay m (x : f64) :
  0 <= m <= 2 ^ 53 -> fnonneg x ->
  exists n, (if fltb (of_int m) x then of_int m else x) = Fin n /\ 0 <= n <= m * one_units.
Proof.
  intros Hm Hx. rewrite of_int_exact by lia. pose proof one_units_pos as Hu.
  destruct x as [k| | |]; try done; cbn.
  - destruct (Z.ltb_spec (m * one_units) k); eexists; (split; [done|]); cbn in *; nia.
  - eexists. split; [done|]. nia.
Qed.

(** A product with a factor of magnitude at most one. *)
Lemma fmul_unit a b m :
  0 <= m <= 2 ^ 53 -> - (m * one_units) <= a <= m * one_units -> - one_units <= b <= one_units ->
  exists n, fmul (Fin a) (Fin b) = Fin n /\ - (m * one_units) <= n <= m * one_units /\
    (0 <= a -> 0 <= b -> 0 <= n).
Proof.
  intros Hm Ha Hb. pose proof one_units_pos as Hu. cbn [fmul].
  destruct (fl_between (a * b) one_units (- m) m) as (n & Hn & Hn1); [lia..|nia|].
  exists n. split; [done|]. split; [lia|]. intros Ha0 Hb0.
  pose proof (fl_nonneg (a * b) one_units ltac:(nia) Hu) as Hnn. by rewrite Hn in Hnn.
Qed.

(** The backoff delay is never negative and at most MaxDelay without jitter, at most
    twice MaxDelay with a jitter of at most 1, for every attempt and random number,
    whatever non-negative value math.Pow returns; all in float64 with rounding. *)
Theorem calculateBackoff_bounded attempt p r :
  1 <= InitialDelay p <= 2 ^ 52 -> 0 <= MaxDelay p <= 2 ^ 52 -> fnonneg (Multiplier p) ->
  (exists j, Jitter p = Fin j /\ 0 <= j <= one_units) ->
  (exists x, r = Fin x /\ 0 <= x <= one_units) ->
  0 <= calculateBackoff attempt p r <= (if fltb (Fin 0) (Jitter p) then 2 * MaxDelay p else MaxDelay p).
Proof.
  intros Hi Hm Hmul (j & Hj & Hj1) (x & -> & Hx). unfold calculateBackoff. rewrite Hj.
  assert (fnonneg (fmul (of_int (InitialDelay p))
    (math_Pow (Multiplier p) (of_int (i64 (attempt - 1)))))) as Hd.
  { specialize (Pow_nonneg (Multiplier p) (of_int (i64 (attempt - 1))) Hmul).
    rewrite of_int_exact by lia. destruct (math_Pow _ _); try done.
    - apply fmul_nonneg; [pose proof one_units_pos; nia|done].
    - cbn. pose proof one_units_pos. unfold finf.
      rewrite Z.sgn_pos by nia. done. }
  destruct (capped_delay (MaxDelay p) _ ltac:(lia) Hd) as (n & -> & Hn).
  pose proof one_units_pos as Hu.
  assert (forall y k, 0 <= k <= 2 ^ 53 -> y = Fin n \/ (exists m, y = Fin m /\ 0 <= m <= k * one_units) ->
    0 <= n <= k * one_units -> 0 <= to_int64 y <= k) as Hconv.
  { intros y k Hk Hy Hnk. assert (exists m, y = Fin m /\ 0 <= m <= k * one_units) as (m & -> & Hm').
    { destruct Hy as [->|?]; eauto. }
    unfold to_int64. rewrite Z.quot_div_nonneg by lia.
    assert (0 <= m / one_units <= k).
    { split; [apply Z.div_pos; lia|]. apply Z.div_le_upper_bound; lia. }
    rewrite (proj2 (Z.leb_le _ _)) by lia. rewrite (proj2 (Z.ltb_lt _ _)) by lia. done. }
  destruct (fltb (Fin 0) (Fin j)).
  - destruct (fmul_unit n j (MaxDelay p)) as (a & -> & Ha & _); [lia..|].
    rewrite !of_int_exact by lia. cbn [fmul].
    destruct (fl_between (x * (2 * one_units)) one_units 0 2) as (b & -> & Hb); [lia..|nia|].
    unfold fsub, fneg. cbn [fadd].
    destruct (fl_between (b + - (1 * one_units)) 1 (-1) 1) as (c & -> & Hc); [lia..|].
    destruct (fmul_unit a c (MaxDelay p)) as (d & Hd' & Hd1 & _); [lia..|].
    cbn [fmul] in Hd'. rewrite Hd'. cbn [fadd].
    destruct (fl_between (n + d) 1 (- MaxDelay p) (2 * MaxDelay p)) as (s & -> & Hs); [lia..|].
    cbn [fltb]. apply Hconv; [lia| |lia]. right.
    destruct (Z.ltb_spec s 0); eexists; (split; [done|]); lia.
  - apply Hconv; [lia|by left|lia].
Qed.
End retry.

Global Arguments RetryPolicy : clear implicits.
Global Arguments mkRetryPolicy {E} _ _ _ _ _ _ _.
Global Arguments mkEnv {E C} _ _ _ _.

(** ** Retry budget *)

Record RetryBudget := mkRetryBudget {
  TTL : duration;
  MinRetriesPerSecond : Z;
  RetryRatio : f64;
  rb_requests : Z;
  rb_retries : Z;
  lastReset : time
}.
#[export] Instance eta_RetryBudget : Eta RetryBudget := fun b =>
  mkRetryBudget (TTL b) (MinRetriesPerSecond b) (RetryRatio b) (rb_requests b) (rb_retries b) (lastReset b).

Definition NewRetryBudget (ttl : duration) (minRetriesPerSec : Z) (retryRatio : f64) (now : time)
  : RetryBudget := mkRetryBudget ttl minRetriesPerSec retryRatio 0 0 now.

(** [t1] is the reading of [time.Since], [t2] that of the reset. *)
Definition maybeReset (t1 t2 : time) (rb : RetryBudget) : RetryBudget :=
  if TTL rb <? time_Sub t1 (lastReset rb) then
    rb <| rb_requests := 0 |> <| rb_retries := 0 |> <| lastReset := t2 |>
  else rb.

(** The two allowances, as of [t3]. *)
Definition minRetries (t3 : time) (rb : RetryBudget) : Z :=
  to_int64 (fmul (of_int (MinRetriesPerSecond rb)) (Seconds (time_Sub t3 (lastReset rb)))).
Definition ratioRetries (rb : RetryBudget) : Z := to_int64 (fmul (of_int (rb_requests rb)) (RetryRatio rb)).

Definition CanRetry (t1 t2 t3 : time) (rb : RetryBudget) : bool * RetryBudget :=
  let rb := maybeReset t1 t2 rb in
  let allowed := (rb_retries rb <? minRetries t3 rb) || (rb_retries rb <? ratioRetries rb) in
  if allowed then (true, rb <| rb_retries ::= fun n => i64 (n + 1) |>) else (false, rb).

Definition RecordRequest (t1 t2 : time) (rb : RetryBudget) : RetryBudget :=
  maybeReset t1 t2 rb <| rb_requests ::= fun n => i64 (n + 1) |>.

Definition RetryBudget_GetStats (rb : RetryBudget) : Z * Z * f64 :=
  (rb_requests rb, rb_retries rb,
   if 0 <? rb_requests rb then fdiv (of_int (rb_retries rb)) (of_int (rb_requests rb)) else Fin 0).

(** ** Instances of the theorems

    A function that fails twice, under the default policy. *)

Definition twice : Z -> option string := fun i => if i <? 3 then Some "refused" else None.
Definition twice_env : env (E:=string) (C:=unit) :=
  mkEnv twice (fun _ => None) (fun _ => of_ratio 1 2) (fun _ => None).
(** [math.Pow] at base 1. *)
Definition pow_one (x y : f64) : f64 := of_int 1.
Definition policy3 : RetryPolicy string := DefaultRetryPolicy (fun _ => false).

Lemma twice_survives p i :
  (forall e, retryable p e = true) -> 0 < i < 3 -> survives twice_env p i.
Proof.
  intros Hr Hi. exists "refused". split_and!; try done. cbn. unfold twice.
  by rewrite (proj2 (Z.ltb_lt _ _)) by lia.
Qed.

Lemma Retry_attempts_witness :
  exists log, RetryWithContext pow_one 3 twice_env policy3 = Some (None, 3, log).
Proof.
  apply (Retry_attempts pow_one 3 twice_env policy3 3);
    [cbn; lia..|intros i Hi; by apply twice_survives|reflexivity].
Defined.

Definition policy0 : RetryPolicy string := mkRetryPolicy 0 1 1 (of_int 1) (Fin 0) None false.

Lemma Retry_zero_unlimited_witness :
  exists log, RetryWithContext pow_one 3 twice_env policy0 = Some (None, 3, log).
Proof.
  apply (Retry_zero_unlimited pow_one 3 twice_env policy0 3);
    [reflexivity|lia|cbn; lia|intros i Hi; by apply twice_survives|reflexivity].
Defined.

Lemma calculateBackoff_bounded_witness :
  0 <= calculateBackoff pow_one 2 policy3 (of_ratio 1 2) <= 20 * Second.
Proof.
  refine (calculateBackoff_bounded pow_one _ 2 policy3 (of_ratio 1 2) _ _ _ _ _).
  - intros x y _. unfold pow_one. rewrite of_int_exact by lia. pose proof one_units_pos. cbn. lia.
  - cbn. unfold Millisecond. lia.
  - cbn. unfold Second. lia.
  - vm_compute. discriminate.
  - eexists. split; [vm_compute; reflexivity|]. vm_compute. split; discriminate.
  - eexists. split; [vm_compute; reflexivity|]. vm_compute. split; discriminate.
Defined.

(** The cap is applied before the jitter: the delay can exceed [MaxDelay]. *)
Example calculateBackoff_exceeds_max :
  calculateBackoff pow_one 2 (mkRetryPolicy (E:=string) 3 (20 * Second) (10 * Second) (of_int 1) (of_ratio 1 2) None false)
    (of_ratio 9 10) = 14 * Second.
Proof. vm_compute. reflexivity. Qed.
