(* ===== verification/Timeout.v ===== *)
(** * Timeouts and deadlines (src/pkg/resilience/timeout.go)

    A context is seen through its deadline.  A timed call races the function
    against the context: which branch of the [select] fires is an argument. *)

From S2P Require Import Prelude.

Record TimeoutConfig := mkTimeoutConfig {
  RequestTimeout : duration;
  ConnectTimeout : duration;
  ReadTimeout : duration;
  WriteTimeout : duration;
  IdleTimeout : duration
}.

Definition DefaultTimeoutConfig : TimeoutConfig :=
  mkTimeoutConfig (30 * Second) (5 * Second) (30 * Second) (30 * Second) (60 * Second).

Record TimeoutManager := mkTimeoutManager {
  tm_config : TimeoutConfig;
  totalTimeouts : Z;
  connectTimeouts : Z;
  readTimeouts : Z;
  writeTimeouts : Z
}.
#[export] Instance eta_TimeoutManager : Eta TimeoutManager := fun t =>
  mkTimeoutManager (tm_config t) (totalTimeouts t) (connectTimeouts t) (readTimeouts t) (writeTimeouts t).

Definition NewTimeoutManager (config : TimeoutConfig) : TimeoutManager :=
  mkTimeoutManager config 0 0 0 0.

(** ** Contexts *)

Record context := mkContext { ctx_deadline : option time }.
Definition Background : context := mkContext None.

(** [context.WithDeadline]: a parent with an earlier deadline keeps its own. *)
Definition WithDeadline (parent : context) (d : time) : context :=
  match ctx_deadline parent with
  | Some cur => mkContext (Some (if cur <? d then cur else d))
  | None => mkContext (Some d)
  end.
Definition context_WithTimeout (parent : context) (d : duration) (now : time) : context :=
  WithDeadline parent (time_Add now d).

(** ** Timed calls *)

(** The branch of the [select] that fires: the function returned, or the context
    was done, with its error. *)
Inductive ctx_error := DeadlineExceeded | Canceled.
Inductive race (E : Type) :=
| FnReturned (err : option E)
| CtxDone (c : ctx_error).
Global Arguments FnReturned {E} err.
Global Arguments CtxDone {E} c.

Inductive timeout_error (E : Type) :=
| ErrTimeout
| FnErr (e : E)
| CtxErr (c : ctx_error).
Global Arguments ErrTimeout {E}.
Global Arguments FnErr {E} e.
Global Arguments CtxErr {E} c.

(** The context handed to the function is the first component; [r] tells how the
    race under that context ends. *)
Definition WithTimeoutContext {E} (parent : context) (d : duration) (now : time)
    (r : context -> race E) (tm : TimeoutManager) : option (timeout_error E) * TimeoutManager :=
  match r (context_WithTimeout parent d now) with
  | FnReturned err => (FnErr <$> err, tm)
  | CtxDone c =>
      let tm := tm <| totalTimeouts ::= fun n => u64 (n + 1) |> in
      (Some (match c with DeadlineExceeded => ErrTimeout | Canceled => CtxErr Canceled end), tm)
  end.

Definition WithTimeout {E} (d : duration) (now : time) (r : context -> race E) (tm : TimeoutManager) :=
  WithTimeoutContext Background d now r tm.
Definition WithRequestTimeout {E} (now : time) (r : context -> race E) (tm : TimeoutManager) :=
  WithTimeoutContext Background (RequestTimeout (tm_config tm)) now r tm.

Definition WithConnectTimeout {E} (now : time) (r : context -> race E) (tm : TimeoutManager)
  : option (timeout_error E) * TimeoutManager :=
  match r (context_WithTimeout Background (ConnectTimeout (tm_config tm)) now) with
  | FnReturned err => (FnErr <$> err, tm)
  | CtxDone _ =>
      (Some ErrTimeout, tm <| connectTimeouts ::= fun n => u64 (n + 1) |>
                           <| totalTimeouts ::= fun n => u64 (n + 1) |>)
  end.

Definition CreateRequestContext (parent : option context) (now : time) (tm : TimeoutManager) : context :=
  context_WithTimeout (default Background parent) (RequestTimeout (tm_config tm)) now.
Definition CreateConnectContext (parent : option context) (now : time) (tm : TimeoutManager) : context :=
  context_WithTimeout (default Background parent) (ConnectTimeout (tm_config tm)) now.

Definition RecordConnectTimeout (tm : TimeoutManager) : TimeoutManager :=
  tm <| connectTimeouts ::= fun n => u64 (n + 1) |> <| totalTimeouts ::= fun n => u64 (n + 1) |>.
Definition RecordReadTimeout (tm : TimeoutManager) : TimeoutManager :=
  tm <| readTimeouts ::= fun n => u64 (n + 1) |> <| totalTimeouts ::= fun n => u64 (n + 1) |>.
Definition RecordWriteTimeout (tm : TimeoutManager) : TimeoutManager :=
  tm <| writeTimeouts ::= fun n => u64 (n + 1) |> <| totalTimeouts ::= fun n => u64 (n + 1) |>.

Record TimeoutMetrics := mkTimeoutMetrics {
  TotalTimeouts : Z; ConnectTimeouts : Z; ReadTimeouts : Z; WriteTimeouts : Z
}.
Definition GetMetrics (tm : TimeoutManager) : TimeoutMetrics :=
  mkTimeoutMetrics (totalTimeouts tm) (connectTimeouts tm) (readTimeouts tm) (writeTimeouts tm).

Definition GetConfig (tm : TimeoutManager) : TimeoutConfig := tm_config tm.
Definition UpdateConfig (config : TimeoutConfig) (tm : TimeoutManager) : TimeoutManager :=
  tm <| tm_config := config |>.

(** ** Deadlines *)

Record DeadlineManager := mkDeadlineManager { defaultTimeout : duration }.
Definition NewDeadlineManager (d : duration) : DeadlineManager := mkDeadlineManager d.
Definition CreateDeadline (now : time) (dm : DeadlineManager) : time := time_Add now (defaultTimeout dm).
Definition CreateDeadlineWithTimeout (d : duration) (now : time) (dm : DeadlineManager) : time :=
  time_Add now d.
Definition IsExpired (deadline now : time) (dm : DeadlineManager) : bool := deadline <? now.
Definition RemainingTime (deadline now : time) (dm : DeadlineManager) : duration :=
  let remaining := time_Sub deadline now in if remaining <? 0 then 0 else remaining.

(** [t1] is the reading of [time.Until], [t2] that of [context.WithTimeout]. *)
Definition PropagateDeadline (parent : context) (d : duration) (t1 t2 : time) : context :=
  match ctx_deadline parent with
  | Some deadline =>
      if time_Sub deadline t1 <? d then WithDeadline parent deadline
      else context_WithTimeout parent d t2
  | None => context_WithTimeout parent d t2
  end.

(** ** The deadline of a child *)

Lemma context_WithTimeout_min parent d now :
  ctx_deadline (context_WithTimeout parent d now) =
  Some (match ctx_deadline parent with Some p => Z.min p (now + d) | None => now + d end).
Proof.
  unfold context_WithTimeout, WithDeadline, time_Add. destruct (ctx_deadline parent) as [p|]; cbn; [|done].
  f_equal. zcases.
Qed.

(** PropagateDeadline gives the child context the earlier of the parent's deadline and
    now plus the timeout (the timeout alone when the parent has none). *)
Theorem PropagateDeadline_min (parent : context) (d : duration) (t1 t2 : time) :
  t1 <= t2 -> d <= maxDuration ->
  ctx_deadline (PropagateDeadline parent d t1 t2) =
  Some (match ctx_deadline parent with Some p => Z.min p (t2 + d) | None => t2 + d end).
Proof.
  intros Ht Hd. unfold PropagateDeadline. destruct (ctx_deadline parent) as [p|] eqn:E.
  - destruct (Z.ltb_spec (time_Sub p t1) d) as [Hlt|Hge].
    + unfold WithDeadline. rewrite E. cbn. f_equal. unfold time_Sub, maxDuration, minDuration in *. zcases.
    + by rewrite context_WithTimeout_min, E.
  - by rewrite context_WithTimeout_min, E.
Qed.

Lemma PropagateDeadline_min_witness :
  ctx_deadline (PropagateDeadline (mkContext (Some 100)) 50 60 61) = Some 100.
Proof. apply (PropagateDeadline_min (mkContext (Some 100)) 50 60 61); [lia|unfold maxDuration; lia]. Defined.
