(* ===== verification/RateLimit.v ===== *)
(** * Rate limiters (src/pkg/security/ratelimit.go)

    [RateLimiter] is the Go interface; [RateLimiterLaws] is the promise that
    keys do not interfere with each other, and the wrappers are proved against
    it.  A call is given the clock readings it makes. *)

From S2P Require Import Prelude GoFloat GoStd GoTime.

(** ** The interface

    A limiter may call others, each of which reads the clock: a reading is
    addressed by the path of calls that made it. *)

Abbreviation clock := (list nat -> time).

(** The values of a map[string]interface{} that the Stats methods build; a duration is
    rendered by its String method. *)
Inductive stat :=
| SInt (n : Z)
| SFloat (f : f64)
| SString (s : string)
| SMap (m : list (string * stat)).

Class RateLimiter (S : Type) := {
  Allow : string -> clock -> S -> bool * S;
  Limiter_Reset : string -> S -> S;
  Limiter_Stats : S -> stat
}.

(** [agree k s s'] says that [s] and [s'] know the same about key [k].  Decisions
    on a key depend on that alone, and calls for other keys do not change it. *)
Class RateLimiterLaws (S : Type) `{RateLimiter S} := {
  agree : string -> S -> S -> Prop;
  agree_refl k s : agree k s s;
  Allow_local k clk s s' :
    agree k s s' ->
    fst (Allow k clk s) = fst (Allow k clk s') /\
    agree k (snd (Allow k clk s)) (snd (Allow k clk s'));
  Allow_frame k k' clk s s' : k <> k' -> agree k' s s' -> agree k' (snd (Allow k clk s)) s';
  Reset_local k s s' : agree k s s' -> agree k (Limiter_Reset k s) (Limiter_Reset k s');
  Reset_frame k k' s s' : k <> k' -> agree k' s s' -> agree k' (Limiter_Reset k s) s'
}.

(** Requests as they arrive, with their clock readings, and resets. *)
Inductive limiter_op :=
| OpAllow (k : string) (clk : clock)
| OpReset (k : string).

Definition op_key (o : limiter_op) : string :=
  match o with OpAllow k _ => k | OpReset k => k end.

(** The decisions of a run, with the key of each. *)
Fixpoint decisions {S} `{RateLimiter S} (ops : list limiter_op) (s : S) : list (string * bool) :=
  match ops with
  | [] => []
  | OpAllow k clk :: ops' => let '(r, s') := Allow k clk s in (k, r) :: decisions ops' s'
  | OpReset k :: ops' => decisions ops' (Limiter_Reset k s)
  end.

(** ** Token bucket *)

Record bucket := mkBucket { tokens : f64; lastRefill : time }.
#[export] Instance eta_bucket : Eta bucket := fun b => mkBucket (tokens b) (lastRefill b).

Record TokenBucket := mkTokenBucket {
  rate : f64;
  capacity : Z;
  buckets : gmap string bucket;
  cleanupInterval : duration;
  bucketTTL : duration;
  tb_totalRequests : Z;
  tb_allowedCount : Z;
  tb_blockedCount : Z
}.
#[export] Instance eta_TokenBucket : Eta TokenBucket := fun t =>
  mkTokenBucket (rate t) (capacity t) (buckets t) (cleanupInterval t) (bucketTTL t)
    (tb_totalRequests t) (tb_allowedCount t) (tb_blockedCount t).

Definition NewTokenBucket (r : f64) (cap : Z) : TokenBucket :=
  mkTokenBucket r cap ∅ (1 * Minute) (5 * Minute) 0 0 0.

(** The refill of one bucket, capped at the capacity. *)
Definition refill (r : f64) (cap : Z) (now : time) (b : bucket) : bucket :=
  let elapsed := Seconds (time_Sub now (lastRefill b)) in
  let tk := fadd (tokens b) (fmul elapsed r) in
  let tk := if fltb (of_int cap) tk then of_int cap else tk in
  mkBucket tk now.

(** The critical section of one bucket. *)
Definition take (r : f64) (cap : Z) (now : time) (b : bucket) : bool * bucket :=
  let b := refill r cap now b in
  if fleb (of_int 1) (tokens b) then (true, b <| tokens ::= fun x => fsub x (of_int 1) |>)
  else (false, b).

Global Arguments take : simpl never.

Definition TokenBucket_Allow (key : string) (t1 t2 : time) (tb : TokenBucket)
  : bool * TokenBucket :=
  let tb := tb <| tb_totalRequests ::= fun n => i64 (n + 1) |> in
  let b := default (mkBucket (of_int (capacity tb)) t1) (buckets tb !! key) in
  let '(ok, b) := take (rate tb) (capacity tb) t2 b in
  let tb := tb <| buckets ::= <[key := b]> |> in
  if ok then (true, tb <| tb_allowedCount ::= fun n => i64 (n + 1) |>)
  else (false, tb <| tb_blockedCount ::= fun n => i64 (n + 1) |>).

Definition TokenBucket_Reset (key : string) (tb : TokenBucket) : TokenBucket :=
  tb <| buckets ::= delete key |>.

(** One tick of the cleanup loop. *)
Definition TokenBucket_cleanup (now : time) (tb : TokenBucket) : TokenBucket :=
  tb <| buckets ::= filter (fun kb => ~ (bucketTTL tb < time_Sub now (lastRefill kb.2))) |>.

Definition TokenBucket_Stats (tb : TokenBucket) : stat :=
  SMap [("total_requests", SInt (tb_totalRequests tb)); ("allowed", SInt (tb_allowedCount tb));
        ("blocked", SInt (tb_blockedCount tb)); ("active_buckets", SInt (Z.of_nat (size (buckets tb))));
        ("rate", SFloat (rate tb)); ("capacity", SInt (capacity tb))].

#[export] Instance TokenBucket_RateLimiter : RateLimiter TokenBucket :=
  {| Allow k clk := TokenBucket_Allow k (clk [0%nat]) (clk [1%nat]); Limiter_Reset := TokenBucket_Reset;
     Limiter_Stats := TokenBucket_Stats |}.

(** ** Sliding window *)

(** A [requestWindow] is the list of the times of its requests. *)
Record requestWindow := mkRequestWindow { requests : list time }.
#[export] Instance eta_requestWindow : Eta requestWindow := fun w => mkRequestWindow (requests w).

Record SlidingWindow := mkSlidingWindow {
  limit : Z;
  window : duration;
  windows : gmap string requestWindow;
  sw_cleanupInterval : duration;
  sw_totalRequests : Z;
  sw_allowedCount : Z;
  sw_blockedCount : Z
}.
#[export] Instance eta_SlidingWindow : Eta SlidingWindow := fun s =>
  mkSlidingWindow (limit s) (window s) (windows s) (sw_cleanupInterval s)
    (sw_totalRequests s) (sw_allowedCount s) (sw_blockedCount s).

Definition NewSlidingWindow (lim : Z) (win : duration) : SlidingWindow :=
  mkSlidingWindow lim win ∅ (1 * Minute) 0 0 0.

(** The requests that are [After] the cutoff, in order. *)
Definition after_cutoff (cutoff : time) (l : list time) : list time :=
  filter (fun t => cutoff < t) l.

Definition SlidingWindow_Allow (key : string) (now : time) (sw : SlidingWindow)
  : bool * SlidingWindow :=
  let sw := sw <| sw_totalRequests ::= fun n => i64 (n + 1) |> in
  let w := default (mkRequestWindow []) (windows sw !! key) in
  let cutoff := time_Add now (i64 (- window sw)) in
  let w := w <| requests ::= after_cutoff cutoff |> in
  if Z.of_nat (length (requests w)) <? limit sw then
    (true, sw <| windows ::= <[key := w <| requests ::= fun l => l ++ [now] |>]> |>
              <| sw_allowedCount ::= fun n => i64 (n + 1) |>)
  else
    (false, sw <| windows ::= <[key := w]> |>
               <| sw_blockedCount ::= fun n => i64 (n + 1) |>).

Definition SlidingWindow_Reset (key : string) (sw : SlidingWindow) : SlidingWindow :=
  sw <| windows ::= delete key |>.

(** The test of the cleanup loop: no request, or the last one before the cutoff. *)
Definition is_stale (cutoff : time) (w : requestWindow) : bool :=
  match last (requests w) with
  | None => true
  | Some t => t <? cutoff
  end.

Definition SlidingWindow_cleanup (now : time) (sw : SlidingWindow) : SlidingWindow :=
  let cutoff := time_Add now (i64 (i64 (- window sw) * 2)) in
  sw <| windows ::= filter (fun kw => is_stale cutoff kw.2 = false) |>.

Definition SlidingWindow_Stats (sw : SlidingWindow) : stat :=
  SMap [("total_requests", SInt (sw_totalRequests sw)); ("allowed", SInt (sw_allowedCount sw));
        ("blocked", SInt (sw_blockedCount sw)); ("active_windows", SInt (Z.of_nat (size (windows sw))));
        ("limit", SInt (limit sw)); ("window_duration", SString (Duration_String (window sw)))].

#[export] Instance SlidingWindow_RateLimiter : RateLimiter SlidingWindow :=
  {| Allow k clk := SlidingWindow_Allow k (clk [0%nat]); Limiter_Reset := SlidingWindow_Reset;
     Limiter_Stats := SlidingWindow_Stats |}.

(** ** Wrappers *)

Record PerIPRateLimiter (S : Type) := mkPerIP { limiter : S }.
Global Arguments mkPerIP {S} _.
Global Arguments limiter {S} _.

Section per_ip.
Context {S : Type} `{RateLimiter S}.

Definition NewPerIPRateLimiter (l : S) : PerIPRateLimiter S := mkPerIP l.
Definition AllowIP (ip : string) (clk : clock) (l : PerIPRateLimiter S)
  : bool * PerIPRateLimiter S :=
  let '(r, s) := Allow ip clk (limiter l) in (r, mkPerIP s).
Definition ResetIP (ip : string) (l : PerIPRateLimiter S) : PerIPRateLimiter S :=
  mkPerIP (Limiter_Reset ip (limiter l)).
Definition PerIP_Stats (l : PerIPRateLimiter S) : stat := Limiter_Stats (limiter l).
End per_ip.

(** A value of the interface type: some limiter with its methods and laws. *)
Record AnyLimiter := mkAny {
  any_type : Type;
  any_limiter :: RateLimiter any_type;
  any_laws :: RateLimiterLaws any_type;
  any_value : any_type
}.

Definition any_Allow (k : string) (clk : clock) (l : AnyLimiter) : bool * AnyLimiter :=
  let '(r, s) := Allow k clk (any_value l) in
  (r, mkAny (any_type l) (any_limiter l) (any_laws l) s).
Definition any_Reset (k : string) (l : AnyLimiter) : AnyLimiter :=
  mkAny (any_type l) (any_limiter l) (any_laws l) (Limiter_Reset k (any_value l)).
Definition any_Stats (l : AnyLimiter) : stat := Limiter_Stats (any_value l).

Record CombinedRateLimiter := mkCombined { limiters : list AnyLimiter }.

Inductive combined_error := NoLimiter.

Definition NewCombinedRateLimiter (ls : list AnyLimiter)
  : result combined_error CombinedRateLimiter :=
  if (length ls =? 0)%nat then Err NoLimiter else Ok (mkCombined ls).

(** The loop stops at the first limiter that refuses: the later ones are not
    asked.  [i] is the index of the first limiter of the list. *)
Fixpoint allow_all (k : string) (clk : clock) (i : nat) (ls : list AnyLimiter)
  : bool * list AnyLimiter :=
  match ls with
  | [] => (true, [])
  | l :: ls' =>
      let '(r, l) := any_Allow k (fun p => clk (i :: p)) l in
      if r then let '(r, ls') := allow_all k clk (S i) ls' in (r, l :: ls')
      else (false, l :: ls')
  end.

Definition Combined_Allow (k : string) (clk : clock) (c : CombinedRateLimiter)
  : bool * CombinedRateLimiter :=
  let '(r, ls) := allow_all k clk 0 (limiters c) in (r, mkCombined ls).
Definition Combined_Reset (k : string) (c : CombinedRateLimiter) : CombinedRateLimiter :=
  mkCombined (any_Reset k <$> limiters c).

(** The keys are limiter_0, limiter_1 and so on. *)
Definition limiter_key (i : nat) : string := "limiter_" +:+ itoa (Z.of_nat i).
Definition Combined_Stats (c : CombinedRateLimiter) : stat :=
  SMap (imap (fun i l => (limiter_key i, any_Stats l)) (limiters c)).

#[export] Instance Combined_RateLimiter : RateLimiter CombinedRateLimiter :=
  {| Allow := Combined_Allow; Limiter_Reset := Combined_Reset; Limiter_Stats := Combined_Stats |}.

#[export] Instance PerIP_RateLimiter {S} `{RateLimiter S} : RateLimiter (PerIPRateLimiter S) :=
  {| Allow := AllowIP; Limiter_Reset := ResetIP; Limiter_Stats := PerIP_Stats |}.

(** ** Keys do not interfere *)

#[export] Instance TokenBucket_laws : RateLimiterLaws TokenBucket.
Proof.
  refine {| agree k s s' :=
    rate s = rate s' /\ capacity s = capacity s' /\ buckets s !! k = buckets s' !! k |}.
  - done.
  - intros k clk s s' (Hr & Hc & Hb). cbn [Allow TokenBucket_RateLimiter].
    unfold TokenBucket_Allow.
    destruct s, s'. cbn in *. subst. rewrite Hb.
    destruct (take _ _ _ _) as [[] b]; cbn; by rewrite !lookup_insert_eq.
  - intros k k' clk s s' Hk (Hr & Hc & Hb). cbn [Allow TokenBucket_RateLimiter].
    unfold TokenBucket_Allow. destruct s. cbn in *.
    destruct (take _ _ _ _) as [[] b]; cbn; by rewrite lookup_insert_ne.
  - intros k s s' (Hr & Hc & Hb). destruct s, s'. cbn in *. by rewrite !lookup_delete_eq.
  - intros k k' s s' Hk (Hr & Hc & Hb). destruct s. cbn in *. by rewrite lookup_delete_ne.
Defined.

#[export] Instance SlidingWindow_laws : RateLimiterLaws SlidingWindow.
Proof.
  refine {| agree k s s' :=
    limit s = limit s' /\ window s = window s' /\ windows s !! k = windows s' !! k |}.
  - done.
  - intros k clk s s' (Hl & Hw & Hb). simpl. unfold SlidingWindow_Allow.
    destruct s, s'. simpl in *. subst. rewrite Hb.
    case_match; simpl; by rewrite !lookup_insert_eq.
  - intros k k' clk s s' Hk (Hl & Hw & Hb). simpl. unfold SlidingWindow_Allow. destruct s.
    simpl in *. case_match; simpl; by rewrite lookup_insert_ne.
  - intros k s s' (Hl & Hw & Hb). destruct s, s'. simpl in *. by rewrite !lookup_delete_eq.
  - intros k k' s s' Hk (Hl & Hw & Hb). destruct s. simpl in *. by rewrite lookup_delete_ne.
Defined.

#[export] Instance PerIP_laws {S} `{RateLimiterLaws S} : RateLimiterLaws (PerIPRateLimiter S).
Proof.
  refine {| agree k s s' := agree k (limiter s) (limiter s') |}.
  - intros. apply agree_refl.
  - intros k clk [s] [s'] Ha. pose proof (Allow_local k clk s s' Ha) as Hl.
    simpl. unfold AllowIP. simpl. by destruct (Allow k clk s), (Allow k clk s').
  - intros k k' clk [s] [s'] Hk Ha. pose proof (Allow_frame k k' clk s s' Hk Ha) as Hl.
    simpl. unfold AllowIP. simpl. by destruct (Allow k clk s).
  - intros k s s' Ha. by apply Reset_local.
  - intros k k' s s' Hk Ha. by apply Reset_frame.
Defined.

(** Two interface values agree on a key when they are the same kind of limiter
    in states that agree. *)
Inductive any_agree (k : string) : AnyLimiter -> AnyLimiter -> Prop :=
| any_agree_intro T (L : RateLimiter T) (W : RateLimiterLaws T) (s s' : T) :
    agree k s s' -> any_agree k (mkAny T L W s) (mkAny T L W s').

Lemma any_Allow_local k clk l l' :
  any_agree k l l' ->
  fst (any_Allow k clk l) = fst (any_Allow k clk l') /\
  any_agree k (snd (any_Allow k clk l)) (snd (any_Allow k clk l')).
Proof.
  intros [T L W s s' Ha]. destruct (Allow_local k clk s s' Ha) as [Hf Hs].
  unfold any_Allow. simpl. destruct (Allow k clk s), (Allow k clk s'). by simpl in *.
Qed.

Lemma any_Allow_frame k k' clk l l' :
  k <> k' -> any_agree k' l l' -> any_agree k' (snd (any_Allow k clk l)) l'.
Proof.
  intros Hk [T L W s s' Ha]. pose proof (Allow_frame k k' clk s s' Hk Ha) as Hf.
  unfold any_Allow. simpl. destruct (Allow k clk s). by simpl in *.
Qed.

Lemma allow_all_local k clk i ls ls' :
  Forall2 (any_agree k) ls ls' ->
  fst (allow_all k clk i ls) = fst (allow_all k clk i ls') /\
  Forall2 (any_agree k) (snd (allow_all k clk i ls)) (snd (allow_all k clk i ls')).
Proof.
  intros HF. revert i. induction HF as [|l l' ls ls' Hl HF IH]; intros i; [done|]. simpl.
  destruct (any_Allow_local k (fun p => clk (i :: p)) l l' Hl) as [Hf Hs].
  destruct (any_Allow k _ l) as [r a], (any_Allow k _ l') as [r' a']. simpl in *. subst r'.
  destruct r; [|by split; [|constructor]]. specialize (IH (S i)).
  destruct (allow_all k clk (S i) ls), (allow_all k clk (S i) ls'). simpl in *.
  destruct IH. split; [done|]. by constructor.
Qed.

Lemma allow_all_frame k k' clk i ls ls' :
  k <> k' -> Forall2 (any_agree k') ls ls' ->
  Forall2 (any_agree k') (snd (allow_all k clk i ls)) ls'.
Proof.
  intros Hk HF. revert i. induction HF as [|l l' ls ls' Hl HF IH]; intros i; [done|]. simpl.
  pose proof (any_Allow_frame k k' (fun p => clk (i :: p)) l l' Hk Hl) as Hf.
  destruct (any_Allow k _ l) as [[] a]; simpl in *; [|by constructor]. specialize (IH (S i)).
  destruct (allow_all k clk (S i) ls). by constructor.
Qed.

#[export] Instance Combined_laws : RateLimiterLaws CombinedRateLimiter.
Proof.
  refine {| agree k c c' := Forall2 (any_agree k) (limiters c) (limiters c') |}.
  - intros k [ls]. simpl. induction ls as [|[] ls IH]; constructor; [|done].
    constructor. apply agree_refl.
  - intros k clk c c' Ha. pose proof (allow_all_local k clk 0 _ _ Ha) as Hl.
    simpl. unfold Combined_Allow. by destruct (allow_all _ _ _ (limiters c)), (allow_all _ _ _ (limiters c')).
  - intros k k' clk c c' Hk Ha. pose proof (allow_all_frame k k' clk 0 _ _ Hk Ha) as Hl.
    simpl. unfold Combined_Allow. by destruct (allow_all _ _ _ (limiters c)).
  - intros k c c' Ha. simpl. eapply Forall2_fmap_2, Forall2_impl; [done|].
    intros ? ? [T L W s s' ?]. constructor. by apply Reset_local.
  - intros k k' c c' Hk Ha. simpl. apply Forall2_fmap_l. eapply Forall2_impl; [done|].
    intros ? ? [T L W s s' ?]. constructor. by apply Reset_frame.
Defined.

Definition on_key (k : string) (o : limiter_op) : Prop := op_key o = k.
#[export] Instance on_key_dec k o : Decision (on_key k o).
Proof. unfold on_key. apply _. Defined.

(** Keys do not interfere: for every limiter that satisfies the interface laws (token
    bucket, sliding window, per-IP wrapper and any combination of them are proved to),
    the decisions on one key in an interleaved run of requests and resets are those of
    the run restricted to that key. *)
Theorem limiter_keys_isolated {S} `{RateLimiterLaws S} (ops : list limiter_op) (s : S) (k : string) :
  filter (fun d => fst d = k) (decisions ops s) = decisions (filter (on_key k) ops) s.
Proof.
  assert (forall s s', agree k s s' ->
    filter (fun d => fst d = k) (decisions ops s) = decisions (filter (on_key k) ops) s') as Hgen.
  2:{ apply Hgen, agree_refl. }
  clear s. induction ops as [|o ops IH]; intros s s' Ha; [done|].
  rewrite filter_cons. destruct (decide (on_key k o)) as [Hk|Hk]; destruct o as [k' clk|k'];
    unfold on_key in Hk; simpl in *; subst.
  - destruct (Allow_local k clk s s' Ha) as [Hr Hs].
    destruct (Allow k clk s), (Allow k clk s'). simpl in *. subst.
    rewrite filter_cons, decide_True by done. f_equal. by apply IH.
  - by apply IH, Reset_local.
  - pose proof (Allow_frame k' k clk s s' Hk Ha). destruct (Allow k' clk s). simpl in *.
    rewrite filter_cons, decide_False by done. by apply IH.
  - by apply IH, Reset_frame.
Qed.

(** ** The sliding window is exact

    A run of requests and cleanup ticks, in the order of their clock readings;
    [grants] are the times at which a key was admitted. *)

Inductive sw_op :=
| SwAllow (k : string) (now : time)
| SwCleanup (now : time).
Definition sw_time (o : sw_op) : time := match o with SwAllow _ t => t | SwCleanup t => t end.

Definition sw_step (s : SlidingWindow * list (string * time)) (o : sw_op)
  : SlidingWindow * list (string * time) :=
  match o with
  | SwAllow k now =>
      let '(ok, sw) := SlidingWindow_Allow k now s.1 in
      (sw, if ok then s.2 ++ [(k, now)] else s.2)
  | SwCleanup now => (SlidingWindow_cleanup now s.1, s.2)
  end.
Definition sw_run (sw : SlidingWindow) (ops : list sw_op) : SlidingWindow * list (string * time) :=
  foldl sw_step (sw, []) ops.

Definition grants (k : string) (g : list (string * time)) : list time :=
  (filter (fun e => fst e = k) g).*2.
(** The admissions of [k] in the window that ends at [t]. *)
Definition grants_within (k : string) (win t : Z) (g : list (string * time)) : list time :=
  filter (fun x => t - win < x <= t) (grants k g).

Lemma grants_snoc k g k' t :
  grants k (g ++ [(k', t)]) = if decide (k' = k) then grants k g ++ [t] else grants k g.
Proof.
  unfold grants. rewrite filter_app, fmap_app, filter_cons. simpl.
  case_decide; [done|]. by rewrite app_nil_r.
Qed.

Lemma after_cutoff_twice c c' l : c <= c' -> after_cutoff c' (after_cutoff c l) = after_cutoff c' l.
Proof. intros. unfold after_cutoff. rewrite list_filter_filter. apply list_filter_iff. intros. lia. Qed.

(** What the limiter remembers of the admissions [g], as of the time [lst] of
    the last operation: for a cutoff in the window, the same as [g]. *)
Definition remembered (k : string) (sw : SlidingWindow) : list time :=
  requests (default (mkRequestWindow []) (windows sw !! k)).

Record sw_inv (lim win : Z) (lst : time) (sw : SlidingWindow) (g : list (string * time)) : Prop := {
  swi_limit : limit sw = lim;
  swi_window : window sw = win;
  swi_mem k c : lst - win <= c -> after_cutoff c (remembered k sw) = after_cutoff c (grants k g);
  swi_past k : Forall (fun t => t <= lst) (grants k g);
  swi_past' k : Forall (fun t => t <= lst) (remembered k sw);
  swi_sorted k : StronglySorted Z.le (remembered k sw);
  swi_bound k t : Z.of_nat (length (grants_within k win t g)) <= Z.max 0 lim
}.

Section sliding_window.
Context (lim win : Z) (Hwin : 0 < win < 2 ^ 62).

Lemma i64_neg_window : i64 (- win) = - win /\ i64 (- win * 2) = - (2 * win).
Proof. split; rewrite swrap_small by (unfold in_s; lia); lia. Qed.

Lemma sw_inv_New lst : sw_inv lim win lst (NewSlidingWindow lim win) [].
Proof. split; intros; try done; simpl; first [constructor|lia]. Qed.

Lemma sw_inv_mono lst lst' sw g : lst <= lst' -> sw_inv lim win lst sw g -> sw_inv lim win lst' sw g.
Proof.
  intros Hle [Hl Hw Hm Hp Hp' Hs Hb]. split; try done.
  - intros k c Hc. apply Hm. lia.
  - intros k. eapply Forall_impl; [apply Hp|]. simpl. lia.
  - intros k. eapply Forall_impl; [apply Hp'|]. simpl. lia.
Qed.

(** Up to [now], being after the cutoff is being in the window. *)
Lemma after_cutoff_within k g now :
  Forall (fun t => t <= now) (grants k g) ->
  after_cutoff (now - win) (grants k g) = grants_within k win now g.
Proof.
  intros Hp. unfold after_cutoff, grants_within. rewrite Forall_forall in Hp.
  apply filter_ext_in. intros x Hx%Hp. lia.
Qed.

(** The state after a decision at [now]. *)
Lemma SlidingWindow_Allow_eq k now sw g :
  sw_inv lim win now sw g ->
  let kept := grants_within k win now g in
  let ok := Z.of_nat (length kept) <? lim in
  fst (SlidingWindow_Allow k now sw) = ok /\
  (forall k', remembered k' (snd (SlidingWindow_Allow k now sw)) =
     if decide (k = k') then (if ok then kept ++ [now] else kept) else remembered k' sw) /\
  limit (snd (SlidingWindow_Allow k now sw)) = lim /\
  window (snd (SlidingWindow_Allow k now sw)) = win.
Proof.
  intros [Hl Hw Hm Hp Hp' Hs Hb] kept ok.
  assert (after_cutoff (now - win) (remembered k sw) = kept) as Hk.
  { rewrite Hm by lia. by apply after_cutoff_within. }
  unfold SlidingWindow_Allow. destruct sw. unfold remembered, time_Add in *. simpl in *. subst.
  rewrite (proj1 i64_neg_window). replace (now + - win) with (now - win) by lia. rewrite Hk.
  fold ok. destruct ok; simpl; (split; [done|]); (split; [|done]); intros k'; case_decide; subst;
    by rewrite ?lookup_insert_eq, ?lookup_insert_ne by done.
Qed.

(** The next admission fits in every window. *)
Lemma grants_within_snoc k now g t :
  Z.of_nat (length (grants_within k win now g)) < lim ->
  Z.of_nat (length (grants_within k win t g)) <= Z.max 0 lim ->
  Forall (fun t => t <= now) (grants k g) ->
  Z.of_nat (length (grants_within k win t (g ++ [(k, now)]))) <= Z.max 0 lim.
Proof.
  intros Hlt Ht Hp. unfold grants_within in *.
  rewrite grants_snoc, decide_True, filter_app, length_app by done.
  destruct (decide (now <= t)) as [Hle|Hgt].
  - assert (length (filter (fun x => t - win < x <= t)%Z (grants k g)) <=
      length (filter (fun x => now - win < x <= now)%Z (grants k g)))%nat.
    { apply length_filter_mono. intros x Hx. rewrite Forall_forall in Hp. apply Hp in Hx. lia. }
    pose proof (length_filter (fun x : Z => t - win < x <= t) [now]). simpl in *. lia.
  - rewrite (filter_none _ [now]); [simpl; lia|]. constructor; [lia|done].
Qed.

Lemma sw_inv_Allow k now sw g :
  sw_inv lim win now sw g ->
  sw_inv lim win now (sw_step (sw, g) (SwAllow k now)).1 (sw_step (sw, g) (SwAllow k now)).2.
Proof.
  intros Hi. destruct (SlidingWindow_Allow_eq k now sw g Hi) as (Hok & Hrem & Hl' & Hw').
  destruct Hi as [Hl Hw Hm Hp Hp' Hs Hb]. simpl.
  destruct (SlidingWindow_Allow k now sw) as [ok sw']. simpl in *.
  set (kept := grants_within k win now g) in *.
  assert (after_cutoff (now - win) (remembered k sw) = kept) as Hkeep.
  { rewrite Hm by lia. by apply after_cutoff_within. }
  assert (Forall (fun t => t <= now) kept) as Hkp by (apply Forall_filter, Hp).
  assert (StronglySorted Z.le kept) as Hks by (rewrite <- Hkeep; by apply StronglySorted_filter).
  split; try done.
  - intros k' c Hc. rewrite Hrem. subst ok.
    assert (after_cutoff c kept = after_cutoff c (grants k g)) as Hkc.
    { rewrite <- Hkeep, after_cutoff_twice by lia. by apply Hm. }
    destruct (decide (k = k')) as [<-|Hne]; destruct (_ <? lim);
      rewrite ?grants_snoc, ?decide_True, ?decide_False by done; auto.
    unfold after_cutoff in *. by rewrite !filter_app, Hkc.
  - intros k'. destruct ok; [|done]. rewrite grants_snoc. case_decide; [|done].
    apply Forall_app_2; [done|]. by constructor.
  - intros k'. rewrite Hrem. case_decide; [|done]. subst ok. case_match; [|done].
    apply Forall_app_2; [done|]. by constructor.
  - intros k'. rewrite Hrem. case_decide; [|done]. subst ok. case_match; [|done].
    apply StronglySorted_app_2; [|done|by repeat constructor].
    rewrite Forall_forall in Hkp. intros x y Hx%Hkp Hy%list_elem_of_singleton. by subst.
  - intros k' t. destruct ok; [|done]. destruct (decide (k = k')) as [<-|Hne].
    + apply grants_within_snoc; auto. by apply Z.ltb_lt.
    + unfold grants_within. rewrite grants_snoc, decide_False by done. apply Hb.
Qed.

(** A window is dropped only when no request in it can count any more. *)
Lemma sw_inv_cleanup now sw g :
  sw_inv lim win now sw g -> sw_inv lim win now (SlidingWindow_cleanup now sw) g.
Proof.
  intros [Hl Hw Hm Hp Hp' Hs Hb].
  assert (forall k, remembered k (SlidingWindow_cleanup now sw) = remembered k sw \/
    remembered k (SlidingWindow_cleanup now sw) = [] /\
    Forall (fun t => t <= now - win) (remembered k sw)) as Hcl.
  { intros k. specialize (Hs k). unfold SlidingWindow_cleanup, remembered, time_Add in *. destruct sw.
    simpl in *. subst. rewrite (proj1 i64_neg_window), (proj2 i64_neg_window).
    destruct (windows0 !! k) as [w|] eqn:Ek.
    2:{ left. by rewrite map_lookup_filter, Ek. }
    destruct (is_stale (now + - (2 * win)) w) eqn:Est; rewrite map_lookup_filter, Ek; simpl.
    - right. case_guard; [congruence|]. split; [done|]. unfold is_stale in Est.
      destruct (last (requests w)) as [m|] eqn:El; [|by apply last_None in El as ->].
      apply last_Some in El as [l' El]. apply Z.ltb_lt in Est. simpl in *. rewrite El in *.
      apply Forall_forall. intros x [Hx|Hx%list_elem_of_singleton]%elem_of_app; [|lia].
      pose proof (StronglySorted_app_1_elem_of _ _ _ x m Hs Hx ltac:(set_solver)). simpl in *. lia.
    - left. by case_guard. }
  split; try (by destruct sw).
  - intros k c Hc. rewrite <- Hm by done. destruct (Hcl k) as [->|[-> Hall]]; [done|].
    unfold after_cutoff. rewrite (filter_none _ (remembered k sw)); [done|].
    eapply Forall_impl; [done|]. simpl. lia.
  - intros k. destruct (Hcl k) as [->|[-> _]]; [done|constructor].
  - intros k. destruct (Hcl k) as [->|[-> _]]; [done|constructor].
Qed.

Lemma sw_inv_run ops lst :
  StronglySorted Z.le (sw_time <$> ops) -> Forall (fun o => sw_time o <= lst) ops ->
  sw_inv lim win lst (sw_run (NewSlidingWindow lim win) ops).1
    (sw_run (NewSlidingWindow lim win) ops).2.
Proof.
  revert lst. induction ops as [|o ops IH] using rev_ind; intros lst Hs Hall.
  { apply sw_inv_New. }
  rewrite fmap_app in Hs. apply StronglySorted_app in Hs as (Hle & Hs & _).
  apply Forall_app in Hall as [_ Ho]. apply Forall_cons in Ho as [Ho _].
  unfold sw_run in *. rewrite foldl_snoc.
  apply (sw_inv_mono (sw_time o)); [done|].
  specialize (IH (sw_time o) Hs). destruct (foldl _ _ ops) as [sw g]. simpl in IH.
  assert (sw_inv lim win (sw_time o) sw g) as Hi.
  { apply IH, Forall_forall. intros x Hx. apply Hle; [|set_solver].
    apply list_elem_of_fmap. eauto. }
  destruct o; [by apply sw_inv_Allow|by apply sw_inv_cleanup].
Qed.
End sliding_window.

(** C8: The sliding window is exact: after any time-ordered run of requests for any keys
    and cleanup ticks, a request for key k at time now is admitted if and only if fewer
    than limit requests of k were admitted in the window (now - window, now]. Allow is
    one step (the code looks the window up under one lock and decides under another). *)
Theorem SlidingWindow_exact (lim win : Z) (ops : list sw_op) (k : string) (now : time) :
  0 < win < 2 ^ 62 -> StronglySorted Z.le (sw_time <$> (ops ++ [SwAllow k now])) ->
  let s := sw_run (NewSlidingWindow lim win) ops in
  fst (SlidingWindow_Allow k now s.1) =
    (Z.of_nat (length (grants_within k win now s.2)) <? lim).
Proof.
  intros Hwin Hs s. rewrite fmap_app in Hs. apply StronglySorted_app in Hs as (Hle & Hs & _).
  apply (SlidingWindow_Allow_eq lim win Hwin). apply sw_inv_run; [done..|].
  apply Forall_forall. intros x Hx. apply Hle; [|set_solver]. apply list_elem_of_fmap. eauto.
Qed.

(** In no window of the configured length, wherever it ends, are more than limit
    requests of a key admitted by the sliding window limiter, cleanup ticks included. *)
Theorem SlidingWindow_bound (lim win : Z) (ops : list sw_op) (k : string) (t : time) :
  0 < win < 2 ^ 62 -> StronglySorted Z.le (sw_time <$> ops) ->
  Z.of_nat (length (grants_within k win t (sw_run (NewSlidingWindow lim win) ops).2)) <= Z.max 0 lim.
Proof.
  intros Hwin Hs. destruct ops as [|o ops _] using rev_ind; [simpl; lia|].
  apply (swi_bound lim win (sw_time o) (sw_run (NewSlidingWindow lim win) (ops ++ [o])).1).
  apply sw_inv_run; [done..|]. rewrite fmap_app in Hs.
  apply StronglySorted_app in Hs as (Hle & Hs & _). apply Forall_app_2; [|by repeat constructor].
  apply Forall_forall. intros x Hx. apply Hle; [|set_solver]. apply list_elem_of_fmap. eauto.
Qed.

(** ** The token bucket *)

(** A bucket never holds a negative number of tokens, nor more than the capacity. *)
Definition bucket_ok (cap : Z) (b : bucket) : Prop :=
  exists n, tokens b = Fin n /\ 0 <= n <= cap * one_units.

Section token_bucket.
Context (r : Z) (cap : Z) (Hr : 0 <= r) (Hcap : 0 <= cap <= 2 ^ 53).

Lemma refill_ok now b :
  bucket_ok cap b -> lastRefill b <= now -> bucket_ok cap (refill (Fin r) cap now b).
Proof.
  intros (n & Hn & Hn1) Hle. unfold refill, bucket_ok. cbn [tokens]. rewrite Hn.
  destruct (Seconds_nonneg (time_Sub now (lastRefill b))) as (e & -> & He).
  { unfold time_Sub, maxDuration, minDuration. lia. }
  pose proof (fmul_nonneg e r He Hr) as Hm.
  pose proof (fadd_nonneg (Fin n) _ (proj1 Hn1) Hm) as Ha.
  rewrite of_int_exact by lia. pose proof one_units_pos as Hu.
  destruct (fadd (Fin n) _) as [m| | |]; try done; simpl.
  - destruct (Z.ltb_spec (cap * one_units) m); [exists (cap * one_units)|exists m];
      (split; [done|]); simpl in *; nia.
  - exists (cap * one_units). split; [done|]. nia.
Qed.

Lemma take_ok now b :
  bucket_ok cap b -> lastRefill b <= now -> bucket_ok cap (snd (take (Fin r) cap now b)).
Proof.
  intros Hb Hle. destruct (refill_ok now b Hb Hle) as (n & Hn & Hn1).
  unfold take. rewrite Hn. rewrite of_int_exact by lia. cbn [fleb].
  destruct (Z.leb_spec (1 * one_units) n) as [Hge|]; [|by exists n].
  destruct (refill _ _ _ b) as [tk lr]. simpl in Hn. subst tk. pose proof one_units_pos.
  destruct (fl_between (n + - (1 * one_units)) 1 0 cap) as (m & Hm & Hm1); [lia..|].
  exists m. split; [exact Hm|]. lia.
Qed.
End token_bucket.

(** A limiter as [NewTokenBucket] makes it, with all its buckets in range and
    refilled no later than [lst]. *)
Definition tb_inv (r cap : Z) (lst : time) (tb : TokenBucket) : Prop :=
  rate tb = Fin r /\ capacity tb = cap /\
  map_Forall (fun _ b => bucket_ok cap b /\ lastRefill b <= lst) (buckets tb).

(** The operations on a token bucket, with the time of the last one. *)
Inductive tb_step : TokenBucket * time -> TokenBucket * time -> Prop :=
| tb_allow k t1 t2 tb lst : lst <= t1 <= t2 -> tb_step (tb, lst) (snd (TokenBucket_Allow k t1 t2 tb), t2)
| tb_reset k tb lst : tb_step (tb, lst) (TokenBucket_Reset k tb, lst)
| tb_clean t tb lst : lst <= t -> tb_step (tb, lst) (TokenBucket_cleanup t tb, t).

Lemma take_lastRefill r cap now b : lastRefill (snd (take r cap now b)) = now.
Proof. unfold take. by destruct (fleb _ _). Qed.

Lemma tb_inv_Allow r cap k t1 t2 lst tb :
  0 <= r -> 0 <= cap <= 2 ^ 53 -> lst <= t1 <= t2 ->
  tb_inv r cap lst tb -> tb_inv r cap t2 (snd (TokenBucket_Allow k t1 t2 tb)).
Proof.
  intros Hr Hcap Ht (Hrate & Hc & Hall). unfold TokenBucket_Allow. destruct tb. cbn in *. subst.
  set (b := default _ _).
  assert (bucket_ok cap b /\ lastRefill b <= t2) as [Hb Hle].
  { subst b. destruct (buckets0 !! k) as [b|] eqn:Eb; simpl.
    - apply Hall in Eb as [? ?]. split; [done|lia].
    - split; [|lia]. exists (cap * one_units). pose proof one_units_pos.
      split; [by apply of_int_exact; lia|nia]. }
  pose proof (take_ok r cap Hr Hcap t2 b Hb Hle) as Hok.
  pose proof (take_lastRefill (Fin r) cap t2 b) as Hlast.
  assert (map_Forall (fun _ b => bucket_ok cap b /\ lastRefill b <= t2)
    (<[k := snd (take (Fin r) cap t2 b)]> buckets0)) as Hall'.
  { apply map_Forall_insert_2; [split; [done|lia]|]. intros k' b' [? ?]%Hall. split; [done|lia]. }
  destruct (take (Fin r) cap t2 b) as [[] b']; by split_and!.
Qed.

Lemma tb_inv_step r cap s s' :
  0 <= r -> 0 <= cap <= 2 ^ 53 -> tb_step s s' -> tb_inv r cap s.2 s.1 -> tb_inv r cap s'.2 s'.1.
Proof.
  intros Hr Hcap [k t1 t2 tb lst Ht|k tb lst|t tb lst Ht] Hi; cbn [fst snd] in *.
  - by eapply tb_inv_Allow.
  - destruct Hi as (? & ? & Hall). destruct tb. split_and!; try done.
    by apply map_Forall_delete.
  - destruct Hi as (? & ? & Hall). destruct tb. split_and!; try done. simpl in *.
    intros k b [Hb _]%map_lookup_filter_Some. apply Hall in Hb as [? ?]. split; [done|lia].
Qed.

Lemma tb_inv_reach r cap t0 s :
  0 <= r -> 0 <= cap <= 2 ^ 53 -> rtc tb_step (NewTokenBucket (Fin r) cap, t0) s -> tb_inv r cap s.2 s.1.
Proof.
  intros Hr Hcap. apply (rtc_invariant tb_step (fun s => tb_inv r cap s.2 s.1)); [|by split_and!].
  intros x y Hxy. by apply tb_inv_step.
Qed.

(** In every state reachable with a monotone clock, every bucket of the token bucket
    limiter holds a finite, non-negative number of tokens that is at most the capacity,
    with the float64 rounding of refills accounted for. *)
Theorem TokenBucket_tokens_in_range (r cap : Z) (t0 : time) (s : TokenBucket * time) :
  0 <= r -> 0 <= cap <= 2 ^ 53 ->
  rtc tb_step (NewTokenBucket (Fin r) cap, t0) s ->
  map_Forall (fun _ b => bucket_ok cap b) (buckets s.1).
Proof.
  intros Hr Hcap Hs. destruct (tb_inv_reach r cap t0 s Hr Hcap Hs) as (_ & _ & Hall).
  intros k b Hb. by apply Hall in Hb as [? _].
Qed.

(** *** Bursts: requests for one key at one instant *)

Fixpoint burst (n : nat) (k : string) (t : time) (tb : TokenBucket) : list bool :=
  match n with
  | O => []
  | S n' => let '(ok, tb) := TokenBucket_Allow k t t tb in ok :: burst n' k t tb
  end.

(** One request at the instant of the last refill, with [i] tokens left. *)
Lemma take_instant r cap t i :
  0 <= i <= cap -> cap <= 2 ^ 53 ->
  take (Fin r) cap t (mkBucket (Fin (i * one_units)) t) =
  (if 1 <=? i then (true, mkBucket (Fin ((i - 1) * one_units)) t)
   else (false, mkBucket (Fin (i * one_units)) t)).
Proof.
  intros Hi Hcap. unfold take, refill. cbn [tokens lastRefill].
  assert (time_Sub t t = 0) as -> by (unfold time_Sub, maxDuration, minDuration; lia).
  rewrite Seconds_0. assert (fmul (Fin 0) (Fin r) = Fin (0 * one_units)) as ->.
  { unfold fmul. rewrite Z.mul_0_l. by vm_compute. }
  rewrite fadd_int, Z.add_0_r by lia. rewrite !of_int_exact by lia. cbn [fltb].
  pose proof one_units_pos. rewrite (proj2 (Z.ltb_ge _ _)) by nia. cbn [tokens fleb].
  destruct (Z.leb_spec 1 i).
  - rewrite (proj2 (Z.leb_le _ _)) by nia. cbn [set_field tokens lastRefill eta_bucket].
    cbv beta. rewrite fsub_int by lia. done.
  - by rewrite (proj2 (Z.leb_gt _ _)) by nia.
Qed.

Lemma burst_tokens n r k t tb i :
  rate tb = Fin r -> 0 <= i <= capacity tb -> capacity tb <= 2 ^ 53 ->
  default (mkBucket (of_int (capacity tb)) t) (buckets tb !! k) = mkBucket (Fin (i * one_units)) t ->
  burst n k t tb = replicate (n `min` Z.to_nat i) true ++ replicate (n - Z.to_nat i) false.
Proof.
  revert tb i. induction n as [|n IH]; intros tb i Hr Hi Hc Hb; [done|]. cbn [burst].
  unfold TokenBucket_Allow. destruct tb. cbn in Hr, Hi, Hc, Hb |- *. rewrite Hb. subst.
  rewrite take_instant by lia. destruct (Z.leb_spec 1 i).
  - cbn. rewrite (IH _ (i - 1)); [|done|cbn; lia|done|cbn; by rewrite lookup_insert_eq].
    replace (Z.to_nat i) with (S (Z.to_nat (i - 1))) by lia. done.
  - cbn. rewrite (IH _ i); [|done|cbn; lia|done|cbn; by rewrite lookup_insert_eq].
    by replace i with 0 by lia; rewrite Nat.min_0_r, Nat.sub_0_r.
Qed.

(** A burst of n requests for a fresh key at one instant is answered by exactly min(n,
    capacity) admissions followed by refusals, for any finite rate. *)
Theorem TokenBucket_burst (n : nat) (r cap : Z) (k : string) (t : time) :
  0 <= cap <= 2 ^ 53 ->
  burst n k t (NewTokenBucket (Fin r) cap) =
  replicate (n `min` Z.to_nat cap) true ++ replicate (n - Z.to_nat cap) false.
Proof.
  intros Hcap. apply (burst_tokens n r); [done|simpl; lia|simpl; lia|].
  simpl. by rewrite of_int_exact by lia.
Qed.

(** A key that has waited until elapsed seconds times rate, computed in float64, is at
    least one token is admitted by its next request, whatever the bucket held before. *)
Theorem TokenBucket_refilled (k : string) (t1 t2 : time) (r cap : Z) (tb : TokenBucket) (b : bucket) lst :
  0 <= r -> 1 <= cap <= 2 ^ 53 -> tb_inv r cap lst tb -> lst <= t1 <= t2 ->
  buckets tb !! k = Some b ->
  fleb (of_int 1) (fmul (Seconds (time_Sub t2 (lastRefill b))) (Fin r)) = true ->
  fst (TokenBucket_Allow k t1 t2 tb) = true.
Proof.
  intros Hr Hcap (Hrate & Hc & Hall) Ht Hb Hsec.
  assert (fst (take (Fin r) cap t2 b) = true) as Htake.
  { destruct (Hall k b Hb) as [(n & Hn & Hn1) Hl]. unfold take, refill. rewrite Hn. cbn [tokens].
    destruct (Seconds_nonneg (time_Sub t2 (lastRefill b))) as (e & He & He0).
    { unfold time_Sub, maxDuration, minDuration. lia. }
    rewrite He in *. rewrite !of_int_exact in * by lia. pose proof one_units_pos as Hu.
    assert (fleb (Fin (1 * one_units)) (fadd (Fin n) (fmul (Fin e) (Fin r))) = true) as Hge.
    { destruct (fmul (Fin e) (Fin r)) as [m| | |]; try done. simpl in Hsec. apply Z.leb_le in Hsec.
      cbn [fadd]. unfold fl.
      pose proof (rnd_ge (n + m) 1 (1 * one_units) ltac:(lia) (repr_int 1 ltac:(lia)) ltac:(lia)).
      destruct (Z.leb_spec overflow_units (rnd (n + m) 1)); [done|].
      assert (0 < overflow_units) by reflexivity.
      rewrite (proj2 (Z.leb_gt _ _)) by lia. by apply Z.leb_le. }
    destruct (fltb _ _); [|by rewrite Hge].
    cbn [fleb]. rewrite (proj2 (Z.leb_le _ _)) by nia. done. }
  unfold TokenBucket_Allow. destruct tb. cbn in *. rewrite Hb. subst. cbn.
  by destruct (take (Fin r) cap t2 b) as [[] ?].
Qed.

(** ** Instances of the theorems *)

Definition sw_ops : list sw_op :=
  [SwAllow "10.0.0.1" 0; SwAllow "10.0.0.1" 1; SwAllow "10.0.0.2" 2; SwCleanup 3].

Lemma SlidingWindow_exact_witness :
  fst (SlidingWindow_Allow "10.0.0.1" 5 (sw_run (NewSlidingWindow 2 10) sw_ops).1) = false.
Proof.
  rewrite (SlidingWindow_exact 2 10 sw_ops "10.0.0.1" 5); [by vm_compute|lia|].
  simpl. repeat constructor; lia.
Defined.

Lemma SlidingWindow_bound_witness :
  Z.of_nat (length (grants_within "10.0.0.1" 10 5 (sw_run (NewSlidingWindow 2 10) sw_ops).2)) <= 2.
Proof.
  apply (SlidingWindow_bound 2 10 sw_ops "10.0.0.1" 5); [lia|]. simpl. repeat constructor; lia.
Defined.

Lemma TokenBucket_tokens_in_range_witness :
  map_Forall (fun _ b => bucket_ok 3 b)
    (buckets (snd (TokenBucket_Allow "a" 5 6 (NewTokenBucket (Fin one_units) 3)))).
Proof.
  apply (TokenBucket_tokens_in_range one_units 3 0
    (snd (TokenBucket_Allow "a" 5 6 (NewTokenBucket (Fin one_units) 3)), 6)); [done|lia|].
  apply rtc_once, tb_allow. lia.
Defined.

Lemma TokenBucket_burst_witness :
  burst 4 "a" 7 (NewTokenBucket (Fin one_units) 3) = [true; true; true; false].
Proof. apply (TokenBucket_burst 4 one_units 3 "a" 7). lia. Defined.

(** An empty bucket refilled at 10 tokens per second for 100 ms. *)
Definition tb_empty : TokenBucket :=
  NewTokenBucket (of_int 10) 1 <| buckets := {[ "a" := mkBucket (Fin 0) 0 ]} |>.

Lemma tb_empty_inv : tb_inv (10 * one_units) 1 0 tb_empty.
Proof.
  split; [by apply of_int_exact|]. split; [done|]. apply map_Forall_singleton.
  split; [exists 0|done]. split; [done|]. pose proof one_units_pos. lia.
Qed.

Lemma TokenBucket_refilled_witness :
  fst (TokenBucket_Allow "a" (100 * Millisecond) (100 * Millisecond) tb_empty) = true.
Proof.
  refine (TokenBucket_refilled "a" (100 * Millisecond) (100 * Millisecond) (10 * one_units) 1
    tb_empty (mkBucket (Fin 0) 0) 0 _ _ tb_empty_inv _ _ _).
  - pose proof one_units_pos. lia.
  - lia.
  - unfold Millisecond. lia.
  - reflexivity.
  - vm_compute. reflexivity.
Defined.

(** Isolation of the keys of a combination of both limiters. *)
Definition both : CombinedRateLimiter :=
  mkCombined [mkAny TokenBucket _ _ (NewTokenBucket (of_int 1) 2);
              mkAny SlidingWindow _ _ (NewSlidingWindow 5 Minute)].

Definition two_keys : list limiter_op :=
  [OpAllow "a" (fun _ => 1); OpAllow "b" (fun _ => 1); OpAllow "a" (fun _ => 1); OpReset "a";
   OpAllow "b" (fun _ => 1)].

Lemma limiter_keys_isolated_witness :
  (length (filter (on_key "b") two_keys) = 2)%nat /\
  filter (fun d => fst d = "b") (decisions two_keys both) =
    decisions (filter (on_key "b") two_keys) both.
Proof. split; [reflexivity|]. exact (limiter_keys_isolated two_keys both "b"). Defined.
