(* ===== verification/TokenRate.v ===== *)
(** * The long-run rate of the token bucket (src/pkg/security/ratelimit.go)

    The refill is computed in float64, so every call adds a rounding error to the bucket.
    This file bounds what the errors add up to: over any sequence of calls, a key is
    granted at most the capacity plus the rate times the elapsed time, up to a relative
    error of 2^-50 of that amount and 2^-50 of the capacity per call. *)

From S2P Require Import Prelude GoFloat RateLimit.

(** ** Upper bounds of rounded values *)

(** Rounding adds at most a relative error of 2^-53 and a unit. *)
Lemma rnd_upper a b : 0 <= a -> 0 < b -> 2 ^ 53 * (rnd a b * b) <= (2 ^ 53 + 1) * a + 2 ^ 53 * b.
Proof.
  intros Ha Hb. unfold rnd. rewrite (proj2 (Z.leb_le 0 a) Ha).
  destruct (decide (2 ^ 52 * b <= a)) as [Hbig|Hsmall].
  - pose proof (rnd_pos_error a b Hb Hbig). lia.
  - unfold rnd_pos. assert (expo a b = 0) as ->.
    { unfold expo. assert (a / b < 2 ^ 52) as Hq by (apply Z.div_lt_upper_bound; lia).
      generalize dependent (a / b). intros q Hq.
      destruct (decide (q <= 0)) as [Hz|Hz]; [by rewrite Z.log2_nonpos by done|].
      pose proof (proj1 (Z.log2_lt_pow2 q 52 ltac:(lia)) Hq). lia. }
    rewrite Z.pow_0_r, !Z.mul_1_r. pose proof (rne_error a b Hb). lia.
Qed.

(** For an integer number of units nothing is added below the normal range. *)
Lemma rnd_upper_int a : 0 <= a -> 2 ^ 53 * rnd a 1 <= (2 ^ 53 + 1) * a.
Proof.
  intros Ha. unfold rnd. rewrite (proj2 (Z.leb_le 0 a) Ha).
  destruct (decide (2 ^ 52 * 1 <= a)) as [Hbig|Hsmall].
  - pose proof (rnd_pos_error a 1 ltac:(lia) Hbig). lia.
  - assert (rnd_pos a 1 = a) as ->; [|lia].
    pose proof (repr_pos_scaled a 0 ltac:(lia) ltac:(lia)) as Hr. unfold repr, rnd in Hr.
    rewrite Z.pow_0_r, Z.mul_1_r, (proj2 (Z.leb_le 0 a) Ha) in Hr. exact Hr.
Qed.

(** A sum that is at most [m] after rounding exceeds the exact sum by at most 2^-52 of [m]. *)
Lemma rnd_sum_upper a m : 0 <= a -> rnd a 1 <= m -> 2 ^ 52 * (rnd a 1 - a) <= m.
Proof.
  intros Ha Hm. pose proof (rnd_upper_int a Ha). pose proof (rnd_ge a 1 0 ltac:(lia) repr_0 ltac:(lia)).
  destruct (decide (rnd a 1 <= a)); [lia|]. lia.
Qed.

(** *** Elapsed seconds *)

Lemma Seconds_upper d :
  0 <= d <= maxDuration ->
  exists n, Seconds d = Fin n /\ 0 <= n <= 2 ^ 53 * one_units /\
    2 ^ 51 * (Second * n) <= (2 ^ 51 + 1) * (d * one_units) + 2 ^ 53 * Second.
Proof.
  intros [Hd1 Hd2]. unfold Seconds, maxDuration, Second in *.
  rewrite Z.quot_div_nonneg, go_rem_nonneg by lia.
  pose proof (Z.mod_pos_bound d 1000000000 ltac:(lia)) as Hm.
  pose proof (Z.div_mod d 1000000000 ltac:(lia)) as Hdm.
  assert (0 <= d / 1000000000 < 2 ^ 52) as Hq
    by (split; [apply Z.div_pos; lia|apply Z.div_lt_upper_bound; lia]).
  rewrite fdiv_of_int, of_int_exact by lia. pose proof one_units_pos as Hu.
  set (s := d / 1000000000) in *. set (f := d mod 1000000000) in *. clearbody s f.
  pose proof (rnd_ge (f * one_units) 1000000000 0 ltac:(lia) repr_0 ltac:(nia)) as Hr0.
  pose proof (rnd_le (f * one_units) 1000000000 (1 * one_units) ltac:(lia) (repr_int 1 ltac:(lia)) ltac:(nia)) as Hr1.
  pose proof (rnd_upper (f * one_units) 1000000000 ltac:(nia) ltac:(lia)) as Hup.
  set (r := rnd (f * one_units) 1000000000) in *. clearbody r.
  destruct (fl_between (s * one_units + r) 1 0 (2 ^ 53)) as (n & Hn & Hlo & Hhi);
    [lia..|set (u := one_units) in *; nia|].
  exists n. split; [exact Hn|]. split; [lia|].
  assert (n = rnd (s * one_units + r) 1) as ->.
  { unfold fl in Hn. destruct (_ <=? _); [done|]. destruct (_ <=? _); [done|]. by injection Hn. }
  pose proof (rnd_upper_int (s * one_units + r) ltac:(nia)) as Hs.
  set (u := one_units) in *. clearbody u. set (v := rnd (s * u + r) 1) in *. clearbody v.
  nia.
Qed.

(** *** The tokens a refill adds *)

Lemma refilled_upper r d :
  0 <= r <= 2 ^ 53 * one_units -> 0 <= d <= maxDuration ->
  exists m, fmul (Seconds d) (Fin r) = Fin m /\ 0 <= m /\
    2 ^ 50 * (Second * m) <= (2 ^ 50 + 1) * (r * d) + 2 ^ 106 * Second.
Proof.
  intros Hr Hd. destruct (Seconds_upper d Hd) as (e & -> & He & Hup). cbn [fmul].
  pose proof one_units_pos as Hu.
  pose proof (rnd_ge (e * r) one_units 0 Hu repr_0 ltac:(nia)) as H0.
  assert (rnd (e * r) one_units <= 1 * (2 ^ 106 * one_units)) as H1.
  { apply rnd_le; [done| |].
    - change (1 * (2 ^ 106 * one_units)) with (1 * 2 ^ 1180). apply repr_scaled; lia.
    - set (u := one_units) in *. nia. }
  assert (2 ^ 106 * one_units < overflow_units) as Ho by reflexivity.
  exists (rnd (e * r) one_units). split_and!; [|done|].
  - unfold fl. rewrite (proj2 (Z.leb_gt _ _)), (proj2 (Z.leb_gt _ _)) by lia. done.
  - pose proof (rnd_upper (e * r) one_units ltac:(nia) Hu) as Hm. clear H1 Ho.
    set (m := rnd (e * r) one_units) in *. clearbody m. unfold Second in *.
    assert (forall u, 0 < u -> r <= 2 ^ 53 * u ->
      2 ^ 51 * (1000000000 * e) <= (2 ^ 51 + 1) * (d * u) + 2 ^ 53 * 1000000000 ->
      2 ^ 53 * (m * u) <= (2 ^ 53 + 1) * (e * r) + 2 ^ 53 * u ->
      2 ^ 50 * (1000000000 * m) <= (2 ^ 50 + 1) * (r * d) + 2 ^ 106 * 1000000000) as Hgen; [|by eapply Hgen; [exact Hu|..]; lia].
    clear -Hr Hd He H0. intros u Hu Hru He1 Hm. set (Q := 1000000000) in *.
    assert (0 < Q) by (unfold Q; lia). clearbody Q.
    pose proof (Z.mul_le_mono_nonneg_l _ _ ((2 ^ 53 + 1) * r) ltac:(lia) He1) as A.
    pose proof (Z.mul_le_mono_nonneg_l _ _ (2 ^ 51 * Q) ltac:(lia) Hm) as B.
    pose proof (Z.mul_le_mono_nonneg_l _ _ ((2 ^ 53 + 1) * (2 ^ 53 * Q)) ltac:(lia) Hru) as C.
    assert (u * (2 ^ 104 * (Q * m)) <=
      u * ((2 ^ 53 + 1) * (2 ^ 51 + 1) * (r * d) + (2 ^ 53 + 1) * 2 ^ 106 * Q + 2 ^ 104 * Q)) as D by lia.
    apply Z.mul_le_mono_pos_l in D; [|done]. assert (0 <= r * d) by nia. lia.
Qed.

(** ** One call *)

(** The tokens of a bucket in range. *)
Definition held (b : bucket) : Z := match tokens b with Fin n => n | _ => 0 end.

Section calls.
Context (r cap : Z) (Hr : 0 <= r <= 2 ^ 53 * one_units) (Hcap : 1 <= cap <= 2 ^ 53).

(** The capped sum. *)
Lemma capped_sum n m :
  0 <= n -> 0 <= m ->
  exists tk, (if fltb (of_int cap) (fadd (Fin n) (Fin m)) then of_int cap else fadd (Fin n) (Fin m)) = Fin tk /\
    0 <= tk <= cap * one_units /\ 2 ^ 52 * (tk - n - m) <= cap * one_units.
Proof.
  intros Hn Hm. rewrite of_int_exact by lia. cbn [fadd]. pose proof one_units_pos as Hu.
  pose proof (rnd_ge (n + m) 1 0 ltac:(lia) repr_0 ltac:(lia)) as H0.
  assert (cap * one_units < rnd (n + m) 1 -> cap * one_units < n + m) as Hover.
  { intros Hlt. destruct (decide (n + m <= cap * one_units)) as [Hle|]; [|lia].
    pose proof (rnd_le (n + m) 1 (cap * one_units) ltac:(lia) (repr_int cap ltac:(lia)) ltac:(lia)). lia. }
  assert (cap * one_units < overflow_units) as Hcu.
  { assert (overflow_units = 2 ^ 1024 * one_units) as -> by reflexivity.
    assert (2 ^ 53 < 2 ^ 1024) by reflexivity. set (u := one_units) in *. nia. }
  unfold fl. destruct (Z.leb_spec overflow_units (rnd (n + m) 1)).
  - cbn [fltb]. exists (cap * one_units). split; [done|]. split; [nia|]. lia.
  - rewrite (proj2 (Z.leb_gt _ _)) by lia. cbn [fltb].
    destruct (Z.ltb_spec (cap * one_units) (rnd (n + m) 1)) as [Hlt|Hge].
    + exists (cap * one_units). split; [done|]. split; [nia|]. lia.
    + exists (rnd (n + m) 1). split; [done|]. split; [lia|].
      pose proof (rnd_sum_upper (n + m) (cap * one_units) ltac:(lia) Hge). lia.
Qed.

(** Taking one token. *)
Lemma taken tk :
  one_units <= tk <= cap * one_units ->
  exists tk', fsub (Fin tk) (of_int 1) = Fin tk' /\ 2 ^ 52 * (tk' - (tk - one_units)) <= cap * one_units.
Proof.
  intros Htk. rewrite of_int_exact by lia. cbn [fsub fneg fadd]. pose proof one_units_pos as Hu.
  destruct (fl_between (tk + - (1 * one_units)) 1 0 cap) as (k & Hk & Hk1); [lia..|].
  exists k. split; [exact Hk|]. assert (k = rnd (tk + - (1 * one_units)) 1) as ->.
  { unfold fl in Hk. destruct (_ <=? _); [done|]. destruct (_ <=? _); [done|]. by injection Hk. }
  pose proof (rnd_sum_upper (tk + - (1 * one_units)) (cap * one_units) ltac:(lia) ltac:(lia)). lia.
Qed.

(** What a call leaves in the bucket and grants is what was there and the refill, with
    the rounding errors of the two additions. *)
Lemma take_upper now b :
  bucket_ok cap b -> lastRefill b <= now ->
  2 ^ 50 * (Second * (held (snd (take (Fin r) cap now b)) +
                      if fst (take (Fin r) cap now b) then one_units else 0)) <=
  2 ^ 50 * (Second * held b) + (2 ^ 50 + 1) * (r * (now - lastRefill b)) + Second * (cap * one_units).
Proof.
  intros (n & Hn & Hn1) Hle. unfold held at 2. rewrite Hn. unfold take, refill. rewrite Hn.
  assert (0 <= time_Sub now (lastRefill b) <= maxDuration) as Hd
    by (unfold time_Sub, maxDuration, minDuration; lia).
  assert (time_Sub now (lastRefill b) <= now - lastRefill b) as Hsub
    by (unfold time_Sub, maxDuration, minDuration; lia).
  destruct (refilled_upper r _ Hr Hd) as (m & -> & Hm0 & Hm).
  set (d := time_Sub now (lastRefill b)) in *. clearbody d.
  destruct (capped_sum n m ltac:(lia) Hm0) as (tk & -> & Htk & Htk'). cbn [tokens].
  assert (r * d <= r * (now - lastRefill b)) as Hrd by nia.
  assert (2 ^ 200 <= one_units) as Hbig by (by vm_compute).
  assert (2 ^ 200 <= cap * one_units) as Hcu by nia.
  pose proof (of_int_exact 1 ltac:(lia)) as H1. rewrite H1. cbn [fleb].
  unfold Second in *. destruct (Z.leb_spec (1 * one_units) tk) as [Hge|Hlt].
  - destruct (taken tk ltac:(lia)) as (k & Hk & Hk'). cbn [fst snd set_field eta_bucket tokens lastRefill].
    rewrite H1 in Hk. unfold held. cbn [set_field eta_bucket tokens]. rewrite Hk. lia.
  - cbn [fst snd]. unfold held. cbn [tokens]. lia.
Qed.

(** The first call of a window, whatever was idle before it: at most the capacity. *)
Lemma take_first now b :
  bucket_ok cap b -> lastRefill b <= now ->
  2 ^ 50 * (held (snd (take (Fin r) cap now b)) +
            if fst (take (Fin r) cap now b) then one_units else 0) <=
  2 ^ 50 * (cap * one_units) + cap * one_units.
Proof.
  intros Hb Hle. destruct (refill_ok r cap (proj1 Hr) ltac:(lia) now b Hb Hle) as (tk & Htk & Htk1).
  unfold take. rewrite Htk. pose proof (of_int_exact 1 ltac:(lia)) as H1. rewrite H1. cbn [fleb].
  pose proof one_units_pos as Hu. destruct (refill (Fin r) cap now b) as [tk' lr]. cbn in Htk. subst tk'.
  destruct (Z.leb_spec (1 * one_units) tk) as [Hge|Hlt].
  - destruct (taken tk ltac:(lia)) as (k & Hk & Hk'). rewrite H1 in Hk. unfold held.
    cbn [fst snd set_field eta_bucket tokens]. rewrite Hk. lia.
  - unfold held. cbn [fst snd tokens]. nia.
Qed.
End calls.

(** ** Sequences of calls *)

(** Calls of Allow, with their key and their two readings of the clock. *)
Abbreviation tb_call := (string * (time * time))%type.

Fixpoint granted (k : string) (calls : list tb_call) (tb : TokenBucket) : Z :=
  match calls with
  | [] => 0
  | (k', (t1, t2)) :: calls =>
      let '(ok, tb) := TokenBucket_Allow k' t1 t2 tb in
      (if ok && bool_decide (k' = k) then 1 else 0) + granted k calls tb
  end.

Definition calls_of (k : string) (calls : list tb_call) : Z :=
  sum_by (fun c => if bool_decide (c.1 = k) then 1 else 0) calls.

(** The clock does not go back and stays before [fin]. *)
Fixpoint clocked (lst fin : time) (calls : list tb_call) : Prop :=
  match calls with
  | [] => lst <= fin
  | (_, (t1, t2)) :: calls => lst <= t1 <= t2 /\ clocked t2 fin calls
  end.

Lemma clocked_le lst fin calls : clocked lst fin calls -> lst <= fin.
Proof.
  revert lst. induction calls as [|[k [t1 t2]] calls IH]; intros lst; cbn; [done|].
  intros [? ?%IH]. lia.
Qed.

(** A call in terms of the bucket it uses. *)
Lemma Allow_bucket k t1 t2 tb r cap :
  rate tb = Fin r -> capacity tb = cap ->
  let b := default (mkBucket (of_int cap) t1) (buckets tb !! k) in
  fst (TokenBucket_Allow k t1 t2 tb) = fst (take (Fin r) cap t2 b) /\
  buckets (snd (TokenBucket_Allow k t1 t2 tb)) = <[k := snd (take (Fin r) cap t2 b)]> (buckets tb).
Proof.
  intros Hr Hc. unfold TokenBucket_Allow. destruct tb. cbn in *. subst.
  by destruct (take _ _ _ _) as [[] ?].
Qed.

Section sequences.
Context (r cap : Z) (Hr : 0 <= r <= 2 ^ 53 * one_units) (Hcap : 1 <= cap <= 2 ^ 53) (k : string).

(** From a state in which the key has the bucket [b]. *)
Lemma granted_upper calls lst fin tb b :
  tb_inv r cap lst tb -> clocked lst fin calls -> buckets tb !! k = Some b ->
  2 ^ 50 * (Second * (one_units * granted k calls tb)) <=
  2 ^ 50 * (Second * held b) + (2 ^ 50 + 1) * (r * (fin - lastRefill b)) +
    calls_of k calls * (Second * (cap * one_units)).
Proof.
  revert lst tb b. induction calls as [|[k' [t1 t2]] calls IH]; intros lst tb b Hi Hcl Hb.
  - cbn. destruct Hi as (_ & _ & Hall). destruct (Hall k b Hb) as [(n & Hn & Hn1) Hl].
    unfold held. rewrite Hn. cbn in Hcl. assert (0 <= r * (fin - lastRefill b)) by nia. unfold Second. lia.
  - pose proof Hi as (Hrate & Hc & Hall). destruct (Hall k b Hb) as [Hok Hl].
    destruct Hcl as [Ht Hcl]. pose proof (clocked_le _ _ _ Hcl) as Hfin.
    pose proof (tb_inv_Allow r cap k' t1 t2 lst tb (proj1 Hr) ltac:(lia) Ht Hi) as Hi'.
    destruct (Allow_bucket k' t1 t2 tb r cap Hrate Hc) as [Hok' Hbk].
    cbn [granted]. destruct (TokenBucket_Allow k' t1 t2 tb) as [ok tb'] eqn:Ha. cbn [fst snd] in *.
    unfold calls_of, sum_by. cbn [foldr fst]. fold (sum_by (fun c : tb_call => if bool_decide (c.1 = k) then 1 else 0) calls).
    fold (calls_of k calls).
    destruct (decide (k' = k)) as [->|Hne].
    + rewrite !bool_decide_true by done. rewrite Hb in Hok', Hbk. cbn [default from_option id] in Hok', Hbk.
      pose proof (take_upper r cap Hr Hcap t2 b Hok ltac:(lia)) as Hup.
      pose proof (take_lastRefill (Fin r) cap t2 b) as Hlr.
      rewrite Hok'. set (x := take (Fin r) cap t2 b) in *.
      specialize (IH t2 tb' (snd x) Hi' Hcl ltac:(by rewrite Hbk, lookup_insert_eq)). rewrite Hlr in IH.
      replace (fin - lastRefill b) with ((t2 - lastRefill b) + (fin - t2)) by lia.
      rewrite andb_true_r. unfold Second in *. destruct (fst x); lia.
    + rewrite !bool_decide_false by done. rewrite andb_false_r.
      specialize (IH t2 tb' b Hi' Hcl ltac:(by rewrite Hbk, lookup_insert_ne)). lia.
Qed.

(** From any state of the limiter: until the first call of the key nothing is granted. *)
Lemma granted_window calls lst fin tb :
  tb_inv r cap lst tb -> clocked lst fin calls ->
  2 ^ 50 * (Second * (one_units * granted k calls tb)) <=
  2 ^ 50 * (Second * (cap * one_units)) + (2 ^ 50 + 1) * (r * (fin - lst)) +
    calls_of k calls * (Second * (cap * one_units)).
Proof.
  revert lst tb. induction calls as [|[k' [t1 t2]] calls IH]; intros lst tb Hi Hcl.
  - cbn in *. pose proof one_units_pos. assert (0 <= r * (fin - lst)) by nia. unfold Second. nia.
  - pose proof Hi as (Hrate & Hc & Hall).
    destruct Hcl as [Ht Hcl]. pose proof (clocked_le _ _ _ Hcl) as Hfin.
    pose proof (tb_inv_Allow r cap k' t1 t2 lst tb (proj1 Hr) ltac:(lia) Ht Hi) as Hi'.
    destruct (Allow_bucket k' t1 t2 tb r cap Hrate Hc) as [Hok' Hbk].
    cbn [granted]. destruct (TokenBucket_Allow k' t1 t2 tb) as [ok tb'] eqn:Ha. cbn [fst snd] in *.
    unfold calls_of, sum_by. cbn [foldr fst]. fold (sum_by (fun c : tb_call => if bool_decide (c.1 = k) then 1 else 0) calls).
    fold (calls_of k calls). assert (r * (fin - t2) <= r * (fin - lst)) as Hmono by nia.
    destruct (decide (k' = k)) as [->|Hne].
    + rewrite !bool_decide_true by done. set (b := default _ _) in *.
      assert (bucket_ok cap b /\ lastRefill b <= t2) as [Hbo Hbl].
      { subst b. destruct (buckets tb !! k) as [b|] eqn:Eb; cbn.
        - destruct (Hall k b Eb). split; [done|lia].
        - split; [|lia]. exists (cap * one_units). pose proof one_units_pos.
          split; [by apply of_int_exact; lia|nia]. }
      pose proof (take_first r cap Hr Hcap t2 b Hbo Hbl) as Hup.
      pose proof (take_lastRefill (Fin r) cap t2 b) as Hlr.
      rewrite Hok'. set (x := take (Fin r) cap t2 b) in *.
      pose proof (granted_upper calls t2 fin tb' (snd x) Hi' Hcl ltac:(by rewrite Hbk, lookup_insert_eq)) as Hg.
      rewrite Hlr in Hg. rewrite andb_true_r. unfold Second in *. destruct (fst x); lia.
    + rewrite !bool_decide_false by done. rewrite andb_false_r.
      specialize (IH t2 tb' Hi' Hcl). lia.
Qed.
End sequences.

(** C9: The long-run rate of the token bucket in float64 arithmetic: from every
    reachable state, over any window of calls with a monotone clock, a key is granted at
    most the capacity plus rate times elapsed time, up to a relative error of 2^-50 of
    that amount and 2^-50 of the capacity per call. The window holds calls of Allow
    only: a cleanup tick in it that forgets an idle bucket starts it full again (finding
    on ratelimit.go:118). *)
Theorem TokenBucket_rate (r cap : Z) (t0 fin : time) (s : TokenBucket * time) (k : string)
    (calls : list tb_call) :
  0 <= r <= 2 ^ 53 * one_units -> 1 <= cap <= 2 ^ 53 ->
  rtc tb_step (NewTokenBucket (Fin r) cap, t0) s -> clocked s.2 fin calls ->
  2 ^ 50 * (Second * (granted k calls s.1 * one_units)) <=
  2 ^ 50 * (Second * (cap * one_units)) + (2 ^ 50 + 1) * (r * (fin - s.2)) +
    calls_of k calls * (Second * (cap * one_units)).
Proof.
  intros Hr Hcap Hs Hcl. pose proof (tb_inv_reach r cap t0 s ltac:(lia) ltac:(lia) Hs) as Hi.
  pose proof (granted_window r cap Hr Hcap k calls _ fin _ Hi Hcl). lia.
Qed.

(** ** Instances *)

(** Ten tokens per second and a capacity of two; nine calls over 0.48 seconds get the two
    tokens of the full bucket and the four that were refilled as a whole. *)
Definition every (step : Z) (n : nat) (k : string) : list tb_call :=
  (fun i => (k, (step * Z.of_nat i, step * Z.of_nat i))) <$> seq 0 n.

Example granted_briefly :
  granted "a" (every 60000000 4 "a") (NewTokenBucket (of_int 10) 2) = 3.
Proof. vm_compute. reflexivity. Qed.

Lemma TokenBucket_rate_witness :
  2 ^ 50 * (Second * (granted "a" (every 60000000 4 "a") (NewTokenBucket (of_int 10) 2) * one_units)) <=
  2 ^ 50 * (Second * (2 * one_units)) + (2 ^ 50 + 1) * (10 * one_units * 180000000) +
    4 * (Second * (2 * one_units)).
Proof.
  apply (TokenBucket_rate (10 * one_units) 2 0 180000000 (NewTokenBucket (of_int 10) 2, 0) "a"
    (every 60000000 4 "a")).
  - split; [by vm_compute|]. apply Z.mul_le_mono_nonneg_r; [by vm_compute|lia].
  - lia.
  - rewrite of_int_exact by lia. constructor.
  - cbn. lia.
Defined.

(** The cleanup forgets a bucket that was idle for five minutes, and a new bucket is full:
    with one token per two hundred seconds an exhausted key has one token back by then, and
    two after the cleanup. *)
Definition exhausted : TokenBucket :=
  foldl (fun tb _ => snd (TokenBucket_Allow "a" 0 0 tb)) (NewTokenBucket (of_ratio 1 200) 2) (seq 0 2).

Example cleanup_refills :
  granted "a" (replicate 3 ("a", (301 * Second, 301 * Second))) exhausted = 1 /\
  granted "a" (replicate 3 ("a", (301 * Second, 301 * Second))) (TokenBucket_cleanup (301 * Second) exhausted) = 2.
Proof. vm_compute. auto. Qed.
