(* ===== verification/Protection.v ===== *)
(** * Protections against abusive clients (src/pkg/security/protection.go)

    The connection guard, the request size guard, the IP blocklist, and the
    security manager that combines them with a rate limiter.  A tick of a
    cleanup goroutine is an operation; every clock reading is an argument. *)

From S2P Require Import Prelude GoFloat GoStd RateLimit.

Record ProtectionConfig := mkProtectionConfig {
  MaxConnectionsPerIP : Z;
  MaxConnectionRate : f64;
  ReadTimeout : duration;
  WriteTimeout : duration;
  MaxRequestSize : Z;
  MaxHeaderSize : Z;
  ConnectionTimeout : duration
}.

Definition DefaultProtectionConfig : ProtectionConfig :=
  mkProtectionConfig 100 (of_int 10) (10 * Second) (10 * Second) (10 * 1024 * 1024) (1024 * 1024)
    (300 * Second).

(** ** Connection guard *)

Record ipConnections := mkIpConnections { count : Z; lastActivity : time }.
#[export] Instance eta_ipConnections : Eta ipConnections := fun c =>
  mkIpConnections (count c) (lastActivity c).

Record ConnectionGuard := mkConnectionGuard {
  cg_config : ProtectionConfig;
  connectionsPerIP : gmap string ipConnections;
  connectionRateLimiter : TokenBucket;
  totalConnections : Z;
  rejectedConnections : Z;
  cg_activeConnections : Z;
  slowlorisDetections : Z
}.
#[export] Instance eta_ConnectionGuard : Eta ConnectionGuard := fun g =>
  mkConnectionGuard (cg_config g) (connectionsPerIP g) (connectionRateLimiter g)
    (totalConnections g) (rejectedConnections g) (cg_activeConnections g) (slowlorisDetections g).

Definition NewConnectionGuard (config : option ProtectionConfig) : ConnectionGuard :=
  let config := default DefaultProtectionConfig config in
  mkConnectionGuard config ∅
    (NewTokenBucket (MaxConnectionRate config) (to_int64 (fmul (MaxConnectionRate config) (of_int 10))))
    0 0 0 0.

(** [t1] and [t2] are the readings of the rate limiter, [t3] that of the guard. *)
Definition AllowConnection (ip : string) (t1 t2 t3 : time) (cg : ConnectionGuard)
  : bool * ConnectionGuard :=
  let cg := cg <| totalConnections ::= fun n => i64 (n + 1) |> in
  let '(ok, tb) := TokenBucket_Allow ip t1 t2 (connectionRateLimiter cg) in
  let cg := cg <| connectionRateLimiter := tb |> in
  if negb ok then (false, cg <| rejectedConnections ::= fun n => i64 (n + 1) |>)
  else
    match connectionsPerIP cg !! ip with
    | Some c =>
        if MaxConnectionsPerIP (cg_config cg) <=? count c then
          (false, cg <| rejectedConnections ::= fun n => i64 (n + 1) |>)
        else
          (true, cg <| connectionsPerIP ::= <[ip := mkIpConnections (i64 (count c + 1)) t3]> |>
                    <| cg_activeConnections ::= fun n => i64 (n + 1) |>)
    | None =>
        (true, cg <| connectionsPerIP ::= <[ip := mkIpConnections 1 t3]> |>
                  <| cg_activeConnections ::= fun n => i64 (n + 1) |>)
    end.

Definition ReleaseConnection (ip : string) (now : time) (cg : ConnectionGuard) : ConnectionGuard :=
  let cg :=
    match connectionsPerIP cg !! ip with
    | Some c =>
        let c := mkIpConnections (i64 (count c - 1)) now in
        if count c <=? 0 then cg <| connectionsPerIP ::= delete ip |>
        else cg <| connectionsPerIP ::= <[ip := c]> |>
    | None => cg
    end in
  cg <| cg_activeConnections ::= fun n => i64 (n + -1) |>.

Definition ConnectionGuard_cleanup (now : time) (cg : ConnectionGuard) : ConnectionGuard :=
  cg <| connectionsPerIP ::=
    filter (fun kc => ~ (count kc.2 = 0 /\ 5 * Minute < time_Sub now (lastActivity kc.2))) |>.

(** [conn.SetReadDeadline] is a parameter: whether it fails.  Both branches of
    [DetectSlowloris] return false. *)
Definition DetectSlowloris (setReadDeadline_fails : bool) : bool :=
  if setReadDeadline_fails then false else false.

Definition ConnectionGuard_Stats (cg : ConnectionGuard) : stat :=
  SMap [("total_connections", SInt (totalConnections cg)); ("rejected_connections", SInt (rejectedConnections cg));
        ("active_connections", SInt (cg_activeConnections cg)); ("slowloris_detections", SInt (slowlorisDetections cg));
        ("tracked_ips", SInt (Z.of_nat (size (connectionsPerIP cg))));
        ("max_connections_per_ip", SInt (MaxConnectionsPerIP (cg_config cg)))].

(** ** Request size guard *)

Record RequestSizeGuard := mkRequestSizeGuard {
  maxRequestSize : Z;
  maxHeaderSize : Z;
  rs_totalRequests : Z;
  rejectedRequests : Z
}.
#[export] Instance eta_RequestSizeGuard : Eta RequestSizeGuard := fun g =>
  mkRequestSizeGuard (maxRequestSize g) (maxHeaderSize g) (rs_totalRequests g) (rejectedRequests g).

Definition NewRequestSizeGuard (maxReq maxHdr : Z) : RequestSizeGuard :=
  mkRequestSizeGuard maxReq maxHdr 0 0.

Definition CheckRequestSize (size : Z) (g : RequestSizeGuard) : bool * RequestSizeGuard :=
  let g := g <| rs_totalRequests ::= fun n => i64 (n + 1) |> in
  if maxRequestSize g <? size then (false, g <| rejectedRequests ::= fun n => i64 (n + 1) |>)
  else (true, g).

Definition CheckHeaderSize (size : Z) (g : RequestSizeGuard) : bool :=
  if maxHeaderSize g <? size then false else true.

Definition RequestSizeGuard_Stats (g : RequestSizeGuard) : stat :=
  SMap [("total_requests", SInt (rs_totalRequests g)); ("rejected_requests", SInt (rejectedRequests g));
        ("max_request_size", SInt (maxRequestSize g)); ("max_header_size", SInt (maxHeaderSize g))].

(** ** Blocklist *)

Record IPBlocklist := mkIPBlocklist {
  blocked : gmap string time;
  permanent : gmap string bool;
  totalBlocks : Z;
  activeBlocks : Z;
  blockedRequests : Z
}.
#[export] Instance eta_IPBlocklist : Eta IPBlocklist := fun b =>
  mkIPBlocklist (blocked b) (permanent b) (totalBlocks b) (activeBlocks b) (blockedRequests b).

Definition NewIPBlocklist : IPBlocklist := mkIPBlocklist ∅ ∅ 0 0 0.

Definition Block (ip : string) (d : duration) (now : time) (bl : IPBlocklist) : IPBlocklist :=
  bl <| blocked ::= <[ip := time_Add now d]> |>
     <| totalBlocks ::= fun n => i64 (n + 1) |>
     <| activeBlocks ::= fun n => i64 (n + 1) |>.

Definition BlockPermanent (ip : string) (bl : IPBlocklist) : IPBlocklist :=
  bl <| permanent ::= <[ip := true]> |>
     <| totalBlocks ::= fun n => i64 (n + 1) |>
     <| activeBlocks ::= fun n => i64 (n + 1) |>.

Definition Unblock (ip : string) (bl : IPBlocklist) : IPBlocklist :=
  let bl :=
    match blocked bl !! ip with
    | Some _ => bl <| blocked ::= delete ip |> <| activeBlocks ::= fun n => i64 (n + -1) |>
    | None => bl
    end in
  match permanent bl !! ip with
  | Some _ => bl <| permanent ::= delete ip |> <| activeBlocks ::= fun n => i64 (n + -1) |>
  | None => bl
  end.

Definition IsBlocked (ip : string) (now : time) (bl : IPBlocklist) : bool * IPBlocklist :=
  if default false (permanent bl !! ip) then
    (true, bl <| blockedRequests ::= fun n => i64 (n + 1) |>)
  else
    match blocked bl !! ip with
    | Some expiry =>
        if now <? expiry then (true, bl <| blockedRequests ::= fun n => i64 (n + 1) |>)
        else (false, bl)
    | None => (false, bl)
    end.

(** One tick: every entry past its expiry is deleted and uncounted. *)
Definition IPBlocklist_cleanup (now : time) (bl : IPBlocklist) : IPBlocklist :=
  let expired := filter (fun ke => ke.2 < now) (blocked bl) in
  bl <| blocked ::= filter (fun ke => ~ (ke.2 < now)) |>
     <| activeBlocks ::= fun n => i64 (n - Z.of_nat (size expired)) |>.

Definition IPBlocklist_Stats (bl : IPBlocklist) : stat :=
  SMap [("total_blocks", SInt (totalBlocks bl)); ("active_blocks", SInt (activeBlocks bl));
        ("blocked_requests", SInt (blockedRequests bl)); ("permanent_blocks", SInt (Z.of_nat (size (permanent bl))));
        ("temporary_blocks", SInt (Z.of_nat (size (blocked bl))))].

(** ** Security manager *)

Record SecurityManager := mkSecurityManager {
  connectionGuard : ConnectionGuard;
  requestSizeGuard : RequestSizeGuard;
  rateLimiter : option AnyLimiter;
  blocklist : IPBlocklist
}.
#[export] Instance eta_SecurityManager : Eta SecurityManager := fun s =>
  mkSecurityManager (connectionGuard s) (requestSizeGuard s) (rateLimiter s) (blocklist s).

Definition NewSecurityManager (config : option ProtectionConfig) (rl : option AnyLimiter)
  : SecurityManager :=
  let config := default DefaultProtectionConfig config in
  mkSecurityManager (NewConnectionGuard (Some config))
    (NewRequestSizeGuard (MaxRequestSize config) (MaxHeaderSize config)) rl NewIPBlocklist.

(** [t0] is the reading of the blocklist, [clk] those of the rate limiter, and
    [t1 t2 t3] those of the guard. *)
Definition SM_AllowConnection (ip : string) (t0 : time) (clk : clock) (t1 t2 t3 : time)
    (sm : SecurityManager) : bool * string * SecurityManager :=
  let '(b, bl) := IsBlocked ip t0 (blocklist sm) in
  let sm := sm <| blocklist := bl |> in
  if b then (false, "IP is blocked", sm)
  else
    let '(ok, sm) :=
      match rateLimiter sm with
      | None => (true, sm)
      | Some l => let '(ok, l) := any_Allow ip clk l in (ok, sm <| rateLimiter := Some l |>)
      end in
    if negb ok then (false, "Rate limit exceeded", sm)
    else
      let '(ok, cg) := AllowConnection ip t1 t2 t3 (connectionGuard sm) in
      let sm := sm <| connectionGuard := cg |> in
      if negb ok then (false, "Too many connections", sm) else (true, "", sm).

Definition SM_ReleaseConnection (ip : string) (now : time) (sm : SecurityManager) : SecurityManager :=
  sm <| connectionGuard ::= ReleaseConnection ip now |>.

Definition SM_CheckRequestSize (sz : Z) (sm : SecurityManager) : bool * SecurityManager :=
  let '(r, g) := CheckRequestSize sz (requestSizeGuard sm) in
  (r, sm <| requestSizeGuard := g |>).

Definition BlockIP (ip : string) (d : duration) (now : time) (sm : SecurityManager) : SecurityManager :=
  sm <| blocklist ::= Block ip d now |>.

Definition SM_Stats (sm : SecurityManager) : stat :=
  SMap ([("connection_guard", ConnectionGuard_Stats (connectionGuard sm));
         ("request_size_guard", RequestSizeGuard_Stats (requestSizeGuard sm));
         ("blocklist", IPBlocklist_Stats (blocklist sm))] ++
        match rateLimiter sm with Some l => [("rate_limiter", any_Stats l)] | None => [] end).

(** ** Addresses *)

(** A [net.Addr]: a TCP address with the rendering of its IP, or another one with its own
    String. *)
Inductive net_addr := TCPAddr (ip : string) (port : Z) | OtherAddr (s : string).

Definition GetClientIP (addr : net_addr) : string :=
  match addr with
  | TCPAddr ip _ => ip
  | OtherAddr s => match SplitHostPort s with Some host => host | None => s end
  end.

(** [ParseIP] tells whether net.ParseIP returns an address. *)
Definition ValidateIP (ParseIP : string -> bool) (ip : string) : option string :=
  if negb (ParseIP ip) then Some ("invalid IP address: " +:+ ip) else None.

(** ** The guard counts the open connections

    The ghost list holds the IP of every open connection: an admitted connection
    joins it, and a connection is released once, while it is open. *)

Definition conns (ip : string) (opened : list string) : Z :=
  Z.of_nat (length (filter (eq ip) opened)).

Inductive cg_step : ConnectionGuard * list string -> ConnectionGuard * list string -> Prop :=
| cg_admit ip t1 t2 t3 cg cg' opened :
    AllowConnection ip t1 t2 t3 cg = (true, cg') -> cg_step (cg, opened) (cg', ip :: opened)
| cg_refuse ip t1 t2 t3 cg cg' opened :
    AllowConnection ip t1 t2 t3 cg = (false, cg') -> cg_step (cg, opened) (cg', opened)
| cg_release ip now cg l1 l2 :
    cg_step (cg, l1 ++ ip :: l2) (ReleaseConnection ip now cg, l1 ++ l2)
| cg_clean now cg opened : cg_step (cg, opened) (ConnectionGuard_cleanup now cg, opened).

(** The entry of an IP, given the number of its open connections. *)
Definition entry_ok (mx : Z) (n : Z) (e : option ipConnections) : Prop :=
  match e with
  | Some c => count c = n /\ 0 < n <= Z.max 1 mx
  | None => n = 0
  end.

Record cg_inv (mx : Z) (cg : ConnectionGuard) (opened : list string) : Prop := {
  cgi_max : MaxConnectionsPerIP (cg_config cg) = mx;
  cgi_entry ip : entry_ok mx (conns ip opened) (connectionsPerIP cg !! ip);
  cgi_active : cg_activeConnections cg = i64 (Z.of_nat (length opened))
}.

Lemma conns_cons ip ip' l : conns ip (ip' :: l) = (if decide (ip = ip') then 1 else 0) + conns ip l.
Proof. unfold conns. rewrite filter_cons. case_decide; simpl; lia. Qed.

Lemma conns_middle ip ip' l1 l2 : conns ip (l1 ++ ip' :: l2) = conns ip (ip' :: l1 ++ l2).
Proof. unfold conns. by rewrite <- Permutation_middle. Qed.

Lemma conns_nonneg ip l : 0 <= conns ip l.
Proof. unfold conns. lia. Qed.

Section guard.
Context (mx : Z) (Hmx : mx < 2 ^ 63).

Lemma cg_inv_Allow ip t1 t2 t3 cg ok cg' opened :
  cg_inv mx cg opened -> AllowConnection ip t1 t2 t3 cg = (ok, cg') ->
  cg_inv mx cg' (if ok then ip :: opened else opened).
Proof.
  intros [Hm He Ha]. unfold AllowConnection. destruct cg as [cfg cs tb tot rej act sl]. cbn in *.
  destruct (TokenBucket_Allow ip t1 t2 tb) as [[] tb']; cbn; [|by intros [= <- <-]].
  pose proof (He ip) as Hip.
  assert (forall n c, entry_ok mx (1 + conns ip opened) (Some c) ->
    cg_inv mx (mkConnectionGuard cfg (<[ip := c]> cs) tb' n rej (i64 (act + 1)) sl) (ip :: opened))
    as Hadmit.
  { intros n c Hc. split; cbn; [done| |].
    - intros ip'. rewrite conns_cons. destruct (decide (ip' = ip)) as [->|Hne].
      + by rewrite lookup_insert_eq.
      + rewrite lookup_insert_ne by done. apply He.
    - rewrite Ha, swrap_add_l by lia. f_equal. lia. }
  destruct (cs !! ip) as [c|] eqn:Ec; cbn.
  - destruct Hip as [Hc Hn]. destruct (Z.leb_spec (MaxConnectionsPerIP cfg) (count c)).
    + intros [= <- <-]. by split.
    + intros [= <- <-]. apply Hadmit. cbn. rewrite swrap_small; [lia..|unfold in_s; lia].
  - intros [= <- <-]. apply Hadmit. cbn in *. lia.
Qed.

Lemma cg_inv_Release ip now cg l1 l2 :
  cg_inv mx cg (l1 ++ ip :: l2) -> cg_inv mx (ReleaseConnection ip now cg) (l1 ++ l2).
Proof.
  intros [Hm He Ha]. unfold ReleaseConnection. destruct cg as [cfg cs tb tot rej act sl]. cbn in *.
  assert (forall ip', conns ip' (l1 ++ ip :: l2) =
    (if decide (ip' = ip) then 1 else 0) + conns ip' (l1 ++ l2)) as Hconns.
  { intros. by rewrite conns_middle, conns_cons. }
  assert (i64 (act + -1) = i64 (Z.of_nat (length (l1 ++ l2)))) as Hact.
  { rewrite Ha, swrap_add_l by lia. f_equal. rewrite !length_app. simpl. lia. }
  pose proof (He ip) as Hip. rewrite Hconns, decide_True in Hip by done.
  pose proof (conns_nonneg ip (l1 ++ l2)).
  destruct (cs !! ip) as [c|] eqn:Ec; cbn in *; [|lia]. destruct Hip as [Hc Hn].
  rewrite (swrap_small 64) by (unfold in_s; lia).
  destruct (Z.leb_spec (count c - 1) 0); split; cbn; try done; intros ip';
    destruct (decide (ip' = ip)) as [->|Hne];
    rewrite ?lookup_delete_eq, ?lookup_insert_eq, ?lookup_delete_ne, ?lookup_insert_ne by done;
    cbn; try lia; specialize (He ip'); by rewrite Hconns, decide_False in He by done.
Qed.

Lemma cg_inv_cleanup now cg opened :
  cg_inv mx cg opened -> cg_inv mx (ConnectionGuard_cleanup now cg) opened.
Proof.
  intros [Hm He Ha]. destruct cg as [cfg cs tb tot rej act sl]. split; try done. intros ip. cbn in *.
  specialize (He ip). rewrite map_lookup_filter. destruct (cs !! ip) as [c|]; cbn in *; [|done].
  case_guard; [done|]. exfalso. lia.
Qed.

Lemma cg_inv_step s s' : cg_step s s' -> cg_inv mx s.1 s.2 -> cg_inv mx s'.1 s'.2.
Proof.
  intros [ip t1 t2 t3 cg cg' opened Ha|ip t1 t2 t3 cg cg' opened Ha|ip now cg l1 l2|now cg opened] Hi;
    cbn [fst snd] in *.
  - by apply (cg_inv_Allow _ _ _ _ _ true _ _ Hi Ha).
  - by apply (cg_inv_Allow _ _ _ _ _ false _ _ Hi Ha).
  - by apply cg_inv_Release.
  - by apply cg_inv_cleanup.
Qed.
End guard.

(** C20: The guard refines the multiset of open connections: in every state reached by
    admissions, refusals, one release per open connection and cleanup ticks, the count
    it keeps for an IP is the number of open connections of that IP, that number never
    exceeds max(1, MaxConnectionsPerIP), and activeConnections is the number of open
    connections (as an int64). *)
Theorem ConnectionGuard_counts (config : ProtectionConfig) s :
  MaxConnectionsPerIP config < 2 ^ 63 ->
  rtc cg_step (NewConnectionGuard (Some config), []) s ->
  let '(cg, opened) := s in
  (forall ip, conns ip opened <= Z.max 1 (MaxConnectionsPerIP config)) /\
  (forall ip, default 0 (count <$> (connectionsPerIP cg !! ip)) = conns ip opened) /\
  cg_activeConnections cg = i64 (Z.of_nat (length opened)).
Proof.
  intros Hmx Hr. set (mx := MaxConnectionsPerIP config) in *.
  assert (cg_inv mx (NewConnectionGuard (Some config)) []) as Hi.
  { split; [done|by intros ip; cbn|done]. }
  change (cg_inv mx (NewConnectionGuard (Some config), @nil string).1
    (NewConnectionGuard (Some config), @nil string).2) in Hi.
  assert (cg_inv mx s.1 s.2) as [_ He Ha].
  { induction Hr as [|x y z Hxy Hyz IH]; [done|]. by eapply IH, cg_inv_step. }
  destruct s as [cg opened]. cbn in *. split_and!; [| |done]; intros ip; specialize (He ip);
    destruct (connectionsPerIP cg !! ip); cbn in *; lia.
Qed.

(** ** Cleaning the blocklist is not observable *)

Inductive bl_op :=
| BlBlock (ip : string) (d : duration) (now : time)
| BlPermanent (ip : string)
| BlUnblock (ip : string)
| BlCheck (ip : string) (now : time)
| BlCleanup (now : time).

(** The answers of a run. *)
Fixpoint bl_run (ops : list bl_op) (bl : IPBlocklist) : list bool :=
  match ops with
  | [] => []
  | BlBlock ip d now :: ops' => bl_run ops' (Block ip d now bl)
  | BlPermanent ip :: ops' => bl_run ops' (BlockPermanent ip bl)
  | BlUnblock ip :: ops' => bl_run ops' (Unblock ip bl)
  | BlCheck ip now :: ops' => let '(r, bl) := IsBlocked ip now bl in r :: bl_run ops' bl
  | BlCleanup now :: ops' => bl_run ops' (IPBlocklist_cleanup now bl)
  end.

(** The specification: for each IP the end of its last block, and the set of
    permanently blocked IPs; nothing is ever cleaned up. *)
Record bl_spec := mkBlSpec { until : gmap string time; forever : gset string }.
#[export] Instance eta_bl_spec : Eta bl_spec := fun b => mkBlSpec (until b) (forever b).

Fixpoint spec_run (ops : list bl_op) (s : bl_spec) : list bool :=
  match ops with
  | [] => []
  | BlBlock ip d now :: ops' => spec_run ops' (s <| until ::= <[ip := now + d]> |>)
  | BlPermanent ip :: ops' => spec_run ops' (s <| forever ::= union {[ip]} |>)
  | BlUnblock ip :: ops' =>
      spec_run ops' (s <| until ::= delete ip |> <| forever ::= (.∖ {[ip]}) |>)
  | BlCheck ip now :: ops' =>
      (bool_decide (ip ∈ forever s) ||
       match until s !! ip with Some e => now <? e | None => false end) :: spec_run ops' s
  | BlCleanup now :: ops' => spec_run ops' s
  end.

Definition bl_time (o : bl_op) : option time :=
  match o with
  | BlBlock _ _ t | BlCheck _ t | BlCleanup t => Some t
  | BlPermanent _ | BlUnblock _ => None
  end.

(** The list and its specification agree, except for entries past their end. *)
Record bl_sim (lst : time) (bl : IPBlocklist) (s : bl_spec) : Prop := {
  bls_permanent ip : permanent bl !! ip = if decide (ip ∈ forever s) then Some true else None;
  bls_blocked ip :
    blocked bl !! ip = until s !! ip \/
    (blocked bl !! ip = None /\ exists e, until s !! ip = Some e /\ e < lst)
}.

Lemma bl_sim_mono lst lst' bl s : lst <= lst' -> bl_sim lst bl s -> bl_sim lst' bl s.
Proof.
  intros Hle [Hp Hb]. split; [done|]. intros ip. destruct (Hb ip) as [?|(? & e & ? & ?)]; [by left|].
  right. split; [done|]. exists e. split; [done|lia].
Qed.

Lemma bl_sim_Block lst bl s ip d now :
  bl_sim lst bl s -> bl_sim lst (Block ip d now bl) (s <| until ::= <[ip := now + d]> |>).
Proof.
  intros [Hp Hb]. destruct bl, s. split; [done|]. intros ip'. specialize (Hb ip'). cbn in *.
  destruct (decide (ip = ip')) as [->|]; [left; by rewrite !lookup_insert_eq|].
  by rewrite !lookup_insert_ne.
Qed.

Lemma bl_sim_BlockPermanent lst bl s ip :
  bl_sim lst bl s -> bl_sim lst (BlockPermanent ip bl) (s <| forever ::= union {[ip]} |>).
Proof.
  intros [Hp Hb]. destruct bl, s. split; [|done]. intros ip'. specialize (Hp ip'). cbn in *.
  destruct (decide (ip = ip')) as [->|]; [by rewrite lookup_insert_eq, decide_True by set_solver|].
  rewrite lookup_insert_ne by done. rewrite Hp.
  destruct (decide (ip' ∈ forever0)); [rewrite decide_True by set_solver; done|].
  by rewrite decide_False by set_solver.
Qed.

Lemma bl_sim_Unblock lst bl s ip :
  bl_sim lst bl s ->
  bl_sim lst (Unblock ip bl) (s <| until ::= delete ip |> <| forever ::= (.∖ {[ip]}) |>).
Proof.
  intros [Hp Hb]. destruct s as [u f].
  assert (forall ip', blocked (Unblock ip bl) !! ip' = delete ip (blocked bl) !! ip') as Hbl.
  { intros ip'. unfold Unblock. destruct bl. cbn. destruct (blocked0 !! ip) eqn:E; cbn;
      case_match; cbn; try done; by rewrite delete_id. }
  assert (forall ip', permanent (Unblock ip bl) !! ip' = delete ip (permanent bl) !! ip') as Hpe.
  { intros ip'. unfold Unblock. destruct bl. cbn. destruct (blocked0 !! ip), (permanent0 !! ip) eqn:E; cbn;
      rewrite ?E; cbn; try done; by rewrite ?E, delete_id. }
  split; intros ip'; rewrite ?Hbl, ?Hpe; specialize (Hp ip'); specialize (Hb ip'); cbn in *.
  - destruct (decide (ip = ip')) as [->|].
    + by rewrite lookup_delete_eq, decide_False by set_solver.
    + rewrite lookup_delete_ne, Hp by done. destruct (decide (ip' ∈ f));
        [by rewrite decide_True by set_solver|by rewrite decide_False by set_solver].
  - destruct (decide (ip = ip')) as [->|]; [left; by rewrite !lookup_delete_eq|].
    by rewrite !lookup_delete_ne.
Qed.

Lemma bl_sim_cleanup lst bl s now :
  lst <= now -> bl_sim lst bl s -> bl_sim now (IPBlocklist_cleanup now bl) s.
Proof.
  intros Hle Hs. apply (bl_sim_mono _ now) in Hs as [Hp Hb]; [|done]. destruct bl. split; [done|].
  intros ip. specialize (Hb ip). cbn in *. rewrite map_lookup_filter.
  destruct Hb as [Heq|[-> ?]]; [|by right]. rewrite Heq.
  destruct (until s !! ip) as [e|]; cbn; [|by left]. case_guard as Hg; [by left|].
  right. split; [done|]. exists e. split; [done|]. lia.
Qed.

Lemma bl_sim_IsBlocked lst bl s ip now :
  lst <= now -> bl_sim lst bl s ->
  fst (IsBlocked ip now bl) =
    (bool_decide (ip ∈ forever s) ||
     match until s !! ip with Some e => now <? e | None => false end) /\
  bl_sim now (snd (IsBlocked ip now bl)) s.
Proof.
  intros Hle Hs. apply (bl_sim_mono _ now) in Hs; [|done]. pose proof Hs as [Hp Hb].
  specialize (Hp ip). specialize (Hb ip). unfold IsBlocked. rewrite Hp.
  assert (bl_sim now (bl <| blockedRequests ::= fun n => i64 (n + 1) |>) s) as Hs'.
  { destruct Hs. by destruct bl; split. }
  case_decide; [by rewrite bool_decide_true|]. rewrite bool_decide_false by done. cbn.
  destruct Hb as [->|[-> (e & -> & He)]].
  - destruct (until s !! ip) as [e|]; [destruct (Z.ltb_spec now e)|]; done.
  - cbn. split; [symmetry; by apply Z.ltb_ge; lia|done].
Qed.

Lemma bl_run_sim ops lst bl s :
  Forall (fun t => lst <= t) (omap bl_time ops) -> StronglySorted Z.le (omap bl_time ops) ->
  bl_sim lst bl s -> bl_run ops bl = spec_run ops s.
Proof.
  revert lst bl s. induction ops as [|o ops IH]; intros lst bl s Hl Hst Hs; [done|].
  destruct o as [ip d now|ip|ip|ip now|now]; cbn -[IsBlocked Block] in *;
    try (apply Forall_cons in Hl as [Hn Hl]; apply StronglySorted_inv in Hst as [Hst Hf]).
  - apply (IH lst); [done..|]. by apply bl_sim_Block.
  - apply (IH lst); [done..|]. by apply bl_sim_BlockPermanent.
  - apply (IH lst); [done..|]. by apply bl_sim_Unblock.
  - destruct (bl_sim_IsBlocked lst bl s ip now Hn Hs) as [Hr Hs'].
    destruct (IsBlocked ip now bl) as [r bl']. cbn in Hr, Hs'. rewrite Hr. f_equal. by apply (IH now).
  - apply (IH now); [done..|]. by apply (bl_sim_cleanup lst).
Qed.

(** C33: The blocklist with its cleanup goroutine answers every time-ordered run exactly
    like the specification that never cleans up: an IP is blocked if and only if it is
    permanently blocked or the current time is before the end of its last block, since
    it was last unblocked. *)
Theorem IPBlocklist_refines (ops : list bl_op) :
  StronglySorted Z.le (omap bl_time ops) ->
  bl_run ops NewIPBlocklist = spec_run ops (mkBlSpec ∅ ∅).
Proof.
  intros Hs. destruct (omap bl_time ops) as [|t ts] eqn:E.
  - apply (bl_run_sim ops 0); rewrite ?E; [constructor..|]. split; intros ip; [done|by left].
  - apply (bl_run_sim ops t); rewrite ?E; [|done|split; intros ip; [done|by left]].
    constructor; [lia|]. by apply StronglySorted_inv in Hs as [_ ?].
Qed.

(** ** Instances of the theorems *)

Definition cg_cfg : ProtectionConfig := mkProtectionConfig 2 (of_int 10) 0 0 0 0 0.

Lemma cg_first_admitted :
  fst (AllowConnection "10.0.0.9" 1 1 1 (NewConnectionGuard (Some cg_cfg))) = true.
Proof. vm_compute. reflexivity. Qed.

Lemma ConnectionGuard_counts_witness :
  default 0 (count <$> (connectionsPerIP
    (snd (AllowConnection "10.0.0.9" 1 1 1 (NewConnectionGuard (Some cg_cfg)))) !! "10.0.0.9")) = 1.
Proof.
  refine (proj1 (proj2 (ConnectionGuard_counts cg_cfg
    (snd (AllowConnection "10.0.0.9" 1 1 1 (NewConnectionGuard (Some cg_cfg))), ["10.0.0.9"]) _ _))
    "10.0.0.9").
  - unfold cg_cfg, MaxConnectionsPerIP. lia.
  - apply rtc_once. refine (cg_admit "10.0.0.9" 1 1 1 _ _ [] _).
    exact (pair_fst _ _ cg_first_admitted).
Defined.

Lemma IPBlocklist_refines_witness :
  bl_run [BlBlock "x" 10 0; BlCleanup 11; BlCheck "x" 12; BlPermanent "x"; BlCheck "x" 13] NewIPBlocklist
  = [false; true].
Proof.
  rewrite (IPBlocklist_refines
    [BlBlock "x" 10 0; BlCleanup 11; BlCheck "x" 12; BlPermanent "x"; BlCheck "x" 13]).
  - vm_compute. reflexivity.
  - cbn. repeat constructor; lia.
Defined.
