(* ===== verification/SecurityStats.v ===== *)
(** * What the security statistics report (src/pkg/security/protection.go, ratelimit.go)

    A run of a [SecurityManager]: connections that ask and are released, request sizes
    that are checked, addresses that are blocked, and the cleanup goroutines.  The theorem
    compares the map that [Stats] returns with what the callers were told. *)

From S2P Require Import Prelude GoFloat GoStd RateLimit Protection.

(** ** Runs *)

Inductive sm_op :=
| SmAllow (ip : string) (t0 : time) (clk : clock) (t1 t2 t3 : time)
| SmRelease (ip : string) (now : time)
| SmCheck (size : Z)
| SmBlock (ip : string) (d : duration) (now : time)
| SmGuardCleanup (now : time)
| SmRateCleanup (now : time)
| SmListCleanup (now : time).

(** What the caller of an operation learns. *)
Inductive sm_event := EvBlocked | EvLimited | EvRefused | EvAdmitted | EvReleased | EvSize (ok : bool) | EvBlock | EvNone.
#[export] Instance sm_event_eq_dec : EqDecision sm_event.
Proof. solve_decision. Defined.

(** The answers of [AllowConnection] by their reason. *)
Definition conn_event (ok : bool) (why : string) : sm_event :=
  if ok then EvAdmitted
  else if bool_decide (why = "IP is blocked") then EvBlocked
  else if bool_decide (why = "Rate limit exceeded") then EvLimited
  else EvRefused.

Definition sm_step (op : sm_op) (sm : SecurityManager) : sm_event * SecurityManager :=
  match op with
  | SmAllow ip t0 clk t1 t2 t3 =>
      let '(ok, why, sm) := SM_AllowConnection ip t0 clk t1 t2 t3 sm in (conn_event ok why, sm)
  | SmRelease ip now => (EvReleased, SM_ReleaseConnection ip now sm)
  | SmCheck size => let '(ok, sm) := SM_CheckRequestSize size sm in (EvSize ok, sm)
  | SmBlock ip d now => (EvBlock, BlockIP ip d now sm)
  | SmGuardCleanup now => (EvNone, sm <| connectionGuard ::= ConnectionGuard_cleanup now |>)
  | SmRateCleanup now =>
      (EvNone, sm <| connectionGuard ::= fun g => g <| connectionRateLimiter ::= TokenBucket_cleanup now |> |>)
  | SmListCleanup now => (EvNone, sm <| blocklist ::= IPBlocklist_cleanup now |>)
  end.

Fixpoint sm_run (ops : list sm_op) (sm : SecurityManager) : list sm_event * SecurityManager :=
  match ops with
  | [] => ([], sm)
  | op :: ops =>
      let '(e, sm) := sm_step op sm in
      let '(es, sm) := sm_run ops sm in (e :: es, sm)
  end.

(** ** Reading a statistic *)

Fixpoint find_stat (k : string) (m : list (string * stat)) : option stat :=
  match m with
  | [] => None
  | (k', v) :: m => if decide (k = k') then Some v else find_stat k m
  end.

Fixpoint stat_at (path : list string) (s : stat) : option stat :=
  match path, s with
  | [], _ => Some s
  | k :: path, SMap m => match find_stat k m with Some s => stat_at path s | None => None end
  | _, _ => None
  end.

(** ** Counting *)

Definition num (e : sm_event) (es : list sm_event) : Z := Z.of_nat (length (filter (eq e) es)).

Lemma num_cons e e' es : num e (e' :: es) = (if decide (e = e') then 1 else 0) + num e es.
Proof. unfold num. rewrite filter_cons. case_decide; cbn; lia. Qed.

Definition counters (sm : SecurityManager) : list Z :=
  let g := connectionGuard sm in let r := requestSizeGuard sm in let b := blocklist sm in
  [totalConnections g; rejectedConnections g; cg_activeConnections g; slowlorisDetections g;
   rs_totalRequests r; rejectedRequests r; totalBlocks b; blockedRequests b].

Definition tally (es : list sm_event) : list Z :=
  [num EvAdmitted es + num EvRefused es; num EvRefused es; num EvAdmitted es - num EvReleased es; 0;
   num (EvSize true) es + num (EvSize false) es; num (EvSize false) es; num EvBlock es; num EvBlocked es].

Definition advance (cs ds : list Z) : list Z := zip_with (fun c d => i64 (c + d)) cs ds.

Lemma i64_keep c : in_s 64 c -> i64 (c + 0) = c.
Proof. unfold in_s. intros. rewrite Z.add_0_r. apply i64_small. lia. Qed.

Lemma advance_range cs ds : Forall (in_s 64) (advance cs ds).
Proof. apply Forall_zip_with_fst with (P := fun _ => True); [by apply Forall_true|]. apply Forall_true. intros. by apply swrap_range. Qed.

Lemma advance_advance cs ds ds' : advance (advance cs ds) ds' = advance cs (zip_with Z.add ds ds').
Proof.
  unfold advance. revert ds ds'. induction cs as [|c cs IH]; intros [|d ds] [|d' ds']; cbn; try done.
  f_equal; [|done]. rewrite swrap_add_l by lia. f_equal. lia.
Qed.

Lemma num_nil e : num e [] = 0.
Proof. done. Qed.

Lemma tally_cons e es : tally (e :: es) = zip_with Z.add (tally [e]) (tally es).
Proof.
  unfold tally. rewrite !num_cons, !num_nil. cbn [zip_with].
  repeat match goal with |- _ :: _ = _ :: _ => f_equal end; lia.
Qed.

(** One operation moves the counters by what its caller is told. *)
Lemma AllowConnection_counters ip t1 t2 t3 g :
  let '(ok, g') := AllowConnection ip t1 t2 t3 g in
  totalConnections g' = i64 (totalConnections g + 1) /\
  rejectedConnections g' = (if ok then rejectedConnections g else i64 (rejectedConnections g + 1)) /\
  cg_activeConnections g' = (if ok then i64 (cg_activeConnections g + 1) else cg_activeConnections g) /\
  slowlorisDetections g' = slowlorisDetections g.
Proof.
  unfold AllowConnection. destruct g as [c m tb a b d e]. cbn.
  destruct (TokenBucket_Allow _ _ _ _) as [[] tb']; cbn; [|done].
  destruct (m !! ip) as [n|]; cbn; [destruct (_ <=? _)|]; done.
Qed.

Ltac keep_counters :=
  repeat match goal with
  | H : Forall _ (_ :: _) |- _ => apply Forall_cons in H as [? H]
  | |- _ :: _ = _ :: _ => f_equal
  end; rewrite ?i64_keep by done; done.

Lemma Allow_counters ip t0 clk t1 t2 t3 sm :
  Forall (in_s 64) (counters sm) ->
  let '(ok, why, sm') := SM_AllowConnection ip t0 clk t1 t2 t3 sm in
  counters sm' = advance (counters sm) (tally [conn_event ok why]).
Proof.
  intros H. unfold SM_AllowConnection, IsBlocked. destruct sm as [g r l [bm pm tot act br]].
  set (blk := if default false _ then _ else _).
  assert (exists x, blk = (true, mkIPBlocklist bm pm tot act (i64 (br + 1))) \/
    blk = (false, mkIPBlocklist bm pm tot act br) /\ x = tt) as [_ [Hb|[Hb _]]].
  { exists tt. subst blk. cbn. destruct (default false _); [by left|].
    destruct (bm !! ip) as [e|]; [destruct (t0 <? e)|]; auto. }
  { cbn in *. rewrite Hb. cbn. unfold counters, advance, tally in *; cbn in *. keep_counters. }
  cbn in *. rewrite Hb. cbn.
  set (lim := match l with Some _ => _ | None => _ end).
  assert (exists ok l', lim = (ok, mkSecurityManager g r l' (mkIPBlocklist bm pm tot act br))) as (ok & l' & Hl).
  { subst lim. destruct l as [l|]; cbn; [|by eexists _, _]. destruct (any_Allow ip clk l). by eexists _, _. }
  rewrite Hl. destruct ok; cbn.
  2: { unfold counters, advance, tally in *; cbn in *. keep_counters. }
  pose proof (AllowConnection_counters ip t1 t2 t3 g) as Hg.
  destruct (AllowConnection ip t1 t2 t3 g) as [ok g']. destruct Hg as (E1 & E2 & E3 & E4).
  unfold counters, advance, tally in *; destruct ok; cbn in *; rewrite E1, E2, E3, E4; keep_counters.
Qed.

Lemma step_counters op sm :
  Forall (in_s 64) (counters sm) ->
  counters (snd (sm_step op sm)) = advance (counters sm) (tally [fst (sm_step op sm)]).
Proof.
  intros H. destruct op as [ip t0 clk t1 t2 t3|ip now|size|ip d now|now|now|now]; cbn [sm_step fst snd].
  - pose proof (Allow_counters ip t0 clk t1 t2 t3 sm H) as Ha.
    by destruct (SM_AllowConnection _ _ _ _ _ _ _) as [[ok why] sm'].
  - unfold SM_ReleaseConnection, ReleaseConnection. destruct sm as [[c m tb a b d e] r l bl].
    unfold counters, advance, tally in *; cbn in *. destruct (m !! ip); cbn; [destruct (_ <=? 0)|]; cbn; keep_counters.
  - unfold SM_CheckRequestSize, CheckRequestSize. destruct sm as [g [mr mh tr rj] l bl]. cbn.
    destruct (mr <? size); unfold counters, advance, tally in *; cbn in *; keep_counters.
  - destruct sm as [g r l [bm pm tot act br]]. unfold counters, advance, tally in *; cbn in *. keep_counters.
  - destruct sm as [[c m tb a b d e] r l bl]. unfold counters, advance, tally in *; cbn in *. keep_counters.
  - destruct sm as [[c m tb a b d e] r l bl]. unfold counters, advance, tally in *; cbn in *. keep_counters.
  - destruct sm as [g r l [bm pm tot act br]]. unfold counters, advance, tally in *; cbn in *. keep_counters.
Qed.

Lemma run_counters ops sm :
  Forall (in_s 64) (counters sm) ->
  counters (snd (sm_run ops sm)) = advance (counters sm) (tally (fst (sm_run ops sm))).
Proof.
  revert sm. induction ops as [|op ops IH]; intros sm H; cbn.
  - unfold counters, advance, tally in *. cbn in *. keep_counters.
  - pose proof (step_counters op sm H) as Hs. destruct (sm_step op sm) as [e sm1]. cbn [fst snd] in Hs.
    assert (Forall (in_s 64) (counters sm1)) as H1 by (rewrite Hs; apply advance_range).
    specialize (IH sm1 H1). destruct (sm_run ops sm1) as [es sm2]. cbn [fst snd] in *.
    by rewrite IH, Hs, advance_advance, <-tally_cons.
Qed.

(** ** The limiter of the manager *)

Definition token_limiter (tb : TokenBucket) : AnyLimiter := mkAny TokenBucket _ _ tb.

Definition tb_counters (tb : TokenBucket) : list Z := [tb_totalRequests tb; tb_allowedCount tb; tb_blockedCount tb].

Definition tb_tally (es : list sm_event) : list Z :=
  [num EvLimited es + num EvRefused es + num EvAdmitted es; num EvRefused es + num EvAdmitted es; num EvLimited es].

Lemma tb_tally_cons e es : tb_tally (e :: es) = zip_with Z.add (tb_tally [e]) (tb_tally es).
Proof.
  unfold tb_tally. rewrite !num_cons, !num_nil. cbn [zip_with].
  repeat match goal with |- _ :: _ = _ :: _ => f_equal end; lia.
Qed.

Lemma TokenBucket_counters k t1 t2 tb :
  let '(ok, tb') := TokenBucket_Allow k t1 t2 tb in
  tb_totalRequests tb' = i64 (tb_totalRequests tb + 1) /\
  tb_allowedCount tb' = (if ok then i64 (tb_allowedCount tb + 1) else tb_allowedCount tb) /\
  tb_blockedCount tb' = (if ok then tb_blockedCount tb else i64 (tb_blockedCount tb + 1)).
Proof. unfold TokenBucket_Allow. destruct tb. cbn. by destruct (take _ _ _ _) as [[] b]. Qed.

Lemma step_limiter op sm tb :
  rateLimiter sm = Some (token_limiter tb) -> Forall (in_s 64) (tb_counters tb) ->
  exists tb', rateLimiter (snd (sm_step op sm)) = Some (token_limiter tb') /\
    tb_counters tb' = advance (tb_counters tb) (tb_tally [fst (sm_step op sm)]).
Proof.
  intros Hl H. destruct sm as [g r l bl]. cbn in Hl. subst l.
  assert (forall e, e ∉ [EvLimited; EvRefused; EvAdmitted] -> tb_counters tb = advance (tb_counters tb) (tb_tally [e])) as Hnone.
  { intros e He. unfold tb_counters, advance, tb_tally in *. rewrite !num_cons, !num_nil, !decide_False by set_solver.
    cbn in *. keep_counters. }
  destruct op as [ip t0 clk t1 t2 t3|ip now|size|ip d now|now|now|now]; cbn [sm_step fst snd].
  - unfold SM_AllowConnection. cbn. destruct (IsBlocked ip t0 bl) as [[] bl']; cbn; [exists tb; split; [done|]; by apply Hnone; set_solver|].
    unfold any_Allow. cbn. pose proof (TokenBucket_counters ip (clk [0%nat]) (clk [1%nat]) tb) as Ht.
    destruct (TokenBucket_Allow _ _ _ tb) as [ok tb']. destruct Ht as (E1 & E2 & E3).
    destruct ok; cbn.
    + destruct (AllowConnection _ _ _ _ _) as [[] g']; cbn; exists tb'; (split; [done|]);
        unfold tb_counters, advance, tb_tally in *; cbn in *; rewrite E1, E2, E3; keep_counters.
    + exists tb'. split; [done|]. unfold tb_counters, advance, tb_tally in *. cbn in *. rewrite E1, E2, E3. keep_counters.
  - exists tb. split; [done|]. apply Hnone. set_solver.
  - unfold SM_CheckRequestSize. cbn. destruct (CheckRequestSize size r) as [ok r']. exists tb. split; [done|]. apply Hnone. set_solver.
  - exists tb. split; [done|]. apply Hnone. set_solver.
  - exists tb. split; [done|]. apply Hnone. set_solver.
  - exists tb. split; [done|]. apply Hnone. set_solver.
  - exists tb. split; [done|]. apply Hnone. set_solver.
Qed.

Lemma run_limiter ops sm tb :
  rateLimiter sm = Some (token_limiter tb) -> Forall (in_s 64) (tb_counters tb) ->
  exists tb', rateLimiter (snd (sm_run ops sm)) = Some (token_limiter tb') /\
    tb_counters tb' = advance (tb_counters tb) (tb_tally (fst (sm_run ops sm))).
Proof.
  revert sm tb. induction ops as [|op ops IH]; intros sm tb Hl H; cbn.
  - exists tb. split; [done|]. unfold tb_counters, advance, tb_tally in *. cbn in *. keep_counters.
  - destruct (step_limiter op sm tb Hl H) as (tb1 & Hl1 & E1). destruct (sm_step op sm) as [e sm1].
    cbn [fst snd] in *. assert (Forall (in_s 64) (tb_counters tb1)) as H1 by (rewrite E1; apply advance_range).
    destruct (IH sm1 tb1 Hl1 H1) as (tb2 & Hl2 & E2). destruct (sm_run ops sm1) as [es sm2]. cbn [fst snd] in *.
    exists tb2. split; [done|]. by rewrite E2, E1, advance_advance, <-tb_tally_cons.
Qed.

(** The number that [Stats] reports under a path. *)
Definition reports (sm : SecurityManager) (path : list string) (n : Z) : Prop :=
  stat_at path (SM_Stats sm) = Some (SInt n).

(** After any sequence of connection requests, releases, size checks, blocks and
    cleanups of a SecurityManager with a token bucket, its Stats map reports exactly the
    numbers of the answers the callers got (blocked, rate-limited, refused, admitted,
    released, oversized), modulo 2^64. *)
Theorem SecurityManager_stats (ops : list sm_op) (config : option ProtectionConfig) (r : f64) (cap : Z) :
  let '(es, sm) := sm_run ops (NewSecurityManager config (Some (token_limiter (NewTokenBucket r cap)))) in
  reports sm ["blocklist"; "blocked_requests"] (i64 (num EvBlocked es)) /\
  reports sm ["blocklist"; "total_blocks"] (i64 (num EvBlock es)) /\
  reports sm ["rate_limiter"; "total_requests"] (i64 (num EvLimited es + num EvRefused es + num EvAdmitted es)) /\
  reports sm ["rate_limiter"; "allowed"] (i64 (num EvRefused es + num EvAdmitted es)) /\
  reports sm ["rate_limiter"; "blocked"] (i64 (num EvLimited es)) /\
  reports sm ["connection_guard"; "total_connections"] (i64 (num EvAdmitted es + num EvRefused es)) /\
  reports sm ["connection_guard"; "rejected_connections"] (i64 (num EvRefused es)) /\
  reports sm ["connection_guard"; "active_connections"] (i64 (num EvAdmitted es - num EvReleased es)) /\
  reports sm ["connection_guard"; "slowloris_detections"] 0 /\
  reports sm ["request_size_guard"; "total_requests"] (i64 (num (EvSize true) es + num (EvSize false) es)) /\
  reports sm ["request_size_guard"; "rejected_requests"] (i64 (num (EvSize false) es)).
Proof.
  set (tb := NewTokenBucket r cap). set (sm0 := NewSecurityManager config (Some (token_limiter tb))).
  pose proof (run_counters ops sm0 ltac:(repeat constructor; done)) as Hc.
  destruct (run_limiter ops sm0 tb eq_refl ltac:(repeat constructor; done)) as (tb' & Hl & Ht).
  destruct (sm_run ops sm0) as [es [g rg l bl]]. cbn [fst snd] in *.
  unfold counters, tb_counters, advance, tally, tb_tally in *. cbn in *. simplify_eq/=.
  destruct g, rg, bl, tb'. cbn in *. subst. rewrite ?Z.add_0_l. unfold reports. by split_and!.
Qed.

(** The names under which a combined limiter reports its members do not collide. *)
Theorem Combined_Stats_lookup (c : CombinedRateLimiter) (i : nat) (l : AnyLimiter) :
  limiters c !! i = Some l -> stat_at [limiter_key i] (Combined_Stats c) = Some (any_Stats l).
Proof.
  unfold Combined_Stats, stat_at. generalize (limiters c) as ls. intros ls.
  assert (forall k, ls !! i = Some l ->
    find_stat (limiter_key (k + i)) (imap (fun i l => (limiter_key (k + i), any_Stats l)) ls) = Some (any_Stats l)) as Hk.
  { revert i. induction ls as [|l0 ls IH]; intros i k; [done|]. destruct i as [|i]; cbn.
    - intros [= ->]. by rewrite decide_True.
    - intros Hi. rewrite decide_False.
      + rewrite (imap_ext _ (fun i l => (limiter_key (S k + i), any_Stats l))).
        * rewrite Nat.add_succ_r, <-Nat.add_succ_l. by apply IH.
        * intros j x _. cbn. by rewrite Nat.add_succ_r.
      + unfold limiter_key. intros Heq. apply (inj (String.append "limiter_")), itoa_inj in Heq. lia. }
  intros Hi. pose proof (Hk 0%nat Hi) as H0. cbn [Nat.add] in H0. by rewrite H0.
Qed.

Lemma Combined_Stats_lookup_witness :
  stat_at ["limiter_1"] (Combined_Stats (mkCombined
    [token_limiter (NewTokenBucket (of_int 1) 1); token_limiter (NewTokenBucket (of_int 2) 7)])) =
  Some (any_Stats (token_limiter (NewTokenBucket (of_int 2) 7))).
Proof.
  exact (Combined_Stats_lookup (mkCombined
    [token_limiter (NewTokenBucket (of_int 1) 1); token_limiter (NewTokenBucket (of_int 2) 7)]) 1 _ eq_refl).
Defined.

Example manager_reports :
  let tb := token_limiter (NewTokenBucket (of_int 1) 1) in
  let '(es, sm) := sm_run [SmAllow "a" 0 (fun _ => 0) 0 0 0; SmAllow "a" 0 (fun _ => 0) 0 0 0; SmBlock "a" 5 0;
    SmAllow "a" 1 (fun _ => 0) 0 0 0; SmRelease "a" 2] (NewSecurityManager None (Some tb)) in
  es = [EvAdmitted; EvLimited; EvBlock; EvBlocked; EvReleased] /\
  reports sm ["rate_limiter"; "total_requests"] 2 /\ reports sm ["connection_guard"; "active_connections"] 0.
Proof. vm_compute. done. Qed.
