(* ===== verification/Config.v ===== *)
(** * Configuration (src/pkg/config/config.go)

    The configuration tree, its defaults and its validation.  A pointer field is
    an [option]; reading the file and decoding YAML are parameters of [Load]. *)

From S2P Require Import Prelude GoFloat.

(** ** The configuration tree *)

Record BackendConfig := mkBackendConfig {
  b_Name : string;
  b_Address : string;
  b_Weight : Z;
  b_MaxConnections : Z
}.
#[export] Instance eta_BackendConfig : Eta BackendConfig := fun x =>
  mkBackendConfig (b_Name x) (b_Address x) (b_Weight x) (b_MaxConnections x).

Record LoadBalancerConfig := mkLoadBalancerConfig {
  lb_Algorithm : string;
  lb_HashKey : string
}.
#[export] Instance eta_LoadBalancerConfig : Eta LoadBalancerConfig := fun x =>
  mkLoadBalancerConfig (lb_Algorithm x) (lb_HashKey x).

Record Route := mkRoute {
  r_Name : string;
  r_Host : string;
  r_PathPrefix : string;
  r_Headers : gmap string string;
  r_Backends : list string;
  r_Priority : Z
}.
#[export] Instance eta_Route : Eta Route := fun x =>
  mkRoute (r_Name x) (r_Host x) (r_PathPrefix x) (r_Headers x) (r_Backends x) (r_Priority
    x).

Record HTTPConfig := mkHTTPConfig {
  http_Routes : list Route;
  http_EnableWebSocket : bool;
  http_EnableHTTP2 : bool;
  http_MaxIdleConnsPerHost : Z;
  http_IdleConnTimeout : duration
}.
#[export] Instance eta_HTTPConfig : Eta HTTPConfig := fun x =>
  mkHTTPConfig (http_Routes x) (http_EnableWebSocket x) (http_EnableHTTP2 x)
    (http_MaxIdleConnsPerHost x) (http_IdleConnTimeout x).

Record CertificateConfig := mkCertificateConfig {
  cert_CertFile : string;
  cert_KeyFile : string;
  cert_Domains : list string;
  cert_Default : bool
}.
#[export] Instance eta_CertificateConfig : Eta CertificateConfig := fun x =>
  mkCertificateConfig (cert_CertFile x) (cert_KeyFile x) (cert_Domains x) (cert_Default x).

Record BackendTLSConfig := mkBackendTLSConfig {
  btls_Enabled : bool;
  btls_InsecureSkipVerify : bool;
  btls_CAFile : string;
  btls_ClientCertFile : string;
  btls_ClientKeyFile : string
}.
#[export] Instance eta_BackendTLSConfig : Eta BackendTLSConfig := fun x =>
  mkBackendTLSConfig (btls_Enabled x) (btls_InsecureSkipVerify x) (btls_CAFile x)
    (btls_ClientCertFile x) (btls_ClientKeyFile x).

Record SNIConfig := mkSNIConfig {
  sni_Routes : gmap string (list string)
}.
#[export] Instance eta_SNIConfig : Eta SNIConfig := fun x =>
  mkSNIConfig (sni_Routes x).

Record TLSConfig := mkTLSConfig {
  tls_Enabled : bool;
  tls_Certificates : list CertificateConfig;
  tls_CertFile : string;
  tls_KeyFile : string;
  tls_MinVersion : string;
  tls_MaxVersion : string;
  tls_CipherSuites : list string;
  tls_PreferServerCipherSuites : bool;
  tls_SessionTicketsDisabled : bool;
  tls_ClientAuth : string;
  tls_ClientCAFile : string;
  tls_ALPNProtocols : list string;
  tls_Backend : option BackendTLSConfig;
  tls_SNI : option SNIConfig
}.
#[export] Instance eta_TLSConfig : Eta TLSConfig := fun x =>
  mkTLSConfig (tls_Enabled x) (tls_Certificates x) (tls_CertFile x) (tls_KeyFile x)
    (tls_MinVersion x) (tls_MaxVersion x) (tls_CipherSuites x)
    (tls_PreferServerCipherSuites x) (tls_SessionTicketsDisabled x) (tls_ClientAuth x)
    (tls_ClientCAFile x) (tls_ALPNProtocols x) (tls_Backend x) (tls_SNI x).

Record PassiveHealthCheckConfig := mkPassiveHealthCheckConfig {
  ph_Enabled : bool;
  ph_ErrorRateThreshold : f64;
  ph_ConsecutiveFailures : Z;
  ph_Window : duration
}.
#[export] Instance eta_PassiveHealthCheckConfig : Eta PassiveHealthCheckConfig := fun x =>
  mkPassiveHealthCheckConfig (ph_Enabled x) (ph_ErrorRateThreshold x)
    (ph_ConsecutiveFailures x) (ph_Window x).

Record HealthCheckConfig := mkHealthCheckConfig {
  hc_Enabled : bool;
  hc_Interval : duration;
  hc_Timeout : duration;
  hc_UnhealthyThreshold : Z;
  hc_HealthyThreshold : Z;
  hc_Type : string;
  hc_Path : string;
  hc_PassiveChecks : option PassiveHealthCheckConfig
}.
#[export] Instance eta_HealthCheckConfig : Eta HealthCheckConfig := fun x =>
  mkHealthCheckConfig (hc_Enabled x) (hc_Interval x) (hc_Timeout x) (hc_UnhealthyThreshold
    x) (hc_HealthyThreshold x) (hc_Type x) (hc_Path x) (hc_PassiveChecks x).

Record CircuitBreakerConfig := mkCircuitBreakerConfig {
  cbc_Enabled : bool;
  cbc_MaxFailures : Z;
  cbc_Timeout : duration;
  cbc_MaxConcurrentRequests : Z
}.
#[export] Instance eta_CircuitBreakerConfig : Eta CircuitBreakerConfig := fun x =>
  mkCircuitBreakerConfig (cbc_Enabled x) (cbc_MaxFailures x) (cbc_Timeout x)
    (cbc_MaxConcurrentRequests x).

Record RetryConfig := mkRetryConfig {
  rt_Enabled : bool;
  rt_MaxAttempts : Z;
  rt_InitialDelay : duration;
  rt_MaxDelay : duration;
  rt_Multiplier : f64;
  rt_Jitter : f64
}.
#[export] Instance eta_RetryConfig : Eta RetryConfig := fun x =>
  mkRetryConfig (rt_Enabled x) (rt_MaxAttempts x) (rt_InitialDelay x) (rt_MaxDelay x)
    (rt_Multiplier x) (rt_Jitter x).

Record ResilienceConfig := mkResilienceConfig {
  res_CircuitBreaker : option CircuitBreakerConfig;
  res_Retry : option RetryConfig
}.
#[export] Instance eta_ResilienceConfig : Eta ResilienceConfig := fun x =>
  mkResilienceConfig (res_CircuitBreaker x) (res_Retry x).

Record TimeoutConfig := mkTimeoutConfig {
  to_Connect : duration;
  to_Read : duration;
  to_Write : duration;
  to_Idle : duration
}.
#[export] Instance eta_TimeoutConfig : Eta TimeoutConfig := fun x =>
  mkTimeoutConfig (to_Connect x) (to_Read x) (to_Write x) (to_Idle x).

Record MetricsConfig := mkMetricsConfig {
  met_Enabled : bool;
  met_Listen : string;
  met_Path : string
}.
#[export] Instance eta_MetricsConfig : Eta MetricsConfig := fun x =>
  mkMetricsConfig (met_Enabled x) (met_Listen x) (met_Path x).

Record RateLimitConfig := mkRateLimitConfig {
  rl_Enabled : bool;
  rl_Type : string;
  rl_RequestsPerSecond : f64;
  rl_BurstSize : Z;
  rl_WindowSize : string;
  rl_MaxRequests : Z
}.
#[export] Instance eta_RateLimitConfig : Eta RateLimitConfig := fun x =>
  mkRateLimitConfig (rl_Enabled x) (rl_Type x) (rl_RequestsPerSecond x) (rl_BurstSize x)
    (rl_WindowSize x) (rl_MaxRequests x).

Record ConnectionProtectionConfig := mkConnectionProtectionConfig {
  cp_MaxConnectionsPerIP : Z;
  cp_MaxConnectionRate : f64;
  cp_ReadTimeout : string;
  cp_MaxRequestSize : Z;
  cp_MaxHeaderSize : Z
}.
#[export] Instance eta_ConnectionProtectionConfig : Eta ConnectionProtectionConfig := fun x =>
  mkConnectionProtectionConfig (cp_MaxConnectionsPerIP x) (cp_MaxConnectionRate x)
    (cp_ReadTimeout x) (cp_MaxRequestSize x) (cp_MaxHeaderSize x).

Record IPBlocklistConfig := mkIPBlocklistConfig {
  bl_BlockedIPs : list string;
  bl_BlockedCIDRs : list string
}.
#[export] Instance eta_IPBlocklistConfig : Eta IPBlocklistConfig := fun x =>
  mkIPBlocklistConfig (bl_BlockedIPs x) (bl_BlockedCIDRs x).

Record SecurityConfig := mkSecurityConfig {
  sec_RateLimit : option RateLimitConfig;
  sec_ConnectionProtection : option ConnectionProtectionConfig;
  sec_IPBlocklist : option IPBlocklistConfig
}.
#[export] Instance eta_SecurityConfig : Eta SecurityConfig := fun x =>
  mkSecurityConfig (sec_RateLimit x) (sec_ConnectionProtection x) (sec_IPBlocklist x).

Record ConnectionPoolConfig := mkConnectionPoolConfig {
  pool_Enabled : bool;
  pool_MaxSize : Z;
  pool_MaxIdleTime : duration
}.
#[export] Instance eta_ConnectionPoolConfig : Eta ConnectionPoolConfig := fun x =>
  mkConnectionPoolConfig (pool_Enabled x) (pool_MaxSize x) (pool_MaxIdleTime x).

Record HeaderTransform := mkHeaderTransform {
  ht_Action : string;
  ht_Name : string;
  ht_Value : string
}.
#[export] Instance eta_HeaderTransform : Eta HeaderTransform := fun x =>
  mkHeaderTransform (ht_Action x) (ht_Name x) (ht_Value x).

Record TransformConfig := mkTransformConfig {
  tr_RequestHeaders : list HeaderTransform;
  tr_ResponseHeaders : list HeaderTransform;
  tr_StripPrefix : string;
  tr_AddPrefix : string
}.
#[export] Instance eta_TransformConfig : Eta TransformConfig := fun x =>
  mkTransformConfig (tr_RequestHeaders x) (tr_ResponseHeaders x) (tr_StripPrefix x)
    (tr_AddPrefix x).

Record TracingConfig := mkTracingConfig {
  trace_Enabled : bool;
  trace_ServiceName : string;
  trace_Endpoint : string;
  trace_SampleRate : f64
}.
#[export] Instance eta_TracingConfig : Eta TracingConfig := fun x =>
  mkTracingConfig (trace_Enabled x) (trace_ServiceName x) (trace_Endpoint x)
    (trace_SampleRate x).

Record LoggingConfig := mkLoggingConfig {
  log_Level : string;
  log_Format : string;
  log_AddCaller : bool;
  log_AccessLog : bool
}.
#[export] Instance eta_LoggingConfig : Eta LoggingConfig := fun x =>
  mkLoggingConfig (log_Level x) (log_Format x) (log_AddCaller x) (log_AccessLog x).

Record Config := mkConfig {
  c_Mode : string;
  c_Listen : string;
  c_Backends : list BackendConfig;
  c_LoadBalancer : LoadBalancerConfig;
  c_HTTP : option HTTPConfig;
  c_TLS : option TLSConfig;
  c_HealthCheck : option HealthCheckConfig;
  c_Resilience : option ResilienceConfig;
  c_Timeouts : TimeoutConfig;
  c_Metrics : MetricsConfig;
  c_Security : option SecurityConfig;
  c_ConnectionPool : option ConnectionPoolConfig;
  c_Transform : option TransformConfig;
  c_Tracing : option TracingConfig;
  c_Logging : option LoggingConfig
}.
#[export] Instance eta_Config : Eta Config := fun x =>
  mkConfig (c_Mode x) (c_Listen x) (c_Backends x) (c_LoadBalancer x) (c_HTTP x) (c_TLS x)
    (c_HealthCheck x) (c_Resilience x) (c_Timeouts x) (c_Metrics x) (c_Security x)
    (c_ConnectionPool x) (c_Transform x) (c_Tracing x) (c_Logging x).

(** ** Defaults

    A field is set when it has its zero value. *)

Definition or_int (v d : Z) : Z := if v =? 0 then d else v.
Definition or_string (v d : string) : string := if bool_decide (v = "") then d else v.
Definition or_float (v d : f64) : f64 := if feqb v (Fin 0) then d else v.

Definition default_weight (b : BackendConfig) : BackendConfig :=
  b <| b_Weight ::= fun w => or_int w 1 |>.

Definition default_timeouts (t : TimeoutConfig) : TimeoutConfig :=
  t <| to_Connect ::= fun d => or_int d (5 * Second) |>
    <| to_Read ::= fun d => or_int d (30 * Second) |>
    <| to_Write ::= fun d => or_int d (30 * Second) |>
    <| to_Idle ::= fun d => or_int d (60 * Second) |>.

Definition default_passive (p : PassiveHealthCheckConfig) : PassiveHealthCheckConfig :=
  if ph_Enabled p then
    p <| ph_ErrorRateThreshold ::= fun x => or_float x (of_ratio 1 2) |>
      <| ph_ConsecutiveFailures ::= fun n => or_int n 5 |>
      <| ph_Window ::= fun d => or_int d (1 * Minute) |>
  else p.

Definition default_health (h : HealthCheckConfig) : HealthCheckConfig :=
  if hc_Enabled h then
    h <| hc_Interval ::= fun d => or_int d (10 * Second) |>
      <| hc_Timeout ::= fun d => or_int d (3 * Second) |>
      <| hc_UnhealthyThreshold ::= fun n => or_int n 3 |>
      <| hc_HealthyThreshold ::= fun n => or_int n 2 |>
      <| hc_Type ::= fun s => or_string s "tcp" |>
      <| hc_PassiveChecks ::= fmap default_passive |>
  else h.

Definition default_breaker (b : CircuitBreakerConfig) : CircuitBreakerConfig :=
  if cbc_Enabled b then
    b <| cbc_MaxFailures ::= fun n => or_int n 5 |>
      <| cbc_Timeout ::= fun d => or_int d (60 * Second) |>
      <| cbc_MaxConcurrentRequests ::= fun n => or_int n 1 |>
  else b.

Definition default_retry (r : RetryConfig) : RetryConfig :=
  if rt_Enabled r then
    r <| rt_MaxAttempts ::= fun n => or_int n 3 |>
      <| rt_InitialDelay ::= fun d => or_int d (100 * Millisecond) |>
      <| rt_MaxDelay ::= fun d => or_int d (10 * Second) |>
      <| rt_Multiplier ::= fun x => or_float x (of_int 2) |>
      <| rt_Jitter ::= fun x => or_float x (of_ratio 1 10) |>
  else r.

Definition default_resilience (r : ResilienceConfig) : ResilienceConfig :=
  r <| res_CircuitBreaker ::= fmap default_breaker |> <| res_Retry ::= fmap default_retry |>.

Definition default_metrics (m : MetricsConfig) : MetricsConfig :=
  if met_Enabled m && bool_decide (met_Path m = "") then m <| met_Path := "/metrics" |> else m.

Definition default_http (mode : string) (h : option HTTPConfig) : option HTTPConfig :=
  let h := match h with
           | None => if bool_decide (mode = "http")
                     then Some (mkHTTPConfig [] true true 100 (90 * Second)) else None
           | Some _ => h
           end in
  (fun h => h <| http_MaxIdleConnsPerHost ::= fun n => or_int n 100 |>
              <| http_IdleConnTimeout ::= fun d => or_int d (90 * Second) |>) <$> h.

Definition default_pool (p : ConnectionPoolConfig) : ConnectionPoolConfig :=
  if pool_Enabled p then
    p <| pool_MaxSize ::= fun n => or_int n 10 |>
      <| pool_MaxIdleTime ::= fun d => or_int d (5 * Minute) |>
  else p.

Definition default_tracing (t : TracingConfig) : TracingConfig :=
  if trace_Enabled t then
    t <| trace_ServiceName ::= fun s => or_string s "balance-proxy" |>
      <| trace_SampleRate ::= fun x => or_float x (of_int 1) |>
  else t.

Definition default_logging (l : LoggingConfig) : LoggingConfig :=
  l <| log_Level ::= fun s => or_string s "info" |> <| log_Format ::= fun s => or_string s "text" |>.

Definition setDefaults (c : Config) : Config :=
  let c := c <| c_Mode ::= fun s => or_string s "tcp" |> in
  let c := c <| c_Listen ::= fun s => or_string s ":8080" |> in
  let c := c <| c_LoadBalancer ::=
    fun l => l <| lb_Algorithm ::= fun s => or_string s "round-robin" |> |> in
  let c := c <| c_Backends ::= fmap default_weight |> in
  let c := c <| c_Timeouts ::= default_timeouts |> in
  let c := c <| c_HealthCheck ::= fmap default_health |> in
  let c := c <| c_Resilience ::= fmap default_resilience |> in
  let c := c <| c_Metrics ::= default_metrics |> in
  let c := c <| c_HTTP ::= default_http (c_Mode c) |> in
  let c := c <| c_ConnectionPool ::= fmap default_pool |> in
  let c := c <| c_Tracing ::= fmap default_tracing |> in
  c <| c_Logging ::= fmap default_logging |>.

(** ** Validation *)

Inductive config_error :=
| InvalidMode (m : string)
| NoBackend
| BackendAddressRequired (i : nat)
| BackendWeightNegative (i : nat)
| InvalidAlgorithm (a : string)
| TLSCertificatesRequired
| CertFileRequired (i : nat)
| KeyFileRequired (i : nat)
| InvalidMinVersion (v : string)
| InvalidMaxVersion (v : string)
| InvalidClientAuth (a : string)
| InvalidRateLimitType (t : string).

Definition validAlgorithms : list string :=
  ["round-robin"; "least-connections"; "consistent-hash"; "bounded-consistent-hash";
   "weighted-round-robin"; "weighted-least-connections"].
Definition validVersions : list string := ["1.0"; "1.1"; "1.2"; "1.3"].
Definition validClientAuth : list string :=
  ["none"; "request"; "require"; "verify"; "require-and-verify"].

(** The loops over backends and certificates: the first offender, with its index. *)
Fixpoint check_backends (i : nat) (bs : list BackendConfig) : option config_error :=
  match bs with
  | [] => None
  | b :: bs' =>
      if bool_decide (b_Address b = "") then Some (BackendAddressRequired i)
      else if b_Weight b <? 0 then Some (BackendWeightNegative i)
      else check_backends (S i) bs'
  end.

Fixpoint check_certs (i : nat) (cs : list CertificateConfig) : option config_error :=
  match cs with
  | [] => None
  | c :: cs' =>
      if bool_decide (cert_CertFile c = "") then Some (CertFileRequired i)
      else if bool_decide (cert_KeyFile c = "") then Some (KeyFileRequired i)
      else check_certs (S i) cs'
  end.

(** An optional string must be one of the allowed ones. *)
Definition check_enum (allowed : list string) (err : string -> config_error) (s : string)
  : option config_error :=
  if bool_decide (s = "") then None
  else if bool_decide (s ∈ allowed) then None else Some (err s).

(** The first error of a sequence of checks. *)
Definition or_else (a b : option config_error) : option config_error :=
  match a with Some e => Some e | None => b end.
Infix "<+>" := or_else (at level 50, left associativity) : go_scope.

Definition check_tls (t : TLSConfig) : option config_error :=
  if tls_Enabled t then
    (if bool_decide (tls_Certificates t = []) &&
        (bool_decide (tls_CertFile t = "") || bool_decide (tls_KeyFile t = ""))
     then Some TLSCertificatesRequired else None)
    <+> check_certs 0 (tls_Certificates t)
    <+> check_enum validVersions InvalidMinVersion (tls_MinVersion t)
    <+> check_enum validVersions InvalidMaxVersion (tls_MaxVersion t)
    <+> check_enum validClientAuth InvalidClientAuth (tls_ClientAuth t)
  else None.

Definition check_security (s : SecurityConfig) : option config_error :=
  match sec_RateLimit s with
  | Some r =>
      if rl_Enabled r then
        if negb (bool_decide (rl_Type r = "token-bucket")) &&
           negb (bool_decide (rl_Type r = "sliding-window"))
        then Some (InvalidRateLimitType (rl_Type r)) else None
      else None
  | None => None
  end.

Definition is_hashing (alg : string) : bool :=
  bool_decide (alg = "consistent-hash") || bool_decide (alg = "bounded-consistent-hash").

(** The hash key is defaulted in place, in the middle of the checks. *)
Definition default_hash_key (c : Config) : Config :=
  if is_hashing (lb_Algorithm (c_LoadBalancer c)) && bool_decide (lb_HashKey (c_LoadBalancer c) = "")
  then c <| c_LoadBalancer ::= fun l => l <| lb_HashKey := "source-ip" |> |>
  else c.

Definition Validate (c : Config) : option config_error * Config :=
  if negb (bool_decide (c_Mode c = "tcp")) && negb (bool_decide (c_Mode c = "http")) then
    (Some (InvalidMode (c_Mode c)), c)
  else if bool_decide (c_Backends c = []) then (Some NoBackend, c)
  else match check_backends 0 (c_Backends c) with
  | Some e => (Some e, c)
  | None =>
    if negb (bool_decide (lb_Algorithm (c_LoadBalancer c) ∈ validAlgorithms)) then
      (Some (InvalidAlgorithm (lb_Algorithm (c_LoadBalancer c))), c)
    else
      let c := default_hash_key c in
      match match c_TLS c with Some t => check_tls t | None => None end with
      | Some e => (Some e, c)
      | None => (match c_Security c with Some s => check_security s | None => None end, c)
      end
  end.

(** ** Loading *)

Inductive load_error (E1 E2 : Type) := ReadFailed (e : E1) | ParseFailed (e : E2).
Global Arguments ReadFailed {E1 E2} e.
Global Arguments ParseFailed {E1 E2} e.

Definition Load {E1 E2} (readFile : string -> result E1 (list Z))
    (unmarshal : list Z -> result E2 Config) (path : string) : result (load_error E1 E2) Config :=
  match readFile path with
  | Err e => Err (ReadFailed e)
  | Ok data =>
      match unmarshal data with
      | Err e => Err (ParseFailed e)
      | Ok cfg => Ok (setDefaults cfg)
      end
  end.

(** ** Defaults are stable *)

Create HintDb defaults.

Lemma or_int_idem v d : or_int (or_int v d) d = or_int v d.
Proof. unfold or_int. zcases; done. Qed.
Lemma or_string_idem v d : or_string (or_string v d) d = or_string v d.
Proof. unfold or_string. repeat case_bool_decide; congruence. Qed.
Lemma or_float_idem v d : or_float (or_float v d) d = or_float v d.
Proof. unfold or_float. destruct (feqb v (Fin 0)) eqn:E; [|by rewrite E]. by destruct (feqb d (Fin 0)). Qed.

#[export] Hint Rewrite or_int_idem or_string_idem or_float_idem : defaults.

(** An idempotent function under a pointer or a slice. *)
Lemma option_fmap_idem {A} (f : A -> A) (o : option A) :
  (forall x, f (f x) = f x) -> f <$> (f <$> o) = f <$> o.
Proof. intros Hf. destruct o; simpl; [by rewrite Hf|done]. Qed.

Lemma list_fmap_idem {A} (f : A -> A) (l : list A) :
  (forall x, f (f x) = f x) -> f <$> (f <$> l) = f <$> l.
Proof. intros Hf. rewrite <- list_fmap_compose. apply list_fmap_ext. intros. apply Hf. Qed.

(** Split a record on its [Enabled] flag and rewrite its fields. *)
Ltac idem f :=
  intros []; unfold f; repeat match goal with b : bool |- _ => destruct b end; cbn;
  autorewrite with defaults; rewrite ?option_fmap_idem by auto with defaults; done.

Lemma default_weight_idem b : default_weight (default_weight b) = default_weight b.
Proof. revert b. idem default_weight. Qed.
Lemma default_timeouts_idem t : default_timeouts (default_timeouts t) = default_timeouts t.
Proof. revert t. idem default_timeouts. Qed.
Lemma default_passive_idem p : default_passive (default_passive p) = default_passive p.
Proof. revert p. idem default_passive. Qed.
#[export] Hint Resolve default_passive_idem : defaults.
Lemma default_health_idem h : default_health (default_health h) = default_health h.
Proof. revert h. idem default_health. Qed.
Lemma default_breaker_idem b : default_breaker (default_breaker b) = default_breaker b.
Proof. revert b. idem default_breaker. Qed.
Lemma default_retry_idem r : default_retry (default_retry r) = default_retry r.
Proof. revert r. idem default_retry. Qed.
#[export] Hint Resolve default_breaker_idem default_retry_idem : defaults.
Lemma default_resilience_idem r : default_resilience (default_resilience r) = default_resilience r.
Proof. revert r. idem default_resilience. Qed.
Lemma default_metrics_idem m : default_metrics (default_metrics m) = default_metrics m.
Proof.
  destruct m. unfold default_metrics. cbn.
  destruct (met_Enabled0 && bool_decide (met_Path0 = "")) eqn:E; cbn; [|by rewrite E].
  by destruct met_Enabled0.
Qed.
Lemma default_http_idem mode h : default_http mode (default_http mode h) = default_http mode h.
Proof.
  unfold default_http. destruct h as [[]|]; cbn; autorewrite with defaults; [done|].
  by case_bool_decide.
Qed.
Lemma default_pool_idem p : default_pool (default_pool p) = default_pool p.
Proof. revert p. idem default_pool. Qed.
Lemma default_tracing_idem t : default_tracing (default_tracing t) = default_tracing t.
Proof. revert t. idem default_tracing. Qed.
Lemma default_logging_idem l : default_logging (default_logging l) = default_logging l.
Proof. revert l. idem default_logging. Qed.
#[export] Hint Resolve default_weight_idem default_health_idem default_resilience_idem
  default_pool_idem default_tracing_idem default_logging_idem : defaults.
#[export] Hint Rewrite default_timeouts_idem default_metrics_idem default_http_idem : defaults.

Lemma setDefaults_eq mode listen bs lb http tls hc res tos met sec pool tr tracing logging :
  setDefaults (mkConfig mode listen bs lb http tls hc res tos met sec pool tr tracing logging) =
  mkConfig (or_string mode "tcp") (or_string listen ":8080") (default_weight <$> bs)
    (mkLoadBalancerConfig (or_string (lb_Algorithm lb) "round-robin") (lb_HashKey lb))
    (default_http (or_string mode "tcp") http) tls (default_health <$> hc)
    (default_resilience <$> res) (default_timeouts tos) (default_metrics met) sec
    (default_pool <$> pool) tr (default_tracing <$> tracing) (default_logging <$> logging).
Proof. by destruct lb. Qed.

(** Filling in the defaults is idempotent on every configuration: a second setDefaults
    changes nothing. *)
Theorem setDefaults_idempotent (c : Config) : setDefaults (setDefaults c) = setDefaults c.
Proof.
  destruct c. rewrite !setDefaults_eq. cbn [lb_Algorithm lb_HashKey].
  rewrite !or_string_idem, default_timeouts_idem, default_metrics_idem, default_http_idem.
  rewrite list_fmap_idem, !option_fmap_idem by auto with defaults. done.
Qed.

(** ** Validation is a decision procedure *)

Definition backend_ok (b : BackendConfig) : Prop := b_Address b <> "" /\ 0 <= b_Weight b.
Definition cert_ok (c : CertificateConfig) : Prop := cert_CertFile c <> "" /\ cert_KeyFile c <> "".
Definition enum_ok (allowed : list string) (s : string) : Prop := s = "" \/ s ∈ allowed.

Record tls_ok (t : TLSConfig) : Prop := {
  tls_has_cert : tls_Certificates t <> [] \/ (tls_CertFile t <> "" /\ tls_KeyFile t <> "");
  tls_certs_ok : Forall cert_ok (tls_Certificates t);
  tls_min_ok : enum_ok ["1.0"; "1.1"; "1.2"; "1.3"] (tls_MinVersion t);
  tls_max_ok : enum_ok ["1.0"; "1.1"; "1.2"; "1.3"] (tls_MaxVersion t);
  tls_auth_ok : enum_ok ["none"; "request"; "require"; "verify"; "require-and-verify"] (tls_ClientAuth t)
}.

Definition rate_limit_ok (r : RateLimitConfig) : Prop :=
  rl_Type r = "token-bucket" \/ rl_Type r = "sliding-window".

(** What a valid configuration is, stated without the order of the checks and without the
    tables of the code. *)
Record valid_config (c : Config) : Prop := {
  vc_mode : c_Mode c = "tcp" \/ c_Mode c = "http";
  vc_some : c_Backends c <> [];
  vc_backends : Forall backend_ok (c_Backends c);
  vc_algorithm : lb_Algorithm (c_LoadBalancer c) ∈
    ["round-robin"; "least-connections"; "weighted-round-robin"; "weighted-least-connections";
     "consistent-hash"; "bounded-consistent-hash"];
  vc_tls t : c_TLS c = Some t -> tls_Enabled t = true -> tls_ok t;
  vc_limit s r : c_Security c = Some s -> sec_RateLimit s = Some r -> rl_Enabled r = true ->
    rate_limit_ok r
}.

Lemma check_backends_ok i bs : check_backends i bs = None <-> Forall backend_ok bs.
Proof.
  revert i. induction bs as [|b bs IH]; intros i; cbn; [by split|].
  rewrite Forall_cons, <- (IH (S i)). unfold backend_ok. case_bool_decide; [naive_solver|].
  destruct (Z.ltb_spec (b_Weight b) 0); [|tauto].
  split; [done|]. intros [[_ ?] _]. lia.
Qed.

Lemma check_certs_ok i cs : check_certs i cs = None <-> Forall cert_ok cs.
Proof.
  revert i. induction cs as [|c cs IH]; intros i; cbn; [by split|].
  rewrite Forall_cons, <- (IH (S i)). unfold cert_ok. repeat case_bool_decide; naive_solver.
Qed.

Lemma check_enum_ok l err s : check_enum l err s = None <-> enum_ok l s.
Proof. unfold check_enum, enum_ok. repeat case_bool_decide; naive_solver. Qed.

Lemma or_else_None a b : a <+> b = None <-> a = None /\ b = None.
Proof. destruct a; cbn; naive_solver. Qed.

Lemma check_tls_ok t : tls_Enabled t = true -> (check_tls t = None <-> tls_ok t).
Proof.
  intros He. unfold check_tls. rewrite He, !or_else_None, check_certs_ok, !check_enum_ok.
  split.
  - intros [[[[Hc ?] ?] ?] ?]. split; try done.
    revert Hc. repeat case_bool_decide; cbn; naive_solver.
  - intros [Hc ? ? ? ?]. split_and!; try done.
    repeat case_bool_decide; cbn; naive_solver.
Qed.

Lemma check_security_ok s :
  check_security s = None <->
  (forall r, sec_RateLimit s = Some r -> rl_Enabled r = true -> rate_limit_ok r).
Proof.
  unfold check_security, rate_limit_ok. destruct (sec_RateLimit s) as [r|]; [|by split].
  destruct (rl_Enabled r) eqn:E; [|split; [intros _ ? [= <-]; congruence|done]].
  repeat case_bool_decide; cbn; naive_solver.
Qed.

Lemma default_hash_key_fields c :
  c_TLS (default_hash_key c) = c_TLS c /\ c_Security (default_hash_key c) = c_Security c.
Proof. unfold default_hash_key. destruct c. cbn. by case_match. Qed.

Lemma algorithm_listed (a : string) :
  a ∈ validAlgorithms <->
  a ∈ ["round-robin"; "least-connections"; "weighted-round-robin"; "weighted-least-connections";
       "consistent-hash"; "bounded-consistent-hash"].
Proof. unfold validAlgorithms. set_solver. Qed.

Lemma Validate_None c : fst (Validate c) = None <-> valid_config c.
Proof.
  unfold Validate. destruct (default_hash_key_fields c) as [Ht Hse].
  split.
  - intros Hv. repeat (case_bool_decide; cbn in Hv; try done).
    all: destruct (check_backends 0 _) eqn:Eb; [done|]; cbn in Hv; try done.
    all: apply check_backends_ok in Eb.
    all: rewrite Ht in Hv; destruct (c_TLS c) as [t|] eqn:Et; cbn in Hv.
    all: try (destruct (check_tls t) eqn:Ect; [done|]; cbn in Hv).
    all: rewrite Hse in Hv; split; auto; try (by rewrite Et).
    all: try (by apply algorithm_listed).
    all: try (intros t' Ht'; rewrite Et in Ht'; simplify_eq; intros He; by apply check_tls_ok).
    all: intros s r Hs; rewrite Hs in Hv; revert r; by apply check_security_ok.
  - intros [Hm Hn Hb Ha Hl Hr]. rewrite (proj2 (check_backends_ok 0 _) Hb).
    rewrite (bool_decide_false (c_Backends c = [])) by done.
    rewrite (bool_decide_true (_ ∈ validAlgorithms)) by (by apply algorithm_listed).
    assert (negb (bool_decide (c_Mode c = "tcp")) && negb (bool_decide (c_Mode c = "http")) = false) as ->.
    { destruct Hm as [-> | ->]; done. }
    cbn. rewrite Ht, Hse. assert (match c_TLS c with Some t => check_tls t | None => None end = None) as ->.
    { destruct (c_TLS c) as [t|]; [|done]. destruct (tls_Enabled t) eqn:E; [by apply check_tls_ok; auto|].
      unfold check_tls. by rewrite E. }
    cbn. destruct (c_Security c) as [s|]; [|done]. by apply check_security_ok; eauto.
Qed.

(** On success only the hash key changes. *)
Lemma Validate_result c :
  fst (Validate c) = None ->
  snd (Validate c) = c <| c_LoadBalancer ::= fun l =>
    if is_hashing (lb_Algorithm l) then l <| lb_HashKey ::= fun k => or_string k "source-ip" |> else l |>.
Proof.
  unfold Validate. intros Hv.
  assert (snd (Validate c) = default_hash_key c) as Hs.
  { unfold Validate in *. repeat (case_match; cbn in *; try done). }
  fold (Validate c). rewrite Hs. clear. unfold default_hash_key, or_string.
  destruct c as [? ? ? [] ? ? ? ? ? ? ? ? ? ? ?]. cbn. destruct (is_hashing _); cbn; [|done].
  by case_bool_decide.
Qed.

(** The verdict does not depend on the names of the backends. *)
Definition unnamed (c : Config) : Config := c <| c_Backends ::= fmap (fun b => b <| b_Name := "" |>) |>.

Lemma unnamed_valid c : valid_config (unnamed c) <-> valid_config c.
Proof.
  assert (Forall backend_ok ((fun b => b <| b_Name := "" |>) <$> c_Backends c) <->
          Forall backend_ok (c_Backends c)) as Hb.
  { rewrite Forall_fmap. apply Forall_iff. by intros []. }
  destruct c as [m l bs ? ? ? ? ? ? ? ? ? ? ? ?]. cbn in Hb. unfold unnamed. cbn.
  split; intros [Hm Hn Ha Hl Ht Hr]; split; cbn in *; try done; try (by apply Hb); by destruct bs.
Qed.


(** ** A configuration that was loaded and validated *)

(** A configuration that was loaded (defaults applied to whatever the YAML decoder
    returned) and then validated has at least one backend, every weight at least 1, non-
    zero health check thresholds and interval when health checking is enabled, and a
    hash key when the algorithm hashes. *)
Theorem Load_Validate_ready {E1 E2} (readFile : string -> result E1 (list Z))
    (unmarshal : list Z -> result E2 Config) (path : string) (c c' : Config) :
  Load readFile unmarshal path = Ok c -> Validate c = (None, c') ->
  c_Backends c' <> [] /\ Forall (fun b => 1 <= b_Weight b) (c_Backends c') /\
  (forall h, c_HealthCheck c' = Some h -> hc_Enabled h = true ->
     hc_HealthyThreshold h <> 0 /\ hc_UnhealthyThreshold h <> 0 /\ hc_Interval h <> 0) /\
  (is_hashing (lb_Algorithm (c_LoadBalancer c')) = true -> lb_HashKey (c_LoadBalancer c') <> "").
Proof.
  unfold Load. destruct (readFile path) as [data|]; [|done].
  destruct (unmarshal data) as [c0|]; [|done]. intros [= <-] Hv.
  pose proof (Validate_None (setDefaults c0)) as Hd. pose proof (Validate_result (setDefaults c0)) as Hc'. rewrite Hv in Hd, Hc'. cbn [fst snd] in *.
  destruct (proj1 Hd eq_refl) as [_ Hne Hbs _ _ _]. rewrite (Hc' eq_refl). clear Hd Hc' Hv.
  destruct c0 as [? ? ? [] ? ? ? ? ? ? ? ? ? ? ?]. rewrite setDefaults_eq in *. cbn in Hne, Hbs |- *.
  split_and!.
  - done.
  - rewrite Forall_forall in *. intros b Hb. specialize (Hbs b Hb) as [_ Hw].
    apply list_elem_of_fmap in Hb as ([] & -> & _). cbn in *. unfold or_int in *. zcases.
  - intros h (h0 & _ & ->)%fmap_Some. unfold default_health.
    destruct h0 as [[]]; cbn; [|by intros]. intros _. unfold or_int, Second. zcases; auto.
  - destruct (is_hashing (or_string _ _)) eqn:E; cbn; [|by rewrite E]. intros _. unfold or_string.
    by case_bool_decide.
Qed.

(** ** Instances of the theorems *)

Definition cfg_min : Config :=
  mkConfig "" "" [mkBackendConfig "a" "10.0.0.1:80" 0 0]
    (mkLoadBalancerConfig "consistent-hash" "") None None
    (Some (mkHealthCheckConfig true 0 0 0 0 "" "" None)) None (mkTimeoutConfig 0 0 0 0)
    (mkMetricsConfig false "" "") None None None None None.

Lemma Load_Validate_ready_witness :
  Forall (fun b => 1 <= b_Weight b) (c_Backends (snd (Validate (setDefaults cfg_min)))).
Proof.
  refine (proj1 (proj2 (Load_Validate_ready (E1:=unit) (E2:=unit) (fun _ => Ok []) (fun _ => Ok cfg_min)
    "balance.yaml" (setDefaults cfg_min) (snd (Validate (setDefaults cfg_min))) _ _))).
  - reflexivity.
  - vm_compute. reflexivity.
Defined.

(** Every branch of the validation on concrete configurations. *)
Example Validate_errors :
  fst (Validate (cfg_min <| c_Mode := "udp" |>)) = Some (InvalidMode "udp") /\
  fst (Validate (setDefaults (cfg_min <| c_Backends := [] |>))) = Some NoBackend /\
  fst (Validate (setDefaults cfg_min)) = None.
Proof. vm_compute. auto. Qed.

