(* ===== verification/Router.v ===== *)
(** * HTTP routing (src/pkg/router/router.go)

    A router holds its routes in priority order, each with a pool of the
    backends it names.  [sort.Slice] promises a sorted permutation and nothing
    about equal priorities, so the sort is a parameter with exactly that
    promise. *)

From S2P Require Import Prelude GoStd GoFloat Backend Config.

Record RouteEntry := mkRouteEntry { re_config : Route; re_pool : Pool }.
Record Router := mkRouter { routes : list RouteEntry; defaultPool : Pool }.

(** The part of an [http.Request] that routing reads. *)
Record Request := mkRequest { req_Host : string; req_Path : string; req_Header : Header }.

(** ** Matching *)

Definition matchHost (requestHost routeHost : string) : bool :=
  let idx := str_Index requestHost ":" in
  let requestHost := if negb (idx =? -1) then str_take (Z.to_nat idx) requestHost else requestHost in
  if bool_decide (requestHost = routeHost) then true
  else if HasPrefix routeHost "*." then HasSuffix requestHost (str_drop 1 routeHost)
  else false.

(** The headers are visited in map order; all of them have to match. *)
Definition matchRoute (req : Request) (route : Route) : bool :=
  if negb (bool_decide (r_Host route = "")) && negb (matchHost (req_Host req) (r_Host route)) then false
  else if negb (bool_decide (r_PathPrefix route = "")) &&
          negb (HasPrefix (req_Path req) (r_PathPrefix route)) then false
  else bool_decide (map_Forall (fun k v => Header_Get k (req_Header req) = v) (r_Headers route)).

Fixpoint match_routes (req : Request) (rs : list RouteEntry) : option Pool :=
  match rs with
  | [] => None
  | r :: rs' => if matchRoute req (re_config r) then Some (re_pool r) else match_routes req rs'
  end.

Definition Match (req : Request) (r : Router) : Pool := default (defaultPool r) (match_routes req (routes r)).

(** ** Construction *)

(** The named backends that exist, in the order of the route. *)
Fixpoint route_pool (h : heap) (all : Pool) (names : list string) (p : Pool) : Pool :=
  match names with
  | [] => p
  | n :: names' =>
      route_pool h all names' (match GetByName h n all with Some b => Pool_Add b p | None => p end)
  end.

Definition route_entry (h : heap) (all : Pool) (rc : Route) : RouteEntry :=
  mkRouteEntry rc (route_pool h all (r_Backends rc) NewPool).

(** Higher priority first. *)
Definition prio_ge (a b : RouteEntry) : Prop := r_Priority (re_config b) <= r_Priority (re_config a).

Definition NewRouter (sort_Slice : list RouteEntry -> list RouteEntry) (h : heap)
    (rs : list Route) (all : Pool) : Router :=
  mkRouter (sort_Slice (route_entry h all <$> rs)) all.

(** What [sort.Slice] promises for the order of the routes. *)
Class SortsRoutes (sort_Slice : list RouteEntry -> list RouteEntry) : Prop := {
  sorts_perm l : sort_Slice l ≡ₚ l;
  sorts_ordered l : StronglySorted prio_ge (sort_Slice l)
}.

(** ** Host patterns *)

(** The host without its port. *)
Definition host_part (s : string) : string :=
  let idx := str_Index s ":" in if negb (idx =? -1) then str_take (Z.to_nat idx) s else s.

(** Of a host and a port only the host remains. *)
Lemma host_part_port hst port :
  (forall a b, hst <> a +:+ ":" +:+ b) -> host_part (hst +:+ ":" +:+ port) = hst.
Proof.
  intros Hno. unfold host_part, str_Index.
  destruct (index_from_spec 0 (hst +:+ ":" +:+ port) ":" ltac:(lia)) as [[_ Hn]|(a & b & Hab & -> & Hmin)].
  { by destruct (Hn hst port). }
  pose proof (Hmin hst port eq_refl) as Hle.
  assert (String.length a = String.length hst) as Hlen.
  { destruct (decide (String.length a = String.length hst)) as [|Hne]; [done|]. exfalso.
    assert (exists c, hst = a +:+ ":" +:+ c) as [c Hc].
    { clear -Hab Hle Hne. revert a Hab Hle Hne. induction hst as [|x hst IH]; intros [|y a] Hab Hle Hne; cbn in *; try lia.
      - change (String x (hst +:+ ":" +:+ port) = String (ascii_of_byte 58) b) in Hab. injection Hab as -> _.
        by exists hst.
      - change (String x (hst +:+ ":" +:+ port) = String y (a +:+ ":" +:+ b)) in Hab.
        injection Hab as -> Hab. destruct (IH a Hab) as [c ->]; [lia|lia|]. by exists c. }
    by destruct (Hno a c). }
  cbn. rewrite (proj2 (Z.eqb_neq _ _)) by lia. cbn.
  replace (Z.to_nat (0 + Z.of_nat (String.length a))) with (String.length hst) by lia.
  apply str_take_app.
Qed.

Lemma host_part_plain hst : (forall a b, hst <> a +:+ ":" +:+ b) -> host_part hst = hst.
Proof.
  intros Hno. unfold host_part, str_Index.
  destruct (index_from_spec 0 hst ":" ltac:(lia)) as [[-> _]|(a & b & Hab & _)]; [done|].
  by destruct (Hno a b).
Qed.

Lemma matchHost_spec rh pat :
  matchHost rh pat = true <->
  host_part rh = pat \/ exists dom pre, pat = "*." +:+ dom /\ host_part rh = pre +:+ "." +:+ dom.
Proof.
  unfold matchHost. fold (host_part rh). case_bool_decide as Heq; [tauto|].
  destruct (HasPrefix pat "*.") eqn:E.
  - apply HasPrefix_spec in E as [dom ->]. change (str_drop 1 ("*." +:+ dom)) with ("." +:+ dom).
    rewrite HasSuffix_spec. split.
    + intros [r Hr]. right. by exists dom, r.
    + intros [?|(d & pre & Hd & Hp)]; [done|]. exists pre.
      apply (f_equal (str_drop (String.length "*."))) in Hd. rewrite !str_drop_app in Hd. by subst.
  - split; [done|]. intros [?|(d & pre & -> & _)]; [done|].
    assert (HasPrefix ("*." +:+ d) "*." = true) by (apply HasPrefix_spec; by exists d). congruence.
Qed.

(** ** The best route *)

Lemma route_pool_spec h all names p b :
  b ∈ backends (route_pool h all names p) <->
  b ∈ backends p \/ exists n, n ∈ names /\ GetByName h n all = Some b.
Proof.
  revert p. induction names as [|n names IH]; intros p; cbn [route_pool]; [set_solver|].
  rewrite IH. destruct (GetByName h n all) as [b'|] eqn:E.
  - destruct p as [bs]. cbn. rewrite elem_of_app, list_elem_of_singleton. split.
    + intros [[?| ->]|(m & ? & ?)]; [by left|right; set_solver|right; set_solver].
    + intros [?|(m & [-> |?]%elem_of_cons & ?)]; [by left; left|left; right; congruence|right; set_solver].
  - split.
    + intros [?|(m & ? & ?)]; [by left|right; set_solver].
    + intros [?|(m & [-> |?]%elem_of_cons & ?)]; [by left|congruence|right; set_solver].
Qed.

Lemma match_routes_first req rs :
  StronglySorted prio_ge rs ->
  match match_routes req rs with
  | Some p => exists r, r ∈ rs /\ matchRoute req (re_config r) = true /\ re_pool r = p /\
      forall r', r' ∈ rs -> matchRoute req (re_config r') = true -> prio_ge r r'
  | None => forall r, r ∈ rs -> matchRoute req (re_config r) = false
  end.
Proof.
  induction 1 as [|r rs Hs IH Hall]; cbn; [set_solver|].
  destruct (matchRoute req (re_config r)) eqn:E.
  - exists r. split_and!; [set_solver|done|done|]. rewrite Forall_forall in Hall.
    intros r' [-> |Hr']%elem_of_cons _; [unfold prio_ge; lia|auto].
  - destruct (match_routes req rs).
    + destruct IH as (r0 & Hr0 & Hm & Hp & Hmax). exists r0. split_and!; [set_solver|done|done|].
      intros r' [-> |Hr']%elem_of_cons Hm'; [congruence|auto].
    + intros r' [-> |Hr']%elem_of_cons; [done|auto].
Qed.

(** C18: Match returns the pool of a matching route of maximal priority, holding exactly
    the existing backends the route names, or the default pool when no route matches;
    for every sort that returns a permutation ordered by priority, as sort.Slice
    documents. *)
Theorem Router_Match_best (srt : list RouteEntry -> list RouteEntry) `{!SortsRoutes srt}
    (h : heap) (rs : list Route) (all : Pool) (req : Request) :
  let p := Match req (NewRouter srt h rs all) in
  (exists rc, rc ∈ rs /\ matchRoute req rc = true /\
     (forall rc', rc' ∈ rs -> matchRoute req rc' = true -> r_Priority rc' <= r_Priority rc) /\
     forall b, b ∈ backends p <-> exists n, n ∈ r_Backends rc /\ GetByName h n all = Some b) \/
  ((forall rc, rc ∈ rs -> matchRoute req rc = false) /\ p = all).
Proof.
  set (l := route_entry h all <$> rs). intros p. subst p.
  pose proof (match_routes_first req (srt l) (sorts_ordered l)) as Hm.
  assert (forall rc, rc ∈ rs -> route_entry h all rc ∈ srt l) as Hin.
  { intros rc Hrc. rewrite sorts_perm. by apply list_elem_of_fmap_2. }
  unfold Match, NewRouter. cbn [routes defaultPool]. fold l.
  destruct (match_routes req (srt l)) as [p|]; cbn [default].
  - left. destruct Hm as (r & Hr & Hmr & <- & Hmax). rewrite sorts_perm in Hr.
    apply list_elem_of_fmap in Hr as (rc & -> & Hrc). exists rc. split_and!; [done|done| |].
    + intros rc' Hrc' Hm'. apply (Hmax (route_entry h all rc')); auto.
    + intros b. unfold route_entry. cbn [re_pool id]. rewrite route_pool_spec. cbn. set_solver.
  - right. split; [|done]. intros rc Hrc. apply (Hm (route_entry h all rc)). auto.
Qed.

(** Host matching ignores the port, and for a host without a colon it succeeds exactly
    on equality or when the pattern is *.dom and the host ends in .dom. *)
Theorem matchHost_wildcard (hst port pat : string) :
  (forall a b, hst <> a +:+ ":" +:+ b) ->
  matchHost (hst +:+ ":" +:+ port) pat = matchHost hst pat /\
  (matchHost hst pat = true <->
   hst = pat \/ exists dom pre, pat = "*." +:+ dom /\ hst = pre +:+ "." +:+ dom).
Proof.
  intros Hno. split.
  - apply eq_bool_prop_intro. rewrite !Is_true_true, !matchHost_spec.
    by rewrite host_part_port, host_part_plain.
  - by rewrite matchHost_spec, host_part_plain.
Qed.

(** ** Instances of the theorems

    Merge sort is one such sort. *)

#[export] Instance prio_ge_dec a b : Decision (prio_ge a b).
Proof. unfold prio_ge. apply _. Defined.
#[export] Instance prio_ge_total : Total prio_ge.
Proof. intros a b. unfold prio_ge. lia. Qed.
#[export] Instance prio_ge_trans : Transitive prio_ge.
Proof. intros a b c. unfold prio_ge. lia. Qed.

#[export] Instance merge_sort_sorts : SortsRoutes (merge_sort prio_ge).
Proof.
  split; [intros l; apply merge_sort_Permutation|].
  intros l. apply Sorted_StronglySorted, Sorted_merge_sort; apply _.
Qed.

Definition routes2 : list Route :=
  [mkRoute "all" "" "" ∅ ["a"; "b"] 1; mkRoute "api" "*.example.com" "/api/" ∅ ["c"; "gone"] 10].
Definition req_api : Request := mkRequest "eu.example.com:8080" "/api/v1" ∅.

Lemma Router_Match_best_witness :
  Match req_api (NewRouter (merge_sort prio_ge) heap3 routes2 pool3) = mkPool [2%nat] /\
  exists rc, rc ∈ routes2 /\ matchRoute req_api rc = true.
Proof.
  split; [vm_compute; reflexivity|].
  destruct (Router_Match_best (merge_sort prio_ge) heap3 routes2 pool3 req_api)
    as [(rc & Hrc & Hm & _)|[Hno _]]; [by exists rc|].
  specialize (Hno (mkRoute "all" "" "" ∅ ["a"; "b"] 1) ltac:(by left)). vm_compute in Hno. discriminate.
Defined.

Lemma no_colon_example (a b : string) : "eu.example.com" <> a +:+ ":" +:+ b.
Proof.
  intros Heq. destruct (index_from_spec 0 "eu.example.com" ":" ltac:(lia)) as [[_ Hn]|(a' & b' & _ & Hr & _)].
  - by apply (Hn a b).
  - vm_compute (index_from _ _ _) in Hr. lia.
Qed.

Lemma matchHost_wildcard_witness : matchHost "eu.example.com:8080" "*.example.com" = true.
Proof.
  change "eu.example.com:8080" with ("eu.example.com" +:+ ":" +:+ "8080").
  rewrite (proj1 (matchHost_wildcard "eu.example.com" "8080" "*.example.com" no_colon_example)).
  apply (matchHost_wildcard "eu.example.com" "8080" "*.example.com" no_colon_example).
  right. by exists "example.com", "eu".
Defined.
