(* ===== verification/Proxy.v ===== *)
(** * The TCP proxy (src/pkg/proxy/server.go)

    A server is built from the configuration: the backends are allocated, the
    pool is filled, and the algorithm is chosen by name.  A connection goes
    through phases: it is accepted and a backend is selected, the backend's
    counter is incremented, the dial fails (the backend is marked unhealthy) or
    the data is copied, and the deferred calls release it.  [pstep] interleaves
    the phases of any number of connections; [handleConnection] is one
    connection from start to end. *)

From S2P Require Import Prelude GoFloat Backend Config Balancers ConsistentHash Affinity.

(** ** The balancer of a server

    The interface value that the server holds; the type switch of the handlers
    asks for [SelectWithKey], then for [SelectWithClientIP]. *)

Inductive algorithm :=
| ARoundRobin (s : RoundRobin)
| ALeastConnections (s : LeastConnections)
| AWeightedRoundRobin (s : WeightedRoundRobin)
| AWeightedLeastConnections (s : WeightedLeastConnections)
| AConsistentHash (s : ConsistentHash)
| ABounded (s : BoundedLoadConsistentHash).

Definition map_snd {A B C} (f : B -> C) (x : A * B) : A * C := (fst x, f (snd x)).

Definition algorithm_Select (h : heap) (p : Pool) (a : algorithm) : outcome (option bptr) * algorithm :=
  match a with
  | ARoundRobin s => map_snd ARoundRobin (Select h p s)
  | ALeastConnections s => map_snd ALeastConnections (Select h p s)
  | AWeightedRoundRobin s => map_snd AWeightedRoundRobin (Select h p s)
  | AWeightedLeastConnections s => map_snd AWeightedLeastConnections (Select h p s)
  | AConsistentHash s => map_snd AConsistentHash (Select h p s)
  | ABounded s => map_snd ABounded (Select h p s)
  end.
Definition algorithm_Name (a : algorithm) : string :=
  match a with
  | ARoundRobin s => Name s
  | ALeastConnections s => Name s
  | AWeightedRoundRobin s => Name s
  | AWeightedLeastConnections s => Name s
  | AConsistentHash s => Name s
  | ABounded s => Name s
  end.
#[export] Instance algorithm_LoadBalancer : LoadBalancer algorithm :=
  {| Select := algorithm_Select; Name := algorithm_Name |}.

Inductive lb_value :=
| Plain (a : algorithm)
| WithAffinity (sa : SessionAffinity algorithm).

(** The type switch of the handlers; [t1 t2] are the readings of the affinity. *)
Definition select_backend (h : heap) (p : Pool) (clientIP : string) (t1 t2 : time) (b : lb_value)
  : outcome (option bptr) * lb_value :=
  match b with
  | Plain (AConsistentHash s) =>
      map_snd (fun s => Plain (AConsistentHash s)) (ConsistentHash_SelectWithKey h p clientIP s)
  | Plain (ABounded s) =>
      map_snd (fun s => Plain (ABounded s)) (Bounded_SelectWithKey h p clientIP s)
  | WithAffinity sa => map_snd WithAffinity (SelectWithClientIP h p clientIP t1 t2 sa)
  | Plain a => map_snd Plain (algorithm_Select h p a)
  end.

(** ** Construction *)

Record Server := mkServer {
  srv_config : Config;
  srv_pool : Pool;
  srv_balancer : lb_value;
  totalConnections : Z;
  srv_activeConnections : Z;
  totalBytesReceived : Z;
  totalBytesSent : Z
}.
#[export] Instance eta_Server : Eta Server := fun s =>
  mkServer (srv_config s) (srv_pool s) (srv_balancer s) (totalConnections s)
    (srv_activeConnections s) (totalBytesReceived s) (totalBytesSent s).

Inductive server_error := UnsupportedAlgorithm (a : string).

(** Allocate the backends of the configuration and add them to the pool. *)
Fixpoint make_pool (bs : list BackendConfig) (h : heap) (p : Pool) : heap * Pool :=
  match bs with
  | [] => (h, p)
  | b :: bs' =>
      let '(ptr, h) := alloc (NewBackend (b_Name b) (b_Address b) (b_Weight b)) h in
      make_pool bs' h (Pool_Add ptr p)
  end.

Definition new_algorithm (h : heap) (p : Pool) (alg hashKey : string) : result server_error algorithm :=
  if bool_decide (alg = "round-robin") then Ok (ARoundRobin NewRoundRobin)
  else if bool_decide (alg = "least-connections") then Ok (ALeastConnections mkLeastConnections)
  else if bool_decide (alg = "weighted-round-robin") then Ok (AWeightedRoundRobin NewWeightedRoundRobin)
  else if bool_decide (alg = "weighted-least-connections") then
    Ok (AWeightedLeastConnections mkWeightedLeastConnections)
  else if bool_decide (alg = "consistent-hash") then
    Ok (AConsistentHash (NewConsistentHash h p DefaultVirtualNodes hashKey))
  else if bool_decide (alg = "bounded-consistent-hash") then
    Ok (ABounded (NewBoundedLoadConsistentHash h p DefaultVirtualNodes hashKey (of_ratio 5 4)))
  else Err (UnsupportedAlgorithm alg).

Definition NewTCPServer (cfg : Config) : result server_error (Server * heap) :=
  let '(h, p) := make_pool (c_Backends cfg) [] NewPool in
  match new_algorithm h p (lb_Algorithm (c_LoadBalancer cfg)) (lb_HashKey (c_LoadBalancer cfg)) with
  | Ok a => Ok (mkServer cfg p (Plain a) 0 0 0 0, h)
  | Err e => Err e
  end.

(** ** The phases of a connection *)

(** Accept and select.  Without a backend the handler returns at once. *)
Definition hc_select (clientIP : string) (t1 t2 : time) (s : Server) (h : heap)
  : outcome (option bptr) * Server :=
  let s := s <| totalConnections ::= fun n => i64 (n + 1) |>
             <| srv_activeConnections ::= fun n => i64 (n + 1) |> in
  let '(r, b) := select_backend h (srv_pool s) clientIP t1 t2 (srv_balancer s) in
  let s := s <| srv_balancer := b |> in
  match r with
  | Ret None => (r, s <| srv_activeConnections ::= fun n => i64 (n + -1) |>)
  | _ => (r, s)
  end.

(** The copies have ended, with the bytes moved in each direction. *)
Definition proxyData (received sent : Z) (s : Server) : Server :=
  s <| totalBytesReceived ::= fun n => i64 (n + received) |>
    <| totalBytesSent ::= fun n => i64 (n + sent) |>.

(** The deferred calls, last first. *)
Definition hc_release (b : bptr) (s : Server) (h : heap) : Server * heap :=
  (s <| srv_activeConnections ::= fun n => i64 (n + -1) |>, DecrementConnections b h).

(** [dial] tells whether an address can be dialled; [received] and [sent] are
    what the copies moved. *)
Definition handleConnection (dial : string -> bool) (clientIP : string) (t1 t2 : time)
    (received sent : Z) (s : Server) (h : heap) : outcome (Server * heap) :=
  match hc_select clientIP t1 t2 s h with
  | (Panic, _) => Panic
  | (Ret None, s) => Ret (s, h)
  | (Ret (Some b), s) =>
      let h := IncrementConnections b h in
      let '(s, h) :=
        if dial (Backend_Address h b) then (proxyData received sent s, h)
        else (s, MarkUnhealthy b h) in
      Ret (hc_release b s h)
  end.

(** ** Interleaved connections *)

Inductive phase := Selected | Active | Closing.

Record pstate := mkPState {
  ps_server : Server;
  ps_heap : heap;
  ps_conns : list (phase * bptr);
  ps_accepted : Z
}.

Inductive pstep : pstate -> pstate -> Prop :=
| p_select ip t1 t2 s h cs n b s' :
    hc_select ip t1 t2 s h = (Ret (Some b), s') ->
    pstep (mkPState s h cs n) (mkPState s' h ((Selected, b) :: cs) (n + 1))
| p_none ip t1 t2 s h cs n s' :
    hc_select ip t1 t2 s h = (Ret None, s') ->
    pstep (mkPState s h cs n) (mkPState s' h cs (n + 1))
| p_increment s h l1 l2 n b :
    pstep (mkPState s h (l1 ++ (Selected, b) :: l2) n)
      (mkPState s (IncrementConnections b h) (l1 ++ (Active, b) :: l2) n)
| p_dial_failed s h l1 l2 n b :
    pstep (mkPState s h (l1 ++ (Active, b) :: l2) n)
      (mkPState s (MarkUnhealthy b h) (l1 ++ (Closing, b) :: l2) n)
| p_copied received sent s h l1 l2 n b :
    pstep (mkPState s h (l1 ++ (Active, b) :: l2) n)
      (mkPState (proxyData received sent s) h (l1 ++ (Closing, b) :: l2) n)
| p_release s h l1 l2 n b :
    pstep (mkPState s h (l1 ++ (Closing, b) :: l2) n)
      (mkPState (fst (hc_release b s h)) (snd (hc_release b s h)) (l1 ++ l2) n).

(** A connection handled from start to end is such a sequence of steps. *)
Lemma handleConnection_steps dial ip t1 t2 rc sn s h s' h' cs n :
  handleConnection dial ip t1 t2 rc sn s h = Ret (s', h') ->
  rtc pstep (mkPState s h cs n) (mkPState s' h' cs (n + 1)).
Proof.
  unfold handleConnection. destruct (hc_select ip t1 t2 s h) as [[[b|]|] s1] eqn:E; [| |done].
  - intros Heq. eapply rtc_l; [by eapply p_select|].
    eapply rtc_l; [apply (p_increment s1 h [] cs (n + 1) b)|]. cbn [app].
    destruct (dial _); revert Heq; intros [= <- <-].
    + eapply rtc_l; [apply (p_copied rc sn s1 _ [] cs (n + 1) b)|]. cbn [app].
      apply rtc_once, (p_release (proxyData rc sn s1) (IncrementConnections b h) [] cs (n + 1) b).
    + eapply rtc_l; [apply (p_dial_failed s1 _ [] cs (n + 1) b)|]. cbn [app].
      apply rtc_once,
        (p_release s1 (MarkUnhealthy b (IncrementConnections b h)) [] cs (n + 1) b).
  - intros [= <- <-]. apply rtc_once. by eapply p_none.
Qed.

(** ** Accounting *)

(** Connections of [q] that have been counted and not yet released. *)
Definition counted (q : bptr) (c : phase * bptr) : Prop := fst c <> Selected /\ snd c = q.
#[export] Instance phase_eq_dec : EqDecision phase.
Proof. solve_decision. Defined.
#[export] Instance counted_dec q c : Decision (counted q c).
Proof. unfold counted. apply _. Defined.
Definition in_flight (q : bptr) (cs : list (phase * bptr)) : Z := Z.of_nat (length (filter (counted q) cs)).

Record p_inv (n0 : nat) (wt : bptr -> Z) (ps : pstate) : Prop := {
  pi_heap : length (ps_heap ps) = n0;
  pi_weight q : Backend_Weight (ps_heap ps) q = wt q;
  pi_conns q : (q < n0)%nat -> ActiveConnections (ps_heap ps) q = i64 (in_flight q (ps_conns ps));
  pi_active : srv_activeConnections (ps_server ps) = i64 (Z.of_nat (length (ps_conns ps)));
  pi_accepted : Z.of_nat (length (ps_conns ps)) <= ps_accepted ps
}.

Lemma in_flight_middle q l1 c l2 :
  in_flight q (l1 ++ c :: l2) = in_flight q (l1 ++ l2) + (if decide (counted q c) then 1 else 0).
Proof.
  unfold in_flight. rewrite !filter_app, !length_app, filter_cons. case_decide; cbn; lia.
Qed.

(** The effect of an update of one backend on the fields that matter here. *)
Lemma alter_fields (f : Backend -> Backend) (g : Z -> Z) p h q :
  (forall b, weight (f b) = weight b) -> (forall b, activeConnections (f b) = g (activeConnections b)) ->
  Backend_Weight (alter f p h) q = Backend_Weight h q /\
  ((q < length h)%nat -> ActiveConnections (alter f p h) q =
     if decide (p = q) then g (ActiveConnections h q) else ActiveConnections h q).
Proof.
  intros Hw Ha. unfold Backend_Weight, ActiveConnections.
  destruct (decide (p = q)) as [->|Hne]; [|by rewrite lookup_total_alter_ne].
  destruct (decide (q < length h)%nat) as [Hv|Hv].
  - by rewrite lookup_total_alter_eq, Hw, Ha.
  - split; [|done]. rewrite !list_lookup_total_alt, !lookup_ge_None_2; [done| |]; rewrite ?length_alter; lia.
Qed.

Lemma hc_select_eq ip t1 t2 s h :
  exists b, snd (hc_select ip t1 t2 s h) =
    mkServer (srv_config s) (srv_pool s) b (i64 (totalConnections s + 1))
      (match fst (hc_select ip t1 t2 s h) with
       | Ret None => i64 (i64 (srv_activeConnections s + 1) + -1)
       | _ => i64 (srv_activeConnections s + 1)
       end) (totalBytesReceived s) (totalBytesSent s).
Proof.
  unfold hc_select. destruct s. cbn.
  destruct (select_backend _ _ _ _ _ _) as [[[b|]|] lb]; by exists lb.
Qed.

(** A step that updates backend [b] and turns the connections [l] into [l']. *)
Lemma p_inv_alter n0 wt s s' h l l' n b (f : Backend -> Backend) (g : Z -> Z) :
  p_inv n0 wt (mkPState s h l n) ->
  (forall x, weight (f x) = weight x) -> (forall x, activeConnections (f x) = g (activeConnections x)) ->
  (forall q, i64 (in_flight q l') = if decide (b = q) then g (i64 (in_flight q l)) else i64 (in_flight q l)) ->
  srv_activeConnections s' = i64 (Z.of_nat (length l')) -> (length l' <= length l)%nat ->
  p_inv n0 wt (mkPState s' (alter f b h) l' n).
Proof.
  intros [Hh Hw Hc Ha Hn] Hfw Hfa Hl Hact Hle. cbn in *.
  split; cbn; [by rewrite length_alter| | |done|lia].
  - intros q. by rewrite (proj1 (alter_fields f g b h q Hfw Hfa)).
  - intros q Hq. rewrite (proj2 (alter_fields f g b h q Hfw Hfa)), Hl by lia. by rewrite Hc.
Qed.

(** Moving a connection between phases, with its effect on the counts. *)
Lemma in_flight_phase q l1 l2 b (ph ph' : phase) :
  in_flight q (l1 ++ (ph', b) :: l2) =
  in_flight q (l1 ++ (ph, b) :: l2) +
    (if decide (b = q) then (if decide (ph' = Selected) then 0 else 1) -
       (if decide (ph = Selected) then 0 else 1) else 0).
Proof.
  rewrite !in_flight_middle. unfold counted. cbn.
  destruct ph, ph'; repeat case_decide; try lia; naive_solver.
Qed.

Lemma length_phase (l1 l2 : list (phase * bptr)) c c' : length (l1 ++ c :: l2) = length (l1 ++ c' :: l2).
Proof. by rewrite !length_app. Qed.

Lemma p_inv_select n0 wt ip t1 t2 s h cs n r s' cs' :
  p_inv n0 wt (mkPState s h cs n) -> hc_select ip t1 t2 s h = (Ret r, s') ->
  cs' = match r with Some b => (Selected, b) :: cs | None => cs end ->
  p_inv n0 wt (mkPState s' h cs' (n + 1)).
Proof.
  intros [Hh Hw Hc Ha Hn] Hsel ->. cbn in *.
  destruct (hc_select_eq ip t1 t2 s h) as [lb Hs]. rewrite Hsel in Hs. cbn in Hs. subst s'.
  destruct r as [b|]; split; cbn in *; try done; try lia.
  - rewrite Ha, swrap_add_l by lia. f_equal. lia.
  - rewrite Ha, swrap_add_l, <- Z.add_assoc, swrap_add_l by lia. f_equal. lia.
Qed.

Lemma p_inv_step n0 wt ps ps' : pstep ps ps' -> p_inv n0 wt ps -> p_inv n0 wt ps'.
Proof.
  intros [ip t1 t2 s h cs n b s' Hsel|ip t1 t2 s h cs n s' Hsel|s h l1 l2 n b|s h l1 l2 n b|
    rc sn s h l1 l2 n b|s h l1 l2 n b] Hi; pose proof (pi_active _ _ _ Hi) as Ha; cbn in Ha.
  - by eapply p_inv_select.
  - by eapply p_inv_select.
  - eapply (p_inv_alter _ _ _ _ _ _ _ _ _ _ (fun c => i64 (c + 1)) Hi); try done.
    + intros q. rewrite (in_flight_phase q l1 l2 b Selected Active).
      repeat case_decide; try done; [rewrite swrap_add_l by lia|]; f_equal; lia.
    + by rewrite Ha, (length_phase _ _ _ (Active, b)).
    + by rewrite (length_phase _ _ _ (Selected, b)).
  - eapply (p_inv_alter _ _ _ _ _ _ _ _ _ _ (fun c => c) Hi); try done.
    + intros q. rewrite (in_flight_phase q l1 l2 b Active Closing).
      repeat case_decide; try done; f_equal; lia.
    + by rewrite Ha, (length_phase _ _ _ (Closing, b)).
    + by rewrite (length_phase _ _ _ (Active, b)).
  - destruct Hi as [Hh Hw Hc _ Hn]. split; cbn in *; try done.
    + intros q Hq. rewrite Hc by done. rewrite (in_flight_phase q l1 l2 b Active Closing).
      f_equal. repeat case_decide; try done; lia.
    + unfold proxyData. destruct s. cbn in *. by rewrite Ha, (length_phase _ _ _ (Closing, b)).
    + by rewrite (length_phase _ _ _ (Active, b)).
  - eapply (p_inv_alter _ _ _ _ _ _ _ _ _ _ (fun c => i64 (c - 1)) Hi); try done.
    + intros q. rewrite in_flight_middle. unfold counted. cbn. destruct (decide (b = q)) as [->|Hne].
      * rewrite decide_True by done.
        replace (i64 (in_flight q (l1 ++ l2) + 1) - 1) with (i64 (in_flight q (l1 ++ l2) + 1) + -1) by lia.
        rewrite swrap_add_l by lia. f_equal. lia.
      * rewrite decide_False by naive_solver. f_equal. lia.
    + destruct s. cbn in *. rewrite Ha, swrap_add_l by lia. f_equal. rewrite !length_app. cbn. lia.
    + rewrite !length_app. cbn. lia.
Qed.

(** ** The server a configuration gives *)

Definition new_backend (b : BackendConfig) : Backend := NewBackend (b_Name b) (b_Address b) (b_Weight b).

Lemma make_pool_eq bs h p :
  make_pool bs h p = (h ++ (new_backend <$> bs), mkPool (backends p ++ seq (length h) (length bs))).
Proof.
  revert h p. induction bs as [|b bs IH]; intros h [l]; cbn.
  - by rewrite !app_nil_r.
  - rewrite IH. cbn. rewrite length_app, <- !app_assoc. cbn. do 3 f_equal. do 2 f_equal. lia.
Qed.

Lemma new_algorithm_valid h p alg key :
  (exists a, new_algorithm h p alg key = Ok a) <-> alg ∈ validAlgorithms.
Proof.
  unfold new_algorithm, validAlgorithms. split.
  - intros [a Ha]. repeat (case_bool_decide; [subst; set_solver|]). done.
  - intros Ha. repeat (case_bool_decide; [by eexists|]). set_solver.
Qed.

Lemma NewTCPServer_eq cfg s h :
  NewTCPServer cfg = Ok (s, h) ->
  h = new_backend <$> c_Backends cfg /\
  exists a, new_algorithm h (srv_pool s) (lb_Algorithm (c_LoadBalancer cfg))
      (lb_HashKey (c_LoadBalancer cfg)) = Ok a /\
    s = mkServer cfg (mkPool (seq 0 (length (c_Backends cfg)))) (Plain a) 0 0 0 0.
Proof.
  unfold NewTCPServer. rewrite make_pool_eq. cbn.
  destruct (new_algorithm _ _ _ _) as [a|] eqn:E; [|done].
  intros [= <- <-]. split; [done|]. by exists a.
Qed.

Lemma new_backend_lookup bs q :
  (q < length bs)%nat -> exists b, b ∈ bs /\ (new_backend <$> bs) !!! q = new_backend b.
Proof.
  intros [b Hb]%lookup_lt_is_Some. exists b. split; [by eapply list_elem_of_lookup_2|].
  by rewrite list_lookup_total_alt, list_lookup_fmap, Hb.
Qed.

Lemma make_pool_healthy bs :
  Healthy (new_backend <$> bs) (mkPool (seq 0 (length bs))) = seq 0 (length bs).
Proof.
  rewrite Healthy_filter. cbn. apply filter_all, Forall_forall. intros q Hq%elem_of_seq.
  unfold IsHealthy. destruct (new_backend_lookup bs q) as (b & _ & ->); [lia|done].
Qed.

(** The pool built from a configuration holds its backends in order: the name, address and
    weight of each. *)
Definition identities (h : heap) (p : Pool) : list (string * string * Z) :=
  (fun q => (Backend_Name h q, Backend_Address h q, Backend_Weight h q)) <$> backends p.

Lemma make_pool_identities bs :
  identities (new_backend <$> bs) (mkPool (seq 0 (length bs))) =
  (fun b => (b_Name b, b_Address b, b_Weight b)) <$> bs.
Proof.
  unfold identities. cbn. apply list_eq. intros i. rewrite !list_lookup_fmap.
  destruct (decide (i < length bs)%nat) as [Hi|Hi].
  - rewrite lookup_seq_lt by done. destruct (lookup_lt_is_Some_2 bs i Hi) as [b Hb].
    rewrite Hb. cbn. unfold Backend_Name, Backend_Address, Backend_Weight.
    by rewrite list_lookup_total_alt, list_lookup_fmap, Hb.
  - rewrite lookup_seq_ge by lia. by rewrite lookup_ge_None_2 by lia.
Qed.

Lemma make_pool_idle bs q :
  q ∈ seq 0 (length bs) -> ActiveConnections (new_backend <$> bs) q = 0.
Proof.
  intros Hq%elem_of_seq. unfold ActiveConnections.
  destruct (new_backend_lookup bs q) as (b & _ & ->); [lia|done].
Qed.

Lemma new_algorithm_Name h p alg key a : new_algorithm h p alg key = Ok a -> algorithm_Name a = alg.
Proof. unfold new_algorithm. repeat (case_bool_decide; [by intros [= <-]|]). done. Qed.

(** NewTCPServer succeeds exactly for the algorithm names that Validate accepts, and
    then its pool holds the configured backends in order with their names, addresses and
    weights, pairwise distinct, all healthy and without connections; for any other name
    it returns the unsupported-algorithm error. *)
Theorem NewTCPServer_builds (cfg : Config) :
  (lb_Algorithm (c_LoadBalancer cfg) ∈ validAlgorithms ->
   exists s h, NewTCPServer cfg = Ok (s, h) /\
     (fun q => (Backend_Name h q, Backend_Address h q, Backend_Weight h q)) <$> Pool_All (srv_pool s) =
       (fun b => (b_Name b, b_Address b, b_Weight b)) <$> c_Backends cfg /\
     Healthy h (srv_pool s) = Pool_All (srv_pool s) /\ NoDup (Pool_All (srv_pool s)) /\
     Forall (fun q => ActiveConnections h q = 0) (Pool_All (srv_pool s))) /\
  (lb_Algorithm (c_LoadBalancer cfg) ∉ validAlgorithms ->
   NewTCPServer cfg = Err (UnsupportedAlgorithm (lb_Algorithm (c_LoadBalancer cfg)))).
Proof.
  unfold NewTCPServer. rewrite make_pool_eq. cbn.
  pose proof (new_algorithm_valid (new_backend <$> c_Backends cfg)
    (mkPool (seq 0 (length (c_Backends cfg)))) (lb_Algorithm (c_LoadBalancer cfg))
    (lb_HashKey (c_LoadBalancer cfg))) as Hv.
  split; intros Ha.
  - destruct (proj2 Hv Ha) as [a ->]. eexists _, _. split; [done|]. cbn [srv_pool Pool_All backends].
    set (bs := c_Backends cfg). split_and!.
    + apply make_pool_identities.
    + apply make_pool_healthy.
    + apply NoDup_seq.
    + apply Forall_forall. apply make_pool_idle.
  - unfold new_algorithm. unfold validAlgorithms in Ha.
    repeat (rewrite bool_decide_false by set_solver). done.
Qed.

(** ** Reachable states *)

Definition p_start (s : Server) (h : heap) : pstate := mkPState s h [] 0.

Definition p_reach (cfg : Config) (ps : pstate) : Prop :=
  exists s h, NewTCPServer cfg = Ok (s, h) /\ rtc pstep (p_start s h) ps.

(** The weight the configuration gives to a backend. *)
Definition cfg_weight (cfg : Config) (q : bptr) : Z := Backend_Weight (new_backend <$> c_Backends cfg) q.

Lemma p_reach_inv cfg ps : p_reach cfg ps -> p_inv (length (c_Backends cfg)) (cfg_weight cfg) ps.
Proof.
  intros (s & h & (Hh & a & _ & ->)%NewTCPServer_eq & Hr).
  revert Hr. apply rtc_invariant; [by intros ??; apply p_inv_step|].
  split; cbn; subst h; rewrite ?length_fmap; try done.
  intros q Hq. unfold ActiveConnections. by destruct (new_backend_lookup _ q Hq) as (b & _ & ->).
Qed.

Lemma in_flight_le q cs : 0 <= in_flight q cs <= Z.of_nat (length cs).
Proof. unfold in_flight. pose proof (length_filter (counted q) cs). lia. Qed.

(** C13: In every state of a TCP server reachable by interleaving the phases of any
    number of connections (fewer than 2^63 accepted), the server counter equals the
    number of open connections and each backend counter equals the number of connections
    currently counted on it; when no connection is left all counters are back to 0, so
    failed dials and early returns leak nothing. *)
Theorem Server_accounting (cfg : Config) (ps : pstate) :
  p_reach cfg ps -> ps_accepted ps < 2 ^ 63 ->
  srv_activeConnections (ps_server ps) = Z.of_nat (length (ps_conns ps)) /\
  (forall q, (q < length (c_Backends cfg))%nat ->
     ActiveConnections (ps_heap ps) q = in_flight q (ps_conns ps)) /\
  (ps_conns ps = [] -> srv_activeConnections (ps_server ps) = 0 /\
     forall q, (q < length (c_Backends cfg))%nat -> ActiveConnections (ps_heap ps) q = 0).
Proof.
  intros [Hh Hw Hc Ha Hn]%p_reach_inv Hb.
  assert (forall q, (q < length (c_Backends cfg))%nat ->
    ActiveConnections (ps_heap ps) q = in_flight q (ps_conns ps)) as Hq.
  { intros q Hq. pose proof (in_flight_le q (ps_conns ps)). rewrite Hc by done. apply i64_small. lia. }
  rewrite Ha, i64_small by lia. split; [done|]. split; [done|].
  intros Hnil. split; [by rewrite Hnil|]. intros q Hlt. rewrite Hq by done. by rewrite Hnil.
Qed.

(** ** Selection in a running server *)

(** What the algorithm of a server keeps after at most [n] selections: a counter that has
    not wrapped, or a ring from which backends may only have left. *)
Definition alg_inv (n : Z) (h : heap) (p : Pool) (a : algorithm) : Prop :=
  match a with
  | ARoundRobin s => in_u 64 (rr_current s)
  | AWeightedRoundRobin s => exists k, 0 <= k <= n /\ wrr_current s = i64 k
  | ALeastConnections _ | AWeightedLeastConnections _ => True
  | AConsistentHash s => ring_tracks h p s /\ virtualNodes s = DefaultVirtualNodes
  | ABounded s => ring_tracks h p (bl_ch s) /\ virtualNodes (bl_ch s) = DefaultVirtualNodes
  end.

(** The type switch, for an algorithm without affinity. *)
Definition plain_select (h : heap) (p : Pool) (ip : string) (a : algorithm)
  : outcome (option bptr) * algorithm :=
  match a with
  | AConsistentHash s => map_snd AConsistentHash (ConsistentHash_SelectWithKey h p ip s)
  | ABounded s => map_snd ABounded (Bounded_SelectWithKey h p ip s)
  | _ => algorithm_Select h p a
  end.

Lemma select_plain h p ip t1 t2 a :
  select_backend h p ip t1 t2 (Plain a) = map_snd Plain (plain_select h p ip a).
Proof. by destruct a. Qed.

Lemma alg_inv_mono n m h p a : n <= m -> alg_inv n h p a -> alg_inv m h p a.
Proof. destruct a; cbn; try done. intros ? (k & ? & ?). exists k. split; [lia|done]. Qed.

Lemma alg_inv_select h p ip n a : alg_inv n h p a -> alg_inv (n + 1) h p (snd (plain_select h p ip a)).
Proof.
  destruct a as [[c]|[]|[c]|[]|ch|[ch lf]]; cbn; try done.
  - unfold RoundRobin_Select. intros Hc. case_match; cbn -[uwrap]; [done|]. apply uwrap_range; lia.
  - unfold WeightedRoundRobin_Select. intros (k & Hk & ->). cbn -[swrap].
    repeat (case_match; cbn -[swrap]).
    all: first [exists k; split; [lia|done] | exists (k + 1); split; [lia|by rewrite swrap_add_l by lia]].
  - rewrite SelectWithKey_snd. intros [[Hf ->]%rebuildRing_fresh Hv]. split; [by apply fresh_tracks|done].
  - rewrite Bounded_snd. cbn. intros [[Hf ->]%rebuildRing_fresh Hv]. split; [by apply fresh_tracks|done].
Qed.

Lemma alg_inv_shrinks n h h' p a : shrinks h h' -> alg_inv n h p a -> alg_inv n h' p a.
Proof. intros Hs. destruct a; cbn; try done; intros [Ht Hv]; eauto using ring_tracks_shrinks. Qed.

Lemma new_algorithm_inv h p alg key a : new_algorithm h p alg key = Ok a -> alg_inv 0 h p a.
Proof.
  unfold new_algorithm. repeat case_bool_decide; intros [= <-]; cbn; try done.
  - exists 0. done.
  - split; [apply fresh_tracks, NewConsistentHash_fresh|]. by apply rebuildRing_rebuilt; right.
  - split; [apply fresh_tracks, NewConsistentHash_fresh|]. by apply rebuildRing_rebuilt; right.
Qed.

Definition plain_inv (cfg : Config) (ps : pstate) : Prop :=
  srv_pool (ps_server ps) = mkPool (seq 0 (length (c_Backends cfg))) /\ 0 <= ps_accepted ps /\
  exists a, srv_balancer (ps_server ps) = Plain a /\
    alg_inv (ps_accepted ps) (ps_heap ps) (srv_pool (ps_server ps)) a.

Lemma hc_select_plain ip t1 t2 s h a :
  srv_balancer s = Plain a ->
  fst (hc_select ip t1 t2 s h) = fst (plain_select h (srv_pool s) ip a) /\
  srv_pool (snd (hc_select ip t1 t2 s h)) = srv_pool s /\
  srv_balancer (snd (hc_select ip t1 t2 s h)) = Plain (snd (plain_select h (srv_pool s) ip a)).
Proof.
  intros Hb. unfold hc_select. destruct s. cbn in *. subst.
  rewrite select_plain. unfold map_snd. destruct (plain_select _ _ _ a) as [[[b|]|] a']; done.
Qed.

(** Every step keeps addresses and weights and makes no backend healthy. *)
Lemma pstep_shrinks ps ps' : pstep ps ps' -> shrinks (ps_heap ps) (ps_heap ps').
Proof. intros []; cbn; try done; apply alter_shrinks; by intros []. Qed.

Lemma plain_inv_step cfg ps ps' : pstep ps ps' -> plain_inv cfg ps -> plain_inv cfg ps'.
Proof.
  intros Hst (Hp & Hn & a & Hb & Hc). pose proof (pstep_shrinks _ _ Hst) as Hs.
  destruct Hst as [ip t1 t2 s h cs n b s' Hsel|ip t1 t2 s h cs n s' Hsel| | | |]; cbn in *.
  1,2: destruct (hc_select_plain ip t1 t2 s h a Hb) as (_ & Hp' & Hb'); rewrite Hsel in Hp', Hb';
    split; cbn in *; [congruence|split; [lia|]]; eexists; split; [exact Hb'|];
    rewrite Hp'; by apply alg_inv_select.
  all: split; [done|split; [done|]]; exists a; split; [done|]; by eapply alg_inv_shrinks.
Qed.

Lemma p_reach_plain cfg ps : p_reach cfg ps -> plain_inv cfg ps.
Proof.
  intros (s & h & (_ & a & Ha & ->)%NewTCPServer_eq & Hr).
  revert Hr. apply rtc_invariant; [by intros ??; apply plain_inv_step|].
  split; [done|]. split; [cbn; lia|]. exists a. split; [done|]. by eapply new_algorithm_inv.
Qed.

(** The interface of the load balancers, for the algorithm a server holds. *)
Definition algorithm_ready (h : heap) (p : Pool) (a : algorithm) : Prop :=
  match a with
  | ARoundRobin s => ready h p s
  | ALeastConnections s => ready h p s
  | AWeightedRoundRobin s => ready h p s
  | AWeightedLeastConnections s => ready h p s
  | AConsistentHash s => ready h p s
  | ABounded s => ready h p s
  end.
#[export] Instance algorithm_laws : LoadBalancerLaws algorithm.
Proof.
  refine {| ready := algorithm_ready |}.
  intros h p [s|s|s|s|s|s] Hr; apply (Select_good h p s Hr).
Defined.

Lemma plain_select_good h p ip a : ready h p a -> good_selection h p (fst (plain_select h p ip a)).
Proof.
  destruct a as [s|s|s|s|s|s]; intros Hr; [exact (Select_good h p s Hr)..| |].
  - destruct Hr as [Ht Hv]. by apply SelectWithKey_good.
  - destruct Hr as (Ht & Hv & Hpos). by apply Bounded_good.
Qed.

Lemma weight_of_bounds h bs w :
  (forall b, b ∈ bs -> 1 <= Backend_Weight h b < w) ->
  Z.of_nat (length bs) <= weight_of h bs <= Z.of_nat (length bs) * w.
Proof.
  induction bs as [|b bs IH]; intros Hw; [done|]. cbn [length weight_of foldr].
  pose proof (Hw b ltac:(set_solver)). pose proof (IH ltac:(set_solver)).
  fold (weight_of h bs). rewrite Nat2Z.inj_succ, Z.mul_succ_l. lia.
Qed.

(** Every configured weight is between 1 and [w]. *)
Definition cfg_weights (w : Z) (cfg : Config) : Prop :=
  Forall (fun b => 1 <= b_Weight b < w) (c_Backends cfg).

Lemma cfg_weight_bounds w cfg q :
  cfg_weights w cfg -> (q < length (c_Backends cfg))%nat -> 1 <= cfg_weight cfg q < w.
Proof.
  intros Hw Hq. unfold cfg_weight, Backend_Weight.
  destruct (new_backend_lookup _ q Hq) as (b & Hb & ->). exact (proj1 (Forall_forall _ _) Hw b Hb).
Qed.

Lemma reach_healthy cfg ps q :
  plain_inv cfg ps -> q ∈ Healthy (ps_heap ps) (srv_pool (ps_server ps)) -> (q < length (c_Backends cfg))%nat.
Proof. intros [Hp _] [Hq _]%elem_of_Healthy. rewrite Hp in Hq. apply elem_of_seq in Hq. lia. Qed.

(** What holds of the backends a running server can select. *)
Lemma reach_load cfg ps q :
  p_inv (length (c_Backends cfg)) (cfg_weight cfg) ps -> cfg_weights (2 ^ 26) cfg ->
  ps_accepted ps < 2 ^ 26 -> (q < length (c_Backends cfg))%nat ->
  1 <= Backend_Weight (ps_heap ps) q < 2 ^ 26 /\ 0 <= ActiveConnections (ps_heap ps) q < 2 ^ 26.
Proof.
  intros [_ Hw Hc _ Hn] Hcw Hb Hq. rewrite Hw, Hc by done. split; [by apply cfg_weight_bounds|].
  pose proof (in_flight_le q (ps_conns ps)). rewrite i64_small by lia. lia.
Qed.

(** A pool whose healthy backends have bounded weights and loads meets the precondition
    of the algorithm that watches it. *)
Lemma pool_ready h p n a :
  (forall q, q ∈ Healthy h p ->
    1 <= Backend_Weight h q < 2 ^ 26 /\ 0 <= ActiveConnections h q < 2 ^ 26) ->
  Z.of_nat (length (backends p)) < 2 ^ 26 -> n < 2 ^ 26 -> alg_inv n h p a -> ready h p a.
Proof.
  intros Hq Hlen Hn Hc.
  assert (length (Healthy h p) <= length (backends p))%nat as Hl
    by (rewrite Healthy_filter; apply length_filter).
  pose proof (weight_of_bounds h (Healthy h p) (2 ^ 26) (fun b Hb => proj1 (Hq b Hb))) as Hwt.
  assert (has_vnodes DefaultVirtualNodes h (Healthy h p)) as Hv.
  { intros q Hb. destruct (Hq q Hb) as [? _]. unfold numVirtualNodes, DefaultVirtualNodes.
    zcases. rewrite i64_small; lia. }
  destruct a as [s|s|s|s|s|s]; cbn in Hc |- *; try done.
  - intros q Hb. apply Hq. done.
  - destruct Hc as (k & Hk & ->). rewrite i64_small by lia. split_and!; try lia.
    + intros q Hb. specialize (Hq q Hb). lia.
    + destruct (Healthy h p) as [|x l]; [by left|right]. cbn [length] in Hwt. lia.
  - intros q Hb. destruct (Hq q Hb). unfold small_load. lia.
  - destruct Hc as [Ht ->]. done.
  - destruct Hc as [Ht ->]. split_and!; [done..|]. intros q Hb. apply Hq. done.
Qed.

(** C14: End to end: a TCP server built from a configuration, with any of the six
    algorithms, weights at least 1 and bounded sizes (fewer than 2^26 backends, weights
    and connections ever accepted), in every reachable state selects a healthy backend
    of its pool for the next connection, reports none only when none is healthy, and
    never panics; for the hashing algorithms this holds because a running server's
    backends only leave, so that comparing the number of backends notices every change
    of the ring. *)
Theorem Server_selects_healthy (cfg : Config) (ps : pstate) (ip : string) (t1 t2 : time) :
  cfg_weights (2 ^ 26) cfg ->
  Z.of_nat (length (c_Backends cfg)) < 2 ^ 26 -> p_reach cfg ps -> ps_accepted ps < 2 ^ 26 ->
  good_selection (ps_heap ps) (srv_pool (ps_server ps))
    (fst (hc_select ip t1 t2 (ps_server ps) (ps_heap ps))).
Proof.
  intros Hw Hlen Hr Hn. pose proof (p_reach_plain cfg ps Hr) as Hp.
  pose proof Hp as (Hpool & Hpos & a & Ha & Hc).
  rewrite (proj1 (hc_select_plain ip t1 t2 _ _ a Ha)).
  apply plain_select_good, (pool_ready _ _ (ps_accepted ps)); [|by rewrite Hpool; cbn; rewrite length_seq|done..].
  intros q Hq%(reach_healthy cfg ps q Hp). eapply reach_load; try done. by apply p_reach_inv.
Qed.

(** ** Backends that left the rotation *)

Lemma rtc_pstep_healthy ps ps' q :
  rtc pstep ps ps' -> IsHealthy (ps_heap ps') q = true -> IsHealthy (ps_heap ps) q = true.
Proof. induction 1 as [|ps1 ps2 ps3 Hs _ IH]; [done|]. intros Hq%IH. by apply (pstep_shrinks _ _ Hs q). Qed.

Lemma plain_select_none h p ip n a :
  alg_inv n h p a -> Healthy h p = [] -> fst (plain_select h p ip a) = Ret None.
Proof.
  intros Hc He. destruct a as [[]|[]|[]|[]|ch|bl]; cbn;
    unfold RoundRobin_Select, LeastConnections_Select, WeightedRoundRobin_Select,
      WeightedLeastConnections_Select; rewrite ?He; try done.
  - by apply SelectWithKey_none; [apply Hc|].
  - by apply Bounded_none.
Qed.

Lemma p_reach_rtc cfg ps ps' : p_reach cfg ps -> rtc pstep ps ps' -> p_reach cfg ps'.
Proof. intros (s & h & ? & ?) ?. exists s, h. split; [done|]. by etrans. Qed.

(** Nothing the TCP server does makes an unhealthy backend healthy again: once a backend
    failed a dial it stays out of the rotation in all later states, and once all are out
    no later connection gets a backend. *)
Theorem Server_never_recovers (cfg : Config) (ps ps' : pstate) (ip : string) (t1 t2 : time) :
  p_reach cfg ps -> rtc pstep ps ps' ->
  (forall q, IsHealthy (ps_heap ps) q = false -> IsHealthy (ps_heap ps') q = false) /\
  (Healthy (ps_heap ps) (srv_pool (ps_server ps)) = [] ->
   fst (hc_select ip t1 t2 (ps_server ps') (ps_heap ps')) = Ret None).
Proof.
  intros Hr Hs. split.
  - intros q Hq. destruct (IsHealthy (ps_heap ps') q) eqn:E; [|done].
    apply (rtc_pstep_healthy ps ps' q Hs) in E. congruence.
  - intros He. pose proof (p_reach_plain cfg ps Hr) as (Hp & _).
    pose proof (p_reach_plain cfg ps' (p_reach_rtc _ _ _ Hr Hs)) as (Hp' & _ & a & Ha & Hc).
    rewrite (proj1 (hc_select_plain ip t1 t2 _ _ a Ha)). eapply plain_select_none; [done|].
    rewrite Healthy_filter in He |- *. rewrite Hp in He. rewrite Hp'. cbn in *.
    apply filter_none. apply Forall_forall. intros q Hq Hhq.
    apply (rtc_pstep_healthy ps ps' q Hs) in Hhq.
    assert (q ∈ filter (fun b => IsHealthy (ps_heap ps) b = true) (seq 0 (length (c_Backends cfg)))) as Hin
      by (apply list_elem_of_filter; done).
    rewrite He in Hin. set_solver.
Qed.

(** ** A concrete server: two backends, weighted round robin *)

Definition cfg_wrr : Config :=
  setDefaults (cfg_min <| c_LoadBalancer := mkLoadBalancerConfig "weighted-round-robin" "" |>
    <| c_Backends := [mkBackendConfig "a" "10.0.0.1:80" 3 0; mkBackendConfig "b" "10.0.0.2:80" 1 0] |>).
Definition srv_wrr : Server :=
  mkServer cfg_wrr (mkPool [0; 1]%nat) (Plain (AWeightedRoundRobin NewWeightedRoundRobin)) 0 0 0 0.
Definition heap_wrr : heap := [NewBackend "a" "10.0.0.1:80" 3; NewBackend "b" "10.0.0.2:80" 1].

(** After one connection whose dial to the first backend failed. *)
Definition ps_failed : pstate :=
  match handleConnection (fun _ => false) "192.0.2.1" 0 0 0 0 srv_wrr heap_wrr with
  | Ret (s, h) => mkPState s h [] 1
  | Panic => p_start srv_wrr heap_wrr
  end.
(** While a second connection is open on the second backend. *)
Definition ps_open : pstate :=
  mkPState (snd (hc_select "192.0.2.1" 0 0 (ps_server ps_failed) (ps_heap ps_failed)))
    (IncrementConnections 1 (ps_heap ps_failed)) [(Active, 1%nat)] 2.

Lemma ps_failed_reach : p_reach cfg_wrr ps_failed.
Proof.
  exists srv_wrr, heap_wrr. split; [by vm_compute|].
  eapply (handleConnection_steps (fun _ => false) "192.0.2.1" 0 0 0 0). by vm_compute.
Defined.

Lemma ps_open_reach : p_reach cfg_wrr ps_open.
Proof.
  apply (p_reach_rtc _ ps_failed); [apply ps_failed_reach|].
  eapply rtc_l; [|apply rtc_once, (p_increment _ (ps_heap ps_failed) [] [] 2 1)].
  apply (p_select "192.0.2.1" 0 0). by vm_compute.
Defined.

Lemma Server_accounting_witness :
  srv_activeConnections (ps_server ps_open) = 1 /\ ActiveConnections (ps_heap ps_open) 1 = 1.
Proof.
  destruct (Server_accounting cfg_wrr ps_open ps_open_reach) as (H1 & H2 & _); [by vm_compute|].
  split; [exact H1|]. rewrite (H2 1%nat) by (by vm_compute; lia). by vm_compute.
Defined.

(** The same with consistent hashing, after the dial to the selected backend failed. *)
Definition cfg_hash : Config := cfg_wrr <| c_LoadBalancer := mkLoadBalancerConfig "consistent-hash" "source-ip" |>.
Definition srv_hash : Server :=
  mkServer cfg_hash (mkPool [0; 1]%nat)
    (Plain (AConsistentHash (NewConsistentHash heap_wrr (mkPool [0; 1]%nat) DefaultVirtualNodes "source-ip"))) 0 0 0 0.
Definition handled (dial : string -> bool) (ip : string) (s : Server) (h : heap) : pstate :=
  match handleConnection dial ip 0 0 0 0 s h with
  | Ret (s, h) => mkPState s h [] 1
  | Panic => p_start s h
  end.

Lemma handled_reach cfg dial ip s h : NewTCPServer cfg = Ok (s, h) -> p_reach cfg (handled dial ip s h).
Proof.
  intros Hs. exists s, h. split; [done|]. unfold handled.
  destruct (handleConnection _ _ _ _ _ _ _ _) as [[s' h']|] eqn:E; [|done].
  by eapply handleConnection_steps.
Qed.

Definition ps_hash : pstate := handled (fun _ => false) "192.0.2.1" srv_hash heap_wrr.

Lemma ps_hash_reach : p_reach cfg_hash ps_hash.
Proof. apply handled_reach. vm_compute. reflexivity. Qed.

Lemma Server_selects_healthy_witness :
  good_selection (ps_heap ps_open) (srv_pool (ps_server ps_open))
    (fst (hc_select "192.0.2.7" 0 0 (ps_server ps_open) (ps_heap ps_open))) /\
  good_selection (ps_heap ps_hash) (srv_pool (ps_server ps_hash))
    (fst (hc_select "192.0.2.1" 0 0 (ps_server ps_hash) (ps_heap ps_hash))).
Proof.
  split; [refine (Server_selects_healthy cfg_wrr ps_open "192.0.2.7" 0 0 _ _ ps_open_reach _)|
    refine (Server_selects_healthy cfg_hash ps_hash "192.0.2.1" 0 0 _ _ ps_hash_reach _)].
  1,4: apply (bool_decide_unpack _); vm_compute; exact I.
  all: vm_compute; reflexivity.
Defined.

Lemma Server_never_recovers_witness : IsHealthy (ps_heap ps_open) 0 = false.
Proof.
  refine (proj1 (Server_never_recovers cfg_wrr ps_failed ps_open "" 0 0 ps_failed_reach _) 0%nat _).
  - eapply rtc_l; [|apply rtc_once, (p_increment _ (ps_heap ps_failed) [] [] 2 1)].
    apply (p_select "192.0.2.1" 0 0). by vm_compute.
  - vm_compute. reflexivity.
Defined.

Definition cfg_random : Config := cfg_wrr <| c_LoadBalancer := mkLoadBalancerConfig "random" "" |>.

Lemma NewTCPServer_builds_witness :
  NewTCPServer cfg_random = Err (UnsupportedAlgorithm (lb_Algorithm (c_LoadBalancer cfg_random))).
Proof.
  refine (proj2 (NewTCPServer_builds cfg_random) _). apply (bool_decide_unpack _). vm_compute. exact I.
Defined.
