(* ===== verification/HttpProxy.v ===== *)
(** * The HTTP reverse proxy (src/pkg/proxy/http.go)

    A request is counted, a backend is selected and counted, and the request is
    forwarded by the reverse proxy of package httputil (or, for a WebSocket, over
    a hijacked connection).  What the backend and the client connection do is an
    input; the rewriting of the request that NewSingleHostReverseProxy adds is
    written out for targets and requests without an encoded path. *)

From S2P Require Import Prelude GoStd GoFloat Backend Config Balancers ConsistentHash Affinity Router Proxy.

(** ** Reading the request *)

Definition isWebSocketRequest (r : HTTPRequest) : bool :=
  bool_decide (ToLower (Header_Get "Upgrade" (rq_Header r)) = "websocket") &&
  Contains (ToLower (Header_Get "Connection" (rq_Header r))) "upgrade".

Definition getClientIP (r : HTTPRequest) : string :=
  let xff := Header_Get "X-Forwarded-For" (rq_Header r) in
  let from_real :=
    let xri := Header_Get "X-Real-IP" (rq_Header r) in
    if negb (bool_decide (xri = "")) then xri
    else match SplitHostPort (rq_RemoteAddr r) with
         | None => rq_RemoteAddr r
         | Some ip => ip
         end in
  if negb (bool_decide (xff = "")) then
    match Split comma xff with
    | ip :: _ => TrimSpace ip
    | [] => from_real
    end
  else from_real.

Definition getScheme (r : HTTPRequest) : string :=
  if rq_TLS r then "https"
  else
    let scheme := Header_Get "X-Forwarded-Proto" (rq_Header r) in
    if negb (bool_decide (scheme = "")) then scheme else "http".

(** ** Construction *)

Record HTTPServer := mkHTTPServer {
  hs_config : Config;
  hs_pool : Pool;
  hs_balancer : lb_value;
  hs_router : option Router;
  totalRequests : Z;
  activeRequests : Z;
  hs_totalBytesReceived : Z;
  hs_totalBytesSent : Z;
  totalErrors : Z
}.
#[export] Instance eta_HTTPServer : Eta HTTPServer := fun s =>
  mkHTTPServer (hs_config s) (hs_pool s) (hs_balancer s) (hs_router s) (totalRequests s) (activeRequests s)
    (hs_totalBytesReceived s) (hs_totalBytesSent s) (totalErrors s).

(** The settings of the transport are read from [cfg.HTTP] without a check for
    nil, so a missing section panics. *)
Definition NewHTTPServer (sort_Slice : list RouteEntry -> list RouteEntry) (cfg : Config)
  : outcome (result server_error (HTTPServer * heap)) :=
  let '(h, p) := make_pool (c_Backends cfg) [] NewPool in
  match new_algorithm h p (lb_Algorithm (c_LoadBalancer cfg)) (lb_HashKey (c_LoadBalancer cfg)) with
  | Err e => Ret (Err e)
  | Ok a =>
      match c_HTTP cfg with
      | None => Panic
      | Some http =>
          let rt := if (0 <? length (http_Routes http))%nat
                    then Some (NewRouter sort_Slice h (http_Routes http) p) else None in
          Ret (Ok (mkHTTPServer cfg p (Plain a) rt 0 0 0 0 0, h))
      end
  end.

(** ** The request sent to the backend *)

Definition singleJoiningSlash (a b : string) : string :=
  let aslash := HasSuffix a "/" in
  let bslash := HasPrefix b "/" in
  if aslash && bslash then a +:+ str_drop 1 b
  else if negb aslash && negb bslash then a +:+ "/" +:+ b
  else a +:+ b.

(** The director of NewSingleHostReverseProxy for a target with this path and
    query. *)
Definition rewriteRequestURL (path query : string) (r : HTTPRequest) : HTTPRequest :=
  r <| rq_Path ::= singleJoiningSlash path |>
    <| rq_RawQuery ::= fun q =>
         if bool_decide (query = "") || bool_decide (q = "") then query +:+ q
         else query +:+ "&" +:+ q |>.

(** The director of [handleRequest]: the target is built from the request [r]. *)
Definition director (r : HTTPRequest) (clientIP : string) (req : HTTPRequest) : HTTPRequest :=
  let req := rewriteRequestURL (rq_Path r) (rq_RawQuery r) req in
  req <| rq_Header ::= fun h =>
    Header_Set "X-Real-IP" clientIP
      (Header_Set "X-Forwarded-Proto" (getScheme r)
        (Header_Set "X-Forwarded-Host" (rq_Host r)
          (Header_Set "X-Forwarded-For" clientIP h))) |>.

(** ** Handling a request *)

(** What forwarding does: the backend answers, or the error handler runs. *)
Inductive proxied := Answered | BackendError.

(** What happens on the WebSocket path, in order. *)
Inductive ws_result :=
| WsDialFailed
| WsNoHijacker
| WsHijackFailed
| WsWriteFailed
| WsProxied (sent received : Z).

(** What the client gets; [FromBackend] carries the request as the director leaves it (the
    reverse proxy of the library then treats hop-by-hop headers and appends the address
    of the peer to X-Forwarded-For). *)
Inductive response :=
| FromBackend (req : HTTPRequest)
| Upgraded
| Dropped
| Status (code : Z).

Definition count_error (s : HTTPServer) : HTTPServer := s <| totalErrors ::= fun n => i64 (n + 1) |>.

(** The type switch, as in the TCP server. *)
Definition http_select (clientIP : string) (t1 t2 : time) (s : HTTPServer) (h : heap)
  : outcome (option bptr) * HTTPServer :=
  let '(r, b) := select_backend h (hs_pool s) clientIP t1 t2 (hs_balancer s) in (r, s <| hs_balancer := b |>).

Definition proxyWebSocket (sent received : Z) (s : HTTPServer) : HTTPServer :=
  s <| hs_totalBytesSent ::= fun n => i64 (n + sent) |>
    <| hs_totalBytesReceived ::= fun n => i64 (n + received) |>.

Definition handleWebSocket (ws : ws_result) (t1 t2 : time) (r : HTTPRequest) (s : HTTPServer) (h : heap)
  : outcome (response * HTTPServer * heap) :=
  match http_select (getClientIP r) t1 t2 s h with
  | (Panic, _) => Panic
  | (Ret None, s) => Ret (Status 503, count_error s, h)
  | (Ret (Some b), s) =>
      let h := IncrementConnections b h in
      let '(resp, s, h) :=
        match ws with
        | WsDialFailed => (Status 502, count_error s, MarkUnhealthy b h)
        | WsNoHijacker => (Status 500, count_error s, h)
        | WsHijackFailed => (Status 500, count_error s, h)
        | WsWriteFailed => (Dropped, count_error s, h)
        | WsProxied sent received => (Upgraded, proxyWebSocket sent received s, h)
        end in
      Ret (resp, s, DecrementConnections b h)
  end.

(** [EnableWebSocket] is read from [config.HTTP], which panics when it is nil. *)
Definition handleRequest (px : proxied) (ws : ws_result) (t1 t2 : time) (r : HTTPRequest)
    (s : HTTPServer) (h : heap) : outcome (response * HTTPServer * heap) :=
  let s := s <| totalRequests ::= fun n => i64 (n + 1) |> <| activeRequests ::= fun n => i64 (n + 1) |> in
  let finish (o : outcome (response * HTTPServer * heap)) :=
    match o with
    | Ret (resp, s, h) => Ret (resp, s <| activeRequests ::= fun n => i64 (n + -1) |>, h)
    | Panic => Panic
    end in
  match c_HTTP (hs_config s) with
  | None => Panic
  | Some http =>
      if http_EnableWebSocket http && isWebSocketRequest r then finish (handleWebSocket ws t1 t2 r s h)
      else
        let clientIP := getClientIP r in
        finish
          match http_select clientIP t1 t2 s h with
          | (Panic, _) => Panic
          | (Ret None, s) => Ret (Status 503, count_error s, h)
          | (Ret (Some b), s) =>
              let h := IncrementConnections b h in
              let '(resp, s, h) :=
                match px with
                | Answered => (FromBackend (director r clientIP r), s, h)
                | BackendError => (Status 502, count_error s, MarkUnhealthy b h)
                end in
              Ret (resp, s, DecrementConnections b h)
          end
  end.

(** ** The request sent to the backend *)

(** The headers the proxy sets. *)
Definition forwarded_keys : list string :=
  ["X-Forwarded-For"; "X-Forwarded-Host"; "X-Forwarded-Proto"; "X-Real-Ip"].

Lemma canonical_forwarded :
  CanonicalHeaderKey "X-Forwarded-For" = "X-Forwarded-For" /\
  CanonicalHeaderKey "X-Forwarded-Host" = "X-Forwarded-Host" /\
  CanonicalHeaderKey "X-Forwarded-Proto" = "X-Forwarded-Proto" /\
  CanonicalHeaderKey "X-Real-IP" = "X-Real-Ip".
Proof. vm_compute. auto. Qed.

Lemma director_path r ip req :
  rq_Path (director r ip req) = singleJoiningSlash (rq_Path r) (rq_Path req) /\
  rq_RawQuery (director r ip req) =
    (if bool_decide (rq_RawQuery r = "") || bool_decide (rq_RawQuery req = "")
     then rq_RawQuery r +:+ rq_RawQuery req else rq_RawQuery r +:+ "&" +:+ rq_RawQuery req).
Proof. by destruct req. Qed.

Lemma director_header r ip req :
  rq_Header (director r ip req) =
  <["X-Real-Ip" := [ip]]> (<["X-Forwarded-Proto" := [getScheme r]]>
    (<["X-Forwarded-Host" := [rq_Host r]]> (<["X-Forwarded-For" := [ip]]> (rq_Header req)))).
Proof.
  destruct canonical_forwarded as (H1 & H2 & H3 & H4). destruct req. unfold director, Header_Set. cbn.
  by rewrite H1, H2, H3, H4.
Qed.

(** The request that reaches the backend of a request [r]: the forwarding headers carry the
    address of the client, the host and the scheme, all other headers are kept, and the path
    and the query are those of the request twice over (a slash between the two shared). *)
Record forwarded (r out : HTTPRequest) : Prop := {
  fw_for : rq_Header out !! "X-Forwarded-For" = Some [getClientIP r];
  fw_real : rq_Header out !! "X-Real-Ip" = Some [getClientIP r];
  fw_host : rq_Header out !! "X-Forwarded-Host" = Some [rq_Host r];
  fw_proto : rq_Header out !! "X-Forwarded-Proto" = Some [if rq_TLS r then "https"
    else let p := Header_Get "X-Forwarded-Proto" (rq_Header r) in if bool_decide (p = "") then "http" else p];
  fw_others k : k ∉ forwarded_keys -> rq_Header out !! k = rq_Header r !! k;
  fw_path : HasPrefix (rq_Path r) "/" = true ->
    rq_Path out = rq_Path r +:+ (if HasSuffix (rq_Path r) "/" then str_drop 1 (rq_Path r) else rq_Path r);
  fw_query : rq_RawQuery out =
    (if bool_decide (rq_RawQuery r = "") then "" else rq_RawQuery r +:+ "&" +:+ rq_RawQuery r)
}.

Lemma director_forwarded r : forwarded r (director r (getClientIP r) r).
Proof.
  destruct (director_path r (getClientIP r) r) as [Hp Hq].
  split; rewrite ?Hp, ?Hq, ?director_header; try (by simplify_map_eq).
  - simplify_map_eq. unfold getScheme. destruct (rq_TLS r); [done|]. by case_bool_decide.
  - intros k Hk. unfold forwarded_keys in Hk. rewrite !lookup_insert_ne; [done|set_solver..].
  - intros Hs. unfold singleJoiningSlash. rewrite Hs. destruct (HasSuffix (rq_Path r) "/"); done.
  - case_bool_decide as He; [by rewrite He|]. done.
Qed.

(** ** What a request leaves behind *)

(** Counters that fit an int64, as they always do. *)
Definition heap_ok (h : heap) : Prop := Forall (fun b => in_s 64 (activeConnections b)) h.

(** Two updates of the same backend, in turn. *)
Lemma alter_alter (f g : Backend -> Backend) (b : bptr) (h : heap) (k : Backend -> Backend) :
  (forall x, h !! b = Some x -> f (g x) = k x) -> alter f b (alter g b h) = alter k b h.
Proof.
  intros Hfg. apply list_eq. intros i. destruct (decide (i = b)) as [->|Hne].
  - rewrite !list_lookup_alter_eq. destruct (h !! b) as [x|]; cbn; [|done]. f_equal. by apply Hfg.
  - by rewrite !list_lookup_alter_ne.
Qed.

Lemma increment_decrement b h : heap_ok h -> DecrementConnections b (IncrementConnections b h) = h.
Proof.
  intros Hh. unfold DecrementConnections, IncrementConnections. rewrite (alter_alter _ _ b h (fun x => x)).
  - apply list_eq. intros i. destruct (decide (i = b)) as [->|Hne]; [|by rewrite list_lookup_alter_ne].
    rewrite list_lookup_alter_eq. by destruct (h !! b).
  - intros [nm ad w c hl] Hx. cbn. f_equal.
    assert (in_s 64 c) as Hc by (apply (Forall_lookup_1 _ _ _ _ Hh Hx)).
    replace (i64 (c + 1) - 1) with (i64 (c + 1) + -1) by lia.
    rewrite swrap_add_l by lia. replace (c + 1 + -1) with c by lia. apply swrap_small; [lia|done].
Qed.

Lemma mark_decrement b h :
  DecrementConnections b (MarkUnhealthy b h) = MarkUnhealthy b (DecrementConnections b h).
Proof.
  unfold DecrementConnections, MarkUnhealthy.
  set (k := fun x : Backend => mkBackend (name x) (address x) (weight x) (i64 (activeConnections x - 1)) false).
  rewrite (alter_alter _ _ b h k), (alter_alter _ _ b h k); [done|by intros []|by intros []].
Qed.

Definition bad_gateway (r : response) : bool := match r with Status c => c =? 502 | _ => false end.
Definition is_error (r : response) : bool :=
  match r with Status _ | Dropped => true | FromBackend _ | Upgraded => false end.

(** The counters after a request with the response [resp]. *)
Record settled (resp : response) (s s' : HTTPServer) : Prop := {
  st_total : totalRequests s' = i64 (totalRequests s + 1);
  st_active : activeRequests s' = activeRequests s;
  st_errors : totalErrors s' = if is_error resp then i64 (totalErrors s + 1) else totalErrors s;
  st_pool : hs_pool s' = hs_pool s;
  st_config : hs_config s' = hs_config s
}.

Lemma active_back n : in_s 64 n -> i64 (i64 (n + 1) + -1) = n.
Proof.
  intros Hn. rewrite swrap_add_l by lia. replace (n + 1 + -1) with n by lia. by apply swrap_small.
Qed.

(** The request asks for a WebSocket and the configuration allows it. *)
Definition upgrades (r : HTTPRequest) (s : HTTPServer) : bool :=
  match c_HTTP (hs_config s) with
  | Some http => http_EnableWebSocket http && isWebSocketRequest r
  | None => false
  end.

(** What the client gets once a backend is selected, from what the network does. *)
Definition response_for (px : proxied) (ws : ws_result) (r : HTTPRequest) (upgrade : bool)
    (resp : response) : Prop :=
  if upgrade then
    resp = match ws with
           | WsDialFailed => Status 502
           | WsNoHijacker | WsHijackFailed => Status 500
           | WsWriteFailed => Dropped
           | WsProxied _ _ => Upgraded
           end
  else match px with
       | Answered => exists out, resp = FromBackend out /\ forwarded r out
       | BackendError => resp = Status 502
       end.

(** The bytes of an upgraded connection, in both directions. *)
Definition bytes_for (ws : ws_result) (resp : response) (s s' : HTTPServer) : Prop :=
  match resp, ws with
  | Upgraded, WsProxied sent received =>
      hs_totalBytesSent s' = i64 (hs_totalBytesSent s + sent) /\
      hs_totalBytesReceived s' = i64 (hs_totalBytesReceived s + received)
  | _, _ => hs_totalBytesSent s' = hs_totalBytesSent s /\
      hs_totalBytesReceived s' = hs_totalBytesReceived s
  end.


(** ** Client addresses *)

(** The client address is the trimmed first element of X-Forwarded-For if that header is
    present, else X-Real-IP, else the host part of the remote address (the whole address
    when it has no port). *)
Theorem getClientIP_sources (r : HTTPRequest) (first rest : string) :
  lacks comma first ->
  (Header_Get "X-Forwarded-For" (rq_Header r) = first +:+ String comma rest \/
   (Header_Get "X-Forwarded-For" (rq_Header r) = first /\ first <> "") ->
   getClientIP r = TrimSpace first) /\
  (Header_Get "X-Forwarded-For" (rq_Header r) = "" -> Header_Get "X-Real-IP" (rq_Header r) <> "" ->
   getClientIP r = Header_Get "X-Real-IP" (rq_Header r)) /\
  (Header_Get "X-Forwarded-For" (rq_Header r) = "" -> Header_Get "X-Real-IP" (rq_Header r) = "" ->
   getClientIP r = default (rq_RemoteAddr r) (SplitHostPort (rq_RemoteAddr r))).
Proof.
  intros Hl. unfold getClientIP. split; [|split].
  - intros [->|[-> Hne]].
    + rewrite bool_decide_false by (by destruct first). cbn [negb].
      destruct (Split_first comma first rest Hl) as [l ->]. done.
    + rewrite bool_decide_false by done. cbn [negb]. by rewrite Split_lacks.
  - intros -> Hx. rewrite bool_decide_true by done. cbn [negb]. by rewrite bool_decide_false.
  - intros -> ->. rewrite !bool_decide_true by done. cbn [negb]. by destruct (SplitHostPort (rq_RemoteAddr r)).
Qed.

(** ** Building the server *)

Lemma default_http_some mode h : mode = "http" \/ h <> None -> default_http mode h <> None.
Proof.
  unfold default_http. intros Hm. destruct h; [done|]. destruct Hm as [-> |]; [|done]. done.
Qed.

(** What loading and validating a configuration leaves for the servers. *)
Lemma loaded_config {E1 E2} (readFile : string -> result E1 (list Z))
    (unmarshal : list Z -> result E2 Config) (path : string) (c c' : Config) :
  Load readFile unmarshal path = Ok c -> Validate c = (None, c') ->
  (c_Mode c' = "tcp" \/ c_Mode c' = "http") /\ c_Backends c' <> [] /\
  lb_Algorithm (c_LoadBalancer c') ∈ validAlgorithms /\
  (c_Mode c' = "http" -> c_HTTP c' <> None).
Proof.
  unfold Load. destruct (readFile path) as [data|]; [|done]. destruct (unmarshal data) as [c0|]; [|done].
  intros [= <-] Hv. pose proof (Validate_None (setDefaults c0)) as Hd.
  pose proof (Validate_result (setDefaults c0)) as Hr. rewrite Hv in Hd, Hr. cbn [fst snd] in Hd, Hr.
  destruct (proj1 Hd eq_refl) as [Hmode Hne _ Halg%algorithm_listed _ _]. rewrite (Hr eq_refl). clear Hd Hr Hv.
  assert (c_Mode (setDefaults c0) = "http" -> c_HTTP (setDefaults c0) <> None) as Hhttp.
  { destruct c0. rewrite setDefaults_eq in *. cbn in *. intros Hm. apply default_http_some. by left. }
  revert Hmode Hne Hhttp Halg. generalize (setDefaults c0). intros cfg Hmode Hne Hhttp Halg.
  destruct cfg as [? ? ? [] ? ? ? ? ? ? ? ? ? ? ?]. cbn in *. split_and!; try done.
  by destruct (is_hashing _).
Qed.

Lemma NewHTTPServer_ok (sort_Slice : list RouteEntry -> list RouteEntry) (cfg : Config) :
  lb_Algorithm (c_LoadBalancer cfg) ∈ validAlgorithms -> c_HTTP cfg <> None ->
  exists s h a, NewHTTPServer sort_Slice cfg = Ret (Ok (s, h)) /\ hs_config s = cfg /\
    h = new_backend <$> c_Backends cfg /\ hs_pool s = mkPool (seq 0 (length (c_Backends cfg))) /\
    hs_balancer s = Plain a /\ algorithm_Name a = lb_Algorithm (c_LoadBalancer cfg).
Proof.
  intros Halg Hhttp. unfold NewHTTPServer. rewrite make_pool_eq. cbn.
  destruct (proj2 (new_algorithm_valid (new_backend <$> c_Backends cfg)
    (mkPool (seq 0 (length (c_Backends cfg)))) (lb_Algorithm (c_LoadBalancer cfg))
    (lb_HashKey (c_LoadBalancer cfg)))) as [a Ha]; [done|].
  rewrite Ha. destruct (c_HTTP cfg) as [http|]; [|done]. eexists _, _, a. split; [done|].
  split_and!; try done. by eapply new_algorithm_Name.
Qed.

(** A loaded and validated configuration in http mode always gives an HTTP server: the
    unchecked access to the HTTP section cannot panic and the algorithm is supported;
    all backends start healthy. *)
Theorem NewHTTPServer_loaded {E1 E2} (readFile : string -> result E1 (list Z))
    (unmarshal : list Z -> result E2 Config) (path : string) (sort_Slice : list RouteEntry -> list RouteEntry)
    (c c' : Config) :
  Load readFile unmarshal path = Ok c -> Validate c = (None, c') -> c_Mode c' = "http" ->
  exists s h, NewHTTPServer sort_Slice c' = Ret (Ok (s, h)) /\ hs_config s = c' /\
    Healthy h (hs_pool s) = backends (hs_pool s) /\ length (backends (hs_pool s)) = length (c_Backends c').
Proof.
  intros Hl Hv Hm. destruct (loaded_config _ _ _ _ _ Hl Hv) as (_ & _ & Halg & Hhttp).
  destruct (NewHTTPServer_ok sort_Slice c') as (s & h & a & Hs & Hc & -> & Hp & _); auto.
  exists s, (new_backend <$> c_Backends c'). rewrite Hp. cbn.
  split_and!; [done..|apply make_pool_healthy|apply length_seq].
Qed.

(** ** Instances of the theorems *)

Definition cfg_http : Config := setDefaults (cfg_min <| c_Mode := "http" |>
  <| c_LoadBalancer := mkLoadBalancerConfig "round-robin" "" |>).
Definition req1 : HTTPRequest :=
  mkHTTPRequest "example.com" "/api" "x=1" {["X-Forwarded-For" := ["203.0.113.9, 10.0.0.1"]]} "10.0.0.1:5000" false.
Definition srv_http : HTTPServer :=
  mkHTTPServer cfg_http pool3 (Plain (ARoundRobin NewRoundRobin)) None 0 0 0 0 0.


(** A request that the backend answers: the client reaches it under the doubled path. *)
Example handleRequest_doubles_path :
  match handleRequest Answered WsDialFailed 0 0 req1 srv_http heap3 with
  | Ret (FromBackend out, _, h') => rq_Path out = "/api/api" /\ h' = heap3
  | _ => False
  end.
Proof. vm_compute. auto. Qed.

Lemma getClientIP_sources_witness : getClientIP req1 = TrimSpace "203.0.113.9".
Proof.
  apply (getClientIP_sources req1 "203.0.113.9" " 10.0.0.1").
  - repeat (apply lacks_cons; split; [done|]). by intros [].
  - left. reflexivity.
Defined.

Lemma NewHTTPServer_loaded_witness :
  exists s h, NewHTTPServer (fun l => l) (snd (Validate cfg_http)) = Ret (Ok (s, h)).
Proof.
  destruct (NewHTTPServer_loaded (E1:=unit) (E2:=unit) (fun _ => Ok []) (fun _ => Ok (cfg_min <| c_Mode := "http" |>
    <| c_LoadBalancer := mkLoadBalancerConfig "round-robin" "" |>)) "balance.yaml" (fun l => l) cfg_http
    (snd (Validate cfg_http))) as (s & h & H & _).
  - reflexivity.
  - vm_compute. reflexivity.
  - vm_compute. reflexivity.
  - exists s, h. exact H.
Defined.
