(* ===== verification/HttpFront.v ===== *)
(** * The front of the HTTP proxy (src/pkg/proxy/http.go, the multiplexer of [NewHTTPServer])

    [handleRequest] is registered under [/] of a [http.ServeMux], so that the multiplexer
    decides which requests reach it. *)

From S2P Require Import Prelude GoStd Mux Backend HttpProxy.

Inductive front_response :=
| Served (resp : response)
| Redirected (location : string)
| Refused.

(** The path of the request line decides; the request the handler sees is [r]. *)
Definition HTTPServer_ServeHTTP (px : proxied) (ws : ws_result) (t1 t2 : time) (method path : string)
    (r : HTTPRequest) (s : HTTPServer) (h : heap) : outcome (front_response * HTTPServer * heap) :=
  match ServeMux ["/"] method path with
  | Handler _ =>
      '(resp, s, h) ← handleRequest px ws t1 t2 r s h; Ret (Served resp, s, h)
  | MovedPermanently location => Ret (Redirected location, s, h)
  | BadRequestTarget | NoHandler => Ret (Refused, s, h)
  end.

(** The multiplexer in front of handleRequest decides what is proxied: a request reaches
    handleRequest exactly when its path is clean or its method is CONNECT; any other
    path is answered with a redirect to its clean form, which is then handled, and the
    target * is refused; neither changes the server. *)
Theorem HTTPServer_front px ws t1 t2 method path r s h :
  let out := HTTPServer_ServeHTTP px ws t1 t2 method path r s h in
  (path <> "*" -> method = "CONNECT" \/ cleanPath path = path ->
     out = ('(resp, s, h) ← handleRequest px ws t1 t2 r s h; Ret (Served resp, s, h))) /\
  (path <> "*" -> method <> "CONNECT" -> cleanPath path <> path ->
     out = Ret (Redirected (cleanPath path), s, h) /\
     HTTPServer_ServeHTTP px ws t1 t2 method (cleanPath path) r s h =
       ('(resp, s, h) ← handleRequest px ws t1 t2 r s h; Ret (Served resp, s, h))) /\
  (path = "*" -> out = Ret (Refused, s, h)).
Proof.
  cbv zeta. unfold HTTPServer_ServeHTTP. split_and!.
  - intros Hp Hc. rewrite ServeMux_root, bool_decide_eq_false_2 by done.
    destruct Hc as [Hc|Hc]; rewrite (bool_decide_eq_true_2 _ Hc), ?orb_true_r; done.
  - intros Hp Hm Hc. assert (ServeMux ["/"] method path = MovedPermanently (cleanPath path)) as E
      by (by rewrite ServeMux_root, !bool_decide_eq_false_2).
    rewrite E. split; [done|]. apply ServeMux_follow in E as [-> _]. by rewrite mux_match_root.
  - intros ->. done.
Qed.

(** A request for a path with a doubled slash is not forwarded. *)
Example doubled_slash px ws r s h :
  HTTPServer_ServeHTTP px ws 0 0 "POST" "/api//users" r s h = Ret (Redirected "/api/users", s, h).
Proof. reflexivity. Qed.
