(* ===== verification/HttpServer.v ===== *)
(** * The HTTP server with concurrent requests (src/pkg/proxy/http.go)

    [HttpProxy] gives one request from start to end.  Here the requests of all clients
    interleave at the points where they touch shared state, together with the goroutine
    of [Start] and with [Shutdown].  The server of net/http is modelled as documented: a
    handler runs per request, [ListenAndServe] returns once [Shutdown] was called,
    [Shutdown] waits for the connections that were not hijacked, and the deferred calls of
    a handler that panics are run. *)

From S2P Require Import Prelude GoStd GoFloat Backend Config Balancers ConsistentHash.
From S2P Require Import Affinity Router Proxy HttpProxy.

(** ** Requests *)

(** Where a request stands: counted; with a backend, before [IncrementConnections]; being
    forwarded; hijacked, before the upgrade request is written; served, before
    [DecrementConnections]; before the deferred decrement of [activeRequests]; done. *)
Inductive qphase :=
| QCounted
| QSelected (b : bptr)
| QActive (b : bptr)
| QHijacked (b : bptr)
| QServed (b : bptr)
| QClosing
| QDone.

(** [q_ws]: it takes the WebSocket path; [q_hijacked]: its connection was taken over;
    [q_resp]: what the client got. *)
Record request := mkRequest {
  q_req : HTTPRequest;
  q_ws : bool;
  q_phase : qphase;
  q_hijacked : bool;
  q_resp : option response
}.
#[export] Instance eta_request : Eta request := fun q =>
  mkRequest (q_req q) (q_ws q) (q_phase q) (q_hijacked q) (q_resp q).

(** What happens to a request next: the code goes on; the backend answers, fails, or
    breaks off its answer (the reverse proxy then panics to abort the connection, and the
    deferred calls are run); on the WebSocket path the dial fails, the connection cannot be hijacked, it is hijacked, the
    upgrade request cannot be written, or both copies have ended. *)
Inductive event :=
| EGo (t1 t2 : time)
| EAnswered
| EBackendError
| EAborted
| EDialFailed
| ENotHijacked
| EHijacked
| EWriteFailed
| EProxied (sent received : Z).

(** The handler is entered: both counters grow; a missing HTTP section panics at the test
    for WebSockets, and then only the deferred calls remain. *)
Definition request_begins (r : HTTPRequest) (s : HTTPServer) : request * HTTPServer :=
  let s := s <| totalRequests ::= fun n => i64 (n + 1) |>
             <| activeRequests ::= fun n => i64 (n + 1) |> in
  (match c_HTTP (hs_config s) with
   | None => mkRequest r false QClosing false None
   | Some http => mkRequest r (http_EnableWebSocket http && isWebSocketRequest r) QCounted false None
   end, s).

Definition request_step (e : event) (q : request) (s : HTTPServer) (h : heap)
  : option (request * HTTPServer * heap) :=
  match q_phase q, e with
  | QCounted, EGo t1 t2 =>
      match http_select (getClientIP (q_req q)) t1 t2 s h with
      | (Panic, s) => Some (q <| q_phase := QClosing |>, s, h)
      | (Ret None, s) =>
          Some (q <| q_phase := QClosing |> <| q_resp := Some (Status 503) |>, count_error s, h)
      | (Ret (Some b), s) => Some (q <| q_phase := QSelected b |>, s, h)
      end
  | QSelected b, EGo _ _ => Some (q <| q_phase := QActive b |>, s, IncrementConnections b h)
  | QActive b, EAnswered =>
      if q_ws q then None
      else Some (q <| q_phase := QServed b |>
                   <| q_resp := Some (FromBackend (director (q_req q) (getClientIP (q_req q)) (q_req q))) |>, s, h)
  | QActive b, EBackendError =>
      if q_ws q then None
      else Some (q <| q_phase := QServed b |> <| q_resp := Some (Status 502) |>, count_error s,
                 MarkUnhealthy b h)
  | QActive b, EAborted => if q_ws q then None else Some (q <| q_phase := QServed b |>, s, h)
  | QActive b, EDialFailed =>
      if q_ws q
      then Some (q <| q_phase := QServed b |> <| q_resp := Some (Status 502) |>, count_error s,
                 MarkUnhealthy b h)
      else None
  | QActive b, ENotHijacked =>
      if q_ws q
      then Some (q <| q_phase := QServed b |> <| q_resp := Some (Status 500) |>, count_error s, h)
      else None
  | QActive b, EHijacked =>
      if q_ws q then Some (q <| q_phase := QHijacked b |> <| q_hijacked := true |>, s, h) else None
  | QHijacked b, EWriteFailed =>
      Some (q <| q_phase := QServed b |> <| q_resp := Some Dropped |>, count_error s, h)
  | QHijacked b, EProxied sent received =>
      Some (q <| q_phase := QServed b |> <| q_resp := Some Upgraded |>, proxyWebSocket sent received s, h)
  | QServed b, EGo _ _ => Some (q <| q_phase := QClosing |>, s, DecrementConnections b h)
  | QClosing, EGo _ _ =>
      Some (q <| q_phase := QDone |>, s <| activeRequests ::= fun n => i64 (n + -1) |>, h)
  | _, _ => None
  end.

(** ** Starting and stopping *)

(** The goroutine of [Start]: none; before [ListenAndServe]; serving; returned, before
    [wg.Done]; gone. *)
Inductive serve_pc := VNone | VSpawned | VServing | VReturned | VGone.
#[export] Instance serve_pc_eq_dec : EqDecision serve_pc.
Proof. solve_decision. Defined.

(** [Shutdown]: not called; before [cancelFunc]; before [server.Shutdown]; in it; before
    [CloseIdleConnections]; at [wg.Wait]; returned. *)
Inductive shutdown_pc := UNone | UCancel | UCall | UShutdown | UTransport | UWait | URet.
#[export] Instance shutdown_pc_eq_dec : EqDecision shutdown_pc.
Proof. solve_decision. Defined.

(** [opened]: the server has listened; [closing]: [server.Shutdown] was called; [drained]:
    it has returned without an error. *)
Record control := mkControl {
  serve : serve_pc;
  shut : shutdown_pc;
  wg : Z;
  ctx_cancelled : bool;
  opened : bool;
  closing : bool;
  drained : bool
}.
#[export] Instance eta_control : Eta control := fun c =>
  mkControl (serve c) (shut c) (wg c) (ctx_cancelled c) (opened c) (closing c) (drained c).

Definition HTTP_Start (c : control) : control := c <| wg := wg c + 1 |> <| serve := VSpawned |>.

(** [ListenAndServe]; [ok]: the address can be bound, [Accept] works. *)
Definition serve_step (ok : bool) (c : control) : option control :=
  match serve c with
  | VSpawned =>
      if closing c then Some (c <| serve := VReturned |>)
      else if ok then Some (c <| serve := VServing |> <| opened := true |>)
      else Some (c <| serve := VReturned |>)
  | VServing => if closing c || negb ok then Some (c <| serve := VReturned |>) else None
  | VReturned => Some (c <| wg := wg c - 1 |> <| serve := VGone |>)
  | VNone | VGone => None
  end.

(** A connection that net/http still waits for. *)
Definition waited_for (q : request) : bool :=
  negb (q_hijacked q) && match q_phase q with QDone => false | _ => true end.

(** [timeout]: the 30 seconds of the context are over. *)
Definition HTTP_Shutdown_step (timeout : bool) (qs : list request) (c : control) : option control :=
  match shut c with
  | UNone => Some (c <| shut := UCancel |>)
  | UCancel => Some (c <| ctx_cancelled := true |> <| shut := UCall |>)
  | UCall => Some (c <| closing := true |> <| shut := UShutdown |>)
  | UShutdown =>
      if timeout then Some (c <| shut := UTransport |>)
      else if existsb waited_for qs then None
      else Some (c <| drained := true |> <| shut := UTransport |>)
  | UTransport => Some (c <| shut := UWait |>)
  | UWait => if wg c =? 0 then Some (c <| shut := URet |>) else None
  | URet => None
  end.

(** ** The server as a whole *)

Record hstate := mkHState {
  h_server : HTTPServer;
  h_heap : heap;
  h_reqs : list request;
  h_ctl : control
}.
#[export] Instance eta_hstate : Eta hstate := fun s =>
  mkHState (h_server s) (h_heap s) (h_reqs s) (h_ctl s).

Inductive haction :=
| HStart
| HServe (ok : bool)
| HShutdown (timeout : bool)
| HBegin (r : HTTPRequest)
| HReq (i : nat) (e : event).

(** A request can begin on a connection once the server has listened and as long as
    net/http has not closed all connections. *)
Definition hrun1 (a : haction) (st : hstate) : option hstate :=
  match a with
  | HStart =>
      if bool_decide (serve (h_ctl st) = VNone /\ shut (h_ctl st) = UNone)
      then Some (st <| h_ctl ::= HTTP_Start |>) else None
  | HServe ok => c ← serve_step ok (h_ctl st); Some (st <| h_ctl := c |>)
  | HShutdown timeout =>
      c ← HTTP_Shutdown_step timeout (h_reqs st) (h_ctl st); Some (st <| h_ctl := c |>)
  | HBegin r =>
      if opened (h_ctl st) && negb (drained (h_ctl st)) then
        let '(q, s) := request_begins r (h_server st) in
        Some (st <| h_server := s |> <| h_reqs ::= fun l => l ++ [q] |>)
      else None
  | HReq i e =>
      q ← h_reqs st !! i;
      r ← request_step e q (h_server st) (h_heap st);
      let '(q, s, h) := r in
      Some (mkHState s h (<[i := q]> (h_reqs st)) (h_ctl st))
  end.

Definition hstep (st st' : hstate) : Prop := exists a, hrun1 a st = Some st'.

Definition h_start (s : HTTPServer) (h : heap) : hstate :=
  mkHState s h [] (mkControl VNone UNone 0 false false false false).

Definition h_reach (sort_Slice : list RouteEntry -> list RouteEntry) (cfg : Config) (st : hstate) : Prop :=
  exists s h, NewHTTPServer sort_Slice cfg = Ret (Ok (s, h)) /\ rtc hstep (h_start s h) st.

Fixpoint hrun (l : list haction) (st : hstate) : option hstate :=
  match l with
  | [] => Some st
  | a :: l => st ← hrun1 a st; hrun l st
  end.

Lemma hrun_reaches l st st' : hrun l st = Some st' -> rtc hstep st st'.
Proof.
  revert st. induction l as [|a l IH]; intros st Hr; cbn in Hr; [by simplify_eq|].
  destruct (hrun1 a st) as [s1|] eqn:Ha; [|done]. eapply rtc_l; [by exists a|by apply IH].
Qed.

(** ** Accounting *)

Definition holds (b : bptr) (q : request) : Z :=
  match q_phase q with
  | QActive b' | QHijacked b' | QServed b' => if decide (b' = b) then 1 else 0
  | _ => 0
  end.

Definition live (q : request) : Z := match q_phase q with QDone => 0 | _ => 1 end.

(** The client got an error, or its upgraded connection was dropped. *)
Definition errors (q : request) : Z :=
  match q_resp q with Some r => if is_error r then 1 else 0 | None => 0 end.

(** A request is answered at most once. *)
Definition unanswered (q : request) : Prop :=
  match q_phase q with
  | QCounted | QSelected _ | QActive _ | QHijacked _ => q_resp q = None
  | _ => True
  end.

(** Each of these counts a request at most once. *)
Lemma units q : (forall b, 0 <= holds b q <= 1) /\ 0 <= live q <= 1 /\ 0 <= errors q <= 1.
Proof.
  split_and!; [intros b; unfold holds; destruct (q_phase q); try case_decide; lia|..];
    unfold live, errors; repeat case_match; lia.
Qed.

Lemma http_select_fields ip t1 t2 s h :
  exists lb, snd (http_select ip t1 t2 s h) = s <| hs_balancer := lb |> /\
    fst (http_select ip t1 t2 s h) = fst (select_backend h (hs_pool s) ip t1 t2 (hs_balancer s)) /\
    lb = snd (select_backend h (hs_pool s) ip t1 t2 (hs_balancer s)).
Proof. unfold http_select. destruct (select_backend _ _ _ _ _ _) as [r lb]. by exists lb. Qed.

(** What one step does to the counters, wherever they stand. *)
Record counted_step (q q' : request) (s s' : HTTPServer) (h h' : heap) : Prop := {
  cs_answer : unanswered q';
  cs_total : totalRequests s' = totalRequests s;
  cs_active k : activeRequests s = i64 k -> activeRequests s' = i64 (k - live q + live q');
  cs_errors k : totalErrors s = i64 k -> totalErrors s' = i64 (k - errors q + errors q');
  cs_conns b k : (b < length h)%nat -> ActiveConnections h b = i64 k ->
    ActiveConnections h' b = i64 (k - holds b q + holds b q');
  cs_length : length h' = length h;
  cs_shrinks : shrinks h h'
}.

Lemma shrinks_refl h : shrinks h h.
Proof. by intros q. Qed.

Lemma add_wrapped k n d : n = i64 k -> i64 (n + d) = i64 (k + d).
Proof. intros ->. by rewrite swrap_add_l by lia. Qed.

(** An update of the selected backend, with its effect [d] on the count. *)
Lemma alter_conns (f : Backend -> Backend) (d : Z) b h q k :
  (forall x, weight (f x) = weight x) ->
  (forall x, activeConnections (f x) = i64 (activeConnections x + d)) ->
  (q < length h)%nat -> ActiveConnections h q = i64 k ->
  ActiveConnections (alter f b h) q = i64 (k + if decide (b = q) then d else 0).
Proof.
  intros Hw Hf Hq Hk.
  rewrite (proj2 (alter_fields f (fun n => i64 (n + d)) b h q Hw Hf) Hq), Hk.
  case_decide; [by rewrite swrap_add_l by lia|f_equal; lia].
Qed.

Lemma Increment_conns b h q k :
  (q < length h)%nat -> ActiveConnections h q = i64 k ->
  ActiveConnections (IncrementConnections b h) q = i64 (k + if decide (b = q) then 1 else 0).
Proof. apply alter_conns; by intros []. Qed.

Lemma Decrement_conns b h q k :
  (q < length h)%nat -> ActiveConnections h q = i64 k ->
  ActiveConnections (DecrementConnections b h) q = i64 (k + if decide (b = q) then -1 else 0).
Proof. apply alter_conns; by intros []. Qed.

Lemma MarkUnhealthy_conns b h q :
  (q < length h)%nat -> ActiveConnections (MarkUnhealthy b h) q = ActiveConnections h q.
Proof.
  intros Hq. unfold MarkUnhealthy. erewrite (proj2 (alter_fields _ (fun n => n) b h q _ _) Hq).
  by case_decide. Unshelve. all: by intros [].
Qed.

Lemma conn_update_shrinks b h :
  shrinks h (IncrementConnections b h) /\ shrinks h (DecrementConnections b h) /\
  shrinks h (MarkUnhealthy b h).
Proof. split_and!; apply alter_shrinks; by intros []. Qed.

(** Closes the goals of [counted_step] once the branch of the code is known. *)
Ltac count_step :=
  try done; try apply shrinks_refl; try (apply conn_update_shrinks); try apply length_alter;
  let k := fresh "k" in
  first
    [ intros k ->; rewrite ?swrap_add_l by lia; f_equal; lia
    | let b := fresh "b" in let Hb := fresh "Hb" in let Hk := fresh "Hk" in
      intros b k Hb Hk; rewrite ?MarkUnhealthy_conns by done;
      first [ rewrite Hk | rewrite (Increment_conns _ _ _ _ Hb Hk)
            | rewrite (Decrement_conns _ _ _ _ Hb Hk) ];
      f_equal; repeat case_decide; simplify_eq; lia ].

Lemma counted_request_step e q s h q' s' h' :
  unanswered q -> request_step e q s h = Some (q', s', h') -> counted_step q q' s s' h h'.
Proof.
  intros Hu Hs. unfold request_step in Hs.
  destruct q as [r ws ph hj rs], s as [cfg p lb rt tr ar br bs te].
  unfold unanswered in Hu. cbn in Hs, Hu.
  destruct ph as [|b|b|b|b| |], e; try done.
  1: destruct (http_select_fields (getClientIP r) t1 t2 (mkHTTPServer cfg p lb rt tr ar br bs te) h)
         as (lb' & Hsn & _ & _);
       destruct (http_select _ _ _ _ _) as [o s1]; cbn in Hsn; subst s1; destruct o as [[b|]|].
  all: try destruct ws; try done; simplify_eq/=; split; unfold live, errors, holds; cbn; count_step.
Qed.

Record h_inv (n0 : nat) (wt : bptr -> Z) (st : hstate) : Prop := {
  hi_heap : length (h_heap st) = n0;
  hi_weight q : Backend_Weight (h_heap st) q = wt q;
  hi_conns q : (q < n0)%nat -> ActiveConnections (h_heap st) q = i64 (sum_by (holds q) (h_reqs st));
  hi_total : totalRequests (h_server st) = i64 (Z.of_nat (length (h_reqs st)));
  hi_active : activeRequests (h_server st) = i64 (sum_by live (h_reqs st));
  hi_errors : totalErrors (h_server st) = i64 (sum_by errors (h_reqs st));
  hi_answers : Forall unanswered (h_reqs st)
}.

Lemma h_inv_begin n0 wt st r q s :
  h_inv n0 wt st -> request_begins r (h_server st) = (q, s) ->
  h_inv n0 wt (st <| h_server := s |> <| h_reqs ::= fun l => l ++ [q] |>).
Proof.
  intros [Hh Hw Hc Ht Ha He Hu] Hb. destruct st as [[cfg p lb rt tr ar br bs te] h qs c].
  cbn -[sum_by] in *. unfold request_begins in Hb. cbn in Hb. injection Hb as Hq <-.
  assert (unanswered q /\ live q = 1 /\ errors q = 0 /\ forall b, holds b q = 0) as (Hun & Hl & Hr & Ho).
  { subst q. by destruct (c_HTTP cfg). }
  split; cbn -[sum_by]; rewrite ?sum_by_snoc; try done.
  - intros b Hlt. rewrite sum_by_snoc, Hc, Ho by done. f_equal. lia.
  - rewrite Ht, swrap_add_l, length_app by lia. f_equal. cbn [length]. lia.
  - by rewrite Ha, swrap_add_l, Hl by lia.
  - rewrite He, Hr. f_equal. lia.
  - apply Forall_app. split; [done|]. by constructor.
Qed.

Lemma h_inv_request n0 wt st i e q q' s' h' :
  h_inv n0 wt st -> h_reqs st !! i = Some q ->
  request_step e q (h_server st) (h_heap st) = Some (q', s', h') ->
  h_inv n0 wt (mkHState s' h' (<[i := q']> (h_reqs st)) (h_ctl st)).
Proof.
  intros [Hh Hw Hc Ht Ha He Hu] Hi Hs.
  destruct (counted_request_step _ _ _ _ _ _ _ (Forall_lookup_1 _ _ _ _ Hu Hi) Hs) as [Ca Ct Cv Ce Cc Cl Cs].
  split; cbn -[sum_by].
  - by rewrite Cl.
  - intros b. rewrite <- Hw. apply Cs.
  - intros b Hb. rewrite (sum_by_insert _ _ _ _ _ Hi). apply Cc; [by rewrite Hh|by apply Hc].
  - by rewrite Ct, length_insert.
  - rewrite (sum_by_insert _ _ _ _ _ Hi). by apply Cv.
  - rewrite (sum_by_insert _ _ _ _ _ Hi). by apply Ce.
  - by apply Forall_insert.
Qed.

Lemma h_inv_step n0 wt a st st' : h_inv n0 wt st -> hrun1 a st = Some st' -> h_inv n0 wt st'.
Proof.
  intros Hi Hs. destruct a as [|ok|to|r|i e]; cbn in Hs.
  - case_bool_decide; simplify_eq. by destruct Hi.
  - destruct (serve_step _ _); simplify_eq/=. by destruct Hi.
  - destruct (HTTP_Shutdown_step _ _ _); simplify_eq/=. by destruct Hi.
  - destruct (_ && _); [|done]. destruct (request_begins r (h_server st)) as [q s] eqn:Hb.
    simplify_eq. by eapply h_inv_begin.
  - destruct (h_reqs st !! i) as [q|] eqn:Hq; [|done]. cbn in Hs.
    destruct (request_step e q (h_server st) (h_heap st)) as [[[q' s'] h']|] eqn:Hr; simplify_eq/=.
    by eapply h_inv_request.
Qed.

Lemma NewHTTPServer_eq sort_Slice cfg s h :
  NewHTTPServer sort_Slice cfg = Ret (Ok (s, h)) ->
  h = new_backend <$> c_Backends cfg /\ c_HTTP cfg <> None /\
  exists a rt, new_algorithm h (hs_pool s) (lb_Algorithm (c_LoadBalancer cfg))
      (lb_HashKey (c_LoadBalancer cfg)) = Ok a /\
    s = mkHTTPServer cfg (mkPool (seq 0 (length (c_Backends cfg)))) (Plain a) rt 0 0 0 0 0.
Proof.
  unfold NewHTTPServer. rewrite make_pool_eq. cbn.
  destruct (new_algorithm _ _ _ _) as [a|] eqn:E; [|done]. destruct (c_HTTP cfg); [|done].
  intros [= <- <-]. split_and!; [done..|]. by eexists _, _.
Qed.

Lemma h_inv_start sort_Slice cfg s h :
  NewHTTPServer sort_Slice cfg = Ret (Ok (s, h)) ->
  h_inv (length (c_Backends cfg)) (cfg_weight cfg) (h_start s h).
Proof.
  intros (Hh & _ & a & rt & _ & ->)%NewHTTPServer_eq. split; cbn; subst h; rewrite ?length_fmap; try done.
  intros q Hq. unfold ActiveConnections. by destruct (new_backend_lookup _ q Hq) as (b & _ & ->).
Qed.

Lemma h_reach_inv sort_Slice cfg st :
  h_reach sort_Slice cfg st -> h_inv (length (c_Backends cfg)) (cfg_weight cfg) st.
Proof.
  intros (s & h & Hs & Hr). revert Hr.
  apply rtc_invariant; [intros ?? [act Ha] ?; by eapply h_inv_step|by eapply h_inv_start].
Qed.

(** C15: In every state of an HTTP server reachable by interleaving the requests of all
    clients (WebSockets, failed dials, aborted answers and panicking handlers included)
    with Start and Shutdown, totalRequests is the number of requests, activeRequests the
    number that have not ended, totalErrors the number of requests that got an error
    response or a dropped upgrade, and every backend counter the number of requests it
    is serving; with fewer than 2^63 requests. *)
Theorem HTTPServer_accounting (sort_Slice : list RouteEntry -> list RouteEntry) (cfg : Config) (st : hstate) :
  h_reach sort_Slice cfg st -> Z.of_nat (length (h_reqs st)) < 2 ^ 63 ->
  totalRequests (h_server st) = Z.of_nat (length (h_reqs st)) /\
  activeRequests (h_server st) = sum_by live (h_reqs st) /\
  totalErrors (h_server st) = sum_by errors (h_reqs st) /\
  (forall b, (b < length (c_Backends cfg))%nat ->
     ActiveConnections (h_heap st) b = sum_by (holds b) (h_reqs st)) /\
  (Forall (fun q => q_phase q = QDone) (h_reqs st) -> activeRequests (h_server st) = 0 /\
     forall b, (b < length (c_Backends cfg))%nat -> ActiveConnections (h_heap st) b = 0).
Proof.
  intros [Hh Hw Hc Ht Ha He Hu]%h_reach_inv Hn.
  assert (forall f : request -> Z, (forall q, 0 <= f q <= 1) -> i64 (sum_by f (h_reqs st)) = sum_by f (h_reqs st))
    as Hsmall.
  { intros f Hf. pose proof (sum_by_unit f (h_reqs st) Hf). apply i64_small. lia. }
  rewrite Ht, Ha, He, i64_small, !Hsmall by (first [lia | intros q; apply units]).
  assert (forall b, (b < length (c_Backends cfg))%nat ->
    ActiveConnections (h_heap st) b = sum_by (holds b) (h_reqs st)) as Hb.
  { intros b Hb. rewrite Hc, Hsmall; [done|intros q; apply units|done]. }
  split_and!; try done. intros Hd.
  split; [|intros b Hlt; rewrite Hb by done]; apply sum_by_all_zero; eapply Forall_impl; eauto;
    cbn; intros q Hq; unfold live, holds; by rewrite Hq.
Qed.

(** ** Selection *)

(** Requests that have selected. *)
Definition picked (q : request) : Z := match q_phase q with QCounted => 0 | _ => 1 end.

Record sel_inv (cfg : Config) (st : hstate) : Prop := {
  se_pool : hs_pool (h_server st) = mkPool (seq 0 (length (c_Backends cfg)));
  se_alg : exists a, hs_balancer (h_server st) = Plain a /\
    alg_inv (sum_by picked (h_reqs st)) (h_heap st) (hs_pool (h_server st)) a
}.

(** A step selects with the current state of the balancer, or leaves the balancer alone. *)
Lemma request_step_select e q s h q' s' h' :
  request_step e q s h = Some (q', s', h') ->
  hs_pool s' = hs_pool s /\
  ((hs_balancer s' = hs_balancer s /\ picked q' = picked q) \/
   (picked q' = picked q + 1 /\ h' = h /\ exists ip t1 t2,
      hs_balancer s' = snd (select_backend h (hs_pool s) ip t1 t2 (hs_balancer s)))).
Proof.
  unfold request_step, http_select. destruct q as [r ws ph hj rs], s as [cfg p lb rt tr ar br bs te]. cbn.
  destruct ph as [|b|b|b|b| |], e; try done.
  1: destruct (select_backend h p (getClientIP r) t1 t2 lb) as [[[b|]|] lb'] eqn:Hs;
       intros; simplify_eq/=; (split; [done|right]); (split_and!; [done..|]);
       exists (getClientIP r), t1, t2; by rewrite Hs.
  all: destruct ws; intros; simplify_eq/=; (split; [done|left]); done.
Qed.

Lemma sel_inv_step cfg n0 wt a st st' :
  h_inv n0 wt st -> sel_inv cfg st -> hrun1 a st = Some st' -> sel_inv cfg st'.
Proof.
  intros Hinv [Hp (al & Hb & Hal)] Hs. destruct st as [srv h qs c]. cbn -[sum_by] in Hp, Hb, Hal.
  destruct a as [|ok|to|r|i e]; cbn -[request_begins] in Hs.
  - case_bool_decide; simplify_eq. split; eauto.
  - destruct (serve_step _ _); simplify_eq/=. split; eauto.
  - destruct (HTTP_Shutdown_step _ _ _); simplify_eq/=. split; eauto.
  - destruct (_ && _); [|done]. destruct (request_begins r srv) as [q s] eqn:Hr.
    assert (hs_pool s = hs_pool srv /\ hs_balancer s = hs_balancer srv) as [Hp' Hb'].
    { unfold request_begins in Hr. destruct srv. by injection Hr as _ <-. }
    simplify_eq. split; cbn -[sum_by]; [by rewrite Hp'|]. exists al. rewrite Hp', Hb', sum_by_snoc. split; [done|].
    eapply alg_inv_mono; [|exact Hal]. unfold picked. destruct (q_phase q); lia.
  - destruct (qs !! i) as [q|] eqn:Hq; [|done]. cbn in Hs.
    destruct (request_step e q srv h) as [[[q' s'] h']|] eqn:Hr; simplify_eq/=.
    pose proof (counted_request_step _ _ _ _ _ _ _ (Forall_lookup_1 _ _ _ _ (hi_answers _ _ _ Hinv) Hq) Hr) as Hc.
    destruct (request_step_select _ _ _ _ _ _ _ Hr) as [Hp' [[Hb' Hk]|(Hk & -> & ip & t1 & t2 & Hb')]];
      (split; cbn -[sum_by]; [by rewrite Hp'|]);
      rewrite Hp', (sum_by_insert _ _ _ _ _ Hq), Hk.
    + exists al. rewrite Hb'. split; [done|].
      replace (sum_by picked qs - picked q + picked q) with (sum_by picked qs) by lia.
      eapply alg_inv_shrinks; [apply (cs_shrinks _ _ _ _ _ _ Hc)|done].
    + rewrite Hb', Hb, select_plain. eexists. split; [done|].
      replace (sum_by picked qs - picked q + (picked q + 1)) with (sum_by picked qs + 1) by lia.
      by apply alg_inv_select.
Qed.

Lemma h_reach_sel sort_Slice cfg st : h_reach sort_Slice cfg st -> sel_inv cfg st.
Proof.
  intros (s & h & Hs & Hst). pose proof Hs as (_ & _ & a & rt & Ha & ->)%NewHTTPServer_eq.
  apply (rtc_invariant hstep
    (fun st => h_inv (length (c_Backends cfg)) (cfg_weight cfg) st /\ sel_inv cfg st)) in Hst as [_ ?]; [done|..].
  - intros s1 s2 [act Hact] [H1 H2]. split; [by eapply h_inv_step|by eapply sel_inv_step].
  - split; [by eapply h_inv_start|]. split; [done|]. exists a. split; [done|]. by eapply new_algorithm_inv.
Qed.

(** End to end: an HTTP server built from a configuration, with any of the six
    algorithms, selects in every reachable state a healthy backend of its pool, reports
    none only when none is healthy, and never panics; for weights at least 1 and bounded
    sizes. *)
Theorem HTTPServer_selects_healthy (sort_Slice : list RouteEntry -> list RouteEntry) (cfg : Config)
    (st : hstate) (ip : string) (t1 t2 : time) :
  cfg_weights (2 ^ 26) cfg -> Z.of_nat (length (c_Backends cfg)) < 2 ^ 26 ->
  h_reach sort_Slice cfg st -> Z.of_nat (length (h_reqs st)) < 2 ^ 26 ->
  good_selection (h_heap st) (hs_pool (h_server st)) (fst (http_select ip t1 t2 (h_server st) (h_heap st))).
Proof.
  intros Hw Hlen Hr Hn. destruct (h_reach_sel _ _ _ Hr) as [Hp (a & Hb & Hal)].
  destruct (http_select_fields ip t1 t2 (h_server st) (h_heap st)) as (_ & _ & -> & _).
  rewrite Hb, select_plain. apply plain_select_good.
  apply (pool_ready _ _ (sum_by picked (h_reqs st))); [|by rewrite Hp; cbn; rewrite length_seq| |done].
  - intros q [Hq _]%elem_of_Healthy. rewrite Hp in Hq. apply elem_of_seq in Hq.
    destruct (h_reach_inv _ _ _ Hr) as [_ Hwt Hc _ _ _ _].
    rewrite Hwt, Hc by lia. split; [apply cfg_weight_bounds; [done|lia]|].
    pose proof (sum_by_unit (holds q) (h_reqs st) (fun x => proj1 (units x) q)).
    rewrite i64_small; lia.
  - pose proof (sum_by_unit picked (h_reqs st)) as Hs.
    destruct Hs; [intros x; unfold picked; destruct (q_phase x); lia|lia].
Qed.

(** ** One request on its own *)

Lemma solo_step e q q' s s' h h' qs c :
  request_step e q s h = Some (q', s', h') ->
  hstep (mkHState s h (qs ++ [q]) c) (mkHState s' h' (qs ++ [q']) c).
Proof.
  intros Hs. exists (HReq (length qs) e). unfold hrun1. cbn [h_reqs h_server h_heap h_ctl].
  rewrite list_lookup_middle by done. cbn [mbind option_bind]. rewrite Hs. cbn [mbind option_bind].
  by rewrite insert_app_r_alt, Nat.sub_diag by lia.
Qed.

Lemma begin_step r q s s' h qs c :
  request_begins r s = (q, s') -> opened c = true -> drained c = false ->
  hstep (mkHState s h qs c) (mkHState s' h (qs ++ [q]) c).
Proof. intros Hb Ho Hd. exists (HBegin r). cbn -[request_begins]. by rewrite Ho, Hd, Hb. Qed.

(** The steps a request takes from its selection on. *)
Definition events (px : proxied) (ws : ws_result) (t1 t2 : time) (upgrade found : bool) : list event :=
  EGo t1 t2 ::
  (if found then
     EGo 0 0 ::
     (if upgrade then
        match ws with
        | WsDialFailed => [EDialFailed]
        | WsNoHijacker | WsHijackFailed => [ENotHijacked]
        | WsWriteFailed => [EHijacked; EWriteFailed]
        | WsProxied sent received => [EHijacked; EProxied sent received]
        end
      else [match px with Answered => EAnswered | BackendError => EBackendError end]) ++ [EGo 0 0]
   else []) ++ [EGo 0 0].

Fixpoint request_run (l : list event) (q : request) (s : HTTPServer) (h : heap)
  : option (request * HTTPServer * heap) :=
  match l with
  | [] => Some (q, s, h)
  | e :: l =>
      match request_step e q s h with
      | Some (q, s, h) => request_run l q s h
      | None => None
      end
  end.

Lemma solo_run l q q' s s' h h' qs c :
  request_run l q s h = Some (q', s', h') ->
  rtc hstep (mkHState s h (qs ++ [q]) c) (mkHState s' h' (qs ++ [q']) c).
Proof.
  revert q s h. induction l as [|e l IH]; intros q s h Hr; cbn in Hr; [by simplify_eq|].
  destruct (request_step e q s h) as [[[q1 s1] h1]|] eqn:He; [|done].
  eapply rtc_l; [by eapply solo_step|by apply IH].
Qed.

(** The sequential handleRequest refines the interleaved server: whatever it returns
    (response, counters, heap) is reached by a request that takes its steps alone,
    beside any other requests, and ends done with exactly that response. *)
Theorem handleRequest_refines (px : proxied) (ws : ws_result) (t1 t2 : time) (r : HTTPRequest)
    (s s' : HTTPServer) (h h' : heap) (resp : response) (qs : list request) (c : control) :
  handleRequest px ws t1 t2 r s h = Ret (resp, s', h') -> opened c = true -> drained c = false ->
  exists q, rtc hstep (mkHState s h qs c) (mkHState s' h' (qs ++ [q]) c) /\
    q_phase q = QDone /\ q_resp q = Some resp.
Proof.
  intros Hh Ho Hd. destruct s as [cfg p lb rt tr ar br bs te]. unfold handleRequest in Hh. cbn in Hh.
  destruct (c_HTTP cfg) as [http|] eqn:Hc; [|done].
  destruct (select_backend h p (getClientIP r) t1 t2 lb) as [o lb'] eqn:Hs.
  set (up := http_EnableWebSocket http && isWebSocketRequest r) in *.
  assert (exists q, request_run (events px ws t1 t2 up (match o with Ret None => false | _ => true end))
      (mkRequest r up QCounted false None)
      (mkHTTPServer cfg p lb rt (i64 (tr + 1)) (i64 (ar + 1)) br bs te) h = Some (q, s', h') /\
      q_phase q = QDone /\ q_resp q = Some resp) as (q & Hq & Hp & Hr).
  { unfold handleWebSocket, http_select in Hh. cbn in Hh. rewrite Hs in Hh.
    unfold events. cbn -[app]. unfold http_select. cbn -[app]. rewrite Hs.
    destruct o as [[b|]|].
    - destruct up; [destruct ws|destruct px]; cbn in Hh |- *; simplify_eq; by eexists.
    - destruct up; cbn in Hh |- *; simplify_eq; by eexists.
    - by destruct up. }
  exists q. split; [|done]. eapply rtc_l; [|by eapply solo_run].
  eapply begin_step; [|done..]. unfold request_begins. cbn. by rewrite Hc.
Qed.

(** ** Shutting down *)

Definition serve_wg (pc : serve_pc) : Z :=
  match pc with VSpawned | VServing | VReturned => 1 | VNone | VGone => 0 end.

(** Which control states go together. *)
Definition control_ok (c : control) : bool :=
  Bool.eqb (ctx_cancelled c) (match shut c with UNone | UCancel => false | _ => true end) &&
  Bool.eqb (closing c) (match shut c with UNone | UCancel | UCall => false | _ => true end) &&
  (if drained c then match shut c with UTransport | UWait | URet => true | _ => false end else true) &&
  (match shut c with URet => bool_decide (serve c = VNone \/ serve c = VGone) | _ => true end).

Record ctl_inv (st : hstate) : Prop := {
  ci_wg : wg (h_ctl st) = serve_wg (serve (h_ctl st));
  ci_control : control_ok (h_ctl st) = true;
  ci_drained : drained (h_ctl st) = true -> Forall (fun q => waited_for q = false) (h_reqs st)
}.

(** A request that net/http does not wait for stays such. *)
Lemma waited_for_step e q s h q' s' h' :
  request_step e q s h = Some (q', s', h') -> waited_for q = false -> waited_for q' = false.
Proof.
  unfold request_step, waited_for. destruct q as [r ws ph [] rs]; cbn;
    destruct ph, e; try done; intros Hs _; repeat (case_match; simplify_eq/=); done.
Qed.

Lemma ctl_inv_step a st st' : ctl_inv st -> hrun1 a st = Some st' -> ctl_inv st'.
Proof.
  intros [Hw Hc Hd] Hs. destruct st as [srv h qs c]. cbn in Hw, Hc, Hd.
  destruct a as [|ok|to|r|i e]; cbn -[request_begins] in Hs.
  - case_bool_decide as Hg; [|done]. destruct c as [sv sh w cc op cl dr]. cbn in *.
    destruct Hg as [-> ->]. simplify_eq/=. split; cbn; [lia|by destruct cc, cl, dr|done].
  - destruct c as [sv sh w cc op cl dr]. unfold serve_step in Hs. cbn in *.
    destruct sv, ok, cl; simplify_eq/=; (split; cbn in *; [lia| |done]); by destruct cc, dr, sh.
  - destruct c as [sv sh w cc op cl dr]. unfold HTTP_Shutdown_step in Hs. cbn in *.
    destruct sh; simplify_eq/=; try (split; cbn in *; [done|by destruct cc, cl, dr|done]).
    + destruct to; [|destruct (existsb waited_for qs) eqn:Hx]; simplify_eq/=; (split; cbn in *; [done| |]).
      * by destruct cc, cl, dr.
      * done.
      * by destruct cc, cl, dr.
      * intros _. apply Forall_forall. intros q Hq. destruct (waited_for q) eqn:Hq'; [|done].
        rewrite <- Hx. symmetry. apply existsb_exists. exists q. by rewrite <- list_elem_of_In.
    + destruct sv; simplify_eq/=; (split; cbn in *; [done| |done]); by destruct cc, cl, dr.
  - destruct (opened c && negb (drained c)) eqn:Hg; [|done].
    destruct (request_begins r srv) as [q s]. simplify_eq/=.
    apply andb_true_iff in Hg as [_ Hg]. split; cbn; [done..|]. by destruct (drained c).
  - destruct (qs !! i) as [q|] eqn:Hq; [|done]. cbn in Hs.
    destruct (request_step e q srv h) as [[[q' s'] h']|] eqn:Hr; simplify_eq/=.
    split; cbn; [done..|]. intros Hdr. specialize (Hd Hdr). apply Forall_insert; [done|].
    eapply waited_for_step; [done|]. apply (Forall_lookup_1 _ _ _ _ Hd Hq).
Qed.

Lemma ctl_reach sort_Slice cfg st : h_reach sort_Slice cfg st -> ctl_inv st.
Proof.
  intros (s & h & _ & Hr). revert Hr.
  apply rtc_invariant; [intros ?? [act Ha] ?; by eapply ctl_inv_step|]. by split.
Qed.

(** Once the connections are drained no request begins. *)
Lemma drained_step st st' :
  drained (h_ctl st) = true -> hstep st st' ->
  drained (h_ctl st') = true /\ length (h_reqs st') = length (h_reqs st).
Proof.
  intros Hd [a Hs]. destruct st as [srv h qs c]. cbn in Hd.
  destruct a as [|ok|to|r|i e]; cbn -[request_begins] in Hs.
  - case_bool_decide; by simplify_eq.
  - unfold serve_step in Hs. destruct c. cbn in *. subst. repeat (case_match; simplify_eq/=); done.
  - unfold HTTP_Shutdown_step in Hs. destruct c. cbn in *. subst. repeat (case_match; simplify_eq/=); done.
  - rewrite Hd, andb_false_r in Hs. done.
  - destruct (qs !! i) as [q|]; [|done]. cbn in Hs.
    destruct (request_step _ _ _ _) as [[[q' s'] h']|]; simplify_eq/=. by rewrite length_insert.
Qed.

Lemma drained_steps st st' :
  drained (h_ctl st) = true -> rtc hstep st st' ->
  drained (h_ctl st') = true /\ length (h_reqs st') = length (h_reqs st).
Proof.
  intros Hd Hr. induction Hr as [|s1 s2 s3 Hs _ IH]; [done|].
  destruct (drained_step _ _ Hd Hs) as [Hd' <-]. by apply IH.
Qed.

(** When Shutdown of the HTTP server has returned, the serving goroutine is gone; once
    net/http reported all connections closed, no further request begins in any later
    state and every request that has not ended is on a hijacked (WebSocket) connection.
    *)
Theorem HTTPShutdown_drains (sort_Slice : list RouteEntry -> list RouteEntry) (cfg : Config) (st st' : hstate) :
  h_reach sort_Slice cfg st -> rtc hstep st st' ->
  (shut (h_ctl st) = URet ->
     wg (h_ctl st) = 0 /\ (serve (h_ctl st) = VNone \/ serve (h_ctl st) = VGone)) /\
  (drained (h_ctl st) = true ->
     length (h_reqs st') = length (h_reqs st) /\
     forall i q, h_reqs st' !! i = Some q -> q_phase q = QDone \/ q_hijacked q = true).
Proof.
  intros Hr Hs. split.
  - intros Hu. destruct (ctl_reach _ _ _ Hr) as [Hw Hc _]. destruct (h_ctl st). cbn in *. subst.
    unfold control_ok in Hc. cbn in Hc. rewrite !andb_true_iff, bool_decide_eq_true in Hc.
    destruct Hc as [_ [-> | ->]]; auto.
  - intros Hd. destruct (drained_steps _ _ Hd Hs) as [Hd' Hl]. split; [done|]. intros i q Hq.
    assert (ctl_inv st') as [_ _ Hw].
    { apply (ctl_reach sort_Slice cfg). destruct Hr as (s & h & Hn & Hr). exists s, h. split; [done|]. by etrans. }
    pose proof (Forall_lookup_1 _ _ _ _ (Hw Hd') Hq) as Hf. unfold waited_for in Hf. cbn in Hf.
    destruct (q_hijacked q); [by right|]. destruct (q_phase q); by left.
Qed.

(** What the server does by itself once [Shutdown] was called: it goes through the steps of
    [Shutdown], with the timeout, and the serving goroutine returns. *)
Definition finish_serve (pc : serve_pc) : list haction :=
  match pc with
  | VSpawned | VServing => [HServe true; HServe true]
  | VReturned => [HServe true]
  | VNone | VGone => []
  end.

Definition finish (c : control) : list haction :=
  let go := HShutdown true in
  let until_wait :=
    match shut c with
    | UNone | URet => []
    | UCancel => [go; go; go; go]
    | UCall => [go; go; go]
    | UShutdown => [go; go]
    | UTransport => [go]
    | UWait => []
    end in
  match shut c with
  | UNone | URet => []
  | _ => until_wait ++ finish_serve (serve c) ++ [go]
  end.

(** C35: From every reachable state in which Shutdown was called it returns after at
    most seven steps of the server's own (its timeout included), whatever the clients
    and backends do not do. *)
Theorem HTTPShutdown_terminates (sort_Slice : list RouteEntry -> list RouteEntry) (cfg : Config) (st : hstate) :
  h_reach sort_Slice cfg st -> shut (h_ctl st) <> UNone ->
  exists c, hrun (finish (h_ctl st)) st = Some (st <| h_ctl := c |>) /\ shut c = URet /\
    (length (finish (h_ctl st)) <= 7)%nat.
Proof.
  intros [Hw Hc _]%ctl_reach Hu. destruct st as [srv h qs [sv sh w cc op cl dr]]. cbn in Hw, Hc, Hu. subst w.
  destruct sv, sh, cc, cl, dr; try done; eexists; (split; [reflexivity|]); (split; [done|cbn; lia]).
Qed.

(** ** A concrete server: a WebSocket that outlives the shutdown *)

Definition cfg_ws : Config := cfg_http <| c_HTTP := Some (mkHTTPConfig [] true true 0 0) |>.
Definition req_ws : HTTPRequest :=
  mkHTTPRequest "example.com" "/ws" ""
    {["Upgrade" := ["websocket"]; "Connection" := ["Upgrade"]]} "10.0.0.1:5000" false.

Definition srv_ws : HTTPServer :=
  mkHTTPServer cfg_ws (mkPool [0%nat]) (Plain (ARoundRobin NewRoundRobin)) None 0 0 0 0 0.
Definition heap_ws : heap := [NewBackend "a" "10.0.0.1:80" 1].

Definition go : event := EGo 0 0.

(** A WebSocket is open and a second request is being forwarded. *)
Definition two_requests : list haction :=
  [HStart; HServe true; HBegin req_ws; HReq 0 go; HReq 0 go; HReq 0 EHijacked;
   HBegin req1; HReq 1 go; HReq 1 go].
(** The second request fails, and the server is shut down without running into the timeout. *)
Definition shut_down : list haction :=
  [HShutdown false; HShutdown false; HReq 1 EBackendError; HReq 1 go; HReq 1 go; HShutdown false;
   HServe true; HShutdown false; HShutdown false; HServe true; HShutdown false].

Definition ran (l : list haction) : hstate := default (h_start srv_ws heap_ws) (hrun l (h_start srv_ws heap_ws)).

Lemma ran_reach l : hrun l (h_start srv_ws heap_ws) = Some (ran l) -> h_reach (fun rs => rs) cfg_ws (ran l).
Proof.
  intros Hr. exists srv_ws, heap_ws. split; [vm_compute; reflexivity|]. by eapply hrun_reaches.
Qed.

Lemma two_requests_reach : h_reach (fun rs => rs) cfg_ws (ran two_requests).
Proof. apply ran_reach. vm_compute. reflexivity. Qed.

Lemma shut_down_reach : h_reach (fun rs => rs) cfg_ws (ran (two_requests ++ shut_down)).
Proof. apply ran_reach. vm_compute. reflexivity. Qed.

(** Shutdown does not wait for WebSockets: a state is reachable in which it has returned
    without a timeout while a hijacked request is still being proxied and counted as
    active. *)
Theorem HTTPShutdown_leaves_websockets :
  exists st q, h_reach (fun rs => rs) cfg_ws st /\ shut (h_ctl st) = URet /\ drained (h_ctl st) = true /\
    h_reqs st !! 0%nat = Some q /\ q_phase q = QHijacked 0 /\
    activeRequests (h_server st) = 1 /\ ActiveConnections (h_heap st) 0 = 1.
Proof.
  exists (ran (two_requests ++ shut_down)). eexists. split; [apply shut_down_reach|].
  vm_compute. split_and!; reflexivity.
Qed.

(** ** Instances of the theorems *)

Lemma HTTPServer_accounting_witness :
  activeRequests (h_server (ran two_requests)) = 2 /\ ActiveConnections (h_heap (ran two_requests)) 0 = 2.
Proof.
  destruct (HTTPServer_accounting (fun rs => rs) cfg_ws (ran two_requests) two_requests_reach)
    as (_ & -> & _ & Hb & _); [vm_compute; reflexivity|].
  rewrite Hb by (vm_compute; lia). vm_compute. auto.
Defined.

Lemma HTTPServer_selects_healthy_witness :
  good_selection (h_heap (ran two_requests)) (hs_pool (h_server (ran two_requests)))
    (fst (http_select "192.0.2.7" 0 0 (h_server (ran two_requests)) (h_heap (ran two_requests)))).
Proof.
  refine (HTTPServer_selects_healthy (fun rs => rs) cfg_ws _ "192.0.2.7" 0 0 _ _ two_requests_reach _).
  - apply (bool_decide_unpack _). vm_compute. exact I.
  - vm_compute. reflexivity.
  - vm_compute. reflexivity.
Defined.

Lemma handleRequest_refines_witness :
  exists s' h' q, rtc hstep (ran two_requests) (mkHState s' h' (h_reqs (ran two_requests) ++ [q])
    (h_ctl (ran two_requests))) /\ q_resp q = Some (Status 502).
Proof.
  destruct (handleRequest BackendError WsDialFailed 0 0 req1 (h_server (ran two_requests))
    (h_heap (ran two_requests))) as [[[resp s'] h']|] eqn:Hh; [|by vm_compute in Hh].
  destruct (handleRequest_refines BackendError WsDialFailed 0 0 req1 _ s' _ h' resp
    (h_reqs (ran two_requests)) (h_ctl (ran two_requests)) Hh) as (q & Hs & _ & Hq);
    [vm_compute; reflexivity..|].
  exists s', h', q. split; [exact Hs|]. rewrite Hq. vm_compute in Hh. congruence.
Defined.

Lemma HTTPShutdown_drains_witness :
  wg (h_ctl (ran (two_requests ++ shut_down))) = 0 /\
  forall i q, h_reqs (ran (two_requests ++ shut_down)) !! i = Some q ->
    q_phase q = QDone \/ q_hijacked q = true.
Proof.
  destruct (HTTPShutdown_drains (fun rs => rs) cfg_ws _ (ran (two_requests ++ shut_down)) shut_down_reach
    (rtc_refl _ _)) as [H1 H2].
  split; [apply H1; vm_compute; reflexivity|apply H2; vm_compute; reflexivity].
Defined.

Definition shutting_down : hstate := ran (two_requests ++ [HShutdown false]).

Lemma HTTPShutdown_terminates_witness :
  exists c, hrun (finish (h_ctl shutting_down)) shutting_down = Some (shutting_down <| h_ctl := c |>) /\
    shut c = URet.
Proof.
  destruct (HTTPShutdown_terminates (fun rs => rs) cfg_ws shutting_down) as (c & Hc & Hu & _).
  - apply ran_reach. vm_compute. reflexivity.
  - vm_compute. discriminate.
  - exists c. split; [exact Hc|exact Hu].
Defined.
