(* ===== verification/Transform.v ===== *)
(** * Header and path transformation (src/pkg/transform/transform.go)

    Requests and headers are changed in place; the operations return the new
    value.  Where the code ranges over a header map, the order of the iteration is
    an argument. *)

From S2P Require Import Prelude GoStd.

(** ** Configured transformations *)

Record HeaderTransform := mkHeaderTransform { ht_Action : string; ht_Name : string; ht_Value : string }.
Record PathTransform := mkPathTransform { pt_Type : string; pt_Pattern : string; pt_Replacement : string }.

Record TransformConfig := mkTransformConfig {
  RequestHeaders : list HeaderTransform;
  ResponseHeaders : list HeaderTransform;
  PathTransforms : list PathTransform;
  cfg_StripPrefix : string;
  cfg_AddPrefix : string
}.

Definition apply_header (h : Header) (t : HeaderTransform) : Header :=
  if bool_decide (ht_Action t = "add") then Header_Add (ht_Name t) (ht_Value t) h
  else if bool_decide (ht_Action t = "set") then Header_Set (ht_Name t) (ht_Value t) h
  else if bool_decide (ht_Action t = "remove") then Header_Del (ht_Name t) h
  else h.

Definition StripPrefix_path (prefix path : string) : string :=
  let path := TrimPrefix path prefix in
  if negb (HasPrefix path "/") then "/" +:+ path else path.

Definition AddPrefix_path (prefix path : string) : string :=
  if negb (HasPrefix path prefix) then prefix +:+ path else path.

Definition apply_path (path : string) (t : PathTransform) : string :=
  if bool_decide (pt_Type t = "prefix") then
    if HasPrefix path (pt_Pattern t) then Replace1 path (pt_Pattern t) (pt_Replacement t) else path
  else if bool_decide (pt_Type t = "exact") then
    if bool_decide (path = pt_Pattern t) then pt_Replacement t else path
  else path.

Record Transformer := mkTransformer { tr_config : TransformConfig }.
Definition NewTransformer (config : TransformConfig) : Transformer := mkTransformer config.

Definition TransformRequest (t : Transformer) (r : HTTPRequest) : HTTPRequest :=
  let c := tr_config t in
  let r := r <| rq_Header ::= fun h => foldl apply_header h (RequestHeaders c) |> in
  let r := if negb (bool_decide (cfg_StripPrefix c = ""))
           then r <| rq_Path ::= StripPrefix_path (cfg_StripPrefix c) |> else r in
  let r := if negb (bool_decide (cfg_AddPrefix c = ""))
           then r <| rq_Path ::= AddPrefix_path (cfg_AddPrefix c) |> else r in
  r <| rq_Path ::= fun p => foldl apply_path p (PathTransforms c) |>.

Definition TransformResponse (t : Transformer) (h : Header) : Header :=
  foldl apply_header h (ResponseHeaders (tr_config t)).

(** ** Free-standing operations *)

(** Single headers of a request, and of a response (its header map). *)
Definition AddRequestHeader (name v : string) (r : HTTPRequest) : HTTPRequest :=
  r <| rq_Header ::= Header_Add name v |>.
Definition SetRequestHeader (name v : string) (r : HTTPRequest) : HTTPRequest :=
  r <| rq_Header ::= Header_Set name v |>.
Definition RemoveRequestHeader (name : string) (r : HTTPRequest) : HTTPRequest :=
  r <| rq_Header ::= Header_Del name |>.
Definition AddResponseHeader (name v : string) (h : Header) : Header := Header_Add name v h.
Definition SetResponseHeader (name v : string) (h : Header) : Header := Header_Set name v h.
Definition RemoveResponseHeader (name : string) (h : Header) : Header := Header_Del name h.

Definition AddForwardedHeaders (clientIP : string) (r : HTTPRequest) : HTTPRequest :=
  let prior := Header_Get "X-Forwarded-For" (rq_Header r) in
  let clientIP := if negb (bool_decide (prior = "")) then prior +:+ ", " +:+ clientIP else clientIP in
  let h := Header_Set "X-Forwarded-For" clientIP (rq_Header r) in
  let h := Header_Set "X-Forwarded-Proto" (if rq_TLS r then "https" else "http") h in
  let h := if negb (bool_decide (rq_Host r = "")) then Header_Set "X-Forwarded-Host" (rq_Host r) h else h in
  r <| rq_Header := Header_Set "X-Real-IP" clientIP h |>.

Definition hopByHopHeaders : list string :=
  ["Connection"; "Keep-Alive"; "Proxy-Authenticate"; "Proxy-Authorization"; "Te"; "Trailers";
   "Transfer-Encoding"; "Upgrade"].

Definition del_all (ks : list string) (h : Header) : Header := foldl (fun h k => Header_Del k h) h ks.

Definition StripHopByHopHeaders (h : Header) : Header :=
  let h := del_all hopByHopHeaders h in
  let connection := Header_Get "Connection" h in
  if negb (bool_decide (connection = ""))
  then del_all (TrimSpace <$> Split comma connection) h else h.

Definition RewritePath (pattern replacement : string) (r : HTTPRequest) : HTTPRequest :=
  r <| rq_Path ::= fun p => Replace1 p pattern replacement |>.
Definition StripPrefix (prefix : string) (r : HTTPRequest) : HTTPRequest := r <| rq_Path ::= StripPrefix_path prefix |>.
Definition AddPrefix (prefix : string) (r : HTTPRequest) : HTTPRequest := r <| rq_Path ::= AddPrefix_path prefix |>.

(** [order] is the order in which [src] is iterated. *)
Definition CopyHeaders (order : list (string * list string)) (dst : Header) : Header :=
  foldl (fun dst kv => foldl (fun dst v => Header_Add (fst kv) v dst) dst (snd kv)) dst order.

(** The keys that the loop adds are lower case, so visiting them changes nothing. *)
Definition NormalizeHeaders (order : list string) (h : Header) : Header :=
  foldl (fun h key =>
    if negb (bool_decide (key = ToLower key)) then
      let values := default [] (h !! key) in <[ToLower key := values]> (delete key h)
    else h) h order.

(** ** Hop-by-hop headers *)

Lemma del_all_lookup ks h k : del_all ks h !! k = if decide (k ∈ CanonicalHeaderKey <$> ks) then None else h !! k.
Proof.
  unfold del_all. revert h. induction ks as [|x ks IH]; intros h; cbn; [done|]. rewrite IH. unfold Header_Del.
  destruct (decide (k ∈ CanonicalHeaderKey <$> ks)) as [Hk|Hk]; [by rewrite decide_True by set_solver|].
  destruct (decide (k = CanonicalHeaderKey x)) as [->|Hne].
  - rewrite lookup_delete_eq. by rewrite decide_True by set_solver.
  - rewrite lookup_delete_ne by done. by rewrite decide_False by set_solver.
Qed.

Lemma hopByHop_canonical : CanonicalHeaderKey <$> hopByHopHeaders = hopByHopHeaders.
Proof. vm_compute. reflexivity. Qed.

(** StripHopByHopHeaders removes exactly the eight fixed hop-by-hop headers and nothing
    else; in particular headers that the Connection header lists are kept, because
    Connection is deleted before it is read. *)
Theorem StripHopByHopHeaders_keeps_listed (h : Header) (k : string) :
  StripHopByHopHeaders h !! k = if decide (k ∈ hopByHopHeaders) then None else h !! k.
Proof.
  unfold StripHopByHopHeaders.
  assert (Header_Get "Connection" (del_all hopByHopHeaders h) = "") as ->.
  { unfold Header_Get. rewrite del_all_lookup, hopByHop_canonical.
    replace (CanonicalHeaderKey "Connection") with "Connection" by (vm_compute; reflexivity).
    rewrite decide_True; [done|]. unfold hopByHopHeaders. set_solver. }
  rewrite bool_decide_true by done. cbn [negb]. by rewrite del_all_lookup, hopByHop_canonical.
Qed.

(** ** Paths *)

Lemma StripPrefix_path_absolute prefix path : HasPrefix (StripPrefix_path prefix path) "/" = true.
Proof.
  unfold StripPrefix_path. destruct (HasPrefix (TrimPrefix path prefix) "/") eqn:E; cbn [negb]; [done|].
  apply HasPrefix_spec. by exists (TrimPrefix path prefix).
Qed.

Lemma AddPrefix_path_prefix prefix path : HasPrefix (AddPrefix_path prefix path) prefix = true.
Proof.
  unfold AddPrefix_path. destruct (HasPrefix path prefix) eqn:E; cbn [negb]; [done|].
  apply HasPrefix_spec. by exists path.
Qed.

(** With a strip and an add prefix configured, a path under the strip prefix is moved
    under the add prefix, and the headers are the configured transformations applied in
    order. *)
Theorem TransformRequest_prefixes (c : TransformConfig) (r : HTTPRequest) (rest : string) :
  PathTransforms c = [] -> cfg_StripPrefix c <> "" -> cfg_AddPrefix c <> "" ->
  rq_Path r = cfg_StripPrefix c +:+ "/" +:+ rest -> HasPrefix ("/" +:+ rest) (cfg_AddPrefix c) = false ->
  rq_Path (TransformRequest (NewTransformer c) r) = cfg_AddPrefix c +:+ "/" +:+ rest /\
  rq_Header (TransformRequest (NewTransformer c) r) = foldl apply_header (rq_Header r) (RequestHeaders c).
Proof.
  intros Hp Hs Ha Hr Hn. unfold TransformRequest. cbn [tr_config NewTransformer]. rewrite Hp, !bool_decide_false by done. cbn [negb].
  destruct r as [ho pa q hd ra tl]. cbn -[String.append] in *. split; [|done]. subst pa. unfold StripPrefix_path.
  rewrite TrimPrefix_app. rewrite (proj2 (HasPrefix_spec _ _)) by (by exists rest). cbn [negb].
  unfold AddPrefix_path. by rewrite Hn.
Qed.

(** ** Instances of the theorems *)

Lemma TransformRequest_prefixes_witness :
  rq_Path (TransformRequest (NewTransformer (mkTransformConfig [] [] [] "/api" "/v2"))
    (mkHTTPRequest "h" "/api/users" "" ∅ "" false)) = "/v2/users".
Proof.
  apply (TransformRequest_prefixes (mkTransformConfig [] [] [] "/api" "/v2")
    (mkHTTPRequest "h" "/api/users" "" ∅ "" false) "users"); try done.
Defined.

(** A header that Connection lists is forwarded although it is hop-by-hop. *)
Example StripHopByHop_example :
  StripHopByHopHeaders {["Connection" := ["X-Internal"]; "X-Internal" := ["secret"]]} = {["X-Internal" := ["secret"]]}.
Proof. vm_compute. reflexivity. Qed.

(** The address in X-Real-IP is the whole chain. *)
Example AddForwardedHeaders_example :
  Header_Get "X-Real-IP" (rq_Header (AddForwardedHeaders "10.0.0.7"
    (mkHTTPRequest "h" "/" "" {["X-Forwarded-For" := ["203.0.113.9"]]} "" false))) = "203.0.113.9, 10.0.0.7".
Proof. vm_compute. reflexivity. Qed.
