(* ===== verification/Certs.v ===== *)
(** * TLS settings and certificates (src/pkg/tls/config.go, cert_manager.go)

    A certificate is an object that several domains share, so certificates live
    in a store indexed by pointers, like the backends.  The manager maps domain
    names to pointers.  Go iterates a map in no fixed order: the operations that
    range over the map take the order of the iteration as an argument. *)

From Stdlib Require Import Ascii.
From S2P Require Import Prelude GoStd.

(** ** TLS settings *)

Definition VersionTLS10 : Z := 769.
Definition VersionTLS11 : Z := 770.
Definition VersionTLS12 : Z := 771.
Definition VersionTLS13 : Z := 772.

Inductive tls_error :=
| UnsupportedTLSVersion (v : string)
| InvalidMinVersion (v : Z)
| InvalidMaxVersion (v : Z)
| MinAboveMax (vmin vmax : Z).
#[export] Instance tls_error_eq_dec : EqDecision tls_error.
Proof. solve_decision. Defined.

(** The fields the code of the package reads; client authentication and
    renegotiation policies are passed through as numbers. *)
Record TLSSettings := mkTLSSettings {
  MinVersion : Z;
  MaxVersion : Z;
  CipherSuites : list Z;
  PreferServerCipherSuites : bool;
  SessionTicketsDisabled : bool;
  SessionTicketKey : list Z;
  ClientAuth : Z;
  NextProtos : list string;
  InsecureSkipVerify : bool;
  Renegotiation : Z
}.
#[export] Instance eta_TLSSettings : Eta TLSSettings := fun c =>
  mkTLSSettings (MinVersion c) (MaxVersion c) (CipherSuites c) (PreferServerCipherSuites c)
    (SessionTicketsDisabled c) (SessionTicketKey c)
    (ClientAuth c) (NextProtos c) (InsecureSkipVerify c) (Renegotiation c).

(** The identifiers of the six suites, as registered for TLS. *)
Definition SecureCipherSuites : list Z := [49199; 49200; 49195; 49196; 52392; 52393].

(** [[32]byte{}], the key that stands for "none". *)
Definition zeroKey : list Z := replicate 32 0.

Definition DefaultConfig : TLSSettings :=
  mkTLSSettings VersionTLS12 VersionTLS13 SecureCipherSuites true false zeroKey 0
    ["h2"; "http/1.1"] false 0.

Definition ParseTLSVersion (version : string) : result tls_error Z :=
  if bool_decide (version = "1.0") then Ok VersionTLS10
  else if bool_decide (version = "1.1") then Ok VersionTLS11
  else if bool_decide (version = "1.2") then Ok VersionTLS12
  else if bool_decide (version = "1.3") then Ok VersionTLS13
  else Err (UnsupportedTLSVersion version).

Definition TLS_Validate (c : TLSSettings) : option tls_error :=
  if (MinVersion c <? VersionTLS10) || (VersionTLS13 <? MinVersion c) then
    Some (InvalidMinVersion (MinVersion c))
  else if negb (MaxVersion c =? 0) && ((MaxVersion c <? VersionTLS10) || (VersionTLS13 <? MaxVersion c)) then
    Some (InvalidMaxVersion (MaxVersion c))
  else if negb (MaxVersion c =? 0) && (MaxVersion c <? MinVersion c) then
    Some (MinAboveMax (MinVersion c) (MaxVersion c))
  else None.

(** ** Certificates *)

(** The fields of a parsed X.509 certificate that the code reads. *)
Record x509 := mkX509 {
  CommonName : string;
  DNSNames : list string;
  x_NotBefore : time;
  x_NotAfter : time
}.

Record Certificate := mkCertificate {
  Cert : option x509;
  Domains : list string;
  NotBefore : time;
  NotAfter : time
}.
#[export] Instance Certificate_inhabited : Inhabited Certificate := populate (mkCertificate None [] 0 0).

Abbreviation cptr := nat.
Abbreviation cstore := (list Certificate).

Record CertificateManager := mkCertificateManager {
  certificates : gmap string cptr;
  defaultCert : option cptr
}.
#[export] Instance eta_CertificateManager : Eta CertificateManager := fun cm =>
  mkCertificateManager (certificates cm) (defaultCert cm).

Definition NewCertificateManager : CertificateManager := mkCertificateManager ∅ None.

Inductive cert_error :=
| CertNil
| CertX509Nil
| NotYetValid (from : time)
| Expired (on : time)
| NoDefaultCert
| NoCertFor (name : string)
| FailedToLoad (why : string)
| FailedToParse (why : string).

(** [cert] may be the nil pointer. *)
Definition validateCertificate (st : cstore) (cert : option cptr) (now : time) : option cert_error :=
  match cert with
  | None => Some CertNil
  | Some p =>
      let c := st !!! p in
      match Cert c with
      | None => Some CertX509Nil
      | Some _ =>
          if now <? NotBefore c then Some (NotYetValid (NotBefore c))
          else if NotAfter c <? now then Some (Expired (NotAfter c))
          else None
      end
  end.

(** The loop over the domains of a certificate. *)
Fixpoint add_domains (p : cptr) (ds : list string) (m : gmap string cptr) : gmap string cptr :=
  match ds with
  | [] => m
  | d :: ds' => add_domains p ds' (<[d := p]> m)
  end.

Definition AddCertificate (st : cstore) (cert : option cptr) (now : time) (cm : CertificateManager)
  : option cert_error * CertificateManager :=
  match validateCertificate st cert now, cert with
  | Some e, _ => (Some e, cm)
  | None, None => (None, cm)
  | None, Some p =>
      let cm := cm <| certificates ::= add_domains p (Domains (st !!! p)) |> in
      (None, match defaultCert cm with
             | None => cm <| defaultCert := Some p |>
             | Some _ => cm
             end)
  end.

Definition SetDefaultCertificate (st : cstore) (cert : option cptr) (now : time) (cm : CertificateManager)
  : option cert_error * CertificateManager :=
  match validateCertificate st cert now with
  | Some e => (Some e, cm)
  | None => (None, cm <| defaultCert := cert |>)
  end.

(** [loadKeyPair] and [parse] stand for tls.LoadX509KeyPair and
    x509.ParseCertificate. *)
Definition LoadCertificate {K} (loadKeyPair : string -> string -> result string K)
    (parse : K -> result string x509) (certFile keyFile : string) : result cert_error Certificate :=
  match loadKeyPair certFile keyFile with
  | Err e => Err (FailedToLoad e)
  | Ok k =>
      match parse k with
      | Err e => Err (FailedToParse e)
      | Ok x =>
          let domains := if negb (bool_decide (CommonName x = "")) then [CommonName x] else [] in
          Ok (mkCertificate (Some x) (domains ++ DNSNames x) (x_NotBefore x) (x_NotAfter x))
      end
  end.

Definition AddCertificateFromFiles {K} (loadKeyPair : string -> string -> result string K)
    (parse : K -> result string x509) (certFile keyFile : string) (now : time)
    (st : cstore) (cm : CertificateManager) : option cert_error * CertificateManager * cstore :=
  match LoadCertificate loadKeyPair parse certFile keyFile with
  | Err e => (Some e, cm, st)
  | Ok c => let st := st ++ [c] in (AddCertificate st (Some (length st - 1)%nat) now cm, st)
  end.

(** ** Lookup *)

Definition dot : Ascii.ascii := "."%char.
Definition star : Ascii.ascii := "*"%char.

(** The body of the loop: does the pattern [domain] cover [serverName]? *)
Definition wildcard_matches (domain serverName : string) : outcome bool :=
  if (2 <? String.length domain)%nat then
    a ← str_at domain 0;
    if negb (bool_decide (a = star)) then Ret false
    else
      b ← str_at domain 1;
      if negb (bool_decide (b = dot)) then Ret false
      else
        let suffix := str_drop 1 domain in
        let n := (String.length serverName - String.length suffix)%nat in
        if (String.length suffix <? String.length serverName)%nat &&
           bool_decide (str_drop n serverName = suffix) then
          let remaining := str_take n serverName in
          c ← str_at remaining (String.length remaining - 1);
          Ret (bool_decide (c = dot))
        else Ret false
  else Ret false.

Fixpoint findWildcardCertificate (order : list (string * cptr)) (serverName : string)
  : outcome (option cptr) :=
  match order with
  | [] => Ret None
  | (domain, cert) :: order' =>
      m ← wildcard_matches domain serverName;
      if m : bool then Ret (Some cert) else findWildcardCertificate order' serverName
  end.

(** [order] is the order in which the map is iterated. *)
Definition GetCertificate (order : list (string * cptr)) (serverName : string) (cm : CertificateManager)
  : outcome (result cert_error cptr) :=
  if bool_decide (serverName = "") then
    Ret (match defaultCert cm with Some c => Ok c | None => Err NoDefaultCert end)
  else
    match certificates cm !! serverName with
    | Some c => Ret (Ok c)
    | None =>
        w ← findWildcardCertificate order serverName;
        Ret (match w, defaultCert cm with
             | Some c, _ => Ok c
             | None, Some c => Ok c
             | None, None => Err (NoCertFor serverName)
             end)
    end.

Definition RemoveCertificate (domain : string) (cm : CertificateManager) : CertificateManager :=
  cm <| certificates ::= delete domain |>.

(** The loops of [ListCertificates] and [CheckExpiry]: each certificate once, in
    the order of its first domain in the iteration, if [keep] holds of it. *)
Fixpoint collect_certs (keep : cptr -> bool) (order : list (string * cptr)) (seen : gset cptr)
    (acc : list cptr) : list cptr :=
  match order with
  | [] => acc
  | (_, c) :: order' =>
      if negb (bool_decide (c ∈ seen)) && keep c
      then collect_certs keep order' ({[c]} ∪ seen) (acc ++ [c])
      else collect_certs keep order' seen acc
  end.

Definition ListCertificates (order : list (string * cptr)) : list cptr :=
  collect_certs (fun _ => true) order ∅ [].

Definition CheckExpiry (st : cstore) (within : duration) (now : time) (order : list (string * cptr))
  : list cptr :=
  let threshold := time_Add now within in
  collect_certs (fun c => NotAfter (st !!! c) <? threshold) order ∅ [].

(** ** Lemmas *)

(** Any order in which Go may iterate the map of certificates. *)
Lemma str_at_last s c : str_at (s +:+ String c "") (String.length s) = Ret c.
Proof. unfold str_at. induction s as [|a s IH]; [done|]. exact IH. Qed.

(** A non-empty string is its last byte after the others. *)
Lemma str_last s : s <> "" -> exists r c, s = r +:+ String c "".
Proof.
  induction s as [|a s IH]; [done|]. intros _. destruct s as [|b s].
  - by exists "", a.
  - destruct IH as (r & c & ->); [done|]. by exists (String a r), c.
Qed.

Lemma str_length_0 s : String.length s = 0%nat -> s = "".
Proof. by destruct s. Qed.

Lemma str_app_inv_tail a b c : a +:+ c = b +:+ c -> a = b.
Proof.
  intros H. assert (String.length a = String.length b) as Hl.
  { apply (f_equal String.length) in H. rewrite !str_length_app in H. lia. }
  apply (f_equal (str_take (String.length a))) in H. rewrite str_take_app, Hl, str_take_app in H. done.
Qed.

(** The loop body covers a name only when the name has an empty label. *)
Lemma wildcard_matches_spec domain name :
  exists m, wildcard_matches domain name = Ret m /\
    (m = true <-> exists r suf, suf <> "" /\ domain = String star (String dot suf) /\
                   name = r +:+ String dot (String dot suf)).
Proof.
  unfold wildcard_matches. destruct domain as [|a [|b [|c suf]]]; cbn -[star dot str_at bool_decide Nat.ltb String.length].
  1-3: exists false; split; [done|]; split; [done|]; intros (r & s & Hs & [=] & _); by subst.
  change (str_at (String a _) 0) with (Ret a). change (str_at (String a _) 1) with (Ret b). cbn -[star dot Nat.ltb String.length].
  case_bool_decide as Ha; cbn -[star dot Nat.ltb String.length]; [subst a|].
  2:{ exists false. split; [done|]. split; [done|]. by intros (r & s & _ & [=] & _). }
  case_bool_decide as Hb; cbn -[star dot Nat.ltb String.length]; [subst b|].
  2:{ exists false. split; [done|]. split; [done|]. by intros (r & s & _ & [=] & _). }
  set (sfx := String dot (String c suf)).
  set (n := (String.length name - String.length sfx)%nat).
  destruct (Nat.ltb_spec (String.length sfx) (String.length name)) as [Hlt|Hge]; cbn -[star dot Nat.ltb String.length].
  2:{ exists false. split; [done|]. split; [done|]. intros (r & s & _ & [= <-] & ->).
      rewrite str_length_app in Hge. cbn in Hge. lia. }
  case_bool_decide as Hd; cbn -[star dot str_at].
  2:{ exists false. split; [done|]. split; [done|]. intros (r & s & _ & [= <-] & ->). destruct Hd.
      unfold n. rewrite str_length_app.
      change (String.length (String dot (String dot (String c suf)))) with (S (String.length sfx)).
      replace (String.length r + S (String.length sfx) - String.length sfx)%nat
        with (String.length (r +:+ String dot "")) by (rewrite str_length_app; cbn; lia).
      change (String dot (String dot (String c suf))) with (String dot "" +:+ sfx).
      rewrite <- str_app_assoc. apply str_drop_app. }
  pose proof (str_take_drop n name) as Hn. rewrite Hd in Hn.
  destruct (str_last (str_take n name)) as (r & l & Hr).
  { intros E. rewrite E in Hn. apply (f_equal String.length) in Hn. rewrite str_length_app in Hn.
    change (String.length "") with 0%nat in Hn. lia. }
  rewrite Hr, str_length_app. cbn -[star dot str_at].
  replace (String.length r + 1 - 1)%nat with (String.length r) by lia. rewrite str_at_last. cbn -[star dot Nat.ltb String.length].
  exists (bool_decide (l = dot)). split; [done|]. rewrite bool_decide_eq_true.
  rewrite <- Hn, Hr, str_app_assoc. split.
  - intros ->. exists r, (String c suf). done.
  - intros (r' & s & _ & [= <-] & Heq).
    change (String dot (String dot (String c suf))) with (String dot "" +:+ sfx) in Heq.
    rewrite <- !str_app_assoc in Heq. apply str_app_inv_tail in Heq.
    assert (String.length r = String.length r') as Hl.
    { apply (f_equal String.length) in Heq. rewrite !str_length_app in Heq. cbn in Heq. lia. }
    apply (f_equal (fun s => str_at s (String.length r))) in Heq.
    rewrite str_at_last, Hl, str_at_last in Heq. congruence.
Qed.

(** A host name with an empty label: two dots in a row. *)
Definition empty_label (name : string) : Prop := exists r t, name = r +:+ String dot (String dot t).

Lemma findWildcard_none order name : ~ empty_label name -> findWildcardCertificate order name = Ret None.
Proof.
  intros Hn. induction order as [|[d c] order IH]; [done|]. cbn [findWildcardCertificate].
  destruct (wildcard_matches_spec d name) as ([] & -> & Hm); [|exact IH].
  destruct (proj1 Hm eq_refl) as (r & suf & _ & _ & ->). destruct Hn. by exists r, suf.
Qed.

Lemma findWildcard_total order name : exists w, findWildcardCertificate order name = Ret w.
Proof.
  induction order as [|[d c] order [w IH]]; [by exists None|]. cbn [findWildcardCertificate].
  destruct (wildcard_matches_spec d name) as ([] & -> & _); cbn; [by eexists|by exists w].
Qed.

(** For every server name without an empty label, GetCertificate answers from the exact
    entry or else from the default certificate (or an error): a wildcard certificate is
    never selected, in any map iteration order, because the loop also demands a dot
    before the suffix. *)
Theorem GetCertificate_exact_or_default (order : list (string * cptr)) (name : string)
    (cm : CertificateManager) :
  ~ empty_label name ->
  GetCertificate order name cm =
  Ret (if bool_decide (name = "") then
         match defaultCert cm with Some c => Ok c | None => Err NoDefaultCert end
       else match certificates cm !! name, defaultCert cm with
            | Some c, _ => Ok c
            | None, Some c => Ok c
            | None, None => Err (NoCertFor name)
            end).
Proof.
  intros Hn. unfold GetCertificate. case_bool_decide; [done|].
  destruct (certificates cm !! name); [done|]. by rewrite findWildcard_none.
Qed.

Lemma add_domains_lookup p ds m d :
  add_domains p ds m !! d = if decide (d ∈ ds) then Some p else m !! d.
Proof.
  revert m. induction ds as [|x ds IH]; intros m; cbn; [by rewrite decide_False by set_solver|].
  rewrite IH. destruct (decide (d ∈ ds)) as [Hd|Hd]; [by rewrite decide_True by set_solver|].
  destruct (decide (d = x)) as [->|Hx].
  - by rewrite lookup_insert_eq, decide_True by set_solver.
  - rewrite lookup_insert_ne by done. by rewrite decide_False by set_solver.
Qed.

(** What a certificate must satisfy to be accepted at time [now]. *)
Definition acceptable (st : cstore) (p : cptr) (now : time) : Prop :=
  Cert (st !!! p) <> None /\ NotBefore (st !!! p) <= now <= NotAfter (st !!! p).

Lemma validateCertificate_ok st p now : validateCertificate st (Some p) now = None <-> acceptable st p now.
Proof.
  unfold validateCertificate, acceptable. destruct (Cert _); [|naive_solver]. split.
  - intros H. zcases; done.
  - intros [_ H]. zcases; done.
Qed.

(** Insert and lookup: adding a certificate that is present and within its validity
    makes GetCertificate return it for each of its domains, leaves all other domains
    alone and sets the default only if there was none; a certificate that is missing,
    not yet valid or expired is rejected and changes nothing. *)
Theorem AddCertificate_GetCertificate (st : cstore) (p : cptr) (now : time) (cm : CertificateManager) :
  (acceptable st p now ->
   exists cm', AddCertificate st (Some p) now cm = (None, cm') /\
     (forall order d, d ∈ Domains (st !!! p) -> d <> "" -> GetCertificate order d cm' = Ret (Ok p)) /\
     (forall d, d ∉ Domains (st !!! p) -> certificates cm' !! d = certificates cm !! d) /\
     defaultCert cm' = Some (default p (defaultCert cm))) /\
  (~ acceptable st p now ->
   exists e, AddCertificate st (Some p) now cm = (Some e, cm)).
Proof.
  unfold AddCertificate. split; intros Ha.
  - rewrite (proj2 (validateCertificate_ok st p now) Ha). eexists. split; [done|].
    destruct cm as [m [c|]]; cbn.
    all: split; [|split; [|done]].
    all: try (intros d Hd; by rewrite add_domains_lookup, decide_False).
    all: intros order d Hd Hne; unfold GetCertificate; rewrite bool_decide_false by done; cbn;
      by rewrite add_domains_lookup, decide_True.
  - destruct (validateCertificate st (Some p) now) as [e|] eqn:E; [by exists e|].
    destruct Ha. by apply validateCertificate_ok.
Qed.

Lemma collect_certs_spec keep order seen acc c :
  NoDup acc -> (forall x, x ∈ acc <-> x ∈ seen) ->
  NoDup (collect_certs keep order seen acc) /\
  (c ∈ collect_certs keep order seen acc <-> c ∈ acc \/ (c ∈ order.*2 /\ keep c = true)).
Proof.
  revert seen acc. induction order as [|[d x] order IH]; intros seen acc Hnd Hs; cbn.
  { split; [done|]. set_solver. }
  case_bool_decide as Hx; cbn.
  - destruct (IH seen acc Hnd Hs) as [? ->]. split; [done|]. set_solver.
  - destruct (keep x) eqn:Hk.
    + destruct (IH ({[x]} ∪ seen) (acc ++ [x])) as [? ->].
      * apply NoDup_app. split; [done|]. split; [|apply NoDup_singleton]. set_solver.
      * set_solver.
      * split; [done|]. rewrite elem_of_app, list_elem_of_singleton. set_solver.
    + destruct (IH seen acc Hnd Hs) as [? ->]. split; [done|]. split; [set_solver|].
      intros [?|[[->|?]%elem_of_cons ?]]; [by left|congruence|by right].
Qed.

Lemma iterates_snd order (m : gmap string cptr) c : iterates order m -> c ∈ order.*2 <-> exists d, m !! d = Some c.
Proof.
  intros Ho. unfold iterates in Ho. rewrite Ho, list_elem_of_fmap. split.
  - intros ([d x] & -> & Hd%elem_of_map_to_list). by exists d.
  - intros [d Hd]. exists (d, c). by rewrite elem_of_map_to_list.
Qed.

(** CheckExpiry returns exactly the registered certificates that expire before now plus
    the given duration, each once, whatever the map iteration order and however many
    domains share a certificate. *)
Theorem CheckExpiry_exact (st : cstore) (within : duration) (now : time) (cm : CertificateManager)
    (order : list (string * cptr)) (c : cptr) :
  iterates order (certificates cm) ->
  NoDup (CheckExpiry st within now order) /\
  (c ∈ CheckExpiry st within now order <->
   (exists d, certificates cm !! d = Some c) /\ NotAfter (st !!! c) < now + within).
Proof.
  intros Ho. unfold CheckExpiry.
  destruct (collect_certs_spec (fun c => NotAfter (st !!! c) <? time_Add now within) order ∅ [] c)
    as [Hnd ->]; [constructor|set_solver|].
  split; [done|]. rewrite (iterates_snd _ _ c Ho). unfold time_Add. rewrite Z.ltb_lt. set_solver.
Qed.

Lemma ParseTLSVersion_valid v n : ParseTLSVersion v = Ok n -> VersionTLS10 <= n <= VersionTLS13.
Proof. unfold ParseTLSVersion. intros H. repeat case_bool_decide; try done; by injection H as <-. Qed.

(** The versions of a configuration that parse and are in order are accepted. *)
Lemma TLS_Validate_parsed c v1 v2 :
  ParseTLSVersion v1 = Ok (MinVersion c) -> ParseTLSVersion v2 = Ok (MaxVersion c) ->
  TLS_Validate c = if MaxVersion c <? MinVersion c then Some (MinAboveMax (MinVersion c) (MaxVersion c)) else None.
Proof.
  intros H1%ParseTLSVersion_valid H2%ParseTLSVersion_valid. unfold TLS_Validate, VersionTLS10, VersionTLS13 in *.
  zcases; done.
Qed.

(** ** Instances of the theorems *)

Definition store1 : cstore := [mkCertificate (Some (mkX509 "*.example.com" [] 0 100)) ["*.example.com"; "api.test"] 0 100].
Definition cm1 : CertificateManager := snd (AddCertificate store1 (Some 0%nat) 50 NewCertificateManager).

Lemma no_empty_label name : str_Index name ".." = -1 -> ~ empty_label name.
Proof.
  intros Hi (r & t & Hr). destruct (index_from_spec 0 name ".." ltac:(lia)) as [[_ Hn]|(a & b & _ & Ha & _)].
  - by apply (Hn r t).
  - unfold str_Index in Hi. lia.
Qed.

(** Without its default the manager has no certificate for a name the wildcard covers. *)
Lemma GetCertificate_exact_or_default_witness :
  GetCertificate (map_to_list (certificates cm1)) "www.example.com" (cm1 <| defaultCert := None |>) =
    Ret (Err (NoCertFor "www.example.com")).
Proof.
  etrans; [apply (GetCertificate_exact_or_default (map_to_list (certificates cm1)) "www.example.com"
    (cm1 <| defaultCert := None |>)), no_empty_label; vm_compute; reflexivity|].
  vm_compute. reflexivity.
Defined.

Lemma AddCertificate_GetCertificate_witness :
  exists cm', AddCertificate store1 (Some 0%nat) 50 NewCertificateManager = (None, cm') /\
    GetCertificate [] "api.test" cm' = Ret (Ok 0%nat).
Proof.
  destruct (proj1 (AddCertificate_GetCertificate store1 0 50 NewCertificateManager)) as (cm' & H & Hg & _).
  - split; [done|]. cbn. lia.
  - exists cm'. split; [done|]. apply Hg; [|done]. cbn. set_solver.
Defined.

Lemma CheckExpiry_exact_witness : 0%nat ∈ CheckExpiry store1 60 50 (map_to_list (certificates cm1)).
Proof.
  apply (CheckExpiry_exact store1 60 50 cm1 (map_to_list (certificates cm1)) 0); [by unfold iterates|].
  split; [exists "api.test"; vm_compute; reflexivity|]. cbn. lia.
Defined.
