(* ===== verification/SelfSigned.v ===== *)
(** * Self-signed certificates and PEM files (src/pkg/tls/cert_manager.go)

    [GenerateSelfSignedCertificate] and [SaveCertificateToPEM].  Key generation, X.509
    encoding and the key encoding belong to the Go library's cryptography and are
    arguments; files are a map from names to their PEM blocks.  [LoadX509KeyPair] of
    crypto/tls, which [LoadCertificate] calls, is written out over these files, so that
    what is saved can be loaded again. *)

From S2P Require Import Prelude Certs.

(** ** The library *)

(** A block of a PEM file; a file is the list of its blocks. *)
Record pem_block := mkBlock { pem_Type : string; pem_Bytes : list Z }.
Abbreviation files := (gmap string (list pem_block)).

Record template := mkTemplate {
  SerialNumber : Z;
  Organization : list string;
  t_CommonName : string;
  t_NotBefore : time;
  t_NotAfter : time;
  KeyUsage : Z;
  ExtKeyUsage : list Z;
  BasicConstraintsValid : bool;
  t_DNSNames : list string
}.

(** The values of crypto/x509. *)
Definition KeyUsageDigitalSignature : Z := 1.
Definition KeyUsageKeyEncipherment : Z := 4.
Definition ExtKeyUsageServerAuth : Z := 1.

Class Crypto (Key Der : Type) := {
  (** rsa.GenerateKey, rand.Int below the bound, x509.CreateCertificate for the template
      signed with the key itself, x509.ParseCertificate *)
  generateKey : result string Key;
  rand_Int : Z -> result string Z;
  createCertificate : template -> Key -> result string Der;
  parseCertificate : Der -> result string x509;
  (** x509.MarshalPKCS1PrivateKey and its inverse; does a certificate carry the public
      half of a key? *)
  marshalKey : Key -> list Z;
  parseKey : list Z -> result string Key;
  pairs_with : Der -> Key -> bool;
  der_bytes : Der -> list Z;
  der_of_bytes : list Z -> Der
}.

(** The validity times are encoded with a precision of one second. *)
Definition whole_seconds (t : time) : time := Second * (t / Second).

(** Documented behaviour: encoding and decoding are inverse, and a certificate that was
    created for a key pairs with it. *)
Class CryptoLaws (Key Der : Type) `{Crypto Key Der} := {
  parse_create t k der : createCertificate t k = Ok der ->
    parseCertificate der = Ok (mkX509 (t_CommonName t) (t_DNSNames t) (whole_seconds (t_NotBefore t))
      (whole_seconds (t_NotAfter t)));
  create_pairs t k der : createCertificate t k = Ok der -> pairs_with der k = true;
  parse_marshal k : parseKey (marshalKey k) = Ok k;
  der_of_der_bytes der : der_of_bytes (der_bytes der) = der
}.

(** ** Generating *)

Section certificates.
Context {Key Der : Type} `{Crypto Key Der}.

(** The interface value [tls.Certificate.PrivateKey]. *)
Inductive private_key := RSAKey (k : Key) | OtherKey.

(** [tls.Certificate]: the chain and the key. *)
Record tls_certificate := mkTLSCertificate { chain : list Der; PrivateKey : private_key }.

(** A [Certificate] with its field [TLSCert]. *)
Record full_certificate := mkFull { f_cert : Certificate; TLSCert : tls_certificate }.

Inductive gen_error :=
| FailedPrivateKey (e : string)
| FailedSerial (e : string)
| FailedCreate (e : string)
| FailedParse (e : string).

Definition selfsigned_template (serial : Z) (d0 : string) (domains : list string) (notBefore : time) : template :=
  mkTemplate serial ["Balance Load Balancer"] d0 notBefore (notBefore + 365 * 24 * Hour)
    (Z.lor KeyUsageKeyEncipherment KeyUsageDigitalSignature) [ExtKeyUsageServerAuth] true domains.

(** [domains[0]] is read when the template is built. *)
Definition GenerateSelfSignedCertificate (domains : list string) (now : time)
  : outcome (result gen_error full_certificate) :=
  match generateKey with
  | Err e => Ret (Err (FailedPrivateKey e))
  | Ok privateKey =>
      match rand_Int (Z.shiftl 1 128) with
      | Err e => Ret (Err (FailedSerial e))
      | Ok serialNumber =>
          match domains with
          | [] => Panic
          | d0 :: _ =>
              let t := selfsigned_template serialNumber d0 domains now in
              match createCertificate t privateKey with
              | Err e => Ret (Err (FailedCreate e))
              | Ok certDER =>
                  match parseCertificate certDER with
                  | Err e => Ret (Err (FailedParse e))
                  | Ok cert =>
                      Ret (Ok (mkFull (mkCertificate (Some cert) domains now (t_NotAfter t))
                        (mkTLSCertificate [certDER] (RSAKey privateKey))))
                  end
              end
          end
      end
  end.

(** ** Files *)

(** What the file system answers: can a file be created, and written? *)
Record disk := mkDisk { can_create : string -> bool; can_write : string -> bool }.

Inductive save_error := FailedCertFile | FailedWriteCert | FailedKeyFile | NotRSA | FailedWriteKey.

(** [os.Create] truncates; a failed write leaves the file as it was created. *)
Definition write_block (d : disk) (file : string) (b : pem_block) (fs : files) : bool * files :=
  if can_write d file then (true, <[file := default [] (fs !! file) ++ [b]]> fs) else (false, fs).

Definition SaveCertificateToPEM (d : disk) (cert : full_certificate) (certFile keyFile : string) (fs : files)
  : outcome (option save_error * files) :=
  if negb (can_create d certFile) then Ret (Some FailedCertFile, fs)
  else
    let fs := <[certFile := []]> fs in
    match chain (TLSCert cert) with
    | [] => Panic
    | der :: _ =>
        let '(ok, fs) := write_block d certFile (mkBlock "CERTIFICATE" (der_bytes der)) fs in
        if negb ok then Ret (Some FailedWriteCert, fs)
        else if negb (can_create d keyFile) then Ret (Some FailedKeyFile, fs)
        else
          let fs := <[keyFile := []]> fs in
          match PrivateKey (TLSCert cert) with
          | OtherKey => Ret (Some NotRSA, fs)
          | RSAKey privateKey =>
              let '(ok, fs) := write_block d keyFile (mkBlock "RSA PRIVATE KEY" (marshalKey privateKey)) fs in
              if negb ok then Ret (Some FailedWriteKey, fs) else Ret (None, fs)
          end
    end.

(** tls.LoadX509KeyPair: the CERTIFICATE blocks of the one file and the first private key
    of the other, which must pair with the first certificate; the parsed leaf is the
    first certificate. *)
Definition is_key (b : pem_block) : bool :=
  bool_decide (pem_Type b = "PRIVATE KEY") || bool_decide (pem_Type b = "RSA PRIVATE KEY") ||
  bool_decide (pem_Type b = "EC PRIVATE KEY").

Definition LoadX509KeyPair (fs : files) (certFile keyFile : string) : result string Der :=
  match fs !! certFile, fs !! keyFile with
  | Some cs, Some ks =>
      match filter (fun b => pem_Type b = "CERTIFICATE") cs, filter (fun b => is_key b = true) ks with
      | c :: _, k :: _ =>
          match parseKey (pem_Bytes k) with
          | Ok key =>
              let der := der_of_bytes (pem_Bytes c) in
              if pairs_with der key then Ok der else Err "private key does not match public key"
          | Err e => Err e
          end
      | [], _ => Err "failed to find certificate PEM data"
      | _, [] => Err "failed to find PEM block with private key"
      end
  | None, _ => Err "open certificate file"
  | _, None => Err "open key file"
  end.
End certificates.
Arguments private_key : clear implicits.
Arguments tls_certificate : clear implicits.
Arguments full_certificate : clear implicits.

(** ** Properties *)

Section properties.
Context {Key Der : Type} {crypto : Crypto Key Der} {laws : CryptoLaws Key Der}.

(** What has to work: the generator, and the disk for both files. *)
Definition crypto_works (domains : list string) (now : time) : Prop :=
  exists k n der d0 ds, domains = d0 :: ds /\ generateKey = Ok k /\ rand_Int (Z.shiftl 1 128) = Ok n /\
    createCertificate (selfsigned_template n d0 domains now) k = Ok der.

Definition disk_works (d : disk) (certFile keyFile : string) : Prop :=
  can_create d certFile = true /\ can_write d certFile = true /\
  can_create d keyFile = true /\ can_write d keyFile = true.

Lemma Generate_ok domains now :
  crypto_works domains now ->
  exists k der d0 ds n, domains = d0 :: ds /\
    createCertificate (selfsigned_template n d0 domains now) k = Ok der /\
    GenerateSelfSignedCertificate domains now =
      Ret (Ok (mkFull (mkCertificate
          (Some (mkX509 d0 domains (whole_seconds now) (whole_seconds (now + 365 * 24 * Hour))))
          domains now (now + 365 * 24 * Hour)) (mkTLSCertificate [der] (RSAKey k)))).
Proof.
  intros (k & n & der & d0 & ds & -> & Hk & Hn & Hd). exists k, der, d0, ds, n.
  split; [done|]. split; [done|]. unfold GenerateSelfSignedCertificate. rewrite Hk, Hn, Hd.
  by rewrite (parse_create _ _ _ Hd).
Qed.

Lemma Save_Load_key cert k der d certFile keyFile fs :
  chain (TLSCert cert) = [der] -> PrivateKey (TLSCert cert) = RSAKey k -> pairs_with der k = true ->
  disk_works d certFile keyFile -> certFile <> keyFile ->
  exists fs', SaveCertificateToPEM d cert certFile keyFile fs = Ret (None, fs') /\
    LoadX509KeyPair fs' certFile keyFile = Ok der /\
    forall f, f <> certFile -> f <> keyFile -> fs' !! f = fs !! f.
Proof.
  intros Hc Hk Hp (H1 & H2 & H3 & H4) Hne. unfold SaveCertificateToPEM, write_block.
  rewrite H1, Hc, H2, H3, Hk, H4. cbn. eexists. split; [done|].
  split; [|by intros f Hf Hf'; rewrite !lookup_insert_ne by done].
  unfold LoadX509KeyPair. rewrite !lookup_insert_eq, (lookup_insert_ne _ keyFile), (lookup_insert_ne _ keyFile) by done.
  rewrite !lookup_insert_eq. cbn. rewrite !decide_True by done. cbn.
  rewrite parse_marshal, der_of_der_bytes. by rewrite Hp.
Qed.

Lemma last_object (st : cstore) c : (st ++ [c]) !!! (length (st ++ [c]) - 1)%nat = c.
Proof. rewrite length_app, lookup_total_app_r by (cbn; lia). by replace (_ - _)%nat with 0%nat by (cbn; lia). Qed.

Lemma LoadCertificate_generated fs certFile keyFile n d0 ds now k der :
  d0 <> "" -> createCertificate (selfsigned_template n d0 (d0 :: ds) now) k = Ok der ->
  LoadX509KeyPair fs certFile keyFile = Ok der ->
  LoadCertificate (LoadX509KeyPair fs) parseCertificate certFile keyFile =
    Ok (mkCertificate (Some (mkX509 d0 (d0 :: ds) (whole_seconds now) (whole_seconds (now + 365 * 24 * Hour))))
      (d0 :: d0 :: ds) (whole_seconds now) (whole_seconds (now + 365 * 24 * Hour))).
Proof.
  intros Hd Hder Hl. unfold LoadCertificate. rewrite Hl, (parse_create _ _ _ Hder). cbn.
  by rewrite bool_decide_false.
Qed.

(** Loading from files: a certificate within its validity is registered under all its
    names, an expired one is refused. *)
Lemma AddFromFiles_loaded {K} (load : string -> string -> result string K) parse certFile keyFile now st cm c :
  LoadCertificate load parse certFile keyFile = Ok c ->
  (Cert c <> None /\ NotBefore c <= now <= NotAfter c ->
   exists cm' st', AddCertificateFromFiles load parse certFile keyFile now st cm = (None, cm', st') /\
     forall order name, name ∈ Domains c -> name <> "" ->
       exists p, GetCertificate order name cm' = Ret (Ok p) /\ st' !!! p = c) /\
  (NotAfter c < now ->
   exists e st', AddCertificateFromFiles load parse certFile keyFile now st cm = (Some e, cm, st')).
Proof.
  intros Hl. unfold AddCertificateFromFiles. rewrite Hl.
  destruct (AddCertificate_GetCertificate (st ++ [c]) (length (st ++ [c]) - 1) now cm) as [Hok Hbad].
  unfold acceptable in Hok, Hbad. rewrite last_object in Hok, Hbad. split; intros Hv.
  - destruct (Hok Hv) as (cm' & Ha & Hget & _). rewrite Ha. eexists cm', _. split; [done|].
    intros order name Hin Hne. eexists. split; [by apply Hget|]. apply last_object.
  - destruct Hbad as [e He]; [lia|]. rewrite He. by eexists e, _.
Qed.

(** C27: A certificate that GenerateSelfSignedCertificate makes and SaveCertificateToPEM
    writes is loaded back by AddCertificateFromFiles: within its year it is registered
    and GetCertificate returns it, with the same X.509 data, for every domain it was
    made for; after its end it is refused and the manager is unchanged; no other file is
    touched. For any cryptography and X.509 library with the documented inverses. *)
Theorem SelfSigned_roundtrip (domains : list string) (now : time) (d : disk) (certFile keyFile : string) (fs : files) :
  crypto_works domains now -> Forall (fun n => n <> "") domains ->
  disk_works d certFile keyFile -> certFile <> keyFile ->
  exists cert fs',
    GenerateSelfSignedCertificate domains now = Ret (Ok cert) /\
    SaveCertificateToPEM d cert certFile keyFile fs = Ret (None, fs') /\
    (forall f, f <> certFile -> f <> keyFile -> fs' !! f = fs !! f) /\
    (forall later st cm, whole_seconds now <= later <= whole_seconds (now + 365 * 24 * Hour) ->
      exists cm' st',
        AddCertificateFromFiles (LoadX509KeyPair fs') parseCertificate certFile keyFile later st cm =
          (None, cm', st') /\
        forall order name, name ∈ domains -> exists p, GetCertificate order name cm' = Ret (Ok p) /\
          Cert (st' !!! p) = Cert (f_cert cert) /\ Cert (st' !!! p) <> None) /\
    (forall later st cm, whole_seconds (now + 365 * 24 * Hour) < later ->
      exists e st', AddCertificateFromFiles (LoadX509KeyPair fs') parseCertificate certFile keyFile later st cm =
          (Some e, cm, st')).
Proof.
  intros Hw Hne Hdisk Hfiles.
  destruct (Generate_ok _ _ Hw) as (k & der & d0 & ds & n & -> & Hder & Hg). rewrite Hg.
  apply Forall_cons in Hne as [Hd0 Hds].
  edestruct (Save_Load_key (mkFull (mkCertificate
          (Some (mkX509 d0 (d0 :: ds) (whole_seconds now) (whole_seconds (now + 365 * 24 * Hour))))
          (d0 :: ds) now (now + 365 * 24 * Hour)) (mkTLSCertificate [der] (RSAKey k))) k der d certFile keyFile fs)
    as (fs' & Hs & Hl & Hf); [done|done|by eapply create_pairs|done|done|].
  pose proof (LoadCertificate_generated _ _ _ _ _ _ _ _ _ Hd0 Hder Hl) as Hload.
  eexists _, fs'. split; [done|]. split; [done|]. split; [done|].
  split; intros later st cm Ht.
  - destruct (AddFromFiles_loaded _ parseCertificate certFile keyFile later st cm _ Hload) as [(cm' & st' & Ha & Hget) _];
      [by split|]. exists cm', st'. split; [done|]. intros order name Hin.
    destruct (Hget order name) as (p & Hp & Hc); [cbn; set_solver| |by exists p; rewrite Hc].
    apply elem_of_cons in Hin as [->|Hin]; [done|]. by eapply Forall_forall in Hds.
  - apply (AddFromFiles_loaded _ parseCertificate certFile keyFile later st cm _ Hload). cbn. lia.
Qed.

(** The first domain is read without a check of the length. *)
Theorem GenerateSelfSigned_empty_panics (now : time) (k : Key) (n : Z) :
  generateKey = Ok k -> rand_Int (Z.shiftl 1 128) = Ok n ->
  GenerateSelfSignedCertificate [] now = Panic.
Proof. intros Hk Hn. unfold GenerateSelfSignedCertificate. by rewrite Hk, Hn. Qed.
End properties.

(** ** A concrete library

    Keys are numbers, a certificate is its parsed form with the key; certificates with an
    empty name are refused. *)
Module Toy.
Abbreviation der := (string * list string * time * time * Z)%type.

Definition create (t : template) (k : Z) : result string der :=
  if existsb (fun n => bool_decide (n = "")) (t_DNSNames t) then Err "empty name"
  else Ok (t_CommonName t, t_DNSNames t, whole_seconds (t_NotBefore t), whole_seconds (t_NotAfter t), k).

Definition parse (c : der) : result string x509 :=
  let '(cn, names, nb, na, _) := c in Ok (mkX509 cn names nb na).

(** Any injective encoding will do. *)
Definition bytes (c : der) : list Z := [Zpos (encode c)].
Definition of_bytes (l : list Z) : der :=
  match l with
  | [Zpos p] => default ("", [], 0, 0, 0) (decode p)
  | _ => ("", [], 0, 0, 0)
  end.

#[export] Instance toy_crypto : Crypto Z der := {
  generateKey := Ok 17;
  rand_Int bound := Ok (bound - 1);
  createCertificate := create;
  parseCertificate := parse;
  marshalKey k := [k];
  parseKey l := match l with [k] => Ok k | _ => Err "malformed key" end;
  pairs_with c k := bool_decide (c.2 = k);
  der_bytes := bytes;
  der_of_bytes := of_bytes
}.

#[export] Instance toy_laws : CryptoLaws Z der.
Proof.
  split.
  - intros t k c. cbn. unfold create. destruct (existsb _ _); [done|]. by intros [= <-].
  - intros t k c. cbn. unfold create. destruct (existsb _ _); [done|]. intros [= <-]. by apply bool_decide_eq_true.
  - done.
  - intros c. cbn -[encode decode]. by rewrite decode_encode.
Qed.
End Toy.
Import Toy.

Lemma SelfSigned_roundtrip_witness :
  exists cert fs', GenerateSelfSignedCertificate (Key:=Z) (Der:=der) ["a.test"; "b.test"] 1500000000 = Ret (Ok cert) /\
    SaveCertificateToPEM (mkDisk (fun _ => true) (fun _ => true)) cert "cert.pem" "key.pem" ∅ = Ret (None, fs') /\
    exists cm' st' p, AddCertificateFromFiles (LoadX509KeyPair (Key:=Z) (Der:=der) fs') (parseCertificate (Key:=Z)) "cert.pem" "key.pem"
        2000000000 [] NewCertificateManager = (None, cm', st') /\
      GetCertificate [] "b.test" cm' = Ret (Ok p) /\ Cert (st' !!! p) = Cert (f_cert cert).
Proof.
  destruct (SelfSigned_roundtrip (Key:=Z) (Der:=der) ["a.test"; "b.test"] 1500000000
    (mkDisk (fun _ => true) (fun _ => true)) "cert.pem" "key.pem" ∅) as (cert & fs' & Hg & Hs & _ & Hv & _).
  - eexists _, _, _, _, _. repeat split.
  - repeat constructor; done.
  - done.
  - done.
  - exists cert, fs'. split; [done|]. split; [done|].
    destruct (Hv 2000000000 [] NewCertificateManager) as (cm' & st' & Ha & Hget); [vm_compute; split; discriminate|].
    destruct (Hget [] "b.test") as (p & Hp & Hc & _); [set_solver|]. exists cm', st', p. done.
Defined.

Lemma GenerateSelfSigned_empty_panics_witness :
  GenerateSelfSignedCertificate (Key:=Z) (Der:=der) [] 0 = Panic.
Proof. apply (GenerateSelfSigned_empty_panics 0 17 (Z.shiftl 1 128 - 1)); reflexivity. Defined.
