(* ===== verification/Sni.v ===== *)
(** * Server name indication (src/pkg/tls/sni.go)

    The ClientHello parser works on the bytes of the first TLS record; every
    index is checked, so that an index outside the data is a panic.  The router
    maps server names to backend addresses, by exact name or by wildcard. *)

From S2P Require Import Prelude GoStd Certs.

(** ** The parser *)

Inductive sni_error :=
| TooShortForRecord
| NotHandshake
| TooShortForHandshake
| NotClientHello
| TooShortForSession
| TooShortForCiphers
| TooShortForCompression
| NoExtensions
| TooShortForExtensions
| InvalidExtensionLength
| InvalidListLength
| SNINotFound.
#[export] Instance sni_error_eq_dec : EqDecision sni_error.
Proof. solve_decision. Defined.

Definition len (d : list Z) : Z := Z.of_nat (length d).

(** [int(data[i])<<8 | int(data[i+1])] *)
Definition be16 (d : list Z) (i : Z) : outcome Z :=
  a ← index d i;
  b ← index d (i + 1);
  Ret (Z.lor (Z.shiftl a 8) b).

(** [data[i:j]] *)
Definition slice (d : list Z) (i j : Z) : outcome (list Z) :=
  if (0 <=? i) && (i <=? j) && (j <=? len d)
  then Ret (take (Z.to_nat (j - i)) (drop (Z.to_nat i) d)) else Panic.

Fixpoint string_of (d : list Z) : string :=
  match d with
  | [] => ""
  | b :: d' => String (ascii_of_byte b) (string_of d')
  end.

(** One iteration of the loop over the extensions: a result of the function, or
    the position of the next extension. *)
Definition ext_step (d : list Z) (pos : Z) : outcome (result sni_error string + Z) :=
  if len d <? pos + 4 then Ret (inl (Err SNINotFound))
  else
    extType ← be16 d pos;
    extLen ← be16 d (pos + 2);
    let pos := pos + 4 in
    if (extType =? 0) && (pos + extLen <=? len d) then
      if extLen <? 2 then Ret (inl (Err InvalidExtensionLength))
      else
        listLen ← be16 d pos;
        let pos := pos + 2 in
        if (listLen <? 3) || (len d <? pos + listLen) then Ret (inl (Err InvalidListLength))
        else
          nameType ← index d pos;
          nameLen ← be16 d (pos + 1);
          let pos := pos + 3 in
          if (nameType =? 0) && (pos + nameLen <=? len d) then
            hostname ← slice d pos (pos + nameLen);
            Ret (inl (Ok (string_of hostname)))
          else Ret (inr (pos + extLen))
    else Ret (inr (pos + extLen)).

(** The loop; [None] when the fuel does not suffice. *)
Fixpoint ext_loop (fuel : nat) (d : list Z) (pos stop : Z) : option (outcome (result sni_error string)) :=
  if pos <? stop then
    match fuel with
    | O => None
    | S fuel =>
        match ext_step d pos with
        | Panic => Some Panic
        | Ret (inl r) => Some (Ret r)
        | Ret (inr pos) => ext_loop fuel d pos stop
        end
    end
  else Some (Ret (Err SNINotFound)).

(** The position and the end of the extensions. *)
Definition find_extensions (d : list Z) : outcome (result sni_error (Z * Z)) :=
  if len d <? 5 then Ret (Err TooShortForRecord)
  else
    ty ← index d 0;
    if negb (ty =? 22) then Ret (Err NotHandshake)
    else
      let pos := 5 in
      if len d <? pos + 4 then Ret (Err TooShortForHandshake)
      else
        hs ← index d pos;
        if negb (hs =? 1) then Ret (Err NotClientHello)
        else
          let pos := pos + (4 + 2 + 32) in
          if len d <? pos + 1 then Ret (Err TooShortForSession)
          else
            sessionIDLen ← index d pos;
            let pos := pos + (1 + sessionIDLen) in
            if len d <? pos + 2 then Ret (Err TooShortForCiphers)
            else
              cipherSuitesLen ← be16 d pos;
              let pos := pos + (2 + cipherSuitesLen) in
              if len d <? pos + 1 then Ret (Err TooShortForCompression)
              else
                compressionMethodsLen ← index d pos;
                let pos := pos + (1 + compressionMethodsLen) in
                if len d <? pos + 2 then Ret (Err NoExtensions)
                else
                  extensionsLen ← be16 d pos;
                  let pos := pos + 2 in
                  let stop := pos + extensionsLen in
                  if len d <? stop then Ret (Err TooShortForExtensions)
                  else Ret (Ok (pos, stop)).

(** An extension takes at least four bytes, so the length of the data is fuel
    enough ([ParseSNI_total]). *)
Definition ParseSNI (d : list Z) : option (outcome (result sni_error string)) :=
  match find_extensions d with
  | Panic => Some Panic
  | Ret (Err e) => Some (Ret (Err e))
  | Ret (Ok (pos, stop)) => ext_loop (length d) d pos stop
  end.

(** ** The router *)

Record SNIRouter := mkSNIRouter {
  sni_routes : gmap string (list string);
  defaultBackends : list string;
  sni_certManager : option CertificateManager;
  sni_totalRequests : Z;
  routedByHost : gmap string Z
}.
#[export] Instance eta_SNIRouter : Eta SNIRouter := fun r =>
  mkSNIRouter (sni_routes r) (defaultBackends r) (sni_certManager r) (sni_totalRequests r) (routedByHost r).

Definition NewSNIRouter (certManager : option CertificateManager) : SNIRouter := mkSNIRouter ∅ [] certManager 0 ∅.

Inductive route_error := EmptyHostname | NoBackends.

Definition AddRoute (hostname : string) (bs : list string) (r : SNIRouter) : option route_error * SNIRouter :=
  if bool_decide (hostname = "") then (Some EmptyHostname, r)
  else if (length bs =? 0)%nat then (Some NoBackends, r)
  else
    (None, r <| sni_routes ::= <[hostname := bs]> |>
             <| routedByHost ::= fun m =>
                  match m !! hostname with None => <[hostname := 0]> m | Some _ => m end |>).

Definition RemoveRoute (hostname : string) (r : SNIRouter) : SNIRouter :=
  r <| sni_routes ::= delete hostname |>.

Definition SetDefaultBackends (bs : list string) (r : SNIRouter) : SNIRouter := r <| defaultBackends := bs |>.

Definition matchWildcardPattern (pattern hostname : string) : bool :=
  if negb (HasPrefix pattern "*.") then false
  else HasSuffix hostname (str_drop 1 pattern).

(** [order] is the order in which the map of routes is iterated; nil is [None]. *)
Fixpoint matchWildcard (order : list (string * list string)) (hostname : string) : option (list string) :=
  match order with
  | [] => None
  | (pattern, bs) :: order' =>
      if matchWildcardPattern pattern hostname then Some bs else matchWildcard order' hostname
  end.

Definition incrementHostStats (hostname : string) (r : SNIRouter) : SNIRouter :=
  match routedByHost r !! hostname with
  | Some n => r <| routedByHost ::= <[hostname := i64 (n + 1)]> |>
  | None => r
  end.

Definition Route (order : list (string * list string)) (hostname : string) (r : SNIRouter)
  : list string * SNIRouter :=
  let r := r <| sni_totalRequests ::= fun n => i64 (n + 1) |> in
  match sni_routes r !! hostname with
  | Some bs => (bs, incrementHostStats hostname r)
  | None =>
      match matchWildcard order hostname with
      | Some bs => (bs, incrementHostStats hostname r)
      | None => (defaultBackends r, r)
      end
  end.

(** [Stats]: the total and a copy of the counters per host. *)
Record SNIStats := mkSNIStats { sni_total_requests : Z; by_host : gmap string Z }.
Definition SNI_Stats (r : SNIRouter) : SNIStats := mkSNIStats (sni_totalRequests r) (routedByHost r).

(** [corder] is the iteration order of the certificates; [None] is the error of a missing
    manager. *)
Definition GetCertificateForSNI (corder : list (string * cptr)) (serverName : string) (r : SNIRouter)
  : option (outcome (result cert_error cptr)) :=
  match sni_certManager r with
  | None => None
  | Some cm => Some (GetCertificate corder serverName cm)
  end.

(** A handler may have no router. *)
Record SNIHandler := mkSNIHandler { h_router : option SNIRouter; h_certManager : CertificateManager }.
Definition NewSNIHandler (router : option SNIRouter) (certManager : CertificateManager) : SNIHandler :=
  mkSNIHandler router certManager.

(** The callback of a handler: the certificate first, then the routing statistics.
    [corder] and [order] are the iteration orders of the two maps. *)
Definition SNIHandler_GetCertificate (corder : list (string * cptr)) (order : list (string * list string))
    (serverName : string) (h : SNIHandler) : outcome (result cert_error cptr) * SNIHandler :=
  match GetCertificate corder serverName (h_certManager h) with
  | Ret (Ok c) => (Ret (Ok c), mkSNIHandler (snd ∘ Route order serverName <$> h_router h) (h_certManager h))
  | o => (o, h)
  end.

(** ** Lemmas on bytes *)

Definition is_byte (b : Z) : Prop := 0 <= b < 256.
Definition bytes_ok (d : list Z) : Prop := Forall is_byte d.

Lemma len_nonneg d : 0 <= len d.
Proof. unfold len. lia. Qed.
Lemma len_app a b : len (a ++ b) = len a + len b.
Proof. unfold len. rewrite length_app. lia. Qed.
Lemma len_cons x d : len (x :: d) = 1 + len d.
Proof. unfold len. cbn [length]. lia. Qed.
Lemma len_nil : len [] = 0.
Proof. done. Qed.

Lemma lor_shiftl_8 a b : is_byte b -> Z.lor (Z.shiftl a 8) b = a * 256 + b.
Proof.
  intros Hb. unfold is_byte in Hb. rewrite Z.shiftl_mul_pow2 by lia.
  assert (Z.land (a * 2 ^ 8) b = 0) as Hz.
  { apply Z.bits_inj'. intros n Hn. rewrite Z.land_spec, Z.bits_0. destruct (Z.ltb_spec n 8).
    - by rewrite Z.mul_pow2_bits_low by lia.
    - replace (Z.testbit b n) with false; [by rewrite andb_false_r|]. symmetry.
      destruct (decide (b = 0)) as [->|]; [apply Z.bits_0|].
      apply Z.bits_above_log2; [lia|]. apply Z.log2_lt_pow2; [lia|].
      assert (2 ^ 8 <= 2 ^ n) by (apply Z.pow_le_mono_r; lia). lia. }
  pose proof (Z.add_lor_land (a * 2 ^ 8) b). lia.
Qed.

Lemma index_byte d i : bytes_ok d -> 0 <= i < len d -> exists b, index d i = Ret b /\ is_byte b.
Proof.
  intros Hd Hi. unfold len in Hi. rewrite index_in_range by done. eexists. split; [done|].
  apply (proj1 (Forall_forall _ _) Hd), list_elem_of_lookup_total_2. lia.
Qed.

Lemma be16_range d i : bytes_ok d -> 0 <= i -> i + 2 <= len d -> exists v, be16 d i = Ret v /\ 0 <= v < 65536.
Proof.
  intros Hd Hi Hl. unfold be16.
  destruct (index_byte d i Hd) as (a & -> & Ha); [lia|]. cbn.
  destruct (index_byte d (i + 1) Hd) as (b & -> & Hb); [lia|]. cbn.
  rewrite lor_shiftl_8 by done. unfold is_byte in *. eexists. split; [done|]. lia.
Qed.

Lemma bytes_string_of d : bytes_ok d -> bytes (string_of d) = d.
Proof.
  induction 1 as [|b d Hb Hd IH]; [done|]. cbn. rewrite IH. f_equal. unfold byte_of, ascii_of_byte.
  unfold is_byte in Hb. rewrite Ascii.N_ascii_embedding by lia. lia.
Qed.

Lemma string_of_bytes s : string_of (bytes s) = s.
Proof.
  induction s as [|a s IH]; [done|]. cbn. rewrite IH. f_equal. unfold byte_of, ascii_of_byte.
  rewrite N2Z.id. apply Ascii.ascii_N_embedding.
Qed.

Lemma bytes_bytes_ok s : bytes_ok (bytes s).
Proof.
  induction s as [|a s IH]; constructor; [|done]. unfold is_byte, byte_of.
  pose proof (Ascii.N_ascii_bounded a). lia.
Qed.

Lemma slice_in d i j :
  bytes_ok d -> 0 <= i <= j -> j <= len d ->
  exists s, slice d i j = Ret s /\ bytes_ok s /\ exists l1 l2, d = l1 ++ s ++ l2.
Proof.
  intros Hd Hi Hj. unfold slice. rewrite !(proj2 (Z.leb_le _ _)) by lia. cbn.
  eexists. split; [done|]. split; [by apply Forall_take, Forall_drop|].
  exists (take (Z.to_nat i) d), (drop (Z.to_nat (j - i)) (drop (Z.to_nat i) d)).
  by rewrite take_drop, take_drop.
Qed.

(** ** Totality *)

(** Read the next byte or pair of bytes of the goal. *)
Ltac read_step :=
  match goal with
  | Hd : bytes_ok ?d |- context [mbind _ (be16 ?d ?i)] =>
      let v := fresh "v" in let Hv := fresh "Hv" in
      destruct (be16_range d i Hd) as (v & -> & Hv); [unfold is_byte in *; lia..|];
      cbn -[be16 index slice Z.add len]
  | Hd : bytes_ok ?d |- context [mbind _ (index ?d ?i)] =>
      let v := fresh "v" in let Hv := fresh "Hv" in
      destruct (index_byte d i Hd) as (v & -> & Hv); [unfold is_byte in *; lia|];
      cbn -[be16 index slice Z.add len]
  end.

(** What a successful result of the parser must be. *)
Definition found_in (d : list Z) (r : result sni_error string) : Prop :=
  forall host, r = Ok host -> exists l1 l2, d = l1 ++ bytes host ++ l2.

Lemma found_in_err d e : found_in d (Err e).
Proof. by intros ?. Qed.

Lemma ext_step_total d pos :
  bytes_ok d -> 0 <= pos ->
  (exists r, ext_step d pos = Ret (inl r) /\ found_in d r) \/
  (exists pos', ext_step d pos = Ret (inr pos') /\ pos + 4 <= pos').
Proof.
  intros Hd Hp. pose proof (len_nonneg d). unfold ext_step.
  destruct (Z.ltb_spec (len d) (pos + 4)); [left; eauto using found_in_err|].
  do 2 read_step. destruct (_ && _) eqn:E1; [|right; eexists; split; [done|lia]].
  apply andb_true_iff in E1 as [_ E1%Z.leb_le].
  destruct (Z.ltb_spec v0 2); [left; eauto using found_in_err|]. read_step.
  destruct (_ || _) eqn:E2; [left; eauto using found_in_err|].
  apply orb_false_iff in E2 as [E2%Z.ltb_ge E3%Z.ltb_ge]. do 2 read_step.
  destruct (_ && _) eqn:E4; [|right; eexists; split; [done|lia]].
  apply andb_true_iff in E4 as [_ E4%Z.leb_le].
  match goal with |- context [slice d ?i ?j] =>
    destruct (slice_in d i j Hd) as (s & -> & Hs & l1 & l2 & Heq); [lia..|] end.
  left. eexists. split; [done|]. intros host [= <-]. exists l1, l2. by rewrite bytes_string_of.
Qed.

Lemma ext_loop_total fuel d pos stop :
  bytes_ok d -> 0 <= pos -> stop <= len d -> stop - pos <= Z.of_nat fuel ->
  exists r, ext_loop fuel d pos stop = Some (Ret r) /\ found_in d r.
Proof.
  intros Hd. revert pos. induction fuel as [|fuel IH]; intros pos Hp Hs Hf; cbn.
  - rewrite (proj2 (Z.ltb_ge _ _)) by lia. eauto using found_in_err.
  - destruct (Z.ltb_spec pos stop); [|eauto using found_in_err].
    destruct (ext_step_total d pos Hd Hp) as [(r & -> & Hr)|(pos' & -> & Hle)]; [by eauto|].
    apply IH; lia.
Qed.

Lemma find_extensions_total d :
  bytes_ok d ->
  (exists e, find_extensions d = Ret (Err e)) \/
  (exists pos stop, find_extensions d = Ret (Ok (pos, stop)) /\ 0 <= pos /\ stop <= len d).
Proof.
  intros Hd. unfold find_extensions.
  repeat first [ match goal with |- context [len d <? ?x] =>
                   destruct (Z.ltb_spec (len d) x); [left; by eauto|] end
               | read_step
               | match goal with |- context [negb ?x] => destruct x; cbn -[be16 index slice Z.add len];
                   [|left; by eauto] end ].
  right. eexists _, _. split; [done|]. unfold is_byte in *. lia.
Qed.

(** C26: On arbitrary attacker-chosen bytes ParseSNI terminates, never indexes or slices
    out of range, and a host name it returns is a contiguous part of the input. *)
Theorem ParseSNI_total (d : list Z) :
  bytes_ok d -> exists r, ParseSNI d = Some (Ret r) /\
    forall host, r = Ok host -> exists l1 l2, d = l1 ++ bytes host ++ l2.
Proof.
  intros Hd. unfold ParseSNI.
  destruct (find_extensions_total d Hd) as [[e ->]|(pos & stop & -> & Hp & Hs)].
  - eexists. split; [done|]. by intros ?.
  - apply ext_loop_total; try done. unfold len in Hs. lia.
Qed.

(** ** The ClientHello message (RFC 8446, RFC 6066), for the round trip *)

Inductive extension :=
| ServerName (host : string)
| OtherExtension (ty : Z) (data : list Z).

Record client_hello := mkClientHello {
  record_version : list Z;
  ch_version : list Z;
  ch_random : list Z;
  ch_session : list Z;
  ch_ciphers : list Z;
  ch_compression : list Z;
  ch_extensions : list extension
}.

Definition enc16 (n : Z) : list Z := [n / 256; n mod 256].
Definition enc24 (n : Z) : list Z := (n / 65536) :: enc16 (n mod 65536).

(** A vector preceded by its length. *)
Definition vec8 (d : list Z) : list Z := len d :: d.
Definition vec16 (d : list Z) : list Z := enc16 (len d) ++ d.

Definition enc_extension (e : extension) : list Z :=
  match e with
  | ServerName host => enc16 0 ++ vec16 (vec16 (0 :: vec16 (bytes host)))
  | OtherExtension ty data => enc16 ty ++ vec16 data
  end.

Definition enc_extensions (es : list extension) : list Z := es ≫= enc_extension.

(** The record header, the handshake header, version and random. *)
Definition enc_fixed (ch : client_hello) (body : list Z) : list Z :=
  [22] ++ record_version ch ++ enc16 (len body + 38) ++ [1] ++ enc24 (len body + 34) ++
  ch_version ch ++ ch_random ch.

Definition enc_client_hello (ch : client_hello) : list Z :=
  let body := vec8 (ch_session ch) ++ vec16 (ch_ciphers ch) ++ vec8 (ch_compression ch) ++
              vec16 (enc_extensions (ch_extensions ch)) in
  enc_fixed ch body ++ body.

Definition ext_ok (e : extension) : Prop :=
  match e with
  | ServerName host => True
  | OtherExtension ty _ => 0 < ty < 65536
  end.

(** Field sizes that fit their length prefixes. *)
Record hello_ok (ch : client_hello) : Prop := {
  ho_record_version : length (record_version ch) = 2%nat;
  ho_version : length (ch_version ch) = 2%nat;
  ho_random : length (ch_random ch) = 32%nat;
  ho_ciphers : len (ch_ciphers ch) < 65536;
  ho_types : Forall ext_ok (ch_extensions ch);
  ho_extensions : len (enc_extensions (ch_extensions ch)) < 65536
}.

Fixpoint first_server_name (es : list extension) : option string :=
  match es with
  | [] => None
  | ServerName host :: _ => Some host
  | OtherExtension _ _ :: es' => first_server_name es'
  end.

(** *** Reading after a prefix *)

Lemma index_after p x s i : i = len p -> index (p ++ x :: s) i = Ret x.
Proof.
  intros ->. unfold index, len. rewrite (proj2 (Z.leb_le _ _)) by lia.
  by rewrite Nat2Z.id, list_lookup_middle.
Qed.

Lemma be16_after p n s i : 0 <= n < 65536 -> i = len p -> be16 (p ++ enc16 n ++ s) i = Ret n.
Proof.
  intros Hn ->. unfold be16, enc16. cbn [app]. rewrite (index_after p (n / 256) _ (len p)) by done. cbn -[index Z.add].
  change (n / 256 :: n mod 256 :: s) with ([n / 256] ++ n mod 256 :: s). rewrite app_assoc.
  rewrite index_after by (rewrite len_app; done). cbn. f_equal.
  pose proof (Z.mod_pos_bound n 256 ltac:(lia)). pose proof (Z.div_mod n 256 ltac:(lia)).
  rewrite lor_shiftl_8 by (unfold is_byte; lia). lia.
Qed.

Lemma slice_after p m s i j : i = len p -> j = len p + len m -> slice (p ++ m ++ s) i j = Ret m.
Proof.
  intros -> ->. pose proof (len_nonneg p). pose proof (len_nonneg m). pose proof (len_nonneg s).
  unfold slice. rewrite !len_app, !(proj2 (Z.leb_le _ _)) by lia. cbn. f_equal.
  unfold len. rewrite Nat2Z.id, drop_app_length.
  replace (Z.to_nat (Z.of_nat (length p) + Z.of_nat (length m) - Z.of_nat (length p))) with (length m) by lia.
  apply take_app_length.
Qed.

Lemma len_enc16 n : len (enc16 n) = 2.
Proof. done. Qed.
Lemma len_vec16 d : len (vec16 d) = 2 + len d.
Proof. unfold vec16. by rewrite len_app. Qed.
Lemma len_vec8 d : len (vec8 d) = 1 + len d.
Proof. apply len_cons. Qed.

Create HintDb sni_len discriminated.
#[local] Hint Rewrite len_app len_cons len_nil len_enc16 len_vec16 len_vec8 : sni_len.

(** Arithmetic on the lengths of concatenations. *)
Ltac len_solve :=
  autorewrite with sni_len; repeat match goal with |- context [len ?d] =>
    lazymatch goal with H : 0 <= len d |- _ => fail | _ => pose proof (len_nonneg d) end end; lia.

Lemma index_prefix (f s : list Z) (i : nat) (x : Z) : f !! i = Some x -> index (f ++ s) (Z.of_nat i) = Ret x.
Proof.
  intros Hi. unfold index. rewrite (proj2 (Z.leb_le _ _)) by lia.
  rewrite Nat2Z.id. by rewrite (lookup_app_l_Some _ _ _ _ Hi).
Qed.

(** The header of a message whose first 43 bytes are [f]. *)
Lemma find_extensions_parts (f se ci co ex rest d : list Z) :
  len f = 43 -> f !! 0%nat = Some 22 -> f !! 5%nat = Some 1 -> len ci < 65536 -> len ex < 65536 ->
  d = f ++ vec8 se ++ vec16 ci ++ vec8 co ++ vec16 ex ++ rest ->
  let pos := len (f ++ vec8 se ++ vec16 ci ++ vec8 co ++ enc16 (len ex)) in
  find_extensions d = Ret (Ok (pos, pos + len ex)).
Proof.
  intros Hf H0 H5 Hci Hex Hd.
  assert (len d = 43 + (1 + len se) + (2 + len ci) + (1 + len co) + (2 + len ex) + len rest) as Hl
    by (rewrite Hd; autorewrite with sni_len; lia).
  pose proof (len_nonneg se). pose proof (len_nonneg ci). pose proof (len_nonneg co).
  pose proof (len_nonneg ex). pose proof (len_nonneg rest).
  assert (index d 0 = Ret 22) as E0 by (rewrite Hd; by apply (index_prefix f _ 0)).
  assert (index d 5 = Ret 1) as E5 by (rewrite Hd; by apply (index_prefix f _ 5)).
  assert (index d (5 + (4 + 2 + 32)) = Ret (len se)) as Ese by (rewrite Hd; by apply index_after).
  assert (be16 d (5 + (4 + 2 + 32) + (1 + len se)) = Ret (len ci)) as Eci.
  { rewrite Hd. unfold vec16 at 1. rewrite <- app_assoc, app_assoc.
    apply be16_after; [lia|]. autorewrite with sni_len. lia. }
  assert (index d (5 + (4 + 2 + 32) + (1 + len se) + (2 + len ci)) = Ret (len co)) as Eco.
  { rewrite Hd, !app_assoc. unfold vec8 at 2. rewrite <- !app_assoc, (app_assoc (vec8 se)), app_assoc. cbn [app].
    apply index_after. autorewrite with sni_len. lia. }
  assert (be16 d (5 + (4 + 2 + 32) + (1 + len se) + (2 + len ci) + (1 + len co)) = Ret (len ex)) as Eex.
  { rewrite Hd. unfold vec16 at 2. rewrite <- app_assoc, (app_assoc (vec16 ci)), (app_assoc (vec8 se)), app_assoc.
    apply be16_after; [lia|]. autorewrite with sni_len. lia. }
  unfold find_extensions.
  repeat first [ rewrite (proj2 (Z.ltb_ge (len d) _)) by lia
               | rewrite E0 | rewrite E5 | rewrite Ese | rewrite Eci | rewrite Eco | rewrite Eex
               | progress cbn -[index be16 Z.add len] ].
  do 3 f_equal; autorewrite with sni_len; lia.
Qed.

(** *** The loop over encoded extensions *)

Lemma ext_step_other p ty data s :
  0 < ty < 65536 -> len data < 65536 ->
  ext_step (p ++ enc_extension (OtherExtension ty data) ++ s) (len p) =
    Ret (inr (len (p ++ enc_extension (OtherExtension ty data)))).
Proof.
  intros Hty Hd. pose proof (len_nonneg data). pose proof (len_nonneg s).
  set (d := p ++ _). assert (len d = len p + (4 + len data) + len s) as Hl.
  { unfold d. cbn [enc_extension]. autorewrite with sni_len. lia. }
  assert (be16 d (len p) = Ret ty) as E1.
  { unfold d. cbn [enc_extension]. rewrite <- app_assoc. by apply be16_after; [lia|]. }
  assert (be16 d (len p + 2) = Ret (len data)) as E2.
  { unfold d. cbn [enc_extension]. unfold vec16. rewrite <- !app_assoc, app_assoc.
    apply be16_after; [lia|]. by rewrite len_app. }
  unfold ext_step. rewrite (proj2 (Z.ltb_ge _ _)) by lia.
  rewrite E1. cbn -[be16 Z.add len]. rewrite E2. cbn -[be16 Z.add len].
  rewrite (proj2 (Z.eqb_neq _ _)) by lia. cbn -[Z.add len]. do 2 f_equal.
  cbn [enc_extension]. autorewrite with sni_len. lia.
Qed.

Lemma ext_step_server_name p host s :
  len (enc_extension (ServerName host)) < 65536 ->
  ext_step (p ++ enc_extension (ServerName host) ++ s) (len p) = Ret (inl (Ok host)).
Proof.
  set (hb := bytes host). pose proof (len_nonneg hb). pose proof (len_nonneg s). intros Hlt.
  assert (len (enc_extension (ServerName host)) = 9 + len hb) as Hx.
  { cbn [enc_extension]. fold hb. autorewrite with sni_len. lia. }
  set (d := p ++ _). assert (len d = len p + (9 + len hb) + len s) as Hl.
  { unfold d. rewrite !len_app. lia. }
  assert (d = p ++ enc16 0 ++ enc16 (5 + len hb) ++ enc16 (3 + len hb) ++ [0] ++ enc16 (len hb) ++ hb ++ s) as Hd.
  { assert (len (0 :: vec16 hb) = 3 + len hb) as L1 by (autorewrite with sni_len; lia).
    assert (len (vec16 (0 :: vec16 hb)) = 5 + len hb) as L2 by (autorewrite with sni_len; lia).
    unfold d. cbn [enc_extension]. fold hb. unfold vec16 at 1. rewrite L2. unfold vec16 at 1. rewrite L1.
    unfold vec16. by rewrite <- !app_assoc. }
  assert (be16 d (len p) = Ret 0) as E1 by (rewrite Hd; by apply be16_after).
  assert (be16 d (len p + 2) = Ret (5 + len hb)) as E2.
  { rewrite Hd, app_assoc. apply be16_after; [lia|]. by rewrite len_app. }
  assert (be16 d (len p + 4) = Ret (3 + len hb)) as E3.
  { rewrite Hd, (app_assoc p), app_assoc. apply be16_after; [lia|]. rewrite !len_app, !len_enc16. lia. }
  assert (index d (len p + 4 + 2) = Ret 0) as E4.
  { rewrite Hd, (app_assoc p), (app_assoc (p ++ _)), app_assoc. cbn [app]. apply index_after.
    rewrite !len_app, !len_enc16. lia. }
  assert (be16 d (len p + 4 + 2 + 1) = Ret (len hb)) as E5.
  { rewrite Hd, (app_assoc p), (app_assoc (p ++ _)), (app_assoc ((p ++ _) ++ _)), app_assoc.
    apply be16_after; [lia|]. rewrite !len_app, !len_enc16, len_cons, len_nil. lia. }
  assert (slice d (len p + 4 + 2 + 3) (len p + 4 + 2 + 3 + len hb) = Ret hb) as E6.
  { rewrite Hd, (app_assoc p), (app_assoc (p ++ _)), (app_assoc ((p ++ _) ++ _)),
      (app_assoc (((p ++ _) ++ _) ++ _)), app_assoc.
    apply slice_after; rewrite !len_app, !len_enc16, len_cons, len_nil; lia. }
  unfold ext_step.
  repeat first [ rewrite (proj2 (Z.ltb_ge _ _)) by lia | rewrite (proj2 (Z.leb_le _ _)) by lia
               | rewrite E1 | rewrite E2 | rewrite E3 | rewrite E4 | rewrite E5 | rewrite E6
               | progress cbn -[index be16 slice Z.add Z.ltb Z.leb len] ].
  unfold hb. by rewrite string_of_bytes.
Qed.

Lemma enc_extension_pos e : 4 <= len (enc_extension e).
Proof. destruct e as [host|ty data]; cbn [enc_extension]; [set (hb := bytes host)|]; len_solve. Qed.

Lemma ext_loop_encoded fuel es p s stop :
  Forall ext_ok es -> len (enc_extensions es) < 65536 ->
  stop = len p + len (enc_extensions es) -> len (enc_extensions es) <= Z.of_nat fuel ->
  ext_loop fuel (p ++ enc_extensions es ++ s) (len p) stop =
    Some (Ret (match first_server_name es with Some host => Ok host | None => Err SNINotFound end)).
Proof.
  intros Hes. revert p stop fuel. induction Hes as [|e es He Hes IH]; intros p stop fuel Hlt Hstop Hf.
  { subst stop. cbn in *. rewrite len_nil, Z.add_0_r. destruct fuel; cbn; by rewrite Z.ltb_irrefl. }
  change (enc_extensions (e :: es)) with (enc_extension e ++ enc_extensions es) in *.
  rewrite len_app in *. pose proof (enc_extension_pos e). pose proof (len_nonneg (enc_extensions es)).
  destruct fuel as [|fuel]; [lia|]. cbn [ext_loop]. rewrite (proj2 (Z.ltb_lt _ _)) by lia.
  rewrite <- app_assoc. destruct e as [host|ty data].
  - by rewrite ext_step_server_name by lia.
  - rewrite ext_step_other; [|exact He|].
    2:{ cbn [enc_extension] in *. autorewrite with sni_len in *. lia. }
    rewrite app_assoc. cbn [first_server_name]. apply IH; [lia|rewrite len_app; lia|lia].
Qed.

Lemma enc_fixed_ok ch body :
  hello_ok ch -> len (enc_fixed ch body) = 43 /\
    enc_fixed ch body !! 0%nat = Some 22 /\ enc_fixed ch body !! 5%nat = Some 1.
Proof.
  intros [Hr Hv Hn _ _ _]. unfold enc_fixed.
  destruct (record_version ch) as [|a [|b [|? ?]]]; [done..| |done]. split; [|done].
  unfold len. rewrite !length_app, Hv, Hn. done.
Qed.

(** C10: ParseSNI inverts the ClientHello encoding of RFC 8446: for every message with
    fields that fit their length prefixes, any extensions in any order and any bytes
    after it, it returns the host name of the first server-name extension, or the not-
    found error when there is none. *)
Theorem ParseSNI_roundtrip (ch : client_hello) (rest : list Z) :
  hello_ok ch ->
  ParseSNI (enc_client_hello ch ++ rest) =
    Some (Ret (match first_server_name (ch_extensions ch) with
               | Some host => Ok host
               | None => Err SNINotFound
               end)).
Proof.
  intros Hok. pose proof (enc_fixed_ok ch (vec8 (ch_session ch) ++ vec16 (ch_ciphers ch) ++
    vec8 (ch_compression ch) ++ vec16 (enc_extensions (ch_extensions ch))) Hok) as (Hf & H0 & H5).
  destruct Hok as [_ _ _ Hci Hty Hex]. unfold enc_client_hello. revert Hf H0 H5.
  set (f := enc_fixed _ _). set (ex := enc_extensions _) in *. intros Hf H0 H5.
  unfold ParseSNI. rewrite (find_extensions_parts f (ch_session ch) (ch_ciphers ch) (ch_compression ch) ex rest);
    [|done..|by rewrite <- !app_assoc].
  set (p := f ++ _ ++ _ ++ _ ++ enc16 _).
  assert ((f ++ vec8 (ch_session ch) ++ vec16 (ch_ciphers ch) ++ vec8 (ch_compression ch) ++ vec16 ex) ++ rest =
    p ++ ex ++ rest) as -> by (unfold p, vec16; by rewrite <- !app_assoc).
  apply ext_loop_encoded; try done. rewrite !length_app. unfold ex, len. lia.
Qed.

(** ** Routing *)

Lemma matchWildcardPattern_spec pattern hostname :
  matchWildcardPattern pattern hostname = true <->
  exists suffix label, pattern = "*." +:+ suffix /\ hostname = label +:+ "." +:+ suffix.
Proof.
  unfold matchWildcardPattern. destruct (HasPrefix pattern "*.") eqn:E; cbn.
  - apply HasPrefix_spec in E as [suffix ->]. rewrite HasSuffix_spec. split.
    + intros [label ->]. by exists suffix, label.
    + intros (s & label & Hs & ->). exists label. apply (inj (String.append "*.")) in Hs as ->. done.
  - split; [done|]. intros (s & label & -> & _).
    assert (HasPrefix ("*." +:+ s) "*." = true) by (apply HasPrefix_spec; eauto). congruence.
Qed.

Lemma matchWildcard_spec order hostname :
  match matchWildcard order hostname with
  | Some bs => exists pat, (pat, bs) ∈ order /\ matchWildcardPattern pat hostname = true
  | None => forall pat bs, (pat, bs) ∈ order -> matchWildcardPattern pat hostname = false
  end.
Proof.
  induction order as [|[pat bs] order IH]; cbn; [set_solver|].
  destruct (matchWildcardPattern pat hostname) eqn:E; [exists pat; set_solver|].
  destruct (matchWildcard order hostname) as [bs'|].
  - destruct IH as (pat' & Hin & Hm). exists pat'. set_solver.
  - intros pat' bs' [[= -> ->]|Hin]%elem_of_cons; [done|]. by eapply IH.
Qed.

Lemma Route_fst order hostname r :
  fst (Route order hostname r) =
  match sni_routes r !! hostname with
  | Some bs => bs
  | None => default (defaultBackends r) (matchWildcard order hostname)
  end.
Proof.
  unfold Route. destruct r as [m db n st]. cbn. destruct (m !! hostname); [done|].
  by destruct (matchWildcard order hostname).
Qed.

(** The SNI router returns the backends of the exact host name if it is routed,
    otherwise those of some wildcard pattern covering the name, and the defaults only
    when no pattern covers it, whatever the order of the map iteration. *)
Theorem Route_resolves (order : list (string * list string)) (hostname : string) (r : SNIRouter) :
  iterates order (sni_routes r) ->
  let bs := fst (Route order hostname r) in
  (forall b, sni_routes r !! hostname = Some b -> bs = b) /\
  (sni_routes r !! hostname = None ->
   (exists suffix label, hostname = label +:+ "." +:+ suffix /\ sni_routes r !! ("*." +:+ suffix) = Some bs) \/
   (bs = defaultBackends r /\
    forall suffix label, hostname = label +:+ "." +:+ suffix -> sni_routes r !! ("*." +:+ suffix) = None)).
Proof.
  intros Ho. rewrite Route_fst. cbn. split; [by intros b ->|]. intros ->.
  pose proof (matchWildcard_spec order hostname) as Hm.
  assert (forall pat bs, (pat, bs) ∈ order <-> sni_routes r !! pat = Some bs) as Hin.
  { intros pat bs. unfold iterates in Ho. by rewrite Ho, elem_of_map_to_list. }
  destruct (matchWildcard order hostname) as [bs|]; cbn; [left|right].
  - destruct Hm as (pat & Hp%Hin & (suffix & label & -> & ->)%matchWildcardPattern_spec). eauto.
  - split; [done|]. intros suffix label ->. destruct (sni_routes r !! ("*." +:+ suffix)) as [bs|] eqn:E; [|done].
    apply Hin, Hm in E. rewrite (proj2 (matchWildcardPattern_spec _ _)) in E; [done|eauto].
Qed.

(** What a request adds to the statistics: one to the total, and one to the counter of
    the very host name if a route was found and a counter of that name exists; requests
    that a wildcard pattern served have no counter of their own. *)
Lemma Route_stats order hostname r :
  let s := SNI_Stats (snd (Route order hostname r)) in
  sni_total_requests s = i64 (sni_totalRequests r + 1) /\
  forall h, by_host s !! h =
    if decide (h = hostname /\ (is_Some (sni_routes r !! hostname) \/ is_Some (matchWildcard order hostname)))
    then (fun n => i64 (n + 1)) <$> routedByHost r !! h else routedByHost r !! h.
Proof.
  unfold Route, incrementHostStats. destruct r as [rt db cm tot by_h]. cbn.
  destruct (rt !! hostname) as [bs|]; [|destruct (matchWildcard order hostname) as [bs|]]; cbn.
  3: { split; [done|]. intros h. case_decide as Hd; [|done]. destruct Hd as [_ [[]|[]]]; done. }
  all: destruct (by_h !! hostname) as [n|] eqn:E; cbn; (split; [done|]); intros h;
    case_decide as Hd; try (destruct Hd as [-> _]; rewrite E; cbn; by rewrite ?lookup_insert_eq).
  all: try done; apply lookup_insert_ne; intros ->; apply Hd; eauto.
Qed.

(** A request without a certificate is not counted. *)
Lemma SNIHandler_error corder order name h :
  (forall c, GetCertificate corder name (h_certManager h) <> Ret (Ok c)) ->
  snd (SNIHandler_GetCertificate corder order name h) = h.
Proof. intros H. unfold SNIHandler_GetCertificate. destruct (GetCertificate _ _ _) as [[c|e]|]; [by destruct (H c)|done..]. Qed.

(** With overlapping patterns the answer depends on the order of the iteration. *)
Example Route_order_dependent :
  let r := snd (AddRoute "*.b.test" ["10.0.0.2:443"] (snd (AddRoute "*.test" ["10.0.0.1:443"] (NewSNIRouter None)))) in
  let order := map_to_list (sni_routes r) in
  iterates order (sni_routes r) /\ iterates (reverse order) (sni_routes r) /\
  fst (Route order "a.b.test" r) <> fst (Route (reverse order) "a.b.test" r).
Proof.
  split; [by unfold iterates|]. split; [unfold iterates; apply reverse_Permutation|].
  vm_compute. discriminate.
Qed.

(** ** Instances of the theorems *)

Definition hello1 : client_hello :=
  mkClientHello [3; 1] [3; 3] (replicate 32 7) [1; 2; 3] [19; 1; 19; 2] [0]
    [OtherExtension 10 [0; 2; 0; 29]; ServerName "www.example.com"; OtherExtension 16 [0; 1]].

Lemma ParseSNI_roundtrip_witness :
  ParseSNI (enc_client_hello hello1 ++ [9; 9]) = Some (Ret (Ok "www.example.com")).
Proof.
  apply (ParseSNI_roundtrip hello1 [9; 9]). split; try (by vm_compute). repeat constructor; cbn; lia.
Defined.

Lemma ParseSNI_total_witness : exists r, ParseSNI [22; 3; 1; 0; 200; 1; 0] = Some (Ret r).
Proof.
  destruct (ParseSNI_total [22; 3; 1; 0; 200; 1; 0]) as (r & Hr & _); [|by exists r].
  repeat constructor; unfold is_byte; lia.
Defined.

Definition router1 : SNIRouter :=
  snd (AddRoute "*.example.com" ["10.0.0.1:443"] (SetDefaultBackends ["10.0.0.9:443"] (NewSNIRouter None))).

Lemma Route_resolves_witness :
  sni_routes router1 !! "www.example.com" = None /\
  (forall b, sni_routes router1 !! "*.example.com" = Some b ->
     fst (Route (map_to_list (sni_routes router1)) "*.example.com" router1) = b).
Proof.
  split; [vm_compute; reflexivity|].
  apply (Route_resolves (map_to_list (sni_routes router1)) "*.example.com" router1). by unfold iterates.
Defined.
