(* ===== verification/Buffers.v ===== *)
(** * Buffer pools (src/pkg/pool/buffer.go)

    A buffer is its contents up to its capacity together with its length.  A
    [sync.Pool] may hand out any buffer that was put back, or none; the choice is
    an argument of [Get]. *)

From S2P Require Import Prelude.

(** ** Slices *)

Record buffer := mkBuffer { buf_data : list Z; buf_len : Z }.
#[export] Instance eta_buffer : Eta buffer := fun b => mkBuffer (buf_data b) (buf_len b).

Definition buf_cap (b : buffer) : Z := Z.of_nat (length (buf_data b)).

(** [make([]byte, n)] with [n >= 0]. *)
Definition make_bytes (n : Z) : buffer := mkBuffer (replicate (Z.to_nat n) 0) n.

(** [b[:n]]: a length outside the capacity panics. *)
Definition reslice (b : buffer) (n : Z) : outcome buffer :=
  if (0 <=? n) && (n <=? buf_cap b) then Ret (b <| buf_len := n |>) else Panic.

(** [sync.Pool]: the buffers that were put back; [pick] chooses one of them. *)
Abbreviation sync_pool := (list buffer).
Definition pool_take (pick : option nat) (p : sync_pool) : option (buffer * sync_pool) :=
  match pick with
  | None => None
  | Some i => match p !! i with Some b => Some (b, delete i p) | None => None end
  end.

(** ** Fixed-size pools *)

Record BufferPool := mkBufferPool { bp_pool : sync_pool; bp_size : Z }.
#[export] Instance eta_BufferPool : Eta BufferPool := fun bp => mkBufferPool (bp_pool bp) (bp_size bp).

Definition NewBufferPool (size : Z) : BufferPool := mkBufferPool [] size.

Definition BufferPool_Get (pick : option nat) (bp : BufferPool) : outcome buffer * BufferPool :=
  let '(b, p) := match pool_take pick (bp_pool bp) with
                 | Some (b, p) => (b, p)
                 | None => (make_bytes (bp_size bp), bp_pool bp)
                 end in
  (reslice b (bp_size bp), bp <| bp_pool := p |>).

(** The loop that clears at most the first 1024 bytes; [i] is its counter. *)
Fixpoint zero_prefix (i : nat) (data : list Z) : list Z :=
  match data with
  | [] => []
  | b :: data' => if (i <? 1024)%nat then 0 :: zero_prefix (S i) data' else b :: data'
  end.

Definition BufferPool_Put (buf : buffer) (bp : BufferPool) : BufferPool :=
  if buf_cap buf <? bp_size bp then bp
  else
    let buf := buf <| buf_len := buf_cap buf |> in
    let buf := buf <| buf_data ::= zero_prefix 0 |> in
    bp <| bp_pool ::= fun p => buf :: p |>.

Definition BufferPool_Size (bp : BufferPool) : Z := bp_size bp.

(** The four global pools, and the choice between them. *)
Record global_pools := mkGlobalPools {
  SmallBufferPool : BufferPool;
  MediumBufferPool : BufferPool;
  LargeBufferPool : BufferPool;
  HugeBufferPool : BufferPool
}.
#[export] Instance eta_global_pools : Eta global_pools := fun g =>
  mkGlobalPools (SmallBufferPool g) (MediumBufferPool g) (LargeBufferPool g) (HugeBufferPool g).

Definition initial_pools : global_pools :=
  mkGlobalPools (NewBufferPool (4 * 1024)) (NewBufferPool (32 * 1024)) (NewBufferPool (64 * 1024))
    (NewBufferPool (1024 * 1024)).

Definition GetOptimalBuffer (sizeNeeded : Z) (pick : option nat) (g : global_pools)
  : outcome buffer * global_pools :=
  if sizeNeeded <=? bp_size (SmallBufferPool g) then
    let '(b, bp) := BufferPool_Get pick (SmallBufferPool g) in (b, g <| SmallBufferPool := bp |>)
  else if sizeNeeded <=? bp_size (MediumBufferPool g) then
    let '(b, bp) := BufferPool_Get pick (MediumBufferPool g) in (b, g <| MediumBufferPool := bp |>)
  else if sizeNeeded <=? bp_size (LargeBufferPool g) then
    let '(b, bp) := BufferPool_Get pick (LargeBufferPool g) in (b, g <| LargeBufferPool := bp |>)
  else
    let '(b, bp) := BufferPool_Get pick (HugeBufferPool g) in (b, g <| HugeBufferPool := bp |>).

(** ** Variable-size pools *)

(** [n |= n >> k] *)
Definition or_shift (k n : Z) : Z := Z.lor n (Z.shiftr n k).

Definition roundUpPowerOf2 (n : Z) : Z :=
  if n <=? 0 then 1
  else if Z.land n (n - 1) =? 0 then n
  else
    let n := n - 1 in
    let n := or_shift 1 n in
    let n := or_shift 2 n in
    let n := or_shift 4 n in
    let n := or_shift 8 n in
    let n := or_shift 16 n in
    i64 (n + 1).

Record ByteSlicePool := mkByteSlicePool { bsp_pools : gmap Z sync_pool }.
#[export] Instance eta_ByteSlicePool : Eta ByteSlicePool := fun b => mkByteSlicePool (bsp_pools b).

Definition NewByteSlicePool : ByteSlicePool := mkByteSlicePool ∅.

(** A pool that does not exist is created empty; its [New] makes [poolSize] bytes. *)
Definition ByteSlicePool_Get (size : Z) (pick : option nat) (bsp : ByteSlicePool)
  : outcome buffer * ByteSlicePool :=
  let poolSize := roundUpPowerOf2 size in
  let pool := match bsp_pools bsp !! poolSize with Some p => p | None => [] end in
  let '(b, pool) := match pool_take pick pool with
                    | Some (b, p) => (b, p)
                    | None => (make_bytes poolSize, pool)
                    end in
  (reslice b size, bsp <| bsp_pools ::= <[poolSize := pool]> |>).

Definition ByteSlicePool_Put (buf : buffer) (bsp : ByteSlicePool) : ByteSlicePool :=
  if buf_len buf =? 0 then bsp
  else
    let poolSize := roundUpPowerOf2 (buf_cap buf) in
    match bsp_pools bsp !! poolSize with
    | Some p => bsp <| bsp_pools ::= <[poolSize := (buf <| buf_len := buf_cap buf |>) :: p]> |>
    | None => bsp
    end.

(** ** Rounding up *)

(** [x] has bit [i] when [m] has a bit in the window of [w] bits from [i]. *)
Definition window (m x w : Z) : Prop :=
  forall i, 0 <= i -> Z.testbit x i = true <-> exists j, i <= j < i + w /\ Z.testbit m j = true.

Lemma window_1 m : window m m 1.
Proof.
  intros i Hi. split; [intros H; exists i; split; [lia|done]|].
  intros (j & Hj & H). by replace i with j by lia.
Qed.

Lemma window_or_shift m x w : 0 < w -> window m x w -> window m (or_shift w x) (2 * w).
Proof.
  intros Hw Hx i Hi. unfold or_shift. rewrite Z.lor_spec, Z.shiftr_spec, orb_true_iff by done.
  rewrite (Hx i), (Hx (i + w)) by lia. split.
  - intros [(j & Hj & H)|(j & Hj & H)]; exists j; (split; [lia|done]).
  - intros (j & Hj & H). destruct (Z.lt_ge_cases j (i + w)); [left|right]; exists j; (split; [lia|done]).
Qed.

Lemma or_shift_nonneg k n : 0 <= n -> 0 <= or_shift k n.
Proof. intros Hn. apply Z.lor_nonneg. split; [done|]. by apply Z.shiftr_nonneg. Qed.

(** A window that reaches past the leading bit is all ones below it. *)
Lemma window_ones m x w : 0 < m -> 0 <= x -> Z.log2 m < w -> window m x w -> x = 2 ^ (Z.log2 m + 1) - 1.
Proof.
  intros Hm Hx Hw Hwin. pose proof (Z.log2_nonneg m).
  replace (2 ^ (Z.log2 m + 1) - 1) with (Z.ones (Z.log2 m + 1)) by (rewrite Z.ones_equiv; lia).
  apply Z.bits_inj'. intros i Hi. destruct (Z.le_gt_cases i (Z.log2 m)).
  - rewrite Z.ones_spec_low by lia. apply Hwin; [done|]. exists (Z.log2 m).
    split; [lia|]. by apply Z.bit_log2.
  - rewrite Z.ones_spec_high by lia. apply not_true_is_false. intros (j & Hj & H')%Hwin; [|done].
    by rewrite Z.bits_above_log2 in H' by lia.
Qed.

Lemma land_pred_zero n : 0 < n -> Z.land n (n - 1) = 0 <-> n = 2 ^ Z.log2 n.
Proof.
  intros Hn. pose proof (Z.log2_nonneg n). destruct (Z.log2_spec n Hn) as [Hlo Hhi]. split.
  - intros H0. destruct (decide (n = 2 ^ Z.log2 n)) as [|Hne]; [done|exfalso].
    assert (Z.log2 (n - 1) = Z.log2 n) as Hl by (apply Z.log2_unique; lia).
    assert (Z.testbit (Z.land n (n - 1)) (Z.log2 n) = true) as Hb.
    { rewrite Z.land_spec, Z.bit_log2 by lia. rewrite <- Hl. apply Z.bit_log2. lia. }
    by rewrite H0, Z.bits_0 in Hb.
  - revert H. generalize (Z.log2 n). intros k Hk ->.
    replace (2 ^ k - 1) with (Z.ones k) by (rewrite Z.ones_equiv; lia).
    rewrite Z.land_ones by lia. apply Z.mod_same. lia.
Qed.

Lemma roundUpPowerOf2_eq n : 1 <= n <= 2 ^ 32 -> roundUpPowerOf2 n = 2 ^ Z.log2_up n.
Proof.
  intros Hn. unfold roundUpPowerOf2. rewrite (proj2 (Z.leb_gt n 0)) by lia.
  destruct (Z.eqb_spec (Z.land n (n - 1)) 0) as [Hz|Hz].
  - apply land_pred_zero in Hz; [|lia]. rewrite Hz at 2. by rewrite Z.log2_up_pow2 by apply Z.log2_nonneg.
  - assert (n <> 1) by (intros ->; done). assert (0 < n - 1 < 2 ^ 32) as Hm by lia.
    rewrite (window_ones (n - 1) (or_shift 16 _) 32).
    + rewrite Z.log2_up_eqn by lia. change (Z.pred n) with (n - 1).
      pose proof (Z.log2_nonneg (n - 1)). assert (Z.log2 (n - 1) < 32) by (apply Z.log2_lt_pow2; lia).
      assert (2 ^ (Z.log2 (n - 1) + 1) <= 2 ^ 32) by (apply Z.pow_le_mono_r; lia).
      replace (2 ^ (Z.log2 (n - 1) + 1) - 1 + 1) with (2 ^ (Z.log2 (n - 1) + 1)) by lia.
      rewrite swrap_small; [done|lia|]. unfold in_s. cbn. lia.
    + lia.
    + repeat apply or_shift_nonneg. lia.
    + apply Z.log2_lt_pow2; lia.
    + change 32 with (2 * 16). apply window_or_shift; [lia|]. change 16 with (2 * 8). apply window_or_shift; [lia|].
      change 8 with (2 * 4). apply window_or_shift; [lia|]. change 4 with (2 * 2). apply window_or_shift; [lia|].
      change 2 with (2 * 1). apply window_or_shift; [lia|]. apply window_1.
Qed.

(** For 1 <= n <= 2^32 the shift-and-or computation of roundUpPowerOf2 returns the least
    power of two that is at least n. *)
Theorem roundUpPowerOf2_least (n : Z) :
  1 <= n <= 2 ^ 32 ->
  let r := roundUpPowerOf2 n in
  (exists k, 0 <= k /\ r = 2 ^ k) /\ n <= r /\ (forall j, 0 <= j -> n <= 2 ^ j -> r <= 2 ^ j).
Proof.
  intros Hn. cbn. rewrite roundUpPowerOf2_eq by done. pose proof (Z.log2_up_nonneg n).
  split; [by exists (Z.log2_up n)|]. split.
  - destruct (decide (n = 1)) as [->|]; [done|]. apply Z.log2_up_spec. lia.
  - intros j Hj Hle. apply Z.pow_le_mono_r; [lia|]. apply Z.log2_up_le_pow2; lia.
Qed.

(** Above 2^32 the shifts stop short: the result is no power of two. *)
Example roundUpPowerOf2_large : roundUpPowerOf2 (2 ^ 33 + 1) = 2 ^ 34 - 3.
Proof. reflexivity. Qed.

(** ** Fixed-size pools *)

Lemma length_zero_prefix i data : length (zero_prefix i data) = length data.
Proof. revert i. induction data as [|b data IH]; intros i; cbn; [done|]. case_match; cbn; by rewrite ?IH. Qed.

Lemma zero_prefix_zero i data k :
  (k < length data)%nat -> (i + k < 1024)%nat -> zero_prefix i data !! k = Some 0.
Proof.
  revert i k. induction data as [|b data IH]; intros i k Hk Hi; cbn [zero_prefix length] in *; [lia|].
  rewrite (proj2 (Nat.ltb_lt _ _)) by lia. destruct k as [|k]; [done|]. cbn. apply IH; lia.
Qed.

(** A buffer that can be handed out: large enough and clean in its first KiB. *)
Definition clean (size : Z) (b : buffer) : Prop :=
  size <= buf_cap b /\ forall k, (k < 1024)%nat -> Z.of_nat k < buf_cap b -> buf_data b !! k = Some 0.

(** Clients put back any buffers and get them in any order. *)
Inductive bp_reach (size : Z) : BufferPool -> Prop :=
| bp_new : bp_reach size (NewBufferPool size)
| bp_put buf bp : bp_reach size bp -> bp_reach size (BufferPool_Put buf bp)
| bp_get pick bp : bp_reach size bp -> bp_reach size (snd (BufferPool_Get pick bp)).

Lemma pool_take_Forall P pick p b p' : pool_take pick p = Some (b, p') -> Forall P p -> P b /\ Forall P p'.
Proof.
  unfold pool_take. destruct pick as [i|]; [|done]. destruct (p !! i) as [x|] eqn:E; [|done].
  intros [= <- <-] Hp. split; [by eapply Forall_lookup_1|]. by apply Forall_delete.
Qed.

Lemma bp_reach_clean size bp : bp_reach size bp -> bp_size bp = size /\ Forall (clean size) (bp_pool bp).
Proof.
  induction 1 as [|buf bp _ [Hs Hp]|pick bp _ [Hs Hp]].
  - split; [done|constructor].
  - unfold BufferPool_Put. destruct (Z.ltb_spec (buf_cap buf) (bp_size bp)); [done|].
    destruct bp as [p sz], buf as [data l]. cbn in *. subst sz. split; [done|]. constructor; [|done].
    unfold clean, buf_cap in *. cbn in *. rewrite length_zero_prefix. split; [done|].
    intros k Hk Hlt. apply zero_prefix_zero; lia.
  - unfold BufferPool_Get. destruct bp as [p sz]. cbn in *.
    destruct (pool_take pick p) as [[b p']|] eqn:E; cbn; [|done].
    split; [done|]. by apply (pool_take_Forall (clean size) _ _ _ _ E).
Qed.

Lemma BufferPool_Get_spec (size : Z) (bp : BufferPool) (pick : option nat) :
  0 <= size -> bp_reach size bp ->
  exists b, fst (BufferPool_Get pick bp) = Ret b /\ buf_len b = size /\
    forall k, (k < 1024)%nat -> Z.of_nat k < size -> buf_data b !! k = Some 0.
Proof.
  intros Hsz [Hs Hp]%bp_reach_clean. unfold BufferPool_Get.
  set (o := match pool_take pick (bp_pool bp) with Some (b, p) => _ | None => _ end).
  assert (clean size (fst o)) as [Hc Hz].
  { unfold o. destruct (pool_take pick (bp_pool bp)) as [[b p']|] eqn:E; cbn.
    - by apply (pool_take_Forall (clean size) _ _ _ _ E).
    - unfold clean, buf_cap, make_bytes. cbn. rewrite length_replicate. split; [lia|].
      intros k Hk Hlt. apply lookup_replicate. split; [done|]. lia. }
  destruct o as [b p]. cbn in *. unfold reslice. rewrite Hs, !(proj2 (Z.leb_le _ _)) by done. cbn.
  eexists. split; [done|]. destruct b as [data l]. cbn in *. split; [done|].
  intros k Hk Hlt. apply Hz; [done|]. lia.
Qed.

(** However clients put buffers back and take them, Get of a fixed-size pool never
    panics and returns a buffer of exactly the pool's size whose first 1024 bytes are
    zero, so the start of one client's data never reaches another. *)
Theorem BufferPool_Get_ok (size : Z) (bp : BufferPool) (pick : option nat) :
  0 <= size -> bp_reach size bp ->
  exists b, fst (BufferPool_Get pick bp) = Ret b /\ buf_len b = size /\
    forall k, (k < 1024)%nat -> Z.of_nat k < size -> buf_data b !! k = Some 0.
Proof. apply BufferPool_Get_spec. Qed.

(** The pools at their fixed sizes, in any state their clients left them. *)
Definition pools_reach (g : global_pools) : Prop :=
  bp_reach (4 * 1024) (SmallBufferPool g) /\ bp_reach (32 * 1024) (MediumBufferPool g) /\
  bp_reach (64 * 1024) (LargeBufferPool g) /\ bp_reach (1024 * 1024) (HugeBufferPool g).

(** The buffer is of the smallest size that suffices; above one MiB it does not. *)
Lemma GetOptimalBuffer_size n pick g :
  pools_reach g ->
  exists b, fst (GetOptimalBuffer n pick g) = Ret b /\
    buf_len b = (if n <=? 4 * 1024 then 4 * 1024 else if n <=? 32 * 1024 then 32 * 1024
                 else if n <=? 64 * 1024 then 64 * 1024 else 1024 * 1024).
Proof.
  intros (Hs & Hm & Hl & Hh). unfold GetOptimalBuffer.
  rewrite (proj1 (bp_reach_clean _ _ Hs)), (proj1 (bp_reach_clean _ _ Hm)), (proj1 (bp_reach_clean _ _ Hl)).
  destruct (n <=? 4 * 1024);
    [destruct (BufferPool_Get_spec (4 * 1024) _ pick ltac:(lia) Hs) as (b & Hb & Hlen & _)|
     destruct (n <=? 32 * 1024);
       [destruct (BufferPool_Get_spec (32 * 1024) _ pick ltac:(lia) Hm) as (b & Hb & Hlen & _)|
        destruct (n <=? 64 * 1024);
          [destruct (BufferPool_Get_spec (64 * 1024) _ pick ltac:(lia) Hl) as (b & Hb & Hlen & _)|
           destruct (BufferPool_Get_spec (1024 * 1024) _ pick ltac:(lia) Hh) as (b & Hb & Hlen & _)]]].
  all: exists b; split; [|done]; revert Hb; by destruct (BufferPool_Get pick _).
Qed.

Lemma GetOptimalBuffer_short n pick g :
  pools_reach g -> 1024 * 1024 < n -> exists b, fst (GetOptimalBuffer n pick g) = Ret b /\ buf_len b < n.
Proof.
  intros Hg Hn. destruct (GetOptimalBuffer_size n pick g Hg) as (b & Hb & Hlen). exists b. split; [done|].
  rewrite Hlen. zcases.
Qed.

(** ** Variable-size pools *)

(** Disciplined use: sizes up to 4 GiB, and only buffers whose capacity is one
    the pool hands out are put back. *)
Inductive bsp_reach : ByteSlicePool -> Prop :=
| bsp_new : bsp_reach NewByteSlicePool
| bsp_get size pick bsp :
    1 <= size <= 2 ^ 32 -> bsp_reach bsp -> bsp_reach (snd (ByteSlicePool_Get size pick bsp))
| bsp_put buf bsp :
    roundUpPowerOf2 (buf_cap buf) = buf_cap buf -> bsp_reach bsp -> bsp_reach (ByteSlicePool_Put buf bsp).

(** Every pool holds buffers of exactly its size. *)
Definition bsp_ok (bsp : ByteSlicePool) : Prop :=
  map_Forall (fun n p => Forall (fun b => buf_cap b = n) p) (bsp_pools bsp).

Lemma buf_cap_make n : 0 <= n -> buf_cap (make_bytes n) = n.
Proof. intros. unfold buf_cap, make_bytes. cbn. rewrite length_replicate. lia. Qed.

Lemma bsp_pool_ok bsp n : bsp_ok bsp ->
  Forall (fun b => buf_cap b = n) (match bsp_pools bsp !! n with Some p => p | None => [] end).
Proof. intros Hok. destruct (bsp_pools bsp !! n) as [p|] eqn:E; [|constructor]. by apply (Hok n p E). Qed.

Lemma bsp_reach_ok bsp : bsp_reach bsp -> bsp_ok bsp.
Proof.
  induction 1 as [|size pick bsp Hsz _ IH|buf bsp Hcap _ IH].
  - apply map_Forall_empty.
  - unfold ByteSlicePool_Get. pose proof (bsp_pool_ok bsp (roundUpPowerOf2 size) IH) as Hp.
    destruct bsp as [m]. unfold bsp_ok in *. cbn in *.
    destruct (pool_take pick _) as [[b p]|] eqn:E; cbn; apply map_Forall_insert_2; try done.
    by apply (pool_take_Forall (fun b => buf_cap b = roundUpPowerOf2 size) _ _ _ _ E).
  - unfold ByteSlicePool_Put. destruct (buf_len buf =? 0); [done|].
    destruct bsp as [m]. unfold bsp_ok in *. cbn in *.
    destruct (m !! roundUpPowerOf2 (buf_cap buf)) as [p|] eqn:E; [|done].
    apply map_Forall_insert_2; [|done]. constructor; [by destruct buf|]. by apply (IH _ p E).
Qed.

(** When only buffers with capacities the pool hands out are put back, Get of a
    variable-size pool never panics and returns a slice of the requested length with the
    rounded-up capacity. *)
Theorem ByteSlicePool_Get_ok (size : Z) (pick : option nat) (bsp : ByteSlicePool) :
  1 <= size <= 2 ^ 32 -> bsp_reach bsp ->
  exists b, fst (ByteSlicePool_Get size pick bsp) = Ret b /\
    buf_len b = size /\ buf_cap b = roundUpPowerOf2 size.
Proof.
  intros Hsz Hok%bsp_reach_ok. unfold ByteSlicePool_Get.
  pose proof (bsp_pool_ok bsp (roundUpPowerOf2 size) Hok) as Hp.
  assert (size <= roundUpPowerOf2 size) as Hle.
  { rewrite roundUpPowerOf2_eq by done. destruct (decide (size = 1)) as [->|]; [done|].
    apply Z.log2_up_spec. lia. }
  set (o := match pool_take pick _ with Some (b, p) => _ | None => _ end).
  assert (buf_cap (fst o) = roundUpPowerOf2 size) as Hc.
  { unfold o. destruct (pool_take pick _) as [[b p]|] eqn:E; cbn.
    - by apply (pool_take_Forall (fun b => buf_cap b = roundUpPowerOf2 size) _ _ _ _ E).
    - apply buf_cap_make. lia. }
  destruct o as [b p]. cbn in *. unfold reslice. rewrite Hc, !(proj2 (Z.leb_le _ _)) by lia. cbn.
  eexists. split; [done|]. by destruct b.
Qed.

(** A buffer from elsewhere is filed under the next power of two: a later [Get]
    that receives it slices beyond its capacity. *)
Example ByteSlicePool_foreign :
  let bsp := snd (ByteSlicePool_Get 8 None NewByteSlicePool) in
  let bsp := ByteSlicePool_Put (make_bytes 5) bsp in
  fst (ByteSlicePool_Get 8 (Some 0%nat) bsp) = Panic.
Proof. reflexivity. Qed.

(** ** Instances of the theorems *)

Lemma roundUpPowerOf2_least_witness : 1000 <= roundUpPowerOf2 1000 /\ roundUpPowerOf2 1000 <= 2 ^ 10.
Proof. destruct (roundUpPowerOf2_least 1000) as (_ & H1 & H2); [lia|]. split; [done|]. by apply H2. Defined.

Lemma BufferPool_Get_ok_witness :
  exists b, fst (BufferPool_Get (Some 0%nat) (BufferPool_Put (mkBuffer (replicate 16 7) 3) (NewBufferPool 8))) = Ret b /\
    buf_len b = 8.
Proof.
  destruct (BufferPool_Get_ok 8 (BufferPool_Put (mkBuffer (replicate 16 7) 3) (NewBufferPool 8)) (Some 0%nat))
    as (b & H & Hl & _); [lia|repeat constructor|]. by exists b.
Defined.

Lemma ByteSlicePool_Get_ok_witness :
  exists b, fst (ByteSlicePool_Get 5 (Some 0%nat)
    (ByteSlicePool_Put (make_bytes 8) (snd (ByteSlicePool_Get 7 None NewByteSlicePool)))) = Ret b /\
    buf_len b = 5 /\ buf_cap b = 8.
Proof.
  apply (ByteSlicePool_Get_ok 5 (Some 0%nat)); [lia|].
  apply bsp_put; [reflexivity|]. apply bsp_get; [lia|]. constructor.
Defined.
