(* ===== verification/ConnPool.v ===== *)
(** * The connection pool (src/pkg/pool/connection.go)

    A pooled connection is an object that the pool and a client share, so the
    connections live in a store indexed by pointers; the buffered channel of idle
    connections is a queue of pointers with the capacity [maxSize].  What the
    network answers is an argument of the operations.  Once [Pool_Close] has closed the
    channel, a receive by an operation that passed its test of [closed] before yields a
    nil pointer, which the code dereferences, and a send panics: that ends the program,
    so the queue offers no step for it. *)

From S2P Require Import Prelude.

(** ** Data *)

(** [pc_conn] is [None] for a nil socket, and tells whether the socket is open. *)
Record PooledConnection := mkPooledConnection {
  pc_conn : option bool;
  lastUsed : time;
  inUse : bool;
  closeDone : bool
}.
#[export] Instance eta_PooledConnection : Eta PooledConnection := fun c =>
  mkPooledConnection (pc_conn c) (lastUsed c) (inUse c) (closeDone c).
#[export] Instance PooledConnection_inhabited : Inhabited PooledConnection :=
  populate (mkPooledConnection None 0 false false).

Abbreviation pcptr := nat.

Record ConnectionPool := mkConnectionPool {
  maxSize : Z;
  maxIdleTime : duration;
  connections : list pcptr;
  cp_closed : bool;
  activeCount : Z;
  totalCreated : Z;
  totalReused : Z
}.
#[export] Instance eta_ConnectionPool : Eta ConnectionPool := fun p =>
  mkConnectionPool (maxSize p) (maxIdleTime p) (connections p) (cp_closed p) (activeCount p)
    (totalCreated p) (totalReused p).

(** The pool with the store of connections. *)
Record cpstate := mkCP { cp : ConnectionPool; pcs : list PooledConnection }.
#[export] Instance eta_cpstate : Eta cpstate := fun s => mkCP (cp s) (pcs s).

Definition NewConnectionPool (MaxSize : Z) (MaxIdleTime : duration) : ConnectionPool :=
  mkConnectionPool (if MaxSize <=? 0 then 10 else MaxSize)
    (if MaxIdleTime <=? 0 then 5 * Minute else MaxIdleTime) [] false 0 0 0.

(** ** The network *)

(** What a read of zero bytes returns. *)
Inductive read_result := ReadNil | ReadTimeout | ReadFailed.

Record env := mkEnv {
  zero_read : pcptr -> read_result;
  dial_ok : bool;
  ctx_done : bool;
  (** which ready case a [select] takes when the context is done as well *)
  pick_ctx : bool;
  now : time
}.

(** ** Connections *)

Definition update_pc (f : PooledConnection -> PooledConnection) (p : pcptr) (s : cpstate) : cpstate :=
  s <| pcs ::= alter f p |>.

Definition MarkInUse (now : time) (p : pcptr) (s : cpstate) : cpstate :=
  update_pc (fun c => c <| inUse := true |> <| lastUsed := now |>) p s.

Definition updateLastUsed (now : time) (p : pcptr) (s : cpstate) : cpstate :=
  update_pc (fun c => c <| lastUsed := now |>) p s.

Definition PC_IsHealthy (e : env) (s : cpstate) (p : pcptr) : bool :=
  match pc_conn (pcs s !!! p) with
  | None => false
  | Some _ => match zero_read e p with ReadTimeout => true | _ => false end
  end.

(** What a call on the socket returns; a nil socket gives [ErrConnectionClosed]. *)
Inductive pc_result (A : Type) := PCOk (a : A) | PCSocketErr (n : Z) | ErrConnectionClosed.
Arguments PCOk {A} a.
Arguments PCSocketErr {A} n.
Arguments ErrConnectionClosed {A}.

(** [io] is what the socket's own Read returns. *)
Definition PC_Read (io : pc_result Z) (now : time) (p : pcptr) (s : cpstate) : pc_result Z * cpstate :=
  match pc_conn (pcs s !!! p) with
  | None => (ErrConnectionClosed, s)
  | Some _ => (io, updateLastUsed now p s)
  end.

Definition PC_Write (io : pc_result Z) (now : time) (p : pcptr) (s : cpstate) : pc_result Z * cpstate :=
  match pc_conn (pcs s !!! p) with
  | None => (ErrConnectionClosed, s)
  | Some _ => (io, updateLastUsed now p s)
  end.

Definition PC_LocalAddr (addr : string) (p : pcptr) (s : cpstate) : option string :=
  match pc_conn (pcs s !!! p) with None => None | Some _ => Some addr end.

Definition PC_RemoteAddr (addr : string) (p : pcptr) (s : cpstate) : option string :=
  match pc_conn (pcs s !!! p) with None => None | Some _ => Some addr end.

(** [call] is the result of the socket's own method. *)
Definition PC_SetDeadline (call : pc_result unit) (p : pcptr) (s : cpstate) : pc_result unit :=
  match pc_conn (pcs s !!! p) with None => ErrConnectionClosed | Some _ => call end.

Definition PC_SetReadDeadline (call : pc_result unit) (p : pcptr) (s : cpstate) : pc_result unit :=
  match pc_conn (pcs s !!! p) with None => ErrConnectionClosed | Some _ => call end.

Definition PC_SetWriteDeadline (call : pc_result unit) (p : pcptr) (s : cpstate) : pc_result unit :=
  match pc_conn (pcs s !!! p) with None => ErrConnectionClosed | Some _ => call end.

(** [if pc.conn != nil { pc.conn.Close() }] *)
Definition close_socket (p : pcptr) (s : cpstate) : cpstate :=
  update_pc (fun c => c <| pc_conn ::= fun o => match o with Some _ => Some false | None => None end |>) p s.

Definition add_active (d : Z) (s : cpstate) : cpstate := s <| cp ::= fun p => p <| activeCount ::= fun n => i64 (n + d) |> |>.

(** ** The parts of [Get], each atomic *)

(** Receive from the channel. *)
Definition receive (s : cpstate) : option (pcptr * cpstate) :=
  match connections (cp s) with
  | [] => None
  | p :: l => Some (p, s <| cp ::= fun q => q <| connections := l |> |>)
  end.

Definition reuse (e : env) (p : pcptr) (s : cpstate) : cpstate :=
  MarkInUse (now e) p s <| cp ::= fun q => q <| totalReused ::= fun n => i64 (n + 1) |> |>.

Definition reserve (s : cpstate) : cpstate :=
  add_active 1 s <| cp ::= fun q => q <| totalCreated ::= fun n => i64 (n + 1) |> |>.

Definition connected (e : env) (s : cpstate) : pcptr * cpstate :=
  (length (pcs s), s <| pcs ::= fun l => l ++ [mkPooledConnection (Some true) (now e) true false] |>).

Inductive get_result :=
| GotConn (p : pcptr)
| ErrPoolClosed
| ErrContext
| ErrDial
| Blocked.

(** From [// Create a new connection] on; [again] is the recursive call. *)
Definition get_create (again : cpstate -> option (get_result * cpstate)) (e : env) (s : cpstate)
  : option (get_result * cpstate) :=
  if maxSize (cp s) <=? activeCount (cp s) then
    match receive s with
    | Some (p, s') =>
        if ctx_done e && pick_ctx e then Some (ErrContext, s)
        else if PC_IsHealthy e s' p then Some (GotConn p, reuse e p s')
        else again (add_active (-1) (close_socket p s'))
    | None => Some (if ctx_done e then ErrContext else Blocked, s)
    end
  else
    let s := reserve s in
    Some (if dial_ok e then let '(p, s) := connected e s in (GotConn p, s)
          else (ErrDial, add_active (-1) s)).

(** [fuel] bounds the calls; a recursive call has taken a connection out of the
    channel, so one more than the length of the channel is enough. *)
Fixpoint get_loop (fuel : nat) (e : env) (s : cpstate) : option (get_result * cpstate) :=
  match fuel with
  | O => None
  | S fuel =>
      if cp_closed (cp s) then Some (ErrPoolClosed, s)
      else
        match receive s with
        | Some (p, s') =>
            if ctx_done e && pick_ctx e then Some (ErrContext, s)
            else if PC_IsHealthy e s' p then Some (GotConn p, reuse e p s')
            else get_create (get_loop fuel e) e (close_socket p s')
        | None => if ctx_done e then Some (ErrContext, s) else get_create (get_loop fuel e) e s
        end
  end.

Definition Get (e : env) (s : cpstate) : option (get_result * cpstate) :=
  get_loop (S (length (connections (cp s)))) e s.

(** ** Returning a connection *)

(** [p.connections <- pc] in a [select] with a default: false when full. *)
Definition try_send (p : pcptr) (s : cpstate) : option cpstate :=
  if Z.of_nat (length (connections (cp s))) <? maxSize (cp s)
  then Some (s <| cp ::= fun q => q <| connections ::= fun l => l ++ [p] |> |>) else None.

Definition put (now : time) (p : pcptr) (s : cpstate) : cpstate :=
  if cp_closed (cp s) then close_socket p s
  else
    let s := update_pc (fun c => c <| inUse := false |> <| lastUsed := now |>) p s in
    match try_send p s with
    | Some s => s
    | None => close_socket p (add_active (-1) s)
    end.

(** [PooledConnection.Close]: the body runs once in the life of the object. *)
Definition PC_Close (now : time) (p : pcptr) (s : cpstate) : cpstate :=
  if closeDone (pcs s !!! p) then s
  else
    let s := update_pc (fun c => c <| closeDone := true |>) p s in
    if negb (cp_closed (cp s)) then put now p s
    else update_pc (fun c => c <| pc_conn := None |>) p (close_socket p s).

(** ** Cleanup and shutdown *)

Definition expired (now : time) (s : cpstate) (p : pcptr) : bool :=
  negb (inUse (pcs s !!! p) || (time_Sub now (lastUsed (pcs s !!! p)) <? maxIdleTime (cp s))).

(** One iteration of the loop for a connection received from the channel. *)
Definition cleanup_one (now : time) (p : pcptr) (s : cpstate) : cpstate :=
  if expired now s p then add_active (-1) (close_socket p s)
  else match try_send p s with
       | Some s => s
       | None => add_active (-1) (close_socket p s)
       end.

(** The loop; [None] while it has not ended after [fuel] iterations. *)
Fixpoint cleanup (fuel : nat) (now : time) (s : cpstate) : option cpstate :=
  match fuel with
  | O => None
  | S fuel =>
      match receive s with
      | None => Some s
      | Some (p, s) => cleanup fuel now (cleanup_one now p s)
      end
  end.

(** The goroutine that cleans up: what its [select] receives, a tick at some time or the
    closed channel [cleanupDone]; true when it has returned. *)
Inductive cleanup_event := Tick (now : time) | CleanupDone.

Fixpoint cleanupIdleConnections (fuel : nat) (l : list cleanup_event) (s : cpstate) : option (bool * cpstate) :=
  match l with
  | [] => Some (false, s)
  | CleanupDone :: _ => Some (true, s)
  | Tick now :: l =>
      match cleanup fuel now s with
      | Some s => cleanupIdleConnections fuel l s
      | None => None
      end
  end.

Definition Pool_Close (s : cpstate) : cpstate :=
  if cp_closed (cp s) then s
  else
    foldl (fun s p => close_socket p s)
      (s <| cp ::= fun q => q <| cp_closed := true |> <| connections := [] |> |>) (connections (cp s)).

Record PoolStats := mkPoolStats { Active : Z; Idle : Z; s_TotalCreated : Z; s_TotalReused : Z; s_MaxSize : Z }.
Definition Stats (s : cpstate) : PoolStats :=
  mkPoolStats (activeCount (cp s)) (Z.of_nat (length (connections (cp s)))) (totalCreated (cp s))
    (totalReused (cp s)) (maxSize (cp s)).

(** ** Concurrent use

    [out] holds the connections that clients have and have not returned,
    [dialling] counts the slots reserved for a dial in progress. *)

Record world := mkWorld { w_state : cpstate; out : list pcptr; dialling : nat }.

Inductive wstep : world -> world -> Prop :=
| w_reuse e s s' p o d :
    receive s = Some (p, s') -> wstep (mkWorld s o d) (mkWorld (reuse e p s') (p :: o) d)
| w_drop s s' p o d :
    receive s = Some (p, s') -> wstep (mkWorld s o d) (mkWorld (close_socket p s') o d)
| w_drop_count s s' p o d :
    receive s = Some (p, s') -> wstep (mkWorld s o d) (mkWorld (add_active (-1) (close_socket p s')) o d)
| w_reserve s o d :
    activeCount (cp s) < maxSize (cp s) -> wstep (mkWorld s o d) (mkWorld (reserve s) o (S d))
| w_connected e s o d :
    wstep (mkWorld s o (S d)) (mkWorld (snd (connected e s)) (fst (connected e s) :: o) d)
| w_dial_failed s o d :
    wstep (mkWorld s o (S d)) (mkWorld (add_active (-1) s) o d)
| w_used t s p o d :
    wstep (mkWorld s o d) (mkWorld (updateLastUsed t p s) o d)
| w_close t s p o1 o2 d :
    closeDone (pcs s !!! p) = false ->
    wstep (mkWorld s (o1 ++ p :: o2) d) (mkWorld (PC_Close t p s) (o1 ++ o2) d)
| w_close_again t s p o d :
    closeDone (pcs s !!! p) = true -> wstep (mkWorld s o d) (mkWorld (PC_Close t p s) o d)
| w_cleanup t s s' p o d :
    receive s = Some (p, s') -> wstep (mkWorld s o d) (mkWorld (cleanup_one t p s') o d)
| w_shutdown s o d :
    wstep (mkWorld s o d) (mkWorld (Pool_Close s) o d).

(** ** The bound on open connections *)

Definition open (s : cpstate) (p : pcptr) : Prop := pc_conn (pcs s !!! p) = Some true.
#[export] Instance open_dec s p : Decision (open s p).
Proof. unfold open. apply _. Defined.

(** The connections the pool or a client holds. *)
Definition held (s : cpstate) (o : list pcptr) : list pcptr := connections (cp s) ++ o.

Record w_inv (m : Z) (w : world) : Prop := {
  wi_max : maxSize (cp (w_state w)) = m;
  wi_valid : Forall (fun p => (p < length (pcs (w_state w)))%nat) (held (w_state w) (out w));
  wi_nodup : NoDup (held (w_state w) (out w));
  wi_open p : open (w_state w) p -> p ∈ held (w_state w) (out w);
  wi_count : Z.of_nat (length (held (w_state w) (out w))) + Z.of_nat (dialling w) <= activeCount (cp (w_state w));
  wi_active : activeCount (cp (w_state w)) <= m
}.

Lemma lookup_alter_total (f : PooledConnection -> PooledConnection) (l : list PooledConnection) p q :
  alter f p l !!! q = if decide (p = q /\ (q < length l)%nat) then f (l !!! q) else l !!! q.
Proof.
  rewrite list_lookup_total_alter. case_decide as H1; case_decide as H2; try done; naive_solver.
Qed.

(** An update that opens no socket. *)
Lemma open_update f p s q :
  (forall c, pc_conn (f c) = Some true -> pc_conn c = Some true) -> open (update_pc f p s) q -> open s q.
Proof.
  intros Hf. unfold open, update_pc. destruct s as [c l]. cbn. rewrite lookup_alter_total. case_decide; auto.
Qed.

Lemma open_close_socket p s q : open (close_socket p s) q -> open s q /\ (q = p -> ~ (p < length (pcs s))%nat).
Proof.
  unfold open, close_socket, update_pc. destruct s as [c l]. cbn. rewrite lookup_alter_total.
  case_decide as Hd.
  - destruct (l !!! q) as [[[]|] ? ? ?]; cbn; done.
  - intros H. split; [done|]. intros -> Hlt. by destruct Hd.
Qed.

(** A step keeps the invariant when it forgets only connections it closed. *)
Lemma w_inv_change m s o d s' o' d' :
  w_inv m (mkWorld s o d) -> maxSize (cp s') = m -> length (pcs s') = length (pcs s) ->
  held s' o' ⊆+ held s o -> (forall p, open s' p -> open s p /\ (p ∈ held s o -> p ∈ held s' o')) ->
  Z.of_nat (length (held s' o')) + Z.of_nat d' <= activeCount (cp s') <= m ->
  w_inv m (mkWorld s' o' d').
Proof.
  intros [Hm Hv Hn Ho Hc Ha] Hm' Hl Hsub Hop Hact. cbn in *. split; cbn; try done; try lia.
  - rewrite Hl. apply Forall_forall. intros p Hp. rewrite Forall_forall in Hv. apply Hv. by eapply elem_of_submseteq.
  - apply submseteq_Permutation in Hsub as [k Hk]. rewrite Hk in Hn. by apply NoDup_app in Hn as [? _].
  - intros p Hp. destruct (Hop p Hp). auto.
Qed.

Lemma receive_eq s p s' :
  receive s = Some (p, s') ->
  connections (cp s) = p :: connections (cp s') /\ pcs s' = pcs s /\
  maxSize (cp s') = maxSize (cp s) /\ activeCount (cp s') = activeCount (cp s).
Proof. unfold receive. destruct s as [[m t [|x l] c a n r] l']; cbn; [done|]. by intros [= <- <-]. Qed.

(** Fields that the operations leave alone. *)
Lemma close_socket_cp p s : cp (close_socket p s) = cp s.
Proof. by destruct s. Qed.
Lemma update_pc_cp f p s : cp (update_pc f p s) = cp s.
Proof. by destruct s. Qed.
Lemma update_pc_length f p s : length (pcs (update_pc f p s)) = length (pcs s).
Proof. destruct s. cbn. apply length_alter. Qed.
Lemma add_active_eq k s :
  pcs (add_active k s) = pcs s /\ connections (cp (add_active k s)) = connections (cp s) /\
  maxSize (cp (add_active k s)) = maxSize (cp s) /\ activeCount (cp (add_active k s)) = i64 (activeCount (cp s) + k) /\
  cp_closed (cp (add_active k s)) = cp_closed (cp s).
Proof. by destruct s as [[]]. Qed.

(** A connection taken from the channel, closed and forgotten; [k] is 0 or 1. *)
Lemma w_inv_drop m s s' p o d k :
  0 < m < 2 ^ 63 -> 0 <= k <= 1 ->
  w_inv m (mkWorld s o d) -> receive s = Some (p, s') ->
  w_inv m (mkWorld (add_active (- k) (close_socket p s')) o d).
Proof.
  intros Hm Hk Hi (Hc & Hp & Hmx & Ha)%receive_eq. pose proof Hi as [Hmax Hv _ _ Hcount Hact]. cbn in *.
  destruct (add_active_eq (- k) (close_socket p s')) as (E1 & E2 & E3 & E4 & _).
  rewrite close_socket_cp in *. unfold held in *. rewrite Hc in *. cbn [app length] in *.
  eapply (w_inv_change m s o d); try done.
  - by rewrite E3, Hmx.
  - rewrite E1. unfold close_socket. by rewrite update_pc_length, Hp.
  - unfold held. rewrite E2, Hc. by apply submseteq_cons.
  - intros q Hq. unfold open in Hq. rewrite E1 in Hq. apply open_close_socket in Hq as [Hq Hne].
    unfold open in Hq. rewrite Hp in Hq, Hne. split; [done|]. unfold held. rewrite E2, Hc. cbn.
    intros [->|Hin]%elem_of_cons; [|done]. destruct (Hne eq_refl).
    rewrite Forall_cons in Hv. tauto.
  - unfold held. rewrite E2, E4, Ha. rewrite i64_small by lia. lia.
Qed.

(** A step that updates connections without opening any and moves pointers. *)
Lemma w_inv_move m s o d s' o' :
  w_inv m (mkWorld s o d) -> maxSize (cp s') = maxSize (cp s) -> activeCount (cp s') = activeCount (cp s) ->
  length (pcs s') = length (pcs s) -> held s' o' ≡ₚ held s o -> (forall p, open s' p -> open s p) ->
  w_inv m (mkWorld s' o' d).
Proof.
  intros Hi Hm Ha Hl Hh Ho. pose proof Hi as [Hmax _ _ _ Hc Hact]. cbn in *.
  eapply (w_inv_change m s o d); try done.
  - congruence.
  - by rewrite Hh.
  - intros p Hp. split; [auto|]. by rewrite Hh.
  - rewrite Hh, Ha. lia.
Qed.

Lemma w_inv_connected m e s o d :
  w_inv m (mkWorld s o (S d)) -> w_inv m (mkWorld (snd (connected e s)) (fst (connected e s) :: o) d).
Proof.
  intros [Hm Hv Hn Ho Hc Ha]. destruct s as [c l]. cbn in *. unfold held in *. cbn in *.
  assert (length l ∉ connections c ++ o) as Hfresh.
  { intros Hin. rewrite Forall_forall in Hv. specialize (Hv _ Hin). cbn in Hv. lia. }
  assert (connections c ++ length l :: o ≡ₚ length l :: connections c ++ o) as Hp by solve_Permutation.
  split; cbn; unfold held; cbn; try done.
  - rewrite Hp, length_app. cbn. constructor; [lia|]. eapply Forall_impl; [exact Hv|]. cbn. lia.
  - rewrite Hp. by constructor.
  - intros p Hop. rewrite Hp. unfold open in Hop. cbn in Hop.
    destruct (decide (p < length l)%nat) as [Hlt|Hge].
    + apply elem_of_cons. right. apply Ho. unfold open. cbn. by rewrite lookup_total_app_l in Hop.
    + destruct (decide (p = length l)) as [->|Hne]; [set_solver|].
      rewrite list_lookup_total_alt, lookup_ge_None_2 in Hop; [done|]. rewrite length_app. cbn. lia.
  - rewrite Hp. cbn [length]. lia.
Qed.

(** Closing the socket of a connection that leaves [out]. *)
Lemma w_inv_leave m s o1 o2 d p s' k :
  0 < m < 2 ^ 63 -> 0 <= k <= 1 ->
  w_inv m (mkWorld s (o1 ++ p :: o2) d) ->
  connections (cp s') = connections (cp s) -> maxSize (cp s') = maxSize (cp s) ->
  length (pcs s') = length (pcs s) -> activeCount (cp s') = i64 (activeCount (cp s) - k) ->
  (forall q, open s' q -> open s q /\ q <> p) ->
  w_inv m (mkWorld s' (o1 ++ o2) d).
Proof.
  intros Hm Hk Hi Hc Hmx Hl Ha Ho. pose proof Hi as [Hmax _ _ _ Hcount Hact]. cbn in *.
  assert (held s (o1 ++ p :: o2) ≡ₚ p :: held s' (o1 ++ o2)) as Hh.
  { unfold held. rewrite Hc. solve_Permutation. }
  rewrite Hh in Hcount. cbn [length] in Hcount.
  eapply (w_inv_change m s (o1 ++ p :: o2) d); try done.
  - congruence.
  - rewrite Hh. by apply submseteq_cons.
  - intros q Hq. destruct (Ho q Hq) as [Hop Hne]. split; [done|]. rewrite Hh. by intros [|]%elem_of_cons.
  - rewrite Ha, i64_small by lia. lia.
Qed.

Lemma w_inv_close m t s o1 o2 d p :
  0 < m < 2 ^ 63 -> closeDone (pcs s !!! p) = false ->
  w_inv m (mkWorld s (o1 ++ p :: o2) d) -> w_inv m (mkWorld (PC_Close t p s) (o1 ++ o2) d).
Proof.
  intros Hm Hd Hi. pose proof Hi as [Hmax Hv _ _ Hcount Hact].
  assert (p < length (pcs s))%nat as Hp.
  { cbn in Hv. unfold held in Hv. rewrite Forall_forall in Hv. apply Hv. set_solver. }
  unfold PC_Close. rewrite Hd.
  set (s1 := update_pc (fun c => c <| closeDone := true |>) p s).
  assert (cp s1 = cp s) as Ec by apply update_pc_cp.
  assert (length (pcs s1) = length (pcs s)) as El by apply update_pc_length.
  assert (forall q, open s1 q -> open s q) as Eo by (intros q; apply open_update; by intros []).
  rewrite Ec. destruct (cp_closed (cp s)) eqn:Ecl; cbn [negb].
  - apply (w_inv_leave m s o1 o2 d p _ 0); try done; rewrite ?update_pc_cp, ?close_socket_cp, ?Ec; try done.
    + by rewrite update_pc_length; unfold close_socket; rewrite update_pc_length.
    + cbn in *. rewrite i64_small by lia. lia.
    + intros q Hq%open_update; [|by intros []]. apply open_close_socket in Hq as [Hq Hne].
      split; [auto|]. intros ->. apply (Hne eq_refl). lia.
  - unfold put. rewrite Ec, Ecl. set (s2 := update_pc _ p s1).
    assert (cp s2 = cp s) as Ec2 by (unfold s2; by rewrite update_pc_cp).
    assert (length (pcs s2) = length (pcs s)) as El2 by (unfold s2; by rewrite update_pc_length).
    assert (forall q, open s2 q -> open s q) as Eo2.
    { intros q Hq. apply Eo. revert Hq. apply open_update. by intros []. }
    unfold try_send. destruct (Z.ltb_spec (Z.of_nat (length (connections (cp s2)))) (maxSize (cp s2))).
    + eapply (w_inv_move m s (o1 ++ p :: o2)); try done; destruct s2 as [c2 l2]; cbn in *; subst c2; try done.
      * unfold held. cbn. destruct (cp s). cbn. solve_Permutation.
    + destruct (add_active_eq (-1) s2) as (F1 & F2 & F3 & F4 & _).
      apply (w_inv_leave m s o1 o2 d p _ 1); try done; rewrite ?close_socket_cp; try congruence.
      * unfold close_socket. by rewrite update_pc_length, F1.
      * intros q [Hq Hne]%open_close_socket. unfold open in Hq. rewrite F1 in *. split; [by apply Eo2|].
        intros ->. apply (Hne eq_refl). lia.
Qed.

Lemma shutdown_fold l s :
  let s' := foldl (fun s p => close_socket p s) s l in
  cp s' = cp s /\ length (pcs s') = length (pcs s) /\
  forall q, open s' q -> open s q /\ (q ∈ l -> ~ (q < length (pcs s))%nat).
Proof.
  revert s. induction l as [|p l IH]; intros s; cbn.
  { split_and!; [done..|]. intros q Hq. split; [done|]. by intros ?%elem_of_nil. }
  destruct (IH (close_socket p s)) as (-> & -> & Ho). rewrite close_socket_cp.
  unfold close_socket at 1. rewrite update_pc_length. split_and!; [done..|].
  intros q [Hq Hl]%Ho. apply open_close_socket in Hq as [Hq Hne]. split; [done|].
  intros [->|Hin]%elem_of_cons; [by apply Hne|].
  specialize (Hl Hin). unfold close_socket in Hl. by rewrite update_pc_length in Hl.
Qed.

Lemma w_inv_shutdown m s o d : w_inv m (mkWorld s o d) -> w_inv m (mkWorld (Pool_Close s) o d).
Proof.
  intros Hi. unfold Pool_Close. destruct (cp_closed (cp s)); [done|].
  pose proof Hi as [Hmax Hv _ _ Hcount Hact].
  destruct (shutdown_fold (connections (cp s))
    (s <| cp ::= fun q => q <| cp_closed := true |> <| connections := [] |> |>)) as (Ec & El & Eo).
  destruct s as [[mx it l c a n r] st]. cbn in *. unfold held in *. cbn in *.
  eapply (w_inv_change m _ o d _ o d Hi); try done; rewrite ?Ec; try done.
  - unfold held. rewrite Ec. cbn. by apply submseteq_inserts_l.
  - intros p Hp. destruct (Eo p Hp) as [Hop Hne]. split; [done|]. unfold held. rewrite Ec. cbn.
    intros [Hin|Hin]%elem_of_app; [|done]. destruct (Hne Hin). rewrite Forall_forall in Hv.
    apply Hv. set_solver.
  - unfold held. rewrite Ec. cbn. rewrite length_app in Hcount. lia.
Qed.

Lemma w_inv_cleanup m t s s' p o d :
  0 < m < 2 ^ 63 -> w_inv m (mkWorld s o d) -> receive s = Some (p, s') ->
  w_inv m (mkWorld (cleanup_one t p s') o d).
Proof.
  intros Hm Hi Hr. pose proof (w_inv_drop m s s' p o d 1 Hm ltac:(lia) Hi Hr) as Hdrop.
  unfold cleanup_one. destruct (expired t s' p); [done|]. unfold try_send.
  destruct (Z.ltb_spec (Z.of_nat (length (connections (cp s')))) (maxSize (cp s'))); [|done].
  destruct (receive_eq s p s' Hr) as (Hc & Hp & Hmx & Ha).
  eapply (w_inv_move m s o); try done; destruct s' as [c' l']; cbn in *; subst l'; try done; destruct c'; cbn in *; try done.
  unfold held. rewrite Hc. cbn. solve_Permutation.
Qed.

Lemma w_inv_step m w w' : 0 < m < 2 ^ 63 -> wstep w w' -> w_inv m w -> w_inv m w'.
Proof.
  intros Hm Hstep Hi.
  destruct Hstep as [e s s' p o d Hr|s s' p o d Hr|s s' p o d Hr|s o d Hlt|e s o d|s o d|t s p o d|t s p o1 o2 d Hd
    |t s p o d Hd|t s s' p o d Hr|s o d].
  - destruct (receive_eq s p s' Hr) as (Hc & Hp & Hmx & Ha).
    eapply (w_inv_move m s o); try done; unfold reuse, MarkInUse, update_pc; destruct s' as [[] l']; cbn in *; subst l'.
    + apply length_alter.
    + unfold held. rewrite Hc. cbn. solve_Permutation.
    + intros q. apply (open_update _ p s q). by intros [].
  - replace (close_socket p s') with (add_active (- 0) (close_socket p s')); [by apply (w_inv_drop m s)|].
    destruct (receive_eq s p s' Hr) as (_ & _ & _ & Ha). pose proof Hi as [_ _ _ _ Hcount Hact].
    cbn in *. destruct s' as [[] l']. cbn in *. unfold add_active, close_socket, update_pc. cbn.
    do 2 f_equal. rewrite i64_small by lia. lia.
  - by apply (w_inv_drop m s s' p o d 1).
  - pose proof Hi as [Hmax _ _ _ Hcount Hact]. destruct s as [[] l]. cbn in *.
    eapply (w_inv_change m _ o d _ o _ Hi); try done; cbn.
    unfold held in *. cbn in *. rewrite i64_small by lia. lia.
  - by apply w_inv_connected.
  - pose proof Hi as [Hmax _ _ _ Hcount Hact]. destruct s as [[] l]. cbn in *.
    eapply (w_inv_change m _ o (S d) _ o _ Hi); try done; cbn.
    unfold held in *. cbn in *. rewrite i64_small by lia. lia.
  - eapply (w_inv_move m s o d _ o Hi); unfold updateLastUsed; rewrite ?update_pc_cp, ?update_pc_length; try done.
    intros q. apply open_update. by intros [].
  - by apply w_inv_close.
  - unfold PC_Close. by rewrite Hd.
  - by eapply w_inv_cleanup.
  - by apply w_inv_shutdown.
Qed.

(** Reads and writes of clients are steps of this system, on whatever connection. *)
Lemma PC_io_step io t p s o d :
  let use := [snd (PC_Read io t p s); snd (PC_Write io t p s)] in
  Forall (fun s' => s' = s \/ wstep (mkWorld s o d) (mkWorld s' o d)) use.
Proof.
  unfold PC_Read, PC_Write. destruct (pc_conn _); repeat apply Forall_cons_2; cbn; auto using wstep, Forall_nil_2.
Qed.

(** A pass of the cleanup goroutine is a sequence of steps. *)
Lemma cleanup_steps fuel t s s' o d :
  cleanup fuel t s = Some s' -> rtc wstep (mkWorld s o d) (mkWorld s' o d).
Proof.
  revert s. induction fuel as [|fuel IH]; intros s; cbn; [done|].
  destruct (receive s) as [[p s1]|] eqn:E; [|by intros [= ->]].
  intros H. eapply rtc_l; [by apply w_cleanup|]. by apply IH.
Qed.

Lemma cleanupIdle_steps fuel l s b s' o d :
  cleanupIdleConnections fuel l s = Some (b, s') -> rtc wstep (mkWorld s o d) (mkWorld s' o d).
Proof.
  revert s. induction l as [|[t|] l IH]; intros s; cbn; [by intros [= _ ->]| |by intros [= _ ->]].
  destruct (cleanup fuel t s) as [s1|] eqn:E; [|done]. intros H. etrans; [by eapply cleanup_steps|]. by apply IH.
Qed.

Definition w_start (MaxSize : Z) (MaxIdleTime : duration) : world :=
  mkWorld (mkCP (NewConnectionPool MaxSize MaxIdleTime) []) [] 0.

Lemma w_start_inv M T : w_inv (maxSize (NewConnectionPool M T)) (w_start M T).
Proof.
  split; cbn.
  - done.
  - constructor.
  - constructor.
  - intros p Hp. unfold open in Hp. cbn in Hp. by destruct p.
  - done.
  - zcases.
Qed.

(** After a pool that is closed took a connection back, every method of the connection
    reports it closed; while the pool is open the wrapper still reaches the socket, which
    may meanwhile belong to another client. *)
Lemma PC_Close_methods t t' io call addr p s :
  (p < length (pcs s))%nat -> closeDone (pcs s !!! p) = false -> is_Some (pc_conn (pcs s !!! p)) ->
  let s' := PC_Close t p s in
  if cp_closed (cp s)
  then PC_Read io t' p s' = (ErrConnectionClosed, s') /\ PC_Write io t' p s' = (ErrConnectionClosed, s') /\
    PC_LocalAddr addr p s' = None /\ PC_RemoteAddr addr p s' = None /\
    PC_SetDeadline call p s' = ErrConnectionClosed
  else fst (PC_Read io t' p s') = io /\ PC_SetDeadline call p s' = call.
Proof.
  intros Hp Hd [b Hc]. cbv zeta. unfold PC_Close. rewrite Hd.
  destruct s as [[mx it l c a n r] st]. cbn in *. destruct c; cbn.
  - unfold PC_Read, PC_Write, PC_LocalAddr, PC_RemoteAddr, PC_SetDeadline, close_socket, update_pc. cbn.
    rewrite lookup_alter_total, decide_True by (rewrite !length_alter; tauto). done.
  - unfold put, PC_Read, PC_SetDeadline, try_send, close_socket, update_pc. cbn.
    destruct (_ <? mx); cbn; rewrite !lookup_alter_total, !decide_True by (rewrite ?length_alter; tauto); cbn;
      destruct (st !!! p) as [[x|] ? ? ?]; done.
Qed.

(** The sockets that are open. *)
Definition open_conns (s : cpstate) : list pcptr := filter (open s) (seq 0 (length (pcs s))).

(** C12: In every state reachable by interleaving the atomic parts of Get, Close,
    cleanup and shutdown of any number of clients, at most MaxSize sockets of the pool
    are open, the active count stays between 0 and MaxSize and the idle channel never
    overflows. A receive from the channel that shutdown has closed, or a send on it,
    panics and ends the program (finding); such a state has no step. *)
Theorem ConnectionPool_bound (MaxSize : Z) (MaxIdleTime : duration) (w : world) :
  MaxSize < 2 ^ 63 -> rtc wstep (w_start MaxSize MaxIdleTime) w ->
  let p := cp (w_state w) in
  Z.of_nat (length (open_conns (w_state w))) <= maxSize p /\
  0 <= activeCount p <= maxSize p /\ Z.of_nat (length (connections p)) <= maxSize p.
Proof.
  intros HM Hr.
  assert (0 < maxSize (NewConnectionPool MaxSize MaxIdleTime) < 2 ^ 63) as Hm by (cbn; zcases).
  assert (w_inv (maxSize (NewConnectionPool MaxSize MaxIdleTime)) w) as [Hmax _ Hn Ho Hc Ha].
  { revert Hr. apply rtc_invariant; [|apply w_start_inv]. intros a b. by apply w_inv_step. }
  assert (length (open_conns (w_state w)) <= length (held (w_state w) (out w)))%nat as Hle.
  { apply submseteq_length, NoDup_submseteq.
    - apply NoDup_filter, NoDup_seq.
    - intros p [Hp _]%list_elem_of_filter. auto. }
  unfold held in *. rewrite length_app in *. cbn. lia.
Qed.

(** A call of [Get] is a sequence of such steps. *)
Definition take_out (r : get_result) (o : list pcptr) : list pcptr :=
  match r with GotConn p => p :: o | _ => o end.

Lemma get_create_steps again e s o d r :
  (forall s1 r1, again s1 = Some r1 ->
     rtc wstep (mkWorld s1 o d) (mkWorld (snd r1) (take_out (fst r1) o) d)) ->
  get_create again e s = Some r -> rtc wstep (mkWorld s o d) (mkWorld (snd r) (take_out (fst r) o) d).
Proof.
  intros Hag. unfold get_create. destruct (Z.leb_spec (maxSize (cp s)) (activeCount (cp s))) as [|Hlt].
  - destruct (receive s) as [[p s']|] eqn:Hr; [|intros [= <-]; by destruct (ctx_done e)].
    destruct (_ && _); [by intros [= <-]|]. destruct (PC_IsHealthy e s' p).
    + intros [= <-]. by apply rtc_once, w_reuse.
    + intros Hx. eapply rtc_l; [by apply w_drop_count|]. by apply Hag.
  - intros [= <-]. eapply rtc_l; [by apply w_reserve|]. destruct (dial_ok e).
    + apply rtc_once. apply (w_connected e).
    + apply rtc_once, w_dial_failed.
Qed.

Lemma get_loop_steps fuel e s o d r :
  get_loop fuel e s = Some r -> rtc wstep (mkWorld s o d) (mkWorld (snd r) (take_out (fst r) o) d).
Proof.
  revert s r. induction fuel as [|fuel IH]; intros s r; cbn [get_loop]; [done|].
  destruct (cp_closed (cp s)); [by intros [= <-]|].
  destruct (receive s) as [[p s']|] eqn:Hr.
  - destruct (_ && _); [by intros [= <-]|]. destruct (PC_IsHealthy e s' p).
    + intros [= <-]. by apply rtc_once, w_reuse.
    + intros H. eapply rtc_l; [by apply w_drop|]. revert H. apply get_create_steps. exact IH.
  - destruct (ctx_done e); [by intros [= <-]|]. apply get_create_steps. exact IH.
Qed.

Lemma receive_shorter s p s' : receive s = Some (p, s') ->
  length (connections (cp s)) = S (length (connections (cp s'))).
Proof. intros (-> & _)%receive_eq. done. Qed.

Lemma get_create_total again e s :
  (forall s1, (length (connections (cp s1)) < length (connections (cp s)))%nat -> exists r, again s1 = Some r) ->
  exists r, get_create again e s = Some r.
Proof.
  intros Hag. unfold get_create. destruct (_ <=? _); [|by eexists].
  destruct (receive s) as [[p s']|] eqn:Hr; [|by eexists]. apply receive_shorter in Hr.
  destruct (_ && _); [by eexists|]. destruct (PC_IsHealthy e s' p); [by eexists|]. apply Hag.
  destruct (add_active_eq (-1) (close_socket p s')) as (_ & -> & _). rewrite close_socket_cp. lia.
Qed.

Lemma Get_total e s : exists r, Get e s = Some r.
Proof.
  unfold Get. remember (S (length (connections (cp s)))) as fuel eqn:Hf.
  assert (length (connections (cp s)) < fuel)%nat as Hlt by lia. clear Hf. revert s Hlt.
  induction fuel as [|fuel IH]; intros s Hlt; [lia|]. cbn [get_loop].
  destruct (cp_closed (cp s)); [by eexists|].
  destruct (receive s) as [[p s']|] eqn:Hr.
  - apply receive_shorter in Hr. destruct (_ && _); [by eexists|].
    destruct (PC_IsHealthy e s' p); [by eexists|]. apply get_create_total. rewrite close_socket_cp.
    intros s1 Hs1. apply IH. lia.
  - destruct (ctx_done e); [by eexists|]. apply get_create_total. intros s1 Hs1. apply IH. lia.
Qed.

(** ** Cleanup *)

Lemma expired_close_socket t s p q : expired t (close_socket p s) q = expired t s q.
Proof.
  unfold expired, close_socket, update_pc. destruct s as [c l]. cbn. rewrite lookup_alter_total.
  case_decide; [|done]. by destruct (l !!! q).
Qed.

Lemma expired_add_active t k s q : expired t (add_active k s) q = expired t s q.
Proof. by destruct s as [[]]. Qed.

Lemma expired_receive t s p s' q : receive s = Some (p, s') -> expired t s' q = expired t s q.
Proof. unfold receive. destruct s as [[? ? [|? ?]]]; cbn; [done|]. by intros [= <- <-]. Qed.

(** A connection that has not expired goes back to the end of the queue. *)
Lemma cleanup_one_fresh t p s :
  expired t s p = false -> Z.of_nat (length (connections (cp s))) < maxSize (cp s) ->
  connections (cp (cleanup_one t p s)) = connections (cp s) ++ [p] /\
  maxSize (cp (cleanup_one t p s)) = maxSize (cp s) /\
  forall q, expired t (cleanup_one t p s) q = expired t s q.
Proof.
  intros He Hlt. unfold cleanup_one, try_send. rewrite He, (proj2 (Z.ltb_lt _ _)) by done.
  by destruct s as [[]].
Qed.

Lemma cleanup_one_expired t p s :
  expired t s p = true ->
  connections (cp (cleanup_one t p s)) = connections (cp s) /\
  maxSize (cp (cleanup_one t p s)) = maxSize (cp s) /\
  forall q, expired t (cleanup_one t p s) q = expired t s q.
Proof.
  intros He. unfold cleanup_one. rewrite He.
  destruct (add_active_eq (-1) (close_socket p s)) as (_ & -> & -> & _). rewrite close_socket_cp.
  split_and!; [done..|]. intros q. by rewrite expired_add_active, expired_close_socket.
Qed.

(** A fresh connection in the queue keeps the loop running. *)
Lemma cleanup_diverges fuel t s p :
  Z.of_nat (length (connections (cp s))) <= maxSize (cp s) ->
  p ∈ connections (cp s) -> expired t s p = false -> cleanup fuel t s = None.
Proof.
  revert s. induction fuel as [|fuel IH]; intros s Hlen Hin Hf; [done|]. cbn [cleanup].
  destruct (receive s) as [[x s']|] eqn:Hr.
  2:{ unfold receive in Hr. destruct (connections (cp s)); [by apply elem_of_nil in Hin|done]. }
  pose proof (receive_eq _ _ _ Hr) as (Hc & _ & Hm & _). pose proof (expired_receive t _ _ _ p Hr) as Hep.
  rewrite Hc in Hlen, Hin. cbn [length] in Hlen. destruct (expired t s' x) eqn:Ex.
  - destruct (cleanup_one_expired t x s' Ex) as (E1 & E2 & E3). apply IH; rewrite ?E1, ?E2, ?E3; [lia| |congruence].
    apply elem_of_cons in Hin as [->|?]; [congruence|done].
  - destruct (cleanup_one_fresh t x s' Ex) as (E1 & E2 & E3); [lia|].
    apply IH; rewrite ?E1, ?E2, ?E3; [rewrite length_app; cbn [length]; lia|set_solver|congruence].
Qed.

Lemma cleanup_finishes t s :
  Forall (fun p => expired t s p = true) (connections (cp s)) ->
  exists s', cleanup (S (length (connections (cp s)))) t s = Some s' /\ connections (cp s') = [].
Proof.
  remember (connections (cp s)) as l eqn:Hl. revert s Hl. induction l as [|x l IH]; intros s Hl Hall.
  - exists s. cbn. unfold receive. by rewrite <- Hl.
  - apply Forall_cons in Hall as [Hx Hall]. cbn [cleanup length].
    destruct (receive s) as [[y s']|] eqn:Hr; [|unfold receive in Hr; by rewrite <- Hl in Hr].
    pose proof (receive_eq _ _ _ Hr) as (Hc & _). rewrite <- Hl in Hc. simplify_eq.
    rewrite <- (expired_receive t _ _ _ y Hr) in Hx.
    destruct (cleanup_one_expired t y s' Hx) as (E1 & _ & E3). apply IH; [done|].
    eapply Forall_impl; [exact Hall|]. intros q Hq. by rewrite E3, (expired_receive t _ _ _ q Hr).
Qed.

(** One run of the idle cleanup terminates if and only if every idle connection has
    expired: with a single fresh connection in the channel the loop takes it and puts it
    back forever. *)
Theorem cleanup_terminates_iff (t : time) (s : cpstate) :
  Z.of_nat (length (connections (cp s))) <= maxSize (cp s) ->
  (exists fuel s', cleanup fuel t s = Some s') <->
  Forall (fun p => expired t s p = true) (connections (cp s)).
Proof.
  intros Hlen. split.
  - intros (fuel & s' & Hs). apply Forall_forall. intros p Hp.
    destruct (expired t s p) eqn:E; [done|]. by rewrite (cleanup_diverges fuel t s p) in Hs.
  - intros (s' & Hs & _)%cleanup_finishes. eauto.
Qed.

(** ** Exhaustion *)

(** A network on which a read of zero bytes succeeds at once, as it does on the
    TCP connections of package net; dials succeed, the context is never done. *)
Definition tcp_env (t : time) : env := mkEnv (fun _ => ReadNil) true false false t.

(** A client that gets a connection and closes it. *)
Definition use_once (t : time) (s : cpstate) : option cpstate :=
  match Get (tcp_env t) s with
  | Some (GotConn p, s) => Some (PC_Close t p s)
  | _ => None
  end.

Fixpoint use_times (n : nat) (t : time) (s : cpstate) : option cpstate :=
  match n with
  | O => Some s
  | S n => s ← use_once t s; use_times n t s
  end.

(** After [k] uses: one idle connection, and [k] slots counted as taken. *)
Definition used (m T : Z) (k : Z) (s : cpstate) : Prop :=
  exists cr re, cp s = mkConnectionPool m T (if k =? 0 then [] else [(length (pcs s) - 1)%nat]) false k cr re /\
    (k = 0 \/ (0 < length (pcs s))%nat) /\ forall p, open s p -> p ∈ connections (cp s).

(** The connection found idle is closed, and a new one takes another slot. *)
Lemma get_used m T k t l cr re :
  let idle := if k =? 0 then [] else [(length l - 1)%nat] in
  let c := mkConnectionPool m T idle false k cr re in
  0 <= k < m -> m < 2 ^ 63 -> (forall p, open (mkCP c l) p -> p ∈ idle) ->
  exists l', length l' = length l /\ (forall p, ~ pc_conn (l' !!! p) = Some true) /\
    get_loop (S (length idle)) (tcp_env t) (mkCP c l) =
    Some (GotConn (length l), mkCP (mkConnectionPool m T [] false (k + 1) (i64 (cr + 1)) re)
      (l' ++ [mkPooledConnection (Some true) t true false])).
Proof.
  intros idle c Hk Hm Ho. subst idle c. destruct (Z.eqb_spec k 0) as [->|Hne].
  - exists l. split; [done|]. split; [by intros p Hp%Ho%elem_of_nil|]. cbn -[Z.leb].
    unfold get_create. cbn -[Z.leb]. by rewrite (proj2 (Z.leb_gt _ _)) by lia.
  - eexists (pcs (close_socket (length l - 1) (mkCP (mkConnectionPool m T [] false k cr re) l))).
    split; [apply update_pc_length|]. split.
    { intros p [Hp Hp']%(open_close_socket _ _ _). pose proof (Ho _ Hp) as Hin%list_elem_of_singleton.
      destruct (Hp' Hin). destruct l; cbn; [|lia]. unfold open in Hp. cbn in Hp. by destruct p. }
    cbn -[Z.leb get_create]. unfold PC_IsHealthy. cbn -[Z.leb get_create].
    replace (match pc_conn _ with Some _ => false | None => false end) with false by by destruct (pc_conn _).
    unfold get_create. cbn -[Z.leb]. rewrite (proj2 (Z.leb_gt _ _)) by lia.
    unfold connected, reserve, add_active. cbn. rewrite length_alter, i64_small by lia. done.
Qed.

Lemma use_once_used m T k t s :
  0 <= k < m -> m < 2 ^ 63 -> used m T k s -> exists s', use_once t s = Some s' /\ used m T (k + 1) s'.
Proof.
  intros Hk Hm (cr & re & Hs & Hl & Ho). destruct s as [c l]. cbn in *. subst c. unfold use_once, Get.
  destruct (get_used m T k t l cr re Hk Hm Ho) as (l' & Hl' & Hcl & Hg).
  cbn [cp connections] in *. rewrite Hg. cbn -[PC_Close]. eexists. split; [done|].
  unfold PC_Close. cbn. rewrite list_lookup_total_middle by done. cbn.
  unfold try_send. cbn -[Z.ltb]. rewrite (proj2 (Z.ltb_lt _ _)) by lia.
  exists (i64 (cr + 1)), re. cbn. rewrite !length_alter, length_app. cbn. split_and!; [|lia|].
  - rewrite (proj2 (Z.eqb_neq _ _)) by lia. do 2 f_equal. lia.
  - intros q Hq. unfold open in Hq. cbn in Hq. rewrite !lookup_alter_total in Hq.
    destruct (decide (q = length l)) as [->|Hne]; [set_solver|]. exfalso.
    repeat case_decide; try naive_solver. destruct (decide (q < length l')%nat).
    + rewrite lookup_total_app_l in Hq by done. by apply (Hcl q).
    + rewrite list_lookup_total_alt, lookup_ge_None_2 in Hq; [done|]. rewrite length_app. cbn. lia.
Qed.

Lemma use_times_used m T n t s k :
  0 <= k -> k + Z.of_nat n <= m -> m < 2 ^ 63 -> used m T k s ->
  exists s', use_times n t s = Some s' /\ used m T (k + Z.of_nat n) s'.
Proof.
  revert s k. induction n as [|n IH]; intros s k Hk Hn Hm Hu.
  - exists s. split; [done|]. by rewrite Z.add_0_r.
  - destruct (use_once_used m T k t s) as (s1 & H1 & Hu1); [lia|done|done|].
    destruct (IH s1 (k + 1)) as (s' & H' & Hu'); [lia|lia|done|done|].
    exists s'. cbn. rewrite H1. split; [done|]. by replace (k + Z.of_nat (S n)) with (k + 1 + Z.of_nat n) by lia.
Qed.

(** A pool whose slots are all taken and whose channel is empty. *)
Definition wedged (s : cpstate) : Prop :=
  cp_closed (cp s) = false /\ connections (cp s) = [] /\ maxSize (cp s) <= activeCount (cp s).

Lemma wedged_blocks e s : wedged s -> ctx_done e = false -> Get e s = Some (Blocked, s).
Proof.
  intros (Hc & Hl & Ha) He. unfold Get. rewrite Hl. cbn. rewrite Hc. unfold receive. rewrite Hl, He.
  unfold get_create. rewrite (proj2 (Z.leb_le _ _)) by done. unfold receive. by rewrite Hl, He.
Qed.

(** On connections whose zero-length read succeeds (as TCP connections of package net
    do), a client that gets and closes a connection MaxSize times in a row leaves the
    pool with no open socket and all slots counted as taken: every later Get blocks
    until its context ends. *)
Theorem ConnectionPool_exhausts (MaxSize : Z) (MaxIdleTime : duration) (t : time) :
  0 < MaxSize < 2 ^ 63 ->
  exists s s', use_times (Z.to_nat MaxSize) t (mkCP (NewConnectionPool MaxSize MaxIdleTime) []) = Some s /\
    open_conns s' = [] /\ Get (tcp_env t) s = Some (Blocked, s') /\
    forall e, ctx_done e = false -> Get e s' = Some (Blocked, s').
Proof.
  intros Hm. set (p := NewConnectionPool MaxSize MaxIdleTime).
  assert (maxSize p = MaxSize) as Hp by (unfold p; cbn; zcases).
  destruct (use_times_used MaxSize (maxIdleTime p) (Z.to_nat MaxSize) t (mkCP p []) 0)
    as (s & Hs & cr & re & Hcp & Hl & Ho); [lia|lia|lia| |].
  { exists 0, 0. split; [|split; [by left|]].
    - rewrite <- Hp. by unfold p; destruct (MaxSize <=? 0).
    - intros q Hq. unfold open in Hq. cbn in Hq. by destruct q. }
  rewrite Z2Nat.id, Z.add_0_l, (proj2 (Z.eqb_neq _ _)) in Hcp by lia. destruct s as [c l]. cbn in Hcp, Hl, Ho. subst c.
  exists (mkCP (mkConnectionPool MaxSize (maxIdleTime p) [(length l - 1)%nat] false MaxSize cr re) l).
  set (s' := close_socket (length l - 1) (mkCP (mkConnectionPool MaxSize (maxIdleTime p) [] false MaxSize cr re) l)).
  assert (wedged s') as Hw by (split_and!; [done..|]; cbn; lia).
  exists s'. split; [exact Hs|]. split; [|split].
  - apply filter_none, Forall_forall. intros q _ [Hq Hq']%open_close_socket.
    pose proof (Ho _ Hq) as Hin%list_elem_of_singleton. apply (Hq' Hin). cbn. lia.
  - unfold Get. cbn -[Z.leb get_create]. unfold PC_IsHealthy. cbn -[Z.leb get_create].
    replace (match pc_conn _ with Some _ => false | None => false end) with false by by destruct (pc_conn _).
    unfold get_create. cbn -[Z.leb]. by rewrite (proj2 (Z.leb_le _ _)) by lia.
  - intros e He. by apply wedged_blocks.
Qed.

(** ** Instances of the theorems *)

Lemma ConnectionPool_bound_witness :
  let s := reserve (mkCP (NewConnectionPool 3 0) []) in
  let s := snd (connected (tcp_env 5) s) in
  Z.of_nat (length (open_conns s)) <= maxSize (cp s) /\ length (open_conns s) = 1%nat.
Proof.
  split; [|reflexivity].
  refine (proj1 (ConnectionPool_bound 3 0 (mkWorld _ [0%nat] 0) _ _)); [lia|].
  eapply rtc_l; [apply w_reserve; cbn; lia|]. apply rtc_once. apply (w_connected (tcp_env 5)).
Defined.

(** One fresh connection in the channel. *)
Definition cp_fresh : cpstate :=
  mkCP (mkConnectionPool 3 (5 * Minute) [0%nat] false 1 1 0) [mkPooledConnection (Some true) 100 false true].

Lemma cleanup_terminates_iff_witness : ~ exists fuel s', cleanup fuel (100 + Second) cp_fresh = Some s'.
Proof.
  intros H. apply (cleanup_terminates_iff (100 + Second) cp_fresh) in H; [|cbn; lia].
  apply Forall_cons in H as [H _]. vm_compute in H. discriminate.
Defined.

Lemma ConnectionPool_exhausts_witness :
  exists s s', use_times (Z.to_nat 10) 0 (mkCP (NewConnectionPool 10 0) []) = Some s /\
    Get (tcp_env 0) s = Some (Blocked, s').
Proof.
  destruct (ConnectionPool_exhausts 10 0 0) as (s & s' & H1 & _ & H2 & _); [lia|].
  exists s, s'. split; [exact H1|exact H2].
Defined.
