(* ===== verification/WorkerPool.v ===== *)
(** * The worker pool (src/pkg/pool/goroutine.go)

    The pool is shared by goroutines that submit tasks, by the workers it starts
    and by callers that close it.  Each goroutine is a program counter of the
    source's statements that touch shared state (an atomic access or a [select]
    each), and [run1] interleaves them.  The choice of a ready [select] case, and
    the moment a timer fires or a context ends, are part of the action taken, so
    a schedule is a list of actions.  The tasks sent, received and run are logged
    beside the pool; the program does not read these logs. *)

From S2P Require Import Prelude.

(** ** Data *)

(** [ErrGoroutinePoolClosed], [ErrGoroutinePoolTimeout] and [ctx.Err()]. *)
Inductive context_error := Canceled | DeadlineExceeded.
Inductive submit_error :=
| ErrGoroutinePoolClosed
| ErrGoroutinePoolTimeout
| CtxErr (e : context_error).
#[export] Instance context_error_eq_dec : EqDecision context_error.
Proof. solve_decision. Defined.
#[export] Instance submit_error_eq_dec : EqDecision submit_error.
Proof. solve_decision. Defined.

(** A task is opaque: the pool only passes it on and calls it. *)
Abbreviation Task := nat (only parsing).

(** The state of [sync.Once]. *)
Inductive once_state := OnceFresh | OnceRunning | OnceDone.
#[export] Instance once_state_eq_dec : EqDecision once_state.
Proof. solve_decision. Defined.

(** The channel [taskQueue] is its buffer and whether it is closed; of [stopChan]
    only the latter matters. *)
Record GoroutinePool := mkGoroutinePool {
  maxWorkers : Z;
  maxIdleTime : duration;
  queueSize : Z;
  nonBlocking : bool;
  workers : Z;
  running : Z;
  closed : Z;
  taskQueue : list Task;
  queueClosed : bool;
  stopClosed : bool;
  wg : Z;
  once : once_state;
  submitted : Z;
  completed : Z;
  rejected : Z
}.
#[export] Instance eta_GoroutinePool : Eta GoroutinePool := fun p =>
  mkGoroutinePool (maxWorkers p) (maxIdleTime p) (queueSize p) (nonBlocking p) (workers p)
    (running p) (closed p) (taskQueue p) (queueClosed p) (stopClosed p) (wg p) (once p)
    (submitted p) (completed p) (rejected p).

Record GoroutinePoolConfig := mkGoroutinePoolConfig {
  MaxWorkers : Z;
  MaxIdleTime : duration;
  QueueSize : Z;
  NonBlocking : bool
}.
#[export] Instance eta_GoroutinePoolConfig : Eta GoroutinePoolConfig := fun c =>
  mkGoroutinePoolConfig (MaxWorkers c) (MaxIdleTime c) (QueueSize c) (NonBlocking c).

Definition DefaultGoroutinePoolConfig : GoroutinePoolConfig :=
  mkGoroutinePoolConfig 100 (10 * Second) 1000 false.

Definition NewGoroutinePool (config : GoroutinePoolConfig) : GoroutinePool :=
  let config := if MaxWorkers config <=? 0 then config <| MaxWorkers := 100 |> else config in
  let config :=
    if MaxIdleTime config <=? 0 then config <| MaxIdleTime := 10 * Second |> else config in
  let queueSize := if QueueSize config <? 0 then 0 else QueueSize config in
  mkGoroutinePool (i32 (MaxWorkers config)) (MaxIdleTime config) queueSize (NonBlocking config)
    0 0 0 [] false false 0 OnceFresh 0 0 0.

Lemma NewGoroutinePool_queueSize config :
  queueSize (NewGoroutinePool config) = Z.max 0 (QueueSize config).
Proof.
  unfold NewGoroutinePool. destruct config as [w i q b]. unfold set_field.
  cbn -[Z.leb Z.ltb]. destruct (w <=? 0); cbn -[Z.leb Z.ltb];
    destruct (i <=? 0); cbn -[Z.leb Z.ltb]; destruct (Z.ltb_spec q 0); lia.
Qed.

(** [GetDefaultPool] builds its pool once, with these settings. *)
Definition default_pool_config : GoroutinePoolConfig :=
  DefaultGoroutinePoolConfig <| MaxWorkers := 1000 |> <| QueueSize := 10000 |>.
Definition GetDefaultPool : GoroutinePool := NewGoroutinePool default_pool_config.

(** ** Statistics *)

Record GoroutinePoolStats := mkGoroutinePoolStats {
  st_Workers : Z;
  st_Running : Z;
  st_QueueSize : Z;
  st_Submitted : Z;
  st_Completed : Z;
  st_Rejected : Z;
  st_IsClosed : bool
}.

Definition Stats (p : GoroutinePool) : GoroutinePoolStats :=
  mkGoroutinePoolStats (workers p) (running p) (Z.of_nat (length (taskQueue p))) (submitted p)
    (completed p) (rejected p) (closed p =? 1).

(** ** Goroutines *)

(** [Submit], [SubmitWithTimeout] and [SubmitWithContext] (whose context ends with
    the given error). *)
Inductive submit_mode := ByDefault | ByTimeout | ByContext (e : context_error).

(** Where a submitting goroutine stands: before the load of [closed]; before the
    count of the submission; at the [select]; before the count of the rejection;
    in [ensureWorker] before the load, before the compare-and-swap and before the
    start of the worker; returned; panicked on the closed channel. *)
Inductive submit_pc :=
| SEntry
| SCount
| SSelect
| SReject (e : submit_error)
| SLoad
| SCas (currentWorkers : Z)
| SGo
| SRet (err : option submit_error)
| SPanic.

(** Where a worker stands: at the [select] of its loop; before [running] is raised;
    in the task; before [completed] is raised; before [running] is lowered; in the
    idle case before each load and at its test; in the deferred calls; gone. *)
Inductive worker_pc :=
| WSelect
| WExec (t : Task)
| WTask (t : Task)
| WCompleted
| WRunning
| WIdle
| WIdle1 (currentWorkers : Z)
| WIdle2 (currentWorkers running : Z)
| WExit
| WDone
| WGone.

(** Where a closing goroutine stands: at [once.Do]; before the store; before each
    [close]; at [wg.Wait]; returned. *)
Inductive close_pc := COnce | CStore | CStop | CQueue | CWait | CRet.

(** [CloseWithTimeout] waits for the closing goroutine it started. *)
Inductive await_pc := APending | AReturned | ATimedOut.

Inductive thread :=
| Submitter (m : submit_mode) (t : Task) (pc : submit_pc)
| Worker (pc : worker_pc)
| Closer (pc : close_pc)
| Awaiter (closer : nat) (pc : await_pc).

(** The case of a [select] that is taken; [Next] is the step of a goroutine that
    has no choice, [Raise] lets the task it runs panic. *)
Inductive choice := Next | Chan | Stop | Timer | Cancel | Default | Raise.

(** ** One step of each goroutine *)

Definition queue_room (p : GoroutinePool) : bool :=
  Z.of_nat (length (taskQueue p)) <? queueSize p.

(** The [select] statements of the three submit operations. *)
Definition submit_select (m : submit_mode) (t : Task) (c : choice) (p : GoroutinePool) :
    option (GoroutinePool * submit_pc) :=
  let plain := match m with ByDefault => nonBlocking p | _ => false end in
  match c with
  | Chan =>
      if queueClosed p then Some (p, SPanic)
      else if queue_room p then Some (p <| taskQueue := taskQueue p ++ [t] |>, SLoad)
      else None
  | Default =>
      if plain && negb (queueClosed p) && negb (queue_room p)
      then Some (p, SReject ErrGoroutinePoolTimeout) else None
  | Stop =>
      if stopClosed p && negb plain then Some (p, SReject ErrGoroutinePoolClosed) else None
  | Timer =>
      match m with ByTimeout => Some (p, SReject ErrGoroutinePoolTimeout) | _ => None end
  | Cancel =>
      match m with ByContext e => Some (p, SReject (CtxErr e)) | _ => None end
  | _ => None
  end.

Definition submit_step (m : submit_mode) (t : Task) (pc : submit_pc) (c : choice)
    (p : GoroutinePool) : option (GoroutinePool * submit_pc) :=
  match pc, c with
  | SEntry, Next =>
      Some (p, if closed p =? 1 then SReject ErrGoroutinePoolClosed else SCount)
  | SCount, Next => Some (p <| submitted := u64 (submitted p + 1) |>, SSelect)
  | SSelect, _ => submit_select m t c p
  | SReject e, Next => Some (p <| rejected := u64 (rejected p + 1) |>, SRet (Some e))
  | SLoad, Next =>
      Some (p, if workers p <? maxWorkers p then SCas (workers p) else SRet None)
  | SCas currentWorkers, Next =>
      if workers p =? currentWorkers
      then Some (p <| workers := i32 (currentWorkers + 1) |>, SGo)
      else Some (p, SRet None)
  | SGo, Next => Some (p <| wg := wg p + 1 |>, SRet None)
  | _, _ => None
  end.

(** The task a worker takes from the queue; [None] inside when the channel is closed
    and drained. *)
Definition queue_receive (p : GoroutinePool) : option (GoroutinePool * option Task) :=
  match taskQueue p with
  | t :: q => Some (p <| taskQueue := q |>, Some t)
  | [] => if queueClosed p then Some (p, None) else None
  end.

Definition worker_step (pc : worker_pc) (c : choice) (p : GoroutinePool) :
    option (GoroutinePool * worker_pc) :=
  match pc, c with
  | WSelect, Chan =>
      match queue_receive p with
      | Some (p', Some t) => Some (p', WExec t)
      | Some (p', None) => Some (p', WExit)
      | None => None
      end
  | WSelect, Timer => Some (p, WIdle)
  | WSelect, Stop => if stopClosed p then Some (p, WExit) else None
  | WExec t, Next => Some (p <| running := i32 (running p + 1) |>, WTask t)
  | WTask _, Next => Some (p, WCompleted)
  | WTask _, Raise => Some (p, WCompleted)
  | WCompleted, Next => Some (p <| completed := u64 (completed p + 1) |>, WRunning)
  | WRunning, Next => Some (p <| running := i32 (running p - 1) |>, WSelect)
  | WIdle, Next => Some (p, WIdle1 (workers p))
  | WIdle1 currentWorkers, Next => Some (p, WIdle2 currentWorkers (running p))
  | WIdle2 currentWorkers r, Next =>
      Some (p, if (1 <? currentWorkers) ||
                  (bool_decide (taskQueue p = []) && (r =? 0)) then WExit else WSelect)
  | WExit, Next => Some (p <| workers := i32 (workers p - 1) |>, WDone)
  | WDone, Next => Some (p <| wg := wg p - 1 |>, WGone)
  | _, _ => None
  end.

Definition close_step (pc : close_pc) (p : GoroutinePool) : option (GoroutinePool * close_pc) :=
  match pc with
  | COnce =>
      match once p with
      | OnceFresh => Some (p <| once := OnceRunning |>, CStore)
      | OnceRunning => None
      | OnceDone => Some (p, CRet)
      end
  | CStore => Some (p <| closed := 1 |>, CStop)
  | CStop => Some (p <| stopClosed := true |>, CQueue)
  | CQueue => Some (p <| queueClosed := true |>, CWait)
  | CWait => if wg p =? 0 then Some (p <| once := OnceDone |>, CRet) else None
  | CRet => None
  end.

(** ** The goroutines together *)

Record system := mkSystem {
  pool : GoroutinePool;
  threads : list thread;
  sent : list Task;
  received : list Task;
  ran : list Task
}.
#[export] Instance eta_system : Eta system := fun s =>
  mkSystem (pool s) (threads s) (sent s) (received s) (ran s).

Definition initial (config : GoroutinePoolConfig) : system :=
  mkSystem (NewGoroutinePool config) [] [] [] [].

(** A call starts a goroutine; [Step i c] lets goroutine [i] step; [Hand i j] passes
    a task from the submitter [i] to the worker [j] through the unbuffered channel. *)
Inductive action :=
| CallSubmit (m : submit_mode) (t : Task)
| CallClose
| CallCloseWithTimeout
| Step (i : nat) (c : choice)
| Hand (i j : nat).

Definition set_thread (i : nat) (t : thread) (s : system) : system :=
  s <| threads := <[i := t]> (threads s) |>.

Definition start (t : thread) (s : system) : system := s <| threads := threads s ++ [t] |>.

(** The step of goroutine [i], with what it logs and whom it starts. *)
Definition thread_step (i : nat) (c : choice) (s : system) : option system :=
  match threads s !! i with
  | Some (Submitter m t pc) =>
      match submit_step m t pc c (pool s) with
      | None => None
      | Some (p, pc') =>
          let s := set_thread i (Submitter m t pc') s <| pool := p |> in
          match pc, pc' with
          | SSelect, SLoad => Some (s <| sent := sent s ++ [t] |>)
          | SGo, _ => Some (start (Worker WSelect) s)
          | _, _ => Some s
          end
      end
  | Some (Worker pc) =>
      match worker_step pc c (pool s) with
      | None => None
      | Some (p, pc') =>
          let s := set_thread i (Worker pc') s <| pool := p |> in
          match pc, pc' with
          | WSelect, WExec t => Some (s <| received := received s ++ [t] |>)
          | WTask t, _ => Some (s <| ran := ran s ++ [t] |>)
          | _, _ => Some s
          end
      end
  | Some (Closer pc) =>
      match close_step pc (pool s), c with
      | Some (p, pc'), Next => Some (set_thread i (Closer pc') s <| pool := p |>)
      | _, _ => None
      end
  | Some (Awaiter k APending) =>
      match threads s !! k, c with
      | Some (Closer CRet), Chan => Some (set_thread i (Awaiter k AReturned) s)
      | _, Timer => Some (set_thread i (Awaiter k ATimedOut) s)
      | _, _ => None
      end
  | _ => None
  end.

(** A channel without buffer passes a value when both sides are at their [select]. *)
Definition hand_over (i j : nat) (s : system) : option system :=
  match threads s !! i, threads s !! j with
  | Some (Submitter m t SSelect), Some (Worker WSelect) =>
      if (queueSize (pool s) =? 0) && negb (queueClosed (pool s)) then
        Some (set_thread j (Worker (WExec t)) (set_thread i (Submitter m t SLoad) s)
                <| sent := sent s ++ [t] |> <| received := received s ++ [t] |>)
      else None
  | _, _ => None
  end.

Definition run1 (a : action) (s : system) : option system :=
  match a with
  | CallSubmit m t => Some (start (Submitter m t SEntry) s)
  | CallClose => Some (start (Closer COnce) s)
  | CallCloseWithTimeout =>
      let k := length (threads s) in
      Some (start (Awaiter k APending) (start (Closer COnce) s))
  | Step i c => thread_step i c s
  | Hand i j => hand_over i j s
  end.

Definition step (s s' : system) : Prop := exists a, run1 a s = Some s'.

Fixpoint run (l : list action) (s : system) : option system :=
  match l with
  | [] => Some s
  | a :: l => match run1 a s with Some s' => run l s' | None => None end
  end.

Lemma run_app l k s :
  run (l ++ k) s = match run l s with Some s' => run k s' | None => None end.
Proof. revert s. induction l as [|a l IH]; intros s; [done|]. cbn. by destruct (run1 a s). Qed.

Definition reachable (config : GoroutinePoolConfig) (s : system) : Prop :=
  rtc step (initial config) s.

Lemma run_reachable l s s' : run l s = Some s' -> rtc step s s'.
Proof.
  revert s. induction l as [|a l IH]; intros s Hr; cbn in Hr; [by simplify_eq|].
  destruct (run1 a s) as [s1|] eqn:Ha; [|done]. eapply rtc_l; [by exists a|by apply IH].
Qed.

(** The functions of the package submit to the default pool; [g] is that pool once a first
    use has built it. *)
Definition default_system (g : option system) : system := default (initial default_pool_config) g.
Definition pkg_Submit (t : Task) (g : option system) : option system :=
  run1 (CallSubmit ByDefault t) (default_system g).
Definition pkg_SubmitWithTimeout (t : Task) (g : option system) : option system :=
  run1 (CallSubmit ByTimeout t) (default_system g).

(** What holds of every pool holds of the default one. *)
Lemma pkg_Submit_reachable t g :
  (forall s, g = Some s -> reachable default_pool_config s) ->
  (forall s', pkg_Submit t g = Some s' -> reachable default_pool_config s') /\
  (forall s', pkg_SubmitWithTimeout t g = Some s' -> reachable default_pool_config s').
Proof.
  intros Hg. assert (reachable default_pool_config (default_system g)) as Hd.
  { destruct g as [s|]; [by apply Hg|constructor]. }
  split; intros s' Hs; (eapply rtc_r; [exact Hd|]); eexists; exact Hs.
Qed.

(** ** What the goroutines account for *)

(** Counted in [workers]; in the wait group; in [running]. *)
Definition live (t : thread) : Z :=
  match t with
  | Worker (WDone | WGone) => 0
  | Worker _ | Submitter _ _ SGo => 1
  | _ => 0
  end.
Definition present (t : thread) : Z :=
  match t with Worker WGone => 0 | Worker _ => 1 | _ => 0 end.
Definition executing (t : thread) : Z :=
  match t with Worker (WTask _ | WCompleted | WRunning) => 1 | _ => 0 end.
(** Ran its task but has not counted it; returned an error. *)
Definition uncounted (t : thread) : Z := match t with Worker WCompleted => 1 | _ => 0 end.
Definition refused (t : thread) : Z := match t with Submitter _ _ (SRet (Some _)) => 1 | _ => 0 end.

(** The tasks a worker holds and has not run; the task of a submission that was accepted. *)
Definition held (t : thread) : list Task :=
  match t with Worker (WExec t | WTask t) => [t] | _ => [] end.
Definition accepted (t : thread) : list Task :=
  match t with Submitter _ t (SLoad | SCas _ | SGo | SRet None) => [t] | _ => [] end.

Record pool_inv (s : system) : Prop := {
  pi_max : maxWorkers (pool s) < 2147483648;
  pi_workers : workers (pool s) = sum_by live (threads s);
  pi_bound : workers (pool s) <= Z.max 0 (maxWorkers (pool s));
  pi_cas : forall i m t c, threads s !! i = Some (Submitter m t (SCas c)) ->
             0 <= c < maxWorkers (pool s);
  pi_wg : wg (pool s) = sum_by present (threads s);
  pi_running : running (pool s) = sum_by executing (threads s);
  pi_fifo : sent s = received s ++ taskQueue (pool s);
  pi_accepted : sent s ≡ₚ (threads s ≫= accepted);
  pi_held : received s ≡ₚ (threads s ≫= held) ++ ran s;
  pi_completed : completed (pool s) + sum_by uncounted (threads s)
                   ≡[64] Z.of_nat (length (ran s));
  pi_rejected : rejected (pool s) ≡[64] sum_by refused (threads s)
}.

(** The buffer of the queue never overflows. *)
Definition queue_inv (s : system) : Prop :=
  Z.of_nat (length (taskQueue (pool s))) <= Z.max 0 (queueSize (pool s)).

Lemma live_nonneg t : 0 <= live t.
Proof. destruct t as [? ? []|[]|[]|? []]; cbn; lia. Qed.

Lemma executing_live t : 0 <= executing t <= live t.
Proof. destruct t as [? ? []|[]|[]|? []]; cbn; lia. Qed.

(** *** One goroutine moves

    What a step must do to the shared state, in terms of what the goroutine
    accounted for before ([T]) and accounts for afterwards ([T'] and the worker it
    may start). *)
Lemma inv_set s i T T' extra p sent' recv' ran' :
  pool_inv s -> threads s !! i = Some T ->
  (extra = [] \/ extra = [Worker WSelect]) ->
  maxWorkers p = maxWorkers (pool s) ->
  workers p = workers (pool s) - live T + live T' + sum_by live extra ->
  workers p <= Z.max 0 (maxWorkers (pool s)) ->
  (forall m t c, T' = Submitter m t (SCas c) -> 0 <= c < maxWorkers (pool s)) ->
  wg p = wg (pool s) - present T + present T' + sum_by present extra ->
  running p = running (pool s) - executing T + executing T' ->
  sent' = recv' ++ taskQueue p ->
  accepted T ++ sent' ≡ₚ accepted T' ++ sent s ->
  held T ++ recv' ++ ran s ≡ₚ held T' ++ received s ++ ran' ->
  completed p + uncounted T' + Z.of_nat (length (ran s))
    ≡[64] completed (pool s) + uncounted T + Z.of_nat (length ran') ->
  rejected p + refused T ≡[64] rejected (pool s) + refused T' ->
  pool_inv (mkSystem p (<[i:=T']> (threads s) ++ extra) sent' recv' ran').
Proof.
  intros [I1 I2 I3 I4 I5 I6 I7 I8 I9 I10 I11] Hi He Hm Hw Hwb Hc Hwg Hr Hs Ha Hh Hcp Hrj.
  assert (forall f, f (Worker WSelect) = [] -> extra ≫= f = ([] : list Task)) as Hx.
  { intros f Hf. destruct He as [->| ->]; cbn; [done|by rewrite Hf]. }
  assert (sum_by executing extra = 0 /\ sum_by uncounted extra = 0 /\ sum_by refused extra = 0)
    as (X1 & X2 & X3) by (destruct He as [->| ->]; done).
  split; cbn [pool threads sent received ran];
    rewrite ?sum_by_app, ?(sum_by_insert _ _ _ _ _ Hi), ?bind_app, ?X1, ?X2, ?X3; try lia.
  - intros j m t c [Hj|[_ Hj]]%lookup_app_Some.
    + destruct (decide (i = j)) as [->|Hne].
      * rewrite list_lookup_insert_eq in Hj by (by eapply lookup_lt_Some).
        rewrite Hm. apply (Hc m t). congruence.
      * rewrite list_lookup_insert_ne in Hj by done. rewrite Hm. by eapply I4.
    + destruct He as [->| ->]; [done|]. apply list_lookup_singleton_Some in Hj as [_ ?]. done.
  - done.
  - rewrite Hx, app_nil_r by done. apply (Permutation_app_inv_l (accepted T)).
    by rewrite Ha, (bind_insert accepted _ _ _ _ Hi), I8.
  - rewrite Hx, app_nil_r by done. apply (Permutation_app_inv_l (held T)).
    rewrite (assoc (++)), (bind_insert held _ _ _ _ Hi).
    apply (Permutation_app_inv_r (ran s)).
    rewrite <- !(assoc (++)), Hh, I9. solve_Permutation.
  - apply eqw_diff in I10 as [k1 ?], Hcp as [k2 ?]; [|lia..].
    apply eqw_diff; [lia|]. exists (k1 + k2). lia.
  - apply eqw_diff in I11 as [k1 ?], Hrj as [k2 ?]; [|lia..].
    apply eqw_diff; [lia|]. exists (k1 + k2). lia.
Qed.

(** The same without a new goroutine. *)
Lemma inv_set0 s i T' p sent' recv' ran' :
  pool_inv (mkSystem p (<[i:=T']> (threads s) ++ []) sent' recv' ran') ->
  pool_inv (mkSystem p (<[i:=T']> (threads s)) sent' recv' ran').
Proof. by rewrite app_nil_r. Qed.

Lemma inv_ranges s :
  pool_inv s ->
  0 <= sum_by executing (threads s) <= workers (pool s) /\ workers (pool s) < 2147483648.
Proof.
  intros [I1 I2 I3 _ _ _ _ _ _ _ _]. rewrite I2 in *.
  pose proof (sum_by_le executing live (threads s) (fun t => proj2 (executing_live t))).
  pose proof (sum_by_nonneg executing (threads s) (fun t => proj1 (executing_live t))). lia.
Qed.

Lemma perm_snoc {A} (l : list A) (x : A) : l ++ [x] ≡ₚ x :: l.
Proof. by rewrite (comm (++)). Qed.

Lemma u64_succ x y z : x + z = y -> u64 (x + 1) + z ≡[64] y + 1.
Proof. intros <-. rewrite uwrap_eqw. apply eqw_eq. lia. Qed.

Ltac inv_side :=
  unfold set_field;
  cbn [app live present executing uncounted refused accepted held sum_by foldr
       maxWorkers workers wg running taskQueue completed rejected pool];
  rewrite ?app_nil_r, ?app_assoc;
  first
    [ done
    | lia
    | reflexivity
    | by rewrite perm_snoc
    | by rewrite length_app; apply eqw_eq; cbn; lia
    | by f_equal
    | match goal with Hf : sent _ = _ |- _ => rewrite Hf end;
      by rewrite <- ?app_assoc, ?app_nil_r
    | by apply (pi_fifo _ ltac:(eassumption))
    | by rewrite uwrap_eqw; apply eqw_eq; lia
    | by intros; simplify_eq; lia
    | rewrite i32_small; lia
    | idtac ].

Lemma inv_submit s i c m t pc s' :
  pool_inv s -> threads s !! i = Some (Submitter m t pc) ->
  thread_step i c s = Some s' -> pool_inv s'.
Proof.
  intros HI Hi. unfold thread_step. rewrite Hi.
  destruct (inv_ranges s HI) as [Hr1 Hr2].
  pose proof (pi_bound s HI). pose proof (pi_max s HI). pose proof (pi_workers s HI).
  pose proof (pi_fifo s HI) as Hf. pose proof (pi_cas s HI i m t) as Hc. rewrite Hi in Hc.
  pose proof (sum_by_nonneg live (threads s) live_nonneg).
  destruct pc, c; cbn; intros Hs; simplify_eq/=;
    try specialize (Hc _ eq_refl); repeat (case_match; simplify_eq/=);
    repeat match goal with H : (_ =? _) = true |- _ => apply Z.eqb_eq in H
      | H : (_ <? _) = true |- _ => apply Z.ltb_lt in H end;
    try apply inv_set0;
    (eapply (inv_set s i); [done|exact Hi|first [by right|by left]|..]; inv_side).
Qed.

(** A worker that is not in a task leaves room in [running]. *)
Lemma executing_room s i T :
  pool_inv s -> threads s !! i = Some T ->
  sum_by executing (threads s) + (live T - executing T) <= workers (pool s).
Proof.
  intros HI Hi. rewrite (pi_workers s HI).
  pose proof (sum_by_insert executing _ _ _ (Closer CRet) Hi).
  pose proof (sum_by_insert live _ _ _ (Closer CRet) Hi).
  pose proof (sum_by_le executing live (<[i:=Closer CRet]> (threads s))
    (fun t => proj2 (executing_live t))). cbn in *. lia.
Qed.

Lemma inv_worker s i c pc s' :
  pool_inv s -> threads s !! i = Some (Worker pc) ->
  thread_step i c s = Some s' -> pool_inv s'.
Proof.
  intros HI Hi. unfold thread_step. rewrite Hi.
  destruct (inv_ranges s HI) as [Hr1 Hr2].
  pose proof (pi_bound s HI). pose proof (pi_max s HI). pose proof (pi_workers s HI).
  pose proof (pi_fifo s HI) as Hf. pose proof (pi_running s HI).
  pose proof (executing_room s i _ HI Hi).
  pose proof (sum_by_elem live (threads s) i _ live_nonneg Hi).
  pose proof (sum_by_elem executing (threads s) i _ (fun t => proj1 (executing_live t)) Hi).
  destruct pc, c; cbn; unfold queue_receive; intros Hs; simplify_eq/=;
    repeat (case_match; simplify_eq/=); try apply inv_set0;
    (eapply (inv_set s i); [done|exact Hi|first [by right|by left]|..]; inv_side).
Qed.

Lemma inv_other s i c T s' :
  pool_inv s -> threads s !! i = Some T ->
  (forall m t pc, T <> Submitter m t pc) -> (forall pc, T <> Worker pc) ->
  thread_step i c s = Some s' -> pool_inv s'.
Proof.
  intros HI Hi Hns Hnw. unfold thread_step. rewrite Hi.
  pose proof (pi_bound s HI). pose proof (pi_fifo s HI) as Hf.
  destruct T as [m t pc|pc|pc|k pc]; [by destruct (Hns m t pc)|by destruct (Hnw pc)|..];
    destruct pc, c; cbn; intros Hs; simplify_eq/=;
    repeat (case_match; simplify_eq/=); unfold set_thread; cbn;
    try (apply inv_set0; eapply (inv_set s i); [done|exact Hi|by left|..]; inv_side).
Qed.

(** A call starts a goroutine that accounts for nothing yet. *)
Lemma inv_start s T :
  pool_inv s -> (exists m t, T = Submitter m t SEntry) \/ T = Closer COnce \/
    (exists k, T = Awaiter k APending) ->
  pool_inv (start T s).
Proof.
  intros [I1 I2 I3 I4 I5 I6 I7 I8 I9 I10 I11] HT.
  assert (live T = 0 /\ present T = 0 /\ executing T = 0 /\ uncounted T = 0 /\ refused T = 0 /\
    held T = [] /\ accepted T = [] /\ forall m t c, T <> Submitter m t (SCas c))
    as (L1 & L2 & L3 & L4 & L5 & L6 & L7 & L8)
    by (destruct HT as [(m & t & ->)|[->|[k ->]]]; done).
  split; unfold start, set_field; cbn [pool threads sent received ran];
    rewrite ?sum_by_app, ?bind_app; cbn [sum_by foldr mbind list_bind];
    rewrite ?L1, ?L2, ?L3, ?L4, ?L5, ?L6, ?L7, ?app_nil_r, ?Z.add_0_r; try done.
  intros j m t c [Hj|[_ Hj]]%lookup_app_Some; [by eapply I4|].
  apply list_lookup_singleton_Some in Hj as [_ ?]. by destruct (L8 m t c).
Qed.

(** Passing a task through the unbuffered channel is sending and receiving at once. *)
Lemma inv_hand s i j s' :
  pool_inv s -> queue_inv s -> hand_over i j s = Some s' -> pool_inv s'.
Proof.
  intros HI Hq. unfold hand_over.
  destruct (threads s !! i) as [[m t [| | | | | | | |]| | |]|] eqn:Hi; try done.
  destruct (threads s !! j) as [[|[| | | | | | | | | |]| |]|] eqn:Hj; try done.
  destruct (queueSize (pool s) =? 0) eqn:Hz; [|done].
  destruct (queueClosed (pool s)); [done|]. intros [= <-]. apply Z.eqb_eq in Hz.
  assert (taskQueue (pool s) = []) as Hnil.
  { unfold queue_inv in Hq. destruct (taskQueue (pool s)); [done|]. cbn in Hq. lia. }
  pose proof (pi_bound s HI). pose proof (pi_fifo s HI) as Hf.
  pose (s1 := mkSystem (pool s <| taskQueue := [t] |>)
    (<[i:=Submitter m t SLoad]> (threads s)) (sent s ++ [t]) (received s) (ran s)).
  assert (pool_inv s1) as HI1.
  { apply inv_set0. eapply (inv_set s i); [done|exact Hi|by left|..]; inv_side.
    by rewrite Hf, Hnil, app_nil_r. }
  assert (threads s1 !! j = Some (Worker WSelect)) as Hj1.
  { cbn. rewrite list_lookup_insert_ne; [done|]. intros ->. congruence. }
  assert (pool s1 <| taskQueue := [] |> = pool s) as Hp.
  { cbn. destruct s as [[] ? ? ? ?]. cbn in *. by rewrite Hnil. }
  unfold set_thread. cbn. rewrite <- Hp at 1. apply (inv_set0 s1).
  eapply (inv_set s1 j); [done|exact Hj1|by left|..]; try (subst s1; inv_side).
Qed.

Lemma queue_step a s s' : queue_inv s -> run1 a s = Some s' -> queue_inv s'.
Proof.
  unfold queue_inv. intros Hq. destruct a as [m t| | |i c|i j]; cbn.
  1-3: by intros [= <-].
  - unfold thread_step. destruct (threads s !! i) as [[m t pc|pc|pc|k pc]|]; [..|done].
    + destruct pc, c; cbn; intros Hs; simplify_eq/=; repeat (case_match; simplify_eq/=); try done.
      unfold set_field. cbn [pool taskQueue queueSize]. rewrite length_app.
      cbn. unfold queue_room in *.
      match goal with H : (_ <? _) = true |- _ => apply Z.ltb_lt in H end. lia.
    + destruct pc, c; cbn; unfold queue_receive; intros Hs; simplify_eq/=;
        repeat (case_match; simplify_eq/=); unfold set_field in *; cbn in *; try done;
        repeat match goal with H : taskQueue _ = _ |- _ => rewrite H in * end; cbn in *; lia.
    + destruct pc, c; cbn; intros Hs; simplify_eq/=; repeat (case_match; simplify_eq/=); done.
    + destruct pc, c; cbn; intros Hs; simplify_eq/=; repeat (case_match; simplify_eq/=); done.
  - unfold hand_over. intros. by repeat (case_match; simplify_eq/=).
Qed.

Lemma inv_step a s s' :
  pool_inv s -> queue_inv s -> run1 a s = Some s' -> pool_inv s'.
Proof.
  intros HI Hq. destruct a as [m t| | |i c|i j]; cbn.
  - intros [= <-]. apply inv_start; eauto.
  - intros [= <-]. apply inv_start; eauto.
  - intros [= <-]. apply inv_start; [apply inv_start; eauto|]. eauto.
  - intros Hs. destruct (threads s !! i) as [T|] eqn:Hi.
    + destruct T as [m t pc|pc|pc|k pc].
      * by eapply inv_submit.
      * by eapply inv_worker.
      * by eapply inv_other.
      * by eapply inv_other.
    + unfold thread_step in Hs. by rewrite Hi in Hs.
  - by apply inv_hand.
Qed.

Lemma inv_reachable config s :
  reachable config s -> pool_inv s /\ queue_inv s.
Proof.
  apply (rtc_invariant step (fun s => pool_inv s /\ queue_inv s)).
  - intros s1 s2 [a Ha] [HI Hq]. split; [by eapply inv_step|by eapply queue_step].
  - split; [|unfold queue_inv; cbn; lia].
    split; cbn; try done; try lia.
    match goal with |- i32 ?x < _ => pose proof (swrap_range 32 x ltac:(lia)) as [_ Hw] end.
    exact Hw.
Qed.

(** ** What the pool promises *)

(** C3: In every interleaving of submitters, workers and closers, counting at statement
    granularity, the worker pool never has more than maxWorkers workers nor more queued
    tasks than queueSize, running is the number of tasks being executed, tasks are taken
    in the order they were sent, every accepted task is exactly once in the queue, in a
    worker's hands or executed, and completed and rejected count (modulo 2^64) the
    executed tasks and the refused calls, panicking tasks included. *)
Theorem WorkerPool_accounting config s :
  reachable config s ->
  let p := pool s in
  0 <= running p <= workers p /\ workers p <= Z.max 0 (maxWorkers p) /\
  running p = sum_by executing (threads s) /\
  Z.of_nat (length (taskQueue p)) <= Z.max 0 (queueSize p) /\
  sent s = received s ++ taskQueue p /\
  (threads s ≫= accepted) ≡ₚ taskQueue p ++ (threads s ≫= held) ++ ran s /\
  completed p + sum_by uncounted (threads s) ≡[64] Z.of_nat (length (ran s)) /\
  rejected p ≡[64] sum_by refused (threads s).
Proof.
  intros [HI Hq]%inv_reachable. destruct (inv_ranges s HI) as [Hr _].
  destruct HI as [I1 I2 I3 I4 I5 I6 I7 I8 I9 I10 I11]. cbn. rewrite I6.
  split_and!; try done; try lia.
  rewrite <- I8, I7, I9. by rewrite (comm (++)).
Qed.

(** A schedule used to exercise the pool: a worker runs the first of two tasks and
    picks up the second. *)
Definition demo_config : GoroutinePoolConfig := mkGoroutinePoolConfig 2 Second 3 false.
Definition demo_schedule : list action :=
  [CallSubmit ByDefault 7; CallSubmit ByTimeout 8] ++
  [Step 0 Next; Step 1 Next; Step 0 Next; Step 1 Next; Step 0 Chan; Step 1 Chan] ++
  [Step 0 Next; Step 0 Next; Step 0 Next; Step 2 Chan; Step 2 Next; Step 2 Raise] ++
  [Step 2 Next; Step 2 Next; Step 2 Chan].
Definition demo_state : system :=
  default (initial demo_config) (run demo_schedule (initial demo_config)).

Lemma demo_reachable : reachable demo_config demo_state.
Proof. apply (run_reachable demo_schedule). vm_compute. reflexivity. Qed.

Lemma WorkerPool_accounting_witness :
  completed (pool demo_state) = 1 /\ received demo_state = [7; 8]%nat /\
  (threads demo_state ≫= accepted) ≡ₚ [7; 8]%nat.
Proof.
  destruct (WorkerPool_accounting demo_config demo_state demo_reachable)
    as (_ & _ & _ & _ & _ & Hp & _).
  split; [vm_compute; reflexivity|]. split; [vm_compute; reflexivity|].
  etrans; [exact Hp|]. vm_compute. apply perm_swap.
Defined.

(** *** Errors *)

Definition error_ok (p : GoroutinePool) (m : submit_mode) (e : submit_error) : Prop :=
  match e with
  | ErrGoroutinePoolClosed => closed p = 1
  | ErrGoroutinePoolTimeout => m = ByTimeout \/ (m = ByDefault /\ nonBlocking p = true)
  | CtxErr e => m = ByContext e
  end.

Definition thread_ok (p : GoroutinePool) (T : thread) : Prop :=
  match T with
  | Submitter m _ (SReject e | SRet (Some e)) => error_ok p m e
  | Submitter _ _ SPanic => closed p = 1
  | Closer (CStop | CQueue | CWait) => closed p = 1
  | _ => True
  end.

Definition errors_inv (s : system) : Prop :=
  (stopClosed (pool s) = true -> closed (pool s) = 1) /\
  (queueClosed (pool s) = true -> closed (pool s) = 1) /\
  Forall (thread_ok (pool s)) (threads s).

(** Closing is final and the mode of the pool is fixed. *)
Definition later (p p' : GoroutinePool) : Prop :=
  (closed p = 1 -> closed p' = 1) /\ nonBlocking p' = nonBlocking p.

Lemma thread_ok_later p p' T : later p p' -> thread_ok p T -> thread_ok p' T.
Proof.
  intros [Hc Hn]. destruct T as [m ? [| | |[]| | | |[[]|]|]| |[]|]; cbn; rewrite ?Hn; auto.
Qed.

Lemma errors_set p p' l i T :
  later p p' -> Forall (thread_ok p) l -> thread_ok p' T -> Forall (thread_ok p') (<[i:=T]> l).
Proof.
  intros Hl Hf HT. apply Forall_insert; [|done].
  eapply Forall_impl; [exact Hf|]. intros T'. by apply thread_ok_later.
Qed.

Lemma errors_step a s s' : errors_inv s -> run1 a s = Some s' -> errors_inv s'.
Proof.
  intros (Hs & Hq & Hf). unfold errors_inv. destruct a as [m t| | |i c|i j]; cbn.
  1-3: intros [= <-]; unfold start, set_field; cbn [pool threads];
    rewrite ?Forall_app, ?Forall_singleton; split_and!; done.
  - unfold thread_step. destruct (threads s !! i) as [T|] eqn:Hi; [|done].
    pose proof (Forall_lookup_1 _ _ _ _ Hf Hi) as HT.
    destruct T as [m t pc|pc|pc|k pc]; destruct pc, c; cbn; unfold queue_receive;
      intros Hr; simplify_eq/=; repeat (case_match; simplify_eq/=);
      unfold start, set_thread, set_field;
      cbn [pool threads stopClosed queueClosed closed];
      rewrite ?Forall_app, ?Forall_singleton;
      (split_and!; [try done; auto..|]);
      try (split; [|done]);
      try (eapply (errors_set (pool s)); [by split|done|cbn; auto]);
      try (by eapply (errors_set (pool s)); [by split|done|]).
    all: repeat match goal with
      | H : _ && _ = true |- _ => apply andb_true_iff in H as [? ?]
      | H : (_ =? _) = true |- _ => apply Z.eqb_eq in H
      end; cbn; try congruence; auto.
  - unfold hand_over. intros Hr. repeat (case_match; simplify_eq/=).
    split_and!; [done..|].
    assert (later (pool s) (pool s)) by done.
    eapply (errors_set (pool s)); [done|by eapply (errors_set (pool s))|done].
Qed.

Lemma errors_reachable config s : reachable config s -> errors_inv s.
Proof.
  apply (rtc_invariant step errors_inv); [intros s1 s2 [a Ha] HI; by eapply errors_step|].
  split_and!; [done..|constructor].
Qed.

(** What a call that found the pool closed can come to. *)
Definition refused_late (pc : submit_pc) : bool :=
  match pc with
  | SEntry | SReject ErrGoroutinePoolClosed | SRet (Some ErrGoroutinePoolClosed) => true
  | _ => false
  end.

Definition late_inv (i : nat) (m : submit_mode) (t : Task) (s : system) : Prop :=
  closed (pool s) = 1 /\
  exists pc, threads s !! i = Some (Submitter m t pc) /\ refused_late pc = true.

Lemma late_insert (l : list thread) i j m t T pc :
  l !! i = Some (Submitter m t pc) -> refused_late pc = true ->
  (j = i -> exists pc', T = Submitter m t pc' /\ refused_late pc' = true) ->
  exists pc', <[j:=T]> l !! i = Some (Submitter m t pc') /\ refused_late pc' = true.
Proof.
  intros Hi Hpc HT. destruct (decide (j = i)) as [->|Hne].
  - destruct (HT eq_refl) as (pc' & -> & Hpc'). exists pc'. split; [|done].
    apply list_lookup_insert_eq. by eapply lookup_lt_Some.
  - exists pc. by rewrite list_lookup_insert_ne.
Qed.

Lemma late_app (l : list thread) i m t T :
  (exists pc, l !! i = Some (Submitter m t pc) /\ refused_late pc = true) ->
  exists pc, (l ++ [T]) !! i = Some (Submitter m t pc) /\ refused_late pc = true.
Proof. intros (pc & Hi & Hpc). exists pc. split; [by apply lookup_app_l_Some|done]. Qed.

Lemma late_step i m t a s s' : late_inv i m t s -> run1 a s = Some s' -> late_inv i m t s'.
Proof.
  intros (Hc & Hex). unfold late_inv. destruct a as [m' t'| | |j c|j k]; cbn.
  1-3: intros [= <-]; unfold start, set_field; cbn [pool threads]; split; [done|];
    by repeat apply late_app.
  - destruct Hex as (pc0 & Hi & Hpc).
    unfold thread_step. destruct (threads s !! j) as [T|] eqn:Hj; [|done].
    destruct T as [m' t' pc|pc|pc|k pc]; destruct pc, c; cbn; unfold queue_receive;
      rewrite ?Hc; intros Hr; simplify_eq/=; repeat (case_match; simplify_eq/=);
      unfold start, set_thread, set_field; cbn [pool threads closed];
      (split; [done|]); try apply late_app;
      (apply (late_insert _ _ _ _ _ _ pc0); [done|done|intros ->; simplify_eq/=; by eexists]).
  - destruct Hex as (pc0 & Hi & Hpc).
    unfold hand_over. destruct (threads s !! j) as [[m' t' [] | | |]|] eqn:Hj; try done.
    destruct (threads s !! k) as [[ |[] | |]|] eqn:Hk; try done.
    case_match; [|done]. intros [= <-]. split; [done|].
    destruct (late_insert (threads s) i j m t (Submitter m' t' SLoad) pc0) as (pc1 & H1 & Hr1);
      [done|done|intros ->; by simplify_eq/=|].
    apply (late_insert _ _ _ _ _ _ pc1); [done|done|intros ->; by simplify_eq].
Qed.

Lemma late_refused i m t s s' :
  closed (pool s) = 1 -> threads s !! i = Some (Submitter m t SEntry) -> rtc step s s' ->
  exists pc, threads s' !! i = Some (Submitter m t pc) /\ refused_late pc = true.
Proof.
  intros Hc Hi Hr. apply (rtc_invariant step (late_inv i m t) s); [|split; eauto|done].
  intros s1 s2 [a Ha] HI. by eapply late_step.
Qed.

(** C36: The errors of the submit operations are truthful in every interleaving:
    ErrGoroutinePoolClosed is returned only once the pool is closed,
    ErrGoroutinePoolTimeout only by SubmitWithTimeout or by Submit on a non-blocking
    pool, a context error only by SubmitWithContext and it is that context's own error;
    a submitter panics (send on the closed queue) only when Close has begun, and a call
    that starts after the pool was closed can only be refused with
    ErrGoroutinePoolClosed. *)
Theorem WorkerPool_errors config s i m t :
  reachable config s ->
  (forall e, threads s !! i = Some (Submitter m t (SRet (Some e))) -> error_ok (pool s) m e) /\
  (threads s !! i = Some (Submitter m t SPanic) -> closed (pool s) = 1) /\
  (closed (pool s) = 1 -> threads s !! i = Some (Submitter m t SEntry) ->
   forall s', rtc step s s' ->
   exists pc, threads s' !! i = Some (Submitter m t pc) /\ refused_late pc = true).
Proof.
  intros (_ & _ & Hf)%errors_reachable. split_and!; [intros e Hi|intros Hi|intros; by eapply late_refused];
    apply (Forall_lookup_1 _ _ _ _ Hf Hi).
Qed.

(** A submission that reaches its [select] before the pool closes may be answered
    with an error, and may as well panic. *)
Definition race (c : choice) : system :=
  default (initial demo_config)
    (run ([CallSubmit ByDefault 7; Step 0 Next; Step 0 Next; CallClose] ++
          repeat (Step 1 Next) 5 ++ [Step 0 c] ++
          match c with Stop => [Step 0 Next] | _ => [] end) (initial demo_config)).

Lemma race_reachable c : c = Stop \/ c = Chan -> reachable demo_config (race c).
Proof.
  intros [-> | ->]; unfold race.
  - apply (run_reachable ([CallSubmit ByDefault 7; Step 0 Next; Step 0 Next; CallClose] ++
      repeat (Step 1 Next) 5 ++ [Step 0 Stop; Step 0 Next])). vm_compute. reflexivity.
  - apply (run_reachable ([CallSubmit ByDefault 7; Step 0 Next; Step 0 Next; CallClose] ++
      repeat (Step 1 Next) 5 ++ [Step 0 Chan])). vm_compute. reflexivity.
Qed.

(** A call that starts on a closed pool. *)
Definition late_actions : list action :=
  CallClose :: repeat (Step 0 Next) 2 ++ [CallSubmit ByDefault 7%nat].

Definition late_call : system := default (initial demo_config) (run late_actions (initial demo_config)).

Lemma WorkerPool_errors_witness :
  error_ok (pool (race Stop)) ByDefault ErrGoroutinePoolClosed /\ closed (pool (race Chan)) = 1 /\
  exists pc, threads late_call !! 1%nat = Some (Submitter ByDefault 7%nat pc) /\
    refused_late pc = true.
Proof.
  split_and!.
  - apply (proj1 (WorkerPool_errors demo_config (race Stop) 0 ByDefault 7%nat
      (race_reachable Stop (or_introl eq_refl)))). vm_compute. reflexivity.
  - apply (proj1 (proj2 (WorkerPool_errors demo_config (race Chan) 0 ByDefault 7%nat
      (race_reachable Chan (or_intror eq_refl))))). vm_compute. reflexivity.
  - refine (proj2 (proj2 (WorkerPool_errors demo_config late_call 1 ByDefault 7%nat _)) _ _ _ _).
    + apply (run_reachable late_actions). vm_compute. reflexivity.
    + vm_compute. reflexivity.
    + vm_compute. reflexivity.
    + constructor.
Defined.

(** *** Closing *)

(** Without workers in the wait group no worker is left and nothing runs. *)
Lemma inv_quiet s :
  pool_inv s -> wg (pool s) = 0 ->
  (forall j pc, threads s !! j = Some (Worker pc) -> pc = WGone) /\
  running (pool s) = 0 /\ (threads s ≫= accepted) ≡ₚ taskQueue (pool s) ++ ran s.
Proof.
  intros HI Hz. rewrite (pi_wg s HI) in Hz.
  assert (forall j T, threads s !! j = Some T -> present T = 0) as Hall.
  { intros j T Hj. eapply (sum_by_zero present); [|exact Hz|exact Hj].
    intros [| [] | |]; cbn; lia. }
  assert (sum_by executing (threads s) = 0 /\ threads s ≫= held = []) as [He Hh].
  { clear -Hall. induction (threads s) as [|T l IH]; [done|].
    cbn. fold (sum_by executing l). pose proof (Hall 0%nat T eq_refl) as HT.
    destruct IH as [IH1 IH2]; [intros j T' Hj; apply (Hall (S j) T' Hj)|].
    rewrite IH1, IH2.
    by destruct T as [| [] | |]. }
  split; [intros j pc Hj%Hall; by destruct pc|].
  split; [by rewrite (pi_running s HI)|].
  by rewrite <- (pi_accepted s HI), (pi_fifo s HI), (pi_held s HI), Hh, (comm (++)).
Qed.

(** When Close returns, in every interleaving, the pool is closed, every worker
    goroutine has ended and no task is running; every accepted task was executed or is
    still in the queue (a worker that picks the stop channel leaves queued tasks
    behind). *)
Theorem WorkerPool_Close_waits config s i s' :
  reachable config s -> threads s !! i = Some (Closer CWait) ->
  thread_step i Next s = Some s' ->
  threads s' !! i = Some (Closer CRet) /\ closed (pool s') = 1 /\
  (forall j pc, threads s' !! j = Some (Worker pc) -> pc = WGone) /\
  running (pool s') = 0 /\
  (threads s' ≫= accepted) ≡ₚ taskQueue (pool s') ++ ran s'.
Proof.
  intros Hr Hi Hs. pose proof (errors_reachable _ _ Hr) as (_ & _ & He).
  pose proof (Forall_lookup_1 _ _ _ _ He Hi) as Hc. cbn in Hc.
  assert (pool_inv s') as HI.
  { apply (inv_reachable config). eapply rtc_r; [exact Hr|]. by exists (Step i Next). }
  unfold thread_step in Hs. rewrite Hi in Hs. cbn in Hs.
  destruct (Z.eqb_spec (wg (pool s)) 0) as [Hz|]; [|done]. injection Hs as <-.
  split; [apply list_lookup_insert_eq; by eapply lookup_lt_Some|]. split; [done|].
  apply inv_quiet; [exact HI|done].
Qed.

(** A worker that sees the stop channel first leaves a queued task behind. *)
Definition closing : system :=
  default (initial demo_config)
    (run (demo_schedule ++ [Step 2 Next; Step 2 Next; Step 2 Next; Step 2 Next;
            CallSubmit ByDefault 9; Step 3 Next; Step 3 Next; Step 3 Chan; CallClose;
            Step 4 Next; Step 4 Next; Step 4 Next; Step 4 Next; Step 2 Stop; Step 2 Next; Step 2 Next])
       (initial demo_config)).

Lemma WorkerPool_Close_waits_witness :
  let s' := default closing (thread_step 4 Next closing) in
  taskQueue (pool s') = [9]%nat /\ (threads s' ≫= accepted) ≡ₚ taskQueue (pool s') ++ ran s'.
Proof.
  cbv zeta. split; [vm_compute; reflexivity|].
  refine (proj2 (proj2 (proj2 (proj2 (WorkerPool_Close_waits demo_config closing 4 _ _ _ _))))).
  - apply (run_reachable (demo_schedule ++ [Step 2 Next; Step 2 Next; Step 2 Next; Step 2 Next;
      CallSubmit ByDefault 9; Step 3 Next; Step 3 Next; Step 3 Chan; CallClose;
      Step 4 Next; Step 4 Next; Step 4 Next; Step 4 Next; Step 2 Stop; Step 2 Next; Step 2 Next])).
    vm_compute. reflexivity.
  - vm_compute. reflexivity.
  - vm_compute. reflexivity.
Defined.

(** *** Progress *)

(** One worker at the head of its loop drains the queue by itself. *)
Definition work (i : nat) : list action :=
  [Step i Chan; Step i Next; Step i Next; Step i Next; Step i Next].

Lemma thread_step_worker i c s pc :
  threads s !! i = Some (Worker pc) ->
  thread_step i c s =
    match worker_step pc c (pool s) with
    | None => None
    | Some (p, pc') =>
        let s := set_thread i (Worker pc') s <| pool := p |> in
        match pc, pc' with
        | WSelect, WExec t => Some (s <| received := received s ++ [t] |>)
        | WTask t, _ => Some (s <| ran := ran s ++ [t] |>)
        | _, _ => Some s
        end
    end.
Proof. intros Hi. unfold thread_step. by rewrite Hi. Qed.

Lemma work_once s i t q :
  threads s !! i = Some (Worker WSelect) -> taskQueue (pool s) = t :: q ->
  exists s', run (work i) s = Some s' /\ threads s' !! i = Some (Worker WSelect) /\
    taskQueue (pool s') = q /\ ran s' = ran s ++ [t].
Proof.
  intros Hi Hq. pose proof (lookup_lt_Some _ _ _ Hi) as Hlt.
  unfold work. cbn [run run1].
  rewrite (thread_step_worker _ _ _ _ Hi). cbn [worker_step]. unfold queue_receive. rewrite Hq.
  unfold set_thread, set_field. cbn [pool threads sent received ran].
  do 4 (erewrite thread_step_worker by
          (cbn [threads]; apply list_lookup_insert_eq; rewrite ?length_insert; exact Hlt);
        cbn [worker_step]; unfold set_thread, set_field; cbn [pool threads sent received ran]).
  eexists. split; [reflexivity|]. cbn.
  split; [apply list_lookup_insert_eq; by rewrite !length_insert|done].
Qed.

(** A single worker at the head of its loop is enough: by its own steps alone it
    executes all queued tasks, in their order, and is back at the head of its loop with
    the queue empty. *)
Theorem WorkerPool_drains s i :
  threads s !! i = Some (Worker WSelect) ->
  exists s', run (concat (replicate (length (taskQueue (pool s))) (work i))) s = Some s' /\
    taskQueue (pool s') = [] /\ ran s' = ran s ++ taskQueue (pool s) /\
    threads s' !! i = Some (Worker WSelect).
Proof.
  remember (taskQueue (pool s)) as q eqn:Hq. symmetry in Hq.
  revert s Hq. induction q as [|t q IH]; intros s Hq Hi.
  { exists s. by rewrite app_nil_r. }
  destruct (work_once s i t q Hi Hq) as (s1 & Hr1 & Hi1 & Hq1 & Hran1).
  destruct (IH s1 Hq1 Hi1) as (s2 & Hr2 & Hq2 & Hran2 & Hi2).
  exists s2. split; [|split; [done|]; split; [|done]].
  - cbn [length replicate concat]. rewrite run_app, Hr1. exact Hr2.
  - by rewrite Hran2, Hran1, <- app_assoc.
Qed.

(** A worker about to take the first of three tasks. *)
Definition loaded : system :=
  mkSystem (NewGoroutinePool demo_config <| taskQueue := [4; 5; 6]%nat |> <| workers := 1 |>
              <| wg := 1 |>) [Worker WSelect] [4; 5; 6]%nat [] [].

Lemma WorkerPool_drains_witness :
  exists s', run (concat (replicate 3 (work 0))) loaded = Some s' /\ ran s' = [4; 5; 6]%nat.
Proof.
  destruct (WorkerPool_drains loaded 0 eq_refl) as (s' & Hr & _ & Hran & _).
  exists s'. split; [exact Hr|exact Hran].
Defined.

(** *** A queue of size zero *)

(** Threads of a pool that never started a worker nor accepted a task. *)
Definition idle_thread (T : thread) : Prop :=
  match T with
  | Worker _ | Submitter _ _ (SLoad | SCas _ | SGo | SRet None) => False
  | _ => True
  end.

Definition idle_inv (s : system) : Prop :=
  queueSize (pool s) = 0 /\ taskQueue (pool s) = [] /\ Forall idle_thread (threads s) /\
  sent s = [] /\ ran s = [].

Lemma idle_step a s s' : idle_inv s -> run1 a s = Some s' -> idle_inv s'.
Proof.
  intros (Hz & Hq & Hf & Hs & Hr). unfold idle_inv. destruct a as [m t| | |i c|i j]; cbn.
  1-3: intros [= <-]; unfold start, set_field; cbn [pool threads sent ran];
    rewrite ?Forall_app, ?Forall_singleton; split_and!; done.
  - unfold thread_step. destruct (threads s !! i) as [T|] eqn:Hi; [|done].
    pose proof (Forall_lookup_1 _ _ _ _ Hf Hi) as HT.
    destruct T as [m t pc|pc|pc|k pc]; [|done|..]; destruct pc, c; cbn in *; try done;
      unfold queue_room; rewrite ?Hz, ?Hq; intros Hx; simplify_eq/=;
      repeat (case_match; simplify_eq/=); split_and!; try done; by apply Forall_insert.
  - unfold hand_over. destruct (threads s !! j) as [[| | |]|] eqn:Hj;
      [|by apply (Forall_lookup_1 _ _ _ _ Hf) in Hj|..]; by repeat case_match.
Qed.

(** A pool configured with QueueSize 0 (documented as unbounded) or less never starts a
    worker, accepts no task and executes none in any interleaving, and a blocking Submit
    that reached its select has no step as long as the pool is not closed: workers are
    only started after a send, and the send waits for a worker. *)
Theorem WorkerPool_unbuffered config s :
  QueueSize config <= 0 -> reachable config s ->
  sent s = [] /\ ran s = [] /\
  (forall i pc, threads s !! i <> Some (Worker pc)) /\
  (forall i m t, threads s !! i <> Some (Submitter m t (SRet None))) /\
  (forall i t a, threads s !! i = Some (Submitter ByDefault t SSelect) ->
     nonBlocking (pool s) = false -> closed (pool s) <> 1 ->
     match a with Step j _ => j = i | Hand j _ => j = i | _ => False end -> run1 a s = None).
Proof.
  intros Hsz Hr. pose proof (errors_reachable _ _ Hr) as (Hst & Hqc & _).
  assert (idle_inv s) as (Hz & Hq & Hf & Hs & Hran).
  { revert Hr. apply (rtc_invariant step idle_inv);
      [intros s1 s2 [a Ha] HI; by eapply idle_step|].
    split_and!; try done. cbn [pool initial]. rewrite NewGoroutinePool_queueSize. lia. }
  assert (forall i T, threads s !! i = Some T -> idle_thread T) as Hall
    by (intros i T; apply (Forall_lookup_1 _ _ _ _ Hf)).
  split_and!; [done..| | |].
  - by intros i pc Hi%Hall.
  - by intros i m t Hi%Hall.
  - intros i t a Hi Hnb Hc Ha.
    destruct (stopClosed (pool s)) eqn:Hst'; [by destruct Hc; auto|].
    destruct (queueClosed (pool s)) eqn:Hqc'; [by destruct Hc; auto|].
    destruct a as [| | |j c|j k]; try done; subst j; cbn.
    + unfold thread_step. rewrite Hi. cbn. unfold submit_select, queue_room.
      rewrite Hst', Hqc', Hnb, Hz, Hq. by destruct c.
    + unfold hand_over. rewrite Hi.
      destruct (threads s !! k) as [[| | |]|] eqn:Hk; try done. by apply Hall in Hk.
Qed.

Lemma WorkerPool_unbuffered_witness :
  let config := mkGoroutinePoolConfig 4 Second 0 false in
  let s := default (initial config)
    (run [CallSubmit ByDefault 7; Step 0 Next; Step 0 Next] (initial config)) in
  threads s = [Submitter ByDefault 7%nat SSelect] /\ run1 (Step 0 Chan) s = None.
Proof.
  cbv zeta. split; [vm_compute; reflexivity|].
  refine (proj2 (proj2 (proj2 (proj2 (WorkerPool_unbuffered
    (mkGoroutinePoolConfig 4 Second 0 false) _ _ _)))) 0%nat 7%nat (Step 0 Chan) _ _ _ _).
  - done.
  - apply (run_reachable [CallSubmit ByDefault 7; Step 0 Next; Step 0 Next]).
    vm_compute. reflexivity.
  - vm_compute. reflexivity.
  - vm_compute. reflexivity.
  - vm_compute. discriminate.
  - reflexivity.
Defined.

(** *** A task nobody picks up *)

(** The second submission finds the worker counted but already on its way out. *)
Definition strand_schedule : list action :=
  [CallSubmit ByDefault 7; Step 0 Next; Step 0 Next; Step 0 Chan; Step 0 Next; Step 0 Next;
   Step 0 Next; Step 1 Chan; Step 1 Next; Step 1 Next; Step 1 Next; Step 1 Next;
   Step 1 Timer; Step 1 Next; Step 1 Next; Step 1 Next;
   CallSubmit ByDefault 8; Step 2 Next; Step 2 Next; Step 2 Chan; Step 2 Next;
   Step 1 Next; Step 2 Next; Step 1 Next].

Definition stranded_config (MaxWorkers : Z) : GoroutinePoolConfig :=
  mkGoroutinePoolConfig MaxWorkers Second 5 false.

(** A lost wake-up is reachable on an open pool with room for two workers: a submission
    loads the worker count while the last idle worker is leaving, its compare-and-swap
    fails, Submit returns nil, and the accepted task stays in the queue with no worker
    and with no goroutine of the program left that could take a step. *)
Theorem WorkerPool_can_strand :
  exists s, reachable (stranded_config 2) s /\ closed (pool s) = 0 /\ workers (pool s) = 0 /\
    threads s = [Submitter ByDefault 7%nat (SRet None); Worker WGone;
                 Submitter ByDefault 8%nat (SRet None)] /\
    taskQueue (pool s) = [8]%nat /\ ran s = [7]%nat /\
    (forall i c, run1 (Step i c) s = None) /\ (forall i j, run1 (Hand i j) s = None).
Proof.
  pose (s := default (initial (stranded_config 2))
               (run strand_schedule (initial (stranded_config 2)))).
  assert (threads s = [Submitter ByDefault 7%nat (SRet None); Worker WGone;
            Submitter ByDefault 8%nat (SRet None)]) as Ht by (vm_compute; reflexivity).
  exists s. split; [apply (run_reachable strand_schedule); vm_compute; reflexivity|].
  do 2 (split; [vm_compute; reflexivity|]). split; [exact Ht|].
  do 2 (split; [vm_compute; reflexivity|]). split.
  - intros i c. cbn [run1]. unfold thread_step. rewrite Ht. by destruct i as [|[|[|[]]]], c.
  - intros i j. cbn [run1]. unfold hand_over. rewrite Ht. by destruct i as [|[|[|[]]]].
Qed.
