(* ===== verification/ZeroCopy.v ===== *)
(** * The zero-copy data path (src/pkg/proxy/zerocopy.go, zerocopy_linux.go,
    zerocopy_other.go)

    The kernel is not part of the repository.  A [Kernel] is a world with the byte
    streams of one copy (what the source still delivers, what sits in the pipe, what
    the destination got), the system calls as functions on it and the laws that
    splice(2) and the documentation of [io.Copy] state.  The loops of the code are
    functions with fuel over any such world; [scripted] is a concrete one. *)

From S2P Require Import Prelude.

(** ** The kernel, as the code relies on it *)

Abbreviation byte := Z (only parsing).

Inductive errno := EAGAIN | EINTR | EPIPE | ECONNRESET | EOTHER (code : Z).
#[export] Instance errno_eq_dec : EqDecision errno.
Proof. solve_decision. Defined.

(** The flags of splice(2). *)
Definition SPLICE_F_MOVE : Z := 1.
Definition SPLICE_F_NONBLOCK : Z := 2.
Definition SPLICE_F_MORE : Z := 4.

Class Kernel (W : Type) := {
  (** the bytes still to come from the source, in the pipe, and at the destination *)
  k_src : W -> list byte;
  k_pipe : W -> list byte;
  k_dst : W -> list byte;
  (** splice from the source into the pipe, and from the pipe to the destination:
      (length, flags) to the bytes moved or an error *)
  splice_in : Z -> Z -> W -> result errno Z * W;
  splice_out : Z -> Z -> W -> result errno Z * W;
  (** [io.Copy]: the count and the error *)
  io_copy : W -> (Z * option errno) * W;
  (** how often calls will still be interrupted *)
  k_retries : W -> nat
}.

(** splice(2): the bytes moved leave the front of the input and reach the end of the
    output in order, at most as many as asked for; 0 is the end of the input; a failed
    call moves nothing. *)
Class KernelLaws (W : Type) `{Kernel W} := {
  splice_in_ok : forall len flags w n w',
    splice_in len flags w = (Ok n, w') -> 0 < len ->
    exists moved, k_src w = moved ++ k_src w' /\ k_pipe w' = k_pipe w ++ moved /\
      k_dst w' = k_dst w /\ n = Z.of_nat (length moved) /\ n <= len /\
      (n = 0 -> k_src w = []);
  splice_in_err : forall len flags w e w',
    splice_in len flags w = (Err e, w') ->
    k_src w' = k_src w /\ k_pipe w' = k_pipe w /\ k_dst w' = k_dst w;
  splice_out_ok : forall len flags w n w',
    splice_out len flags w = (Ok n, w') -> 0 < len ->
    exists moved, k_pipe w = moved ++ k_pipe w' /\ k_dst w' = k_dst w ++ moved /\
      k_src w' = k_src w /\ n = Z.of_nat (length moved) /\ n <= len /\
      (n = 0 -> k_pipe w = []);
  splice_out_err : forall len flags w e w',
    splice_out len flags w = (Err e, w') ->
    k_src w' = k_src w /\ k_pipe w' = k_pipe w /\ k_dst w' = k_dst w;
  (** [io.Copy] stops at the end of the input or at the first error; what it read and
      could not write is lost. *)
  io_copy_spec : forall w n err w',
    io_copy w = ((n, err), w') ->
    exists moved lost, k_src w = moved ++ lost ++ k_src w' /\
      k_dst w' = k_dst w ++ moved /\ k_pipe w' = k_pipe w /\
      n = Z.of_nat (length moved) /\ (err = None -> lost = [] /\ k_src w' = [])
}.

(** Only finitely many calls are interrupted. *)
Class FiniteRetries (W : Type) `{Kernel W} := {
  retries_in : forall len flags w r w',
    splice_in len flags w = (r, w') ->
    (k_retries w' <= k_retries w)%nat /\
    (r = Err EAGAIN \/ r = Err EINTR -> (k_retries w' < k_retries w)%nat);
  retries_out : forall len flags w r w',
    splice_out len flags w = (r, w') ->
    (k_retries w' <= k_retries w)%nat /\
    (r = Err EAGAIN \/ r = Err EINTR -> (k_retries w' < k_retries w)%nat)
}.

(** ** Settings *)

Record DefaultZeroCopier := mkDefaultZeroCopier { bufferSize : Z }.

Definition NewDefaultZeroCopier (size : Z) : DefaultZeroCopier :=
  mkDefaultZeroCopier (if size <=? 0 then 32 * 1024 else size).

Definition SetupSpliceFlags (nonBlocking : bool) : Z :=
  let flags := Z.lor SPLICE_F_MOVE SPLICE_F_MORE in
  if nonBlocking then Z.lor flags SPLICE_F_NONBLOCK else flags.

Definition SpliceSupported_linux : bool := true.
Definition SpliceSupported_other : bool := false.

(** The receive buffer of a TCP connection, [None] where the connection is no TCP
    connection or has no raw form; [size] is 0 when the option could not be read. *)
Definition GetOptimalBufferSize (rcvbuf : option Z) : Z :=
  match rcvbuf with
  | Some size => if 0 <? size then size else 32 * 1024
  | None => 32 * 1024
  end.

(** The calls on the connection in their order, each with its error; TCP_CORK is set
    after the last one and its error is ignored. *)
Definition SetTCPOptimizations {E} (noDelay keepAlive syscallConn control sockopt : option E) :
    option E :=
  match noDelay with
  | Some err => Some err
  | None =>
      match keepAlive with
      | Some err => Some err
      | None =>
          match syscallConn with
          | Some err => Some err
          | None => match control with Some err => Some err | None => sockopt end
          end
      end
  end.

(** ** System calls *)

(** An address is a number; [mem] is what the word at an address holds. *)
Definition uintptr (n : Z) : Z := n mod 2 ^ 64.

(** The word that the pointer refers to, not the pointer. *)
Definition ptrOrZero (mem : Z -> Z) (p : option Z) : Z :=
  match p with None => 0 | Some a => uintptr (mem a) end.

Definition SYS_SPLICE : Z := 275.

(** [Syscall6] takes the trap and six words and returns two words and the errno. *)
Definition splice (Syscall6 : Z -> list Z -> Z * Z * Z) (mem : Z -> Z) (fdIn : Z) (offIn : option Z) (fdOut : Z)
    (offOut : option Z) (len flags : Z) : Z * option Z :=
  let '(r0, _, e1) := Syscall6 SYS_SPLICE
    [uintptr fdIn; uintptr (ptrOrZero mem offIn); uintptr fdOut; uintptr (ptrOrZero mem offOut);
     uintptr len; uintptr flags] in
  (i64 r0, if e1 =? 0 then None else Some e1).

(** [Sendfile] takes the two descriptors, the offset it starts at and the count; the offset
    it leaves is dropped. *)
Definition SendFile {E} (Sendfile : Z -> Z -> Z -> Z -> Z * Z * option E) (dstFd srcFd count : Z) : Z * option E :=
  let '(n, _, err) := Sendfile dstFd srcFd 0 count in (n, err).

(** The calls of this file pass no offsets; a failing call returns the word -1. *)
Lemma splice_no_offsets Syscall6 mem fdIn fdOut len flags r0 r1 e1 :
  Syscall6 SYS_SPLICE [uintptr fdIn; 0; uintptr fdOut; 0; uintptr len; uintptr flags] = (r0, r1, e1) ->
  0 <= r0 < 2 ^ 64 -> (e1 <> 0 -> r0 = 2 ^ 64 - 1) ->
  splice Syscall6 mem fdIn None fdOut None len flags =
    (if e1 =? 0 then i64 r0 else -1, if e1 =? 0 then None else Some e1).
Proof.
  intros H Hr He. unfold splice, ptrOrZero, uintptr at 2 4. rewrite Zmod_0_l, H.
  destruct (Z.eqb_spec e1 0); [done|]. by rewrite He.
Qed.

(** With an offset the kernel would be given the offset as an address. *)
Lemma ptrOrZero_value (mem : Z -> Z) (a : Z) : 0 <= mem a < 2 ^ 64 -> ptrOrZero mem (Some a) = mem a.
Proof. intros H. by apply Z.mod_small. Qed.

(** ** Pre-allocated buffers *)

Record ReadWriteOptimizer := mkReadWriteOptimizer { readBuffer : list byte; writeBuffer : list byte }.

Definition NewReadWriteOptimizer (size : Z) : ReadWriteOptimizer :=
  let size := if size <=? 0 then 32 * 1024 else size in
  mkReadWriteOptimizer (replicate (Z.to_nat size) 0) (replicate (Z.to_nat size) 0).

(** [io.CopyBuffer] panics on an empty buffer and otherwise copies as [io.Copy] does. *)
Definition CopyWithBuffers {W R} (io_CopyBuffer : nat -> W -> R * W) (rw : ReadWriteOptimizer) (w : W)
  : outcome (R * W) :=
  match readBuffer rw with
  | [] => Panic
  | buf => Ret (io_CopyBuffer (length buf) w)
  end.

Lemma CopyWithBuffers_total {W R} (io_CopyBuffer : nat -> W -> R * W) size w :
  CopyWithBuffers io_CopyBuffer (NewReadWriteOptimizer size) w =
    Ret (io_CopyBuffer (Z.to_nat (if size <=? 0 then 32 * 1024 else size)) w).
Proof.
  unfold CopyWithBuffers, NewReadWriteOptimizer. cbn [readBuffer].
  set (n := Z.to_nat _). assert (0 < n)%nat by (subst n; destruct (Z.leb_spec size 0); lia).
  clearbody n. destruct n; [lia|]. cbn [replicate]. cbn [length]. by rewrite length_replicate.
Qed.

(** ** Copying *)

Definition retried (e : errno) : bool :=
  match e with EAGAIN | EINTR => true | _ => false end.

Section copying.
Context {W : Type} `{Kernel W}.

Definition copy_flags : Z := Z.lor SPLICE_F_MOVE SPLICE_F_MORE.

(** The inner loop of [spliceCopy]: the [n] bytes in the pipe go to the destination.
    [None]: out of fuel. *)
Fixpoint drain_loop (fuel : nat) (n written : Z) (w : W) : option (result errno Z * W) :=
  match fuel with
  | O => None
  | S fuel =>
      if written <? n then
        match splice_out (n - written) copy_flags w with
        | (Ok moved, w') => drain_loop fuel n (written + moved) w'
        | (Err err, w') =>
            if retried err then drain_loop fuel n written w' else Some (Err err, w')
        end
      else Some (Ok written, w)
  end.

(** The outer loop. The result is [(written, err)]. *)
Fixpoint splice_loop (fuel : nat) (size totalWritten : Z) (w : W) :
    option ((Z * option errno) * W) :=
  match fuel with
  | O => None
  | S fuel' =>
      match splice_in size copy_flags w with
      | (Err err, w') =>
          if retried err then splice_loop fuel' size totalWritten w'
          else if 0 <? totalWritten then Some ((totalWritten, None), w')
          else Some ((0, Some err), w')
      | (Ok n, w') =>
          if n =? 0 then Some ((totalWritten, None), w')
          else
            match drain_loop fuel n 0 w' with
            | None => None
            | Some (Err err, w'') => Some ((totalWritten, Some err), w'')
            | Some (Ok written, w'') => splice_loop fuel' size (i64 (totalWritten + written)) w''
            end
      end
  end.

(** [pipe_err]: the error of the pipe(2) call. *)
Definition spliceCopy (fuel : nat) (pipe_err : option errno) (size : Z) (w : W) :
    option ((Z * option errno) * W) :=
  match pipe_err with
  | Some err => Some ((0, Some err), w)
  | None => splice_loop fuel size 0 w
  end.

Inductive splice_error := Errno (e : errno) | ErrUnexpectedEOF | ErrSpliceNotSupported.

(** The loop of [TrySplice], which does not retry. *)
Fixpoint try_loop (fuel : nat) (flags n written : Z) (w : W) :
    option ((Z * option splice_error) * W) :=
  match fuel with
  | O => None
  | S fuel =>
      if written <? n then
        match splice_out (n - written) flags w with
        | (Ok moved, w') => try_loop fuel flags n (written + moved) w'
        | (Err err, w') => Some ((written, Some (Errno err)), w')
        end
      else Some ((written, None), w)
  end.

Definition TrySplice (fuel : nat) (pipe_err : option errno) (count : Z) (nonBlocking : bool)
    (w : W) : option ((Z * option splice_error) * W) :=
  match pipe_err with
  | Some err => Some ((0, Some (Errno err)), w)
  | None =>
      let flags := SetupSpliceFlags nonBlocking in
      match splice_in count flags w with
      | (Err err, w') => Some ((0, Some (Errno err)), w')
      | (Ok n, w') =>
          if n =? 0 then Some ((0, Some ErrUnexpectedEOF), w')
          else try_loop fuel flags n 0 w'
      end
  end.

(** On other platforms. *)
Definition TrySplice_other (w : W) : (Z * option splice_error) * W :=
  ((0, Some ErrSpliceNotSupported), w).

Definition spliceCopy_other (w : W) : (Z * option splice_error) * W :=
  ((0, Some ErrSpliceNotSupported), w).

Definition SendFile_other : Z * option splice_error := (0, Some ErrSpliceNotSupported).
Definition SetupSpliceFlags_other (nonBlocking : bool) : Z := 0.

(** [src.File()] and [dst.File()] may fail; the pipe is closed on return, and what it
    still held is gone. *)
Definition tcpSplice (fuel : nat) (src_file dst_file pipe_err : option errno)
    (z : DefaultZeroCopier) (w : W) : option ((Z * option errno) * W) :=
  match src_file with
  | Some _ => Some (io_copy w)
  | None =>
      match dst_file with
      | Some _ => Some (io_copy w)
      | None =>
          match spliceCopy fuel pipe_err (bufferSize z) w with
          | None => None
          | Some ((_, Some _), w') => Some (io_copy w')
          | Some ((written, None), w') => Some ((written, None), w')
          end
      end
  end.

(** [both_tcp]: both connections are [*net.TCPConn]. *)
Definition Copy (fuel : nat) (both_tcp : bool) (src_file dst_file pipe_err : option errno)
    (z : DefaultZeroCopier) (w : W) : option ((Z * option errno) * W) :=
  if both_tcp then tcpSplice fuel src_file dst_file pipe_err z w else Some (io_copy w).
End copying.

(** ** What the loops deliver *)

Section delivery.
Context {W : Type} {kernel : Kernel W} {laws : KernelLaws W}.

(** A splice to the destination failed for good. *)
Definition write_failed (e : errno) : Prop :=
  retried e = false /\ exists len w w', splice_out len copy_flags w = (Err e, w').

Lemma drain_loop_spec fuel n written w r w' :
  drain_loop fuel n written w = Some (r, w') -> written <= n ->
  exists moved, k_pipe w = moved ++ k_pipe w' /\ k_dst w' = k_dst w ++ moved /\
    k_src w' = k_src w /\
    match r with
    | Ok m => m = n /\ n = written + Z.of_nat (length moved)
    | Err e => write_failed e
    end.
Proof.
  revert written w. induction fuel as [|fuel IH]; intros written w Hd Hw; [done|]. cbn in Hd.
  destruct (Z.ltb_spec written n) as [Hlt|Hge].
  - destruct (splice_out (n - written) copy_flags w) as [[k|e] w1] eqn:Hs.
    + destruct (splice_out_ok _ _ _ _ _ Hs ltac:(lia))
        as (moved & Hp & Hdst & Hsrc & Hk & Hle & _).
      destruct (IH (written + k) w1 Hd ltac:(lia)) as (moved' & Hp' & Hd' & Hs' & Hr).
      exists (moved ++ moved'). rewrite Hp, Hp', Hd', Hdst, Hs', <- !app_assoc.
      split_and!; try done. destruct r; [|done]. rewrite length_app. lia.
    + destruct (splice_out_err _ _ _ _ _ Hs) as (Hsrc & Hp & Hdst).
      destruct (retried e) eqn:He.
      * destruct (IH written w1 Hd Hw) as (moved & Hm). exists moved. by rewrite <- Hsrc, <- Hp, <- Hdst.
      * injection Hd as <- <-. exists []. rewrite Hsrc, Hp, Hdst, app_nil_r.
        split_and!; try done. split; eauto.
  - injection Hd as <- <-. exists []. rewrite app_nil_r. cbn. split_and!; try done; lia.
Qed.

Lemma splice_loop_spec fuel size total w n err w' :
  0 < size -> k_pipe w = [] -> 0 <= total ->
  total + Z.of_nat (length (k_src w)) < 2 ^ 63 ->
  splice_loop fuel size total w = Some ((n, err), w') ->
  exists moved, k_src w = moved ++ k_pipe w' ++ k_src w' /\ k_dst w' = k_dst w ++ moved /\
    match err with
    | None => k_pipe w' = [] /\ n = total + Z.of_nat (length moved) /\ (k_src w' = [] \/ 0 < n)
    | Some e =>
        write_failed e \/ (retried e = false /\ total = 0 /\ moved = [] /\ k_pipe w' = [])
    end.
Proof.
  intros Hsize. revert total w. induction fuel as [|fuel IH]; intros total w Hp Ht Hb Hl; [done|].
  cbn -[drain_loop] in Hl.
  destruct (splice_in size copy_flags w) as [[k|e] w1] eqn:Hs.
  - destruct (splice_in_ok _ _ _ _ _ Hs Hsize) as (taken & Hsrc & Hp1 & Hd1 & Hk & Hle & H0).
    rewrite Hp in Hp1. cbn in Hp1. destruct (Z.eqb_spec k 0) as [Hz|Hnz].
    { injection Hl as <- <- <-. exists []. rewrite Hd1, app_nil_r.
      assert (taken = []) as -> by (apply length_zero_iff_nil; lia).
      rewrite (H0 Hz) in *. cbn in *. rewrite Hp1, <- Hsrc. split_and!; try done; [lia|by left]. }
    destruct (drain_loop (S fuel) k 0 w1) as [[[m|e] w2]|] eqn:Hdr; [| |done];
      destruct (drain_loop_spec _ _ _ _ _ _ Hdr ltac:(lia)) as (moved & Hp2 & Hd2 & Hs2 & Hr).
    + destruct Hr as [-> Hlen]. rewrite Hp1 in Hp2.
      assert (k_pipe w2 = []) as Hp2'.
      { apply length_zero_iff_nil. apply (f_equal length) in Hp2. rewrite length_app in Hp2. lia. }
      rewrite Hp2', app_nil_r in Hp2. subst moved.
      rewrite Hsrc, length_app in Hb. rewrite i64_small in Hl by lia.
      destruct (IH (total + k) w2 Hp2' ltac:(lia) ltac:(rewrite Hs2; lia) Hl)
        as (moved & E1 & E2 & E3).
      exists (taken ++ moved). rewrite Hsrc, <- Hs2, E1, E2, Hd2, Hd1, <- !app_assoc.
      split_and!; try done. rewrite length_app. destruct err.
      * left. destruct E3 as [?|(_ & ? & _)]; [done|lia].
      * destruct E3 as (? & ? & ?). split_and!; [done|lia|done].
    + injection Hl as <- <- <-. exists moved. rewrite Hsrc, Hd2, Hd1, Hs2, app_assoc.
      rewrite <- Hp2, Hp1. auto.
  - destruct (splice_in_err _ _ _ _ _ Hs) as (Hsrc & Hp1 & Hd1).
    destruct (retried e) eqn:He.
    { destruct (IH total w1 ltac:(congruence) Ht ltac:(by rewrite Hsrc) Hl) as (moved & Hm).
      exists moved. by rewrite <- Hsrc, <- Hd1. }
    destruct (Z.ltb_spec 0 total); injection Hl as <- <- <-; exists [];
      rewrite Hp1, Hp, Hd1, Hsrc, app_nil_r; split_and!; try done; cbn; try (right; split_and!; done || lia); lia.
Qed.

Lemma spliceCopy_spec fuel pipe_err z w n err w' :
  0 < bufferSize z -> k_pipe w = [] -> Z.of_nat (length (k_src w)) < 2 ^ 63 ->
  spliceCopy fuel pipe_err (bufferSize z) w = Some ((n, err), w') ->
  exists moved, k_src w = moved ++ k_pipe w' ++ k_src w' /\ k_dst w' = k_dst w ++ moved /\
    match err with
    | None => k_pipe w' = [] /\ n = Z.of_nat (length moved) /\ (k_src w' = [] \/ 0 < n)
    | Some e =>
        write_failed e \/
        ((pipe_err = Some e \/ retried e = false) /\ moved = [] /\ k_pipe w' = [])
    end.
Proof.
  intros Hz Hp Hb. unfold spliceCopy. destruct pipe_err as [e|].
  - intros [= <- <- <-]. exists []. rewrite Hp, app_nil_r. cbn. auto 8.
  - intros Hl. destruct (splice_loop_spec _ _ 0 _ _ _ _ Hz Hp ltac:(lia) ltac:(lia) Hl)
      as (moved & E1 & E2 & E3).
    exists moved. split_and!; try done. destruct err.
    + destruct E3 as [?|(? & _ & ? & ?)]; auto.
    + destruct E3 as (? & ? & ?). split_and!; [done|lia|done].
Qed.

Lemma io_copy_no_error w n w' :
  io_copy w = ((n, None), w') ->
  exists moved, k_src w = moved ++ k_src w' /\ k_dst w' = k_dst w ++ moved /\
    n = Z.of_nat (length moved) /\ k_src w' = [].
Proof.
  intros (moved & lost & Hs & Hd & _ & Hn & He)%io_copy_spec.
  destruct (He eq_refl) as [-> Hnil]. by exists moved.
Qed.

(** C21: Over any kernel that obeys the documented laws of splice(2) and io.Copy: when
    DefaultZeroCopier.Copy returns (n, nil) and the splice attempt did not fail after
    taking bytes, the destination received exactly the next n bytes of the source in
    order, and either the source is at its end or n is positive; interrupted calls,
    short reads and short writes included. *)
Theorem Copy_delivers fuel both_tcp src_file dst_file pipe_err z w n w' :
  (forall k e v, spliceCopy fuel pipe_err (bufferSize z) w = Some ((k, Some e), v) ->
     k_src v = k_src w) ->
  0 < bufferSize z -> k_pipe w = [] -> Z.of_nat (length (k_src w)) < 2 ^ 63 ->
  Copy fuel both_tcp src_file dst_file pipe_err z w = Some ((n, None), w') ->
  exists moved, k_src w = moved ++ k_src w' /\ k_dst w' = k_dst w ++ moved /\
    n = Z.of_nat (length moved) /\ (k_src w' = [] \/ 0 < n).
Proof.
  intros Hwf Hz Hp Hb. unfold Copy, tcpSplice. intros Hc.
  assert (forall v, Some (io_copy v) = Some ((n, None), w') -> k_src v = k_src w ->
    k_dst v = k_dst w -> exists moved, k_src w = moved ++ k_src w' /\
    k_dst w' = k_dst w ++ moved /\ n = Z.of_nat (length moved) /\ (k_src w' = [] \/ 0 < n)) as Hio.
  { intros v [= Hv] <- <-. destruct (io_copy_no_error _ _ _ Hv) as (moved & Hm & Hd & Hn & Hnil).
    exists moved. auto. }
  destruct both_tcp, src_file, dst_file; try (by apply (Hio w)).
  destruct (spliceCopy fuel pipe_err (bufferSize z) w) as [[[k [e|]] w1]|] eqn:Hs; [| |done];
    destruct (spliceCopy_spec _ _ _ _ _ _ _ Hz Hp Hb Hs) as (moved & E1 & E2 & E3).
  - pose proof (Hwf _ _ _ eq_refl) as Hs1. apply (Hio w1 Hc Hs1).
    apply (f_equal length) in E1. rewrite Hs1, !length_app in E1.
    assert (moved = []) as -> by (apply length_zero_iff_nil; lia). by rewrite E2, app_nil_r.
  - injection Hc as -> ->. destruct E3 as (Hp1 & Hn & Heof).
    exists moved. by rewrite E1, Hp1.
Qed.

(** *** A single splice *)

Lemma try_loop_spec fuel flags n written w m err w' :
  try_loop fuel flags n written w = Some ((m, err), w') -> written <= n ->
  exists moved, k_pipe w = moved ++ k_pipe w' /\ k_dst w' = k_dst w ++ moved /\
    k_src w' = k_src w /\ m = written + Z.of_nat (length moved) /\ m <= n /\
    match err with None => m = n | Some e => m < n /\ exists e', e = Errno e' end.
Proof.
  revert written w. induction fuel as [|fuel IH]; intros written w Hd Hw; [done|]. cbn in Hd.
  destruct (Z.ltb_spec written n) as [Hlt|Hge].
  - destruct (splice_out (n - written) flags w) as [[k|e] w1] eqn:Hs.
    + destruct (splice_out_ok _ _ _ _ _ Hs ltac:(lia))
        as (moved & Hp & Hdst & Hsrc & Hk & Hle & _).
      destruct (IH (written + k) w1 Hd ltac:(lia)) as (moved' & Hp' & Hd' & Hs' & Hm & Hr).
      exists (moved ++ moved'). rewrite Hp, Hp', Hd', Hdst, Hs', <- !app_assoc, length_app.
      split_and!; try done; [lia|apply Hr..].
    + destruct (splice_out_err _ _ _ _ _ Hs) as (Hsrc & Hp & Hdst).
      injection Hd as <- <- <-. exists []. rewrite Hsrc, Hp, Hdst, app_nil_r.
      split_and!; try done; cbn; try lia. eauto.
  - injection Hd as <- <- <-. exists []. rewrite app_nil_r. split_and!; try done; cbn; lia.
Qed.

(** TrySplice reports exactly what happened on every branch: the count is the number of
    bytes the destination received (the next bytes of the source, at most count), a nil
    error means that at least one byte was moved and none is left in the pipe,
    unexpected EOF means an exhausted source and a count of 0, and a system error leaves
    the remaining bytes in the pipe. *)
Theorem TrySplice_reports fuel pipe_err count nonBlocking w n err w' :
  0 < count -> k_pipe w = [] ->
  TrySplice fuel pipe_err count nonBlocking w = Some ((n, err), w') ->
  exists moved, k_src w = moved ++ k_pipe w' ++ k_src w' /\ k_dst w' = k_dst w ++ moved /\
    n = Z.of_nat (length moved) /\ n <= count /\
    match err with
    | None => k_pipe w' = [] /\ 0 < n
    | Some ErrUnexpectedEOF => k_src w = [] /\ n = 0
    | Some (Errno _) => True
    | Some ErrSpliceNotSupported => False
    end.
Proof.
  intros Hc Hp. unfold TrySplice. destruct pipe_err as [e|].
  { intros [= <- <- <-]. exists []. rewrite Hp, app_nil_r. cbn. split_and!; done || lia. }
  destruct (splice_in count (SetupSpliceFlags nonBlocking) w) as [[k|e] w1] eqn:Hs.
  - destruct (splice_in_ok _ _ _ _ _ Hs Hc) as (taken & Hsrc & Hp1 & Hd1 & Hk & Hle & H0).
    rewrite Hp in Hp1. cbn in Hp1. destruct (Z.eqb_spec k 0) as [Hz|Hnz].
    + intros [= <- <- <-]. exists []. rewrite Hp1, Hd1, app_nil_r.
      split_and!; try done; [lia|apply (H0 Hz)].
    + intros Ht. destruct (try_loop_spec _ _ _ _ _ _ _ _ Ht ltac:(lia))
        as (moved & Hp2 & Hd2 & Hs2 & Hm & Hmn & He).
      exists moved. rewrite Hsrc, Hd2, Hd1, Hs2, app_assoc, <- Hp2, Hp1.
      split_and!; [done|done|lia|lia|].
      destruct err as [e|]; [destruct He as [_ [e' ->]]; done|].
      split; [|lia]. apply length_zero_iff_nil. apply (f_equal length) in Hp2.
      rewrite Hp1, length_app in Hp2. lia.
  - destruct (splice_in_err _ _ _ _ _ Hs) as (Hsrc & Hp1 & Hd1).
    intros [= <- <- <-]. exists []. rewrite Hp1, Hp, Hsrc, Hd1, app_nil_r.
    split_and!; done || lia.
Qed.

(** *** Termination *)

Context {finite : FiniteRetries W}.

Lemma drain_loop_total fuel n written w :
  0 <= written -> n - written <= Z.of_nat (length (k_pipe w)) ->
  (length (k_pipe w) + k_retries w < fuel)%nat ->
  exists r w', drain_loop fuel n written w = Some (r, w') /\ (k_retries w' <= k_retries w)%nat.
Proof.
  revert written w. induction fuel as [|fuel IH]; intros written w H0 Hn Hf; [lia|]. cbn.
  destruct (Z.ltb_spec written n) as [Hlt|Hge]; [|eauto].
  destruct (splice_out (n - written) copy_flags w) as [r w1] eqn:Hs.
  destruct (retries_out _ _ _ _ _ Hs) as [Hr1 Hr2]. destruct r as [k|e].
  - destruct (splice_out_ok _ _ _ _ _ Hs ltac:(lia)) as (moved & Hp & _ & _ & Hk & _ & Hz).
    pose proof (f_equal length Hp) as Hlen. rewrite length_app in Hlen.
    assert (k <> 0). { intros Hk0. rewrite (Hz Hk0) in *. cbn in *. lia. }
    destruct (IH (written + k) w1 ltac:(lia) ltac:(lia) ltac:(lia)) as (r & w' & Hd & Hr).
    exists r, w'. split; [done|lia].
  - destruct (splice_out_err _ _ _ _ _ Hs) as (_ & Hp & _).
    destruct (retried e) eqn:He; [|eauto].
    assert (k_retries w1 < k_retries w)%nat.
    { apply Hr2. destruct e; cbn in He; try done; auto. }
    destruct (IH written w1 H0 ltac:(by rewrite Hp) ltac:(rewrite Hp; lia)) as (r & w' & Hd & Hr).
    exists r, w'. split; [done|lia].
Qed.

(** spliceCopy returns on every finite source whose system calls are interrupted
    finitely often: fuel above the number of source bytes plus the number of
    interruptions is enough, for every buffer size and every splitting of reads and
    writes. *)
Theorem spliceCopy_terminates fuel pipe_err z w :
  0 < bufferSize z -> k_pipe w = [] ->
  (length (k_src w) + k_retries w < fuel)%nat ->
  exists r, spliceCopy fuel pipe_err (bufferSize z) w = Some r.
Proof.
  intros Hz Hp Hf. unfold spliceCopy. destruct pipe_err; [eauto|]. generalize 0 as total.
  revert w Hp Hf. induction fuel as [|fuel IH]; intros w Hp Hf total; [lia|].
  cbn -[drain_loop].
  destruct (splice_in (bufferSize z) copy_flags w) as [r w1] eqn:Hs.
  destruct (retries_in _ _ _ _ _ Hs) as [Hr1 Hr2]. destruct r as [k|e].
  - destruct (splice_in_ok _ _ _ _ _ Hs Hz) as (taken & Hsrc & Hp1 & Hd1 & Hk & Hle & H0).
    rewrite Hp in Hp1. cbn in Hp1. destruct (Z.eqb_spec k 0) as [|Hnz]; [eauto|].
    pose proof (f_equal length Hsrc) as Hlen. rewrite length_app in Hlen.
    destruct (drain_loop_total (S fuel) k 0 w1) as (r & w2 & Hd & Hr3);
      [lia|rewrite Hp1; lia|rewrite Hp1; lia|].
    rewrite Hd. destruct r as [m|e]; [|eauto].
    destruct (drain_loop_spec _ _ _ _ _ _ Hd ltac:(lia)) as (moved & Hp2 & _ & Hs2 & _ & Hm).
    rewrite Hp1 in Hp2. pose proof (f_equal length Hp2) as Hlen2. rewrite length_app in Hlen2.
    apply IH; [|rewrite Hs2; lia]. apply length_zero_iff_nil. lia.
  - destruct (splice_in_err _ _ _ _ _ Hs) as (Hsrc & Hp1 & _).
    destruct (retried e) eqn:He; [|destruct (0 <? total); eauto].
    assert (k_retries w1 < k_retries w)%nat.
    { apply Hr2. destruct e; cbn in He; try done; auto. }
    apply IH; [congruence|rewrite Hsrc; lia].
Qed.
End delivery.

(** ** A concrete kernel

    Scripts say how each splice answers: an error, or a number of bytes that is cut to
    what was asked for and is there (and is at least one when something is there). An
    empty script moves as much as it can. *)
Record scripted := mkScripted {
  sc_src : list byte;
  sc_pipe : list byte;
  sc_dst : list byte;
  sc_in : list (result errno nat);
  sc_out : list (result errno nat)
}.

Definition interrupts (r : result errno nat) : bool :=
  match r with Err e => retried e | Ok _ => false end.

Definition interruptions (l : list (result errno nat)) : nat :=
  length (filter (fun r => interrupts r = true) l).

Definition amount (script : list (result errno nat)) (len : Z) (avail : list byte) : nat :=
  Nat.min (match script with Ok k :: _ => Nat.max 1 k | _ => length avail end)
    (Nat.min (Z.to_nat len) (length avail)).

#[export] Instance scripted_kernel : Kernel scripted := {
  k_src := sc_src;
  k_pipe := sc_pipe;
  k_dst := sc_dst;
  splice_in := fun len _ w =>
    match sc_in w with
    | Err e :: l => (Err e, mkScripted (sc_src w) (sc_pipe w) (sc_dst w) l (sc_out w))
    | _ =>
        let k := amount (sc_in w) len (sc_src w) in
        (Ok (Z.of_nat k), mkScripted (drop k (sc_src w)) (sc_pipe w ++ take k (sc_src w))
           (sc_dst w) (tail (sc_in w)) (sc_out w))
    end;
  splice_out := fun len _ w =>
    match sc_out w with
    | Err e :: l => (Err e, mkScripted (sc_src w) (sc_pipe w) (sc_dst w) (sc_in w) l)
    | _ =>
        let k := amount (sc_out w) len (sc_pipe w) in
        (Ok (Z.of_nat k), mkScripted (sc_src w) (drop k (sc_pipe w))
           (sc_dst w ++ take k (sc_pipe w)) (sc_in w) (tail (sc_out w)))
    end;
  io_copy := fun w =>
    ((Z.of_nat (length (sc_src w)), None),
     mkScripted [] (sc_pipe w) (sc_dst w ++ sc_src w) (sc_in w) (sc_out w));
  k_retries := fun w => (interruptions (sc_in w) + interruptions (sc_out w))%nat
}.

Lemma amount_spec script len avail :
  0 < len -> (amount script len avail <= length avail)%nat /\
    Z.of_nat (amount script len avail) <= len /\ (amount script len avail = 0%nat -> avail = []).
Proof.
  intros Hl. unfold amount.
  assert (forall m : nat, (1 <= m)%nat \/ m = length avail ->
    (Nat.min m (Nat.min (Z.to_nat len) (length avail)) <= length avail)%nat /\
    Z.of_nat (Nat.min m (Nat.min (Z.to_nat len) (length avail))) <= len /\
    (Nat.min m (Nat.min (Z.to_nat len) (length avail)) = 0%nat -> avail = [])) as Hm.
  { intros m Hm. split; [lia|]. split; [lia|]. intros H0. apply length_zero_iff_nil. lia. }
  apply Hm. destruct script as [|[k|e] l]; lia.
Qed.

(** A move of [k] bytes in the form of the laws. *)
Lemma moved_spec script len (from : list byte) :
  0 < len -> exists moved, from = moved ++ drop (amount script len from) from /\
    moved = take (amount script len from) from /\
    Z.of_nat (amount script len from) = Z.of_nat (length moved) /\
    Z.of_nat (amount script len from) <= len /\
    (Z.of_nat (amount script len from) = 0 -> from = []).
Proof.
  intros Hl. destruct (amount_spec script len from Hl) as (Ha & Hb & Hc).
  exists (take (amount script len from) from). rewrite take_drop, length_take.
  split_and!; [done|done|lia|done|]. intros H0. apply Hc. lia.
Qed.

#[export] Instance scripted_laws : KernelLaws scripted.
Proof.
  split.
  - intros len flags w n w' Hs Hl. cbn in Hs.
    assert (Ok (Z.of_nat (amount (sc_in w) len (sc_src w))) = Ok (E := errno) n /\
      w' = mkScripted (drop (amount (sc_in w) len (sc_src w)) (sc_src w))
        (sc_pipe w ++ take (amount (sc_in w) len (sc_src w)) (sc_src w))
        (sc_dst w) (tail (sc_in w)) (sc_out w)) as [[= <-] ->]
      by (destruct (sc_in w) as [|[]]; simplify_eq; done).
    destruct (moved_spec (sc_in w) len (sc_src w) Hl) as (moved & E1 & E2 & E3 & E4 & E5).
    exists moved. cbn. subst moved. by split_and!.
  - intros len flags w e w' Hs. cbn in Hs. destruct (sc_in w) as [|[]]; by simplify_eq.
  - intros len flags w n w' Hs Hl. cbn in Hs.
    assert (Ok (Z.of_nat (amount (sc_out w) len (sc_pipe w))) = Ok (E := errno) n /\
      w' = mkScripted (sc_src w) (drop (amount (sc_out w) len (sc_pipe w)) (sc_pipe w))
        (sc_dst w ++ take (amount (sc_out w) len (sc_pipe w)) (sc_pipe w))
        (sc_in w) (tail (sc_out w))) as [[= <-] ->]
      by (destruct (sc_out w) as [|[]]; simplify_eq; done).
    destruct (moved_spec (sc_out w) len (sc_pipe w) Hl) as (moved & E1 & E2 & E3 & E4 & E5).
    exists moved. cbn. subst moved. by split_and!.
  - intros len flags w e w' Hs. cbn in Hs. destruct (sc_out w) as [|[]]; by simplify_eq.
  - intros w n err w' [= <- <- <-]. exists (sc_src w), []. cbn. by rewrite app_nil_r.
Qed.

Lemma interruptions_cons r l :
  (interruptions l <= interruptions (r :: l))%nat /\
  (r = Err EAGAIN \/ r = Err EINTR -> (interruptions l < interruptions (r :: l))%nat).
Proof.
  unfold interruptions. rewrite filter_cons. destruct r as [k|e]; case_decide; cbn; split;
    try lia; intros [?|?]; simplify_eq; done.
Qed.

#[export] Instance scripted_finite : FiniteRetries scripted.
Proof.
  split; intros len flags w r w' Hs; cbn -[interruptions] in Hs |- *.
  - destruct (sc_in w) as [|[k|e] l] eqn:Hi; simplify_eq; cbn -[interruptions]; rewrite ?Hi; cbn -[interruptions].
    + split; [lia|intros [?|?]; done].
    + pose proof (interruptions_cons (Ok k) l). split; [lia|intros [?|?]; done].
    + pose proof (interruptions_cons (Err e) l) as [? Hx]. split; [lia|].
      intros He. enough (interruptions l < interruptions (Err e :: l))%nat by lia.
      apply Hx. destruct He; simplify_eq; auto.
  - destruct (sc_out w) as [|[k|e] l] eqn:Hi; simplify_eq; cbn -[interruptions]; rewrite ?Hi; cbn -[interruptions].
    + split; [lia|intros [?|?]; done].
    + pose proof (interruptions_cons (Ok k) l). split; [lia|intros [?|?]; done].
    + pose proof (interruptions_cons (Err e) l) as [? Hx]. split; [lia|].
      intros He. enough (interruptions l < interruptions (Err e :: l))%nat by lia.
      apply Hx. destruct He; simplify_eq; auto.
Qed.

(** ** Examples and a loss *)

(** Interrupted reads and short writes on the way of five bytes. *)
Definition smooth : scripted :=
  mkScripted [1; 2; 3; 4; 5] [] [] [Err EINTR; Ok 3%nat; Err EAGAIN] [Ok 1%nat; Err EAGAIN; Ok 1%nat].

Lemma Copy_delivers_witness :
  exists moved w', Copy 20 true None None None (NewDefaultZeroCopier 0) smooth
      = Some ((5, None), w') /\ sc_dst w' = moved /\ moved = [1; 2; 3; 4; 5].
Proof.
  assert (exists w', Copy 20 true None None None (NewDefaultZeroCopier 0) smooth
      = Some ((5, None), w')) as [w' Hc] by (eexists; vm_compute; reflexivity).
  assert (sc_src w' = []) as Hnil by (vm_compute in Hc; by simplify_eq).
  destruct (Copy_delivers 20 true None None None (NewDefaultZeroCopier 0) smooth 5 w')
    as (moved & Hm & Hd & _).
  - intros k e v Hv. vm_compute in Hv. discriminate Hv.
  - reflexivity.
  - reflexivity.
  - reflexivity.
  - exact Hc.
  - exists moved, w'. split; [exact Hc|]. cbn in Hm, Hd. rewrite Hnil, app_nil_r in Hm. auto.
Defined.

(** A write error after two of three bytes is reported with the count 2. *)
Lemma TrySplice_reports_witness :
  exists w', TrySplice 9 None 3 false
      (mkScripted [1; 2; 3; 4] [] [] [] [Ok 2%nat; Err EPIPE]) = Some ((2, Some (Errno EPIPE)), w') /\
    exists moved, [1; 2; 3; 4] = moved ++ sc_pipe w' ++ sc_src w' /\ sc_dst w' = moved.
Proof.
  eexists. split; [vm_compute; reflexivity|].
  edestruct (TrySplice_reports 9 None 3 false (mkScripted [1; 2; 3; 4] [] [] [] [Ok 2%nat; Err EPIPE]))
    as (moved & Hm & Hd & _).
  - reflexivity.
  - reflexivity.
  - vm_compute. reflexivity.
  - exists moved. split; [exact Hm|exact Hd].
Defined.

Lemma spliceCopy_terminates_witness :
  exists r, spliceCopy 9 None (bufferSize (NewDefaultZeroCopier 0)) smooth = Some r.
Proof.
  apply (spliceCopy_terminates 9 None (NewDefaultZeroCopier 0) smooth).
  - reflexivity.
  - reflexivity.
  - vm_compute. lia.
Defined.

(** The destination takes two of three bytes and then fails once. *)
Definition broken : scripted :=
  mkScripted [1; 2; 3; 4; 5] [] [] [Ok 3%nat] [Ok 2%nat; Err EPIPE].

(** A splice to the destination that fails after a partial transfer makes Copy lose data
    silently: the bytes left in the pipe are dropped, the fallback io.Copy continues
    behind them, and Copy returns the fallback's count with a nil error (on five source
    bytes with one failing write the destination gets bytes 1, 2, 4, 5 and the count is
    2). *)
Theorem Copy_can_lose :
  exists w', Copy 20 true None None None (NewDefaultZeroCopier 0) broken = Some ((2, None), w') /\
    sc_src w' = [] /\ sc_dst w' = [1; 2; 4; 5].
Proof. eexists. vm_compute. split; [reflexivity|]. split; reflexivity. Qed.

(** The flag for non-blocking calls is set exactly when asked for, the flags of the copy
    always. *)
Theorem SetupSpliceFlags_bits nonBlocking :
  Z.testbit (SetupSpliceFlags nonBlocking) 1 = nonBlocking /\
  Z.land (SetupSpliceFlags nonBlocking) copy_flags = copy_flags.
Proof. by destruct nonBlocking. Qed.
