(* ===== verification/Bidirectional.v ===== *)
(** * Copying in both directions (src/pkg/proxy/zerocopy.go, zerocopy_linux.go)

    [BidirectionalCopy] and [OptimizedBidirectionalCopy]: two goroutines copy, the first
    one that ends closes both connections, and the call waits for the other one.  A mode
    says how a goroutine copies.  [Splicing]: the zero copier on two TCP connections, with
    the steps of [tcpSplice] and [spliceCopy]: a splice into the pipe, splices out of it,
    a read error that is reported as success once something was copied, and the fallback
    to [io.Copy], behind what the pipe still held.  It splices duplicates of the
    descriptors, which [Close] on a connection neither closes nor wakes.  [Plain]: the zero
    copier on other connections, which is [io.Copy].  [Pooled]: [io.CopyBuffer] with a
    borrowed buffer.  The network decides when bytes move and when calls fail; calls that
    are interrupted are repeated and leave no trace. *)

From S2P Require Import Prelude ZeroCopy.

(** ** State *)

Inductive copy_err := NetErr (e : errno) | ErrNetClosed.

Inductive copy_mode := Splicing (size : nat) | Plain | Pooled.

(** A goroutine: before it copies; before a splice from the source, with the bytes of
    finished rounds; moving the [n] bytes of a round from the pipe to the destination; in
    [io.Copy] or [io.CopyBuffer]; [Copy] has returned; the result is sent, before the
    deferred [Put]; gone.  The result is kept for the statements below. *)
Inductive copy_pc :=
| GStart
| GSplice (total : Z)
| GDrain (total : Z) (n : nat)
| GCopying
| GReturned (err : option copy_err)
| GSent (err : option copy_err)
| GGone (err : option copy_err).

(** The caller: waiting for a result; before [conn1.Close]; before [conn2.Close]; waiting
    for the other result; returned. *)
Inductive main_pc :=
| MFirst
| MClose1 (err : option copy_err)
| MClose2 (err : option copy_err)
| MSecond (err : option copy_err)
| MRet (err : option copy_err).

(** One direction: what the source still delivers, whether its peer ends the stream after
    that, what is in the pipe, what reached the destination, where the goroutine stands;
    and, as a history, whether a splice to the destination failed and whether a failed
    splice from the source was reported as success. *)
Record direction := mkDirection {
  d_in : list byte;
  d_eof : bool;
  d_pipe : list byte;
  d_out : list byte;
  d_pc : copy_pc;
  d_wfail : bool;
  d_rfail : bool
}.
#[export] Instance eta_direction : Eta direction := fun d =>
  mkDirection (d_in d) (d_eof d) (d_pipe d) (d_out d) (d_pc d) (d_wfail d) (d_rfail d).

(** [to1]: conn2 to conn1; [to2]: conn1 to conn2.  [borrowed]: buffers taken from the pool;
    [sent]: which goroutine has sent what, in order (a history, the code does not read it). *)
Record bidi := mkBidi {
  to1 : direction;
  to2 : direction;
  open1 : bool;
  open2 : bool;
  errChan : list (option copy_err);
  caller : main_pc;
  borrowed : Z;
  sent : list (bool * option copy_err)
}.
#[export] Instance eta_bidi : Eta bidi := fun s =>
  mkBidi (to1 s) (to2 s) (open1 s) (open2 s) (errChan s) (caller s) (borrowed s) (sent s).

Definition dir (which : bool) (s : bidi) : direction := if which then to1 s else to2 s.
Definition set_dir (which : bool) (d : direction) (s : bidi) : bidi :=
  if which then s <| to1 := d |> else s <| to2 := d |>.

(** The two streams before anything was copied; [eof1] tells whether the client of
    [conn1] ends its stream, [eof2] the same of [conn2]. *)
Definition bidi_start (in1 in2 : list byte) (eof1 eof2 : bool) : bidi :=
  mkBidi (mkDirection in2 eof2 [] [] GStart false false) (mkDirection in1 eof1 [] [] GStart false false)
    true true [] MFirst 0 [].

(** ** Steps *)

(** [BFallback]: the descriptors, the pipe or splice are not to be had.  [BMove]: bytes
    move; [BEof]: the end of the source; [BFail]: a call fails, and [io.Copy] loses what it
    has read and not written; [BClosed]: a call finds its connection closed. *)
Inductive bidi_action :=
| BStart (which : bool)
| BFallback (which : bool)
| BMove (which : bool) (n : nat)
| BEof (which : bool)
| BFail (which : bool) (e : errno) (lost : nat)
| BClosed (which : bool)
| BSend (which : bool)
| BPut (which : bool)
| BCaller.
#[export] Instance bidi_action_eq_dec : EqDecision bidi_action.
Proof. solve_decision. Defined.

Definition which_of (a : bidi_action) : bool :=
  match a with
  | BStart w | BFallback w | BMove w _ | BEof w | BFail w _ _ | BClosed w | BSend w | BPut w => w
  | BCaller => true
  end.

(** [Copy] on its connections; [both_open]: neither was closed. *)
Definition copier_step (mode : copy_mode) (both_open : bool) (a : bidi_action) (d : direction) : option direction :=
  match d_pc d, a with
  | GStart, BStart _ =>
      match mode with
      | Splicing _ => if both_open then Some (d <| d_pc := GSplice 0 |>) else None
      | Plain | Pooled => Some (d <| d_pc := GCopying |>)
      end
  | GStart, BFallback _ =>
      match mode with Splicing _ => Some (d <| d_pc := GCopying |>) | Plain | Pooled => None end
  | GSplice total, BMove _ n =>
      match mode with
      | Splicing size =>
          if (0 <? n)%nat && (n <=? size)%nat && (n <=? length (d_in d))%nat
          then Some (d <| d_in := drop n (d_in d) |> <| d_pipe := take n (d_in d) |> <| d_pc := GDrain total n |>)
          else None
      | Plain | Pooled => None
      end
  | GSplice total, BEof _ =>
      if d_eof d && (length (d_in d) =? 0)%nat then Some (d <| d_pc := GReturned None |>) else None
  | GSplice total, BFail _ _ _ =>
      if 0 <? total then Some (d <| d_pc := GReturned None |> <| d_rfail := true |>)
      else Some (d <| d_pc := GCopying |>)
  | GDrain total n, BMove _ k =>
      if (0 <? k)%nat && (k <=? length (d_pipe d))%nat
      then Some (d <| d_pipe := drop k (d_pipe d) |> <| d_out := d_out d ++ take k (d_pipe d) |>
                   <| d_pc := if (k =? length (d_pipe d))%nat then GSplice (i64 (total + Z.of_nat n))
                              else GDrain total n |>)
      else None
  | GDrain total n, BFail _ _ _ => Some (d <| d_pipe := [] |> <| d_pc := GCopying |> <| d_wfail := true |>)
  | GCopying, BMove _ n =>
      if both_open && (0 <? n)%nat && (n <=? length (d_in d))%nat
      then Some (d <| d_in := drop n (d_in d) |> <| d_out := d_out d ++ take n (d_in d) |>)
      else None
  | GCopying, BEof _ =>
      if both_open && d_eof d && (length (d_in d) =? 0)%nat then Some (d <| d_pc := GReturned None |>) else None
  | GCopying, BFail _ e lost =>
      Some (d <| d_in := drop lost (d_in d) |> <| d_pc := GReturned (Some (NetErr e)) |>)
  | GCopying, BClosed _ => if both_open then None else Some (d <| d_pc := GReturned (Some ErrNetClosed) |>)
  | _, _ => None
  end.

(** Only without a copier a buffer is taken from the pool, and put back at the end. *)
Definition pool_use (mode : copy_mode) (a : bidi_action) : Z :=
  match mode, a with Pooled, BStart _ => 1 | Pooled, BPut _ => -1 | _, _ => 0 end.

(** The goroutine [copy]. *)
Definition copy_step (mode : copy_mode) (a : bidi_action) (s : bidi) : option bidi :=
  let w := which_of a in
  match a with
  | BCaller => None
  | BSend _ =>
      match d_pc (dir w s) with
      | GReturned err =>
          if (length (errChan s) <? 2)%nat
          then Some (set_dir w (dir w s <| d_pc := GSent err |>) s <| errChan := errChan s ++ [err] |>
                  <| sent := sent s ++ [(w, err)] |>)
          else None
      | _ => None
      end
  | BPut _ =>
      match d_pc (dir w s) with
      | GSent err =>
          Some (set_dir w (dir w s <| d_pc := GGone err |>) (s <| borrowed := borrowed s + pool_use mode a |>))
      | _ => None
      end
  | _ =>
      d ← copier_step mode (open1 s && open2 s) a (dir w s);
      Some (set_dir w d (s <| borrowed := borrowed s + pool_use mode a |>))
  end.

(** The caller after it has started both goroutines. *)
Definition caller_step (s : bidi) : option bidi :=
  match caller s with
  | MFirst =>
      match errChan s with
      | err :: rest => Some (s <| errChan := rest |> <| caller := MClose1 err |>)
      | [] => None
      end
  | MClose1 err => Some (s <| open1 := false |> <| caller := MClose2 err |>)
  | MClose2 err => Some (s <| open2 := false |> <| caller := MSecond err |>)
  | MSecond err =>
      match errChan s with
      | _ :: rest => Some (s <| errChan := rest |> <| caller := MRet err |>)
      | [] => None
      end
  | MRet _ => None
  end.

Definition brun1 (mode : copy_mode) (a : bidi_action) (s : bidi) : option bidi :=
  match a with
  | BCaller => caller_step s
  | _ => copy_step mode a s
  end.

Definition bstep (mode : copy_mode) (s s' : bidi) : Prop := exists a, brun1 mode a s = Some s'.

Fixpoint brun (mode : copy_mode) (l : list bidi_action) (s : bidi) : option bidi :=
  match l with
  | [] => Some s
  | a :: l => s ← brun1 mode a s; brun mode l s
  end.

Lemma brun_reaches mode l s s' : brun mode l s = Some s' -> rtc (bstep mode) s s'.
Proof.
  revert s. induction l as [|a l IH]; intros s Hr; cbn in Hr; [by simplify_eq|].
  destruct (brun1 mode a s) as [s1|] eqn:Ha; [|done]. eapply rtc_l; [by exists a|by apply IH].
Qed.

(** ** Results *)

Definition finished (pc : copy_pc) : option (option copy_err) :=
  match pc with GSent err | GGone err => Some err | _ => None end.

(** The results that were sent are in the channel, after those the caller has taken. *)
Definition channel_ok (s : bidi) : Prop :=
  match caller s with
  | MFirst => (sent s).*2 = errChan s
  | MClose1 err | MClose2 err | MSecond err => (sent s).*2 = err :: errChan s
  | MRet err => errChan s = [] /\ exists err', (sent s).*2 = [err; err']
  end.

Record log_inv (s : bidi) : Prop := {
  lg_once : NoDup ((sent s).*1);
  lg_results w err : (w, err) ∈ sent s <-> finished (d_pc (dir w s)) = Some err;
  lg_channel : channel_ok s;
  lg_open : open1 s = match caller s with MFirst | MClose1 _ => true | _ => false end /\
            open2 s = match caller s with MFirst | MClose1 _ | MClose2 _ => true | _ => false end
}.

Lemma dir_set w w' d s : dir w (set_dir w' d s) = if Bool.eqb w w' then d else dir w s.
Proof. by destruct w, w', s. Qed.

Lemma dir_other w s bo : dir w (s <| borrowed := bo |>) = dir w s.
Proof. by destruct w, s. Qed.

(** A step of a goroutine before it sends, or after. *)
Lemma log_set w d s bo :
  log_inv s -> finished (d_pc d) = finished (d_pc (dir w s)) ->
  log_inv (set_dir w d (s <| borrowed := bo |>)).
Proof.
  intros [H1 H2 H3 H4] Hd. split.
  - by destruct w, s.
  - intros w' err. rewrite dir_set, dir_other.
    assert (sent (set_dir w d (s <| borrowed := bo |>)) = sent s) as -> by (by destruct w, s).
    rewrite H2. destruct w, w'; cbn in *; by rewrite ?Hd.
  - by destruct w, s.
  - by destruct w, s.
Qed.

Lemma borrowed_id s : s <| borrowed := borrowed s |> = s.
Proof. by destruct s. Qed.

Lemma log_set0 w d s :
  log_inv s -> finished (d_pc d) = finished (d_pc (dir w s)) -> log_inv (set_dir w d s).
Proof. intros. rewrite <- (borrowed_id s). by apply log_set. Qed.

(** A goroutine that has not sent is not in the history, so the channel has room. *)
Lemma unsent s w : log_inv s -> finished (d_pc (dir w s)) = None -> w ∉ (sent s).*1.
Proof.
  intros Hl Hf ([w' err] & -> & Hin)%list_elem_of_fmap. apply (lg_results s Hl) in Hin. cbn in Hf. congruence.
Qed.

Lemma two_bools (l : list bool) w : NoDup l -> w ∉ l -> (length l < 2)%nat.
Proof.
  intros Hnd Hw. destruct l as [|x [|y l]]; cbn; [lia..|]. exfalso.
  apply NoDup_cons in Hnd as [Hx _]. destruct w, x, y; set_solver.
Qed.

Lemma channel_room s w : log_inv s -> finished (d_pc (dir w s)) = None -> (length (errChan s) < 2)%nat.
Proof.
  intros Hl Hf. pose proof (two_bools _ w (lg_once s Hl) (unsent s w Hl Hf)) as Hn.
  rewrite length_fmap in Hn. pose proof (lg_channel s Hl) as Hc. unfold channel_ok in Hc.
  destruct (caller s).
  1: rewrite <- Hc, length_fmap; done.
  1-3: apply (f_equal length) in Hc; rewrite length_fmap in Hc; cbn in Hc; lia.
  destruct Hc as [-> _]. cbn. lia.
Qed.

Lemma log_send w err s :
  log_inv s -> d_pc (dir w s) = GReturned err ->
  log_inv (set_dir w (dir w s <| d_pc := GSent err |>) s <| errChan := errChan s ++ [err] |>
             <| sent := sent s ++ [(w, err)] |>).
Proof.
  intros Hl Hpc. assert (finished (d_pc (dir w s)) = None) as Hf by (by rewrite Hpc).
  pose proof (unsent s w Hl Hf) as Hun. pose proof (two_bools _ w (lg_once s Hl) Hun) as Hlen.
  rewrite length_fmap in Hlen. destruct Hl as [H1 H2 H3 H4].
  set (s' := set_dir w (dir w s <| d_pc := GSent err |>) s <| errChan := errChan s ++ [err] |>
             <| sent := sent s ++ [(w, err)] |>).
  assert (sent s' = sent s ++ [(w, err)] /\ errChan s' = errChan s ++ [err] /\ caller s' = caller s /\
    open1 s' = open1 s /\ open2 s' = open2 s /\
    forall w', dir w' s' = if Bool.eqb w' w then dir w s <| d_pc := GSent err |> else dir w' s)
    as (E1 & E2 & E3 & E4 & E5 & E6).
  { subst s'. destruct s, w; split_and!; try done; by intros []. }
  clearbody s'. split.
  - rewrite E1, fmap_app, NoDup_app. split_and!; [done| |by apply NoDup_singleton].
    intros x Hx Hx'. cbn in Hx'. apply list_elem_of_singleton in Hx' as ->. done.
  - intros w' err'. rewrite E1, E6, elem_of_app, list_elem_of_singleton, H2.
    destruct (Bool.eqb w' w) eqn:Hw.
    + apply Bool.eqb_prop in Hw as ->. rewrite Hf. destruct (dir w s); cbn. naive_solver.
    + apply Bool.eqb_false_iff in Hw. naive_solver.
  - unfold channel_ok in *. rewrite E1, E2, E3, fmap_app. destruct (caller s); cbn.
    1-4: by rewrite H3.
    exfalso. destruct H3 as [_ [err' Hs]]. apply (f_equal length) in Hs. rewrite length_fmap in Hs.
    cbn in Hs. lia.
  - by rewrite E3, E4, E5.
Qed.

Lemma log_caller s s' : log_inv s -> caller_step s = Some s' -> log_inv s'.
Proof.
  intros [H1 H2 H3 [H4 H5]] Hs. unfold caller_step in Hs. unfold channel_ok in H3.
  assert (forall w, dir w s' = dir w s) as Hd.
  { intros w. destruct s as [? ? ? ? ch ca ? ?]. cbn in Hs. destruct ca, ch; by simplify_eq. }
  assert (sent s' = sent s) as Hsent.
  { destruct s as [? ? ? ? ch ca ? ?]. cbn in Hs. destruct ca, ch; by simplify_eq. }
  split; [by rewrite Hsent|intros w err; by rewrite Hsent, Hd| |].
  all: destruct s as [d1 d2 o1 o2 ch ca bo se]; cbn in *; clear Hd Hsent; destruct ca; cbn in *;
    [destruct ch as [|x ch]|..|destruct ch as [|x ch]|]; simplify_eq/=; unfold channel_ok; cbn; try done.
  destruct ch as [|y ch]; [split; [done|by exists x]|].
  exfalso. destruct se as [|[w0 ?] [|[w1 ?] [|[w2 ?] se]]]; simplify_eq/=.
  rewrite !NoDup_cons in H1. destruct w0, w1, w2; set_solver.
Qed.

(** What a step of a goroutine is. *)
Lemma copy_step_inv mode a s s' :
  copy_step mode a s = Some s' -> let w := which_of a in
  (exists d, copier_step mode (open1 s && open2 s) a (dir w s) = Some d /\
     s' = set_dir w d (s <| borrowed := borrowed s + pool_use mode a |>)) \/
  (exists err, a = BSend w /\ d_pc (dir w s) = GReturned err /\
     s' = set_dir w (dir w s <| d_pc := GSent err |>) s <| errChan := errChan s ++ [err] |>
            <| sent := sent s ++ [(w, err)] |>) \/
  (exists err, a = BPut w /\ d_pc (dir w s) = GSent err /\
     s' = set_dir w (dir w s <| d_pc := GGone err |>) (s <| borrowed := borrowed s + pool_use mode a |>)).
Proof.
  intros Hs w. destruct a as [v|v|v n|v|v e k|v|v|v|]; cbn -[copier_step pool_use] in Hs; try done.
  7: { right; left. destruct (d_pc (dir v s)) as [| | | |err|err|err] eqn:Hpc; try done. case_match; simplify_eq. by exists err. }
  7: { right; right. destruct (d_pc (dir v s)) as [| | | |err|err|err] eqn:Hpc; try done. simplify_eq. by exists err. }
  all: left; destruct (copier_step mode _ _ (dir v s)) as [d|] eqn:Hd; [|done]; cbn -[pool_use] in Hs; simplify_eq; by exists d.
Qed.

(** A step of [Copy] is no result yet. *)
Lemma copier_unfinished mode op a d d' :
  copier_step mode op a d = Some d' -> finished (d_pc d) = None /\ finished (d_pc d') = None.
Proof.
  destruct d as [i eo pi o pc wf rf]. unfold copier_step. cbn.
  destruct pc, a; try done; intros H; repeat (case_match; try done); by simplify_eq/=.
Qed.

Lemma log_step mode a s s' : log_inv s -> brun1 mode a s = Some s' -> log_inv s'.
Proof.
  intros Hl Hs. destruct (decide (a = BCaller)) as [->|Hne]; [by eapply log_caller|].
  assert (copy_step mode a s = Some s') as Hc by (by destruct a). clear Hs.
  destruct (copy_step_inv _ _ _ _ Hc) as [(d & Hd & ->)|[(err & _ & Hpc & ->)|(err & _ & Hpc & ->)]].
  - apply copier_unfinished in Hd as [H1 H2]. apply log_set; [done|]. by rewrite H1, H2.
  - by apply log_send.
  - apply log_set; [done|]. by rewrite Hpc.
Qed.

#[local] Arguments Nat.leb : simpl never.
#[local] Arguments Nat.ltb : simpl never.
#[local] Arguments Nat.eqb : simpl never.

(** ** What is delivered *)

Definition ended (pc : copy_pc) : option (option copy_err) :=
  match pc with GReturned err | GSent err | GGone err => Some err | _ => None end.

(** The most that is in the pipe. *)
Definition pipe_size (mode : copy_mode) : nat := match mode with Splicing size => size | Plain | Pooled => 0%nat end.

(** What reached the destination is the beginning of the stream [full] but for a gap, what
    was in the pipe when a splice to the destination failed.  Bytes behind it are lost only
    by a failing copy, and a copy without error delivered all of the rest, unless a failed
    splice from the source was taken for the end. *)
Definition stream_ok (mode : copy_mode) (full : list byte) (d : direction) : Prop :=
  exists a gap b lost, full = a ++ gap ++ b ++ lost ++ d_pipe d ++ d_in d /\ d_out d = a ++ b /\
    (length gap <= pipe_size mode)%nat /\ (gap <> [] -> d_wfail d = true) /\
    match d_pc d with
    | GStart | GSplice _ => gap = [] /\ b = [] /\ lost = [] /\ d_pipe d = []
    | GDrain _ _ => gap = [] /\ b = [] /\ lost = [] /\ (length (d_pipe d) <= pipe_size mode)%nat
    | GCopying => lost = [] /\ d_pipe d = []
    | GReturned (Some _) | GSent (Some _) | GGone (Some _) => d_pipe d = []
    | GReturned None | GSent None | GGone None =>
        lost = [] /\ d_pipe d = [] /\ (d_in d = [] \/ d_rfail d = true)
    end.

(** Without splicing nothing of it happens. *)
Definition mode_ok (mode : copy_mode) (d : direction) : Prop :=
  match mode with
  | Splicing _ => True
  | Plain | Pooled =>
      d_wfail d = false /\ d_rfail d = false /\ match d_pc d with GSplice _ | GDrain _ _ => False | _ => True end
  end.

Lemma copier_stream mode op a d d' full :
  copier_step mode op a d = Some d' -> stream_ok mode full d -> stream_ok mode full d'.
Proof.
  intros Hs (x & gap & y & lost & Hfull & Hout & Hlen & Hw & Hpc).
  destruct d as [i eo pi o pc wf rf]. unfold copier_step in Hs. cbn in *.
  destruct pc as [|total|total n| |err|err|err], a as [w|w|w k|w|w e k|w|w|w|]; try done; cbn in *;
    repeat (case_match; try done); simplify_eq/=; unfold stream_ok; cbn.
  1-4: destruct Hpc as (-> & -> & -> & ->); exists x, [], [], []; by split_and!.
  - destruct Hpc as (-> & -> & -> & ->). exists x, [], [], []. cbn. rewrite take_drop, length_take.
    rewrite !andb_true_iff, !Nat.leb_le in *. split_and!; done || lia.
  - destruct Hpc as (-> & -> & -> & ->). exists x, [], [], []. rewrite andb_true_iff, Nat.eqb_eq in *.
    split_and!; try done. left. apply nil_length_inv. tauto.
  - destruct Hpc as (-> & -> & -> & ->). exists x, [], [], []. split_and!; try done. by right.
  - destruct Hpc as (-> & -> & -> & ->). exists x, [], [], []. by split_and!.
  - destruct Hpc as (-> & -> & -> & Hpi). exists (x ++ take k pi), [], [], []. rewrite !app_nil_r. cbn.
    rewrite <- app_assoc, (assoc_L (++) (take _ _)), take_drop. split_and!; try done.
    rewrite Nat.eqb_eq in *. apply drop_ge. lia.
  - destruct Hpc as (-> & -> & -> & Hpi). exists (x ++ take k pi), [], [], []. rewrite !app_nil_r. cbn.
    rewrite <- app_assoc, (assoc_L (++) (take _ _)), take_drop, length_drop. split_and!; try done. lia.
  - destruct Hpc as (-> & -> & -> & Hpi). exists x, pi, [], []. by split_and!.
  - destruct Hpc as (-> & ->). exists x, gap, (y ++ take k i), []. cbn. rewrite <- !app_assoc, take_drop. by split_and!.
  - destruct Hpc as (-> & ->). exists x, gap, y, []. rewrite !andb_true_iff, Nat.eqb_eq in *.
    split_and!; try done. left. apply nil_length_inv. tauto.
  - destruct Hpc as (-> & ->). exists x, gap, y, (take k i). cbn. rewrite take_drop. by split_and!.
  - destruct Hpc as (-> & ->). exists x, gap, y, []. by split_and!.
Qed.

Lemma copier_mode mode op a d d' : copier_step mode op a d = Some d' -> mode_ok mode d -> mode_ok mode d'.
Proof.
  destruct mode; [done|..]; destruct d as [i eo pi o pc wf rf]; unfold copier_step, mode_ok; cbn;
    intros Hs (-> & -> & Hpc); destruct pc, a; try done; repeat (case_match; try done); by simplify_eq/=.
Qed.

(** A goroutine that is done copying leaves its direction alone. *)
Lemma done_same mode full d pc :
  ended pc = ended (d_pc d) -> ended pc <> None -> stream_ok mode full d -> mode_ok mode d ->
  stream_ok mode full (d <| d_pc := pc |>) /\ mode_ok mode (d <| d_pc := pc |>).
Proof.
  intros He Hn (x & gap & y & lost & H1 & H2 & H3 & H4 & H5) Hm. destruct d as [i eo pi o pc0 wf rf]. cbn in *. split.
  - exists x, gap, y, lost. cbn. split_and!; try done. by destruct pc0, pc; simplify_eq/=.
  - unfold mode_ok in *. destruct mode; [done|..]; cbn in *; split_and!; try apply Hm; by destruct pc.
Qed.

Lemma caller_same s s' w : caller_step s = Some s' -> dir w s' = dir w s.
Proof.
  unfold caller_step. destruct s as [d1 d2 o1 o2 ch ca bo se]. cbn. intros Hs.
  destruct ca, ch; simplify_eq/=; by destruct w.
Qed.

Lemma copy_step_other mode a s s' w : copy_step mode a s = Some s' -> w <> which_of a -> dir w s' = dir w s.
Proof.
  intros Hc Hw. destruct (copy_step_inv _ _ _ _ Hc) as [(d & _ & ->)|[(err & _ & _ & ->)|(err & _ & _ & ->)]];
    by destruct w, (which_of a), s.
Qed.

Lemma stream_step mode a s s' w full :
  brun1 mode a s = Some s' -> stream_ok mode full (dir w s) /\ mode_ok mode (dir w s) ->
  stream_ok mode full (dir w s') /\ mode_ok mode (dir w s').
Proof.
  intros Hs Hst. destruct (decide (a = BCaller)) as [->|Hne].
  { cbn in Hs. by rewrite (caller_same _ _ w Hs). }
  assert (copy_step mode a s = Some s') as Hc by (by destruct a). clear Hs.
  destruct (decide (w = which_of a)) as [->|Hw]; [|by rewrite (copy_step_other _ _ _ _ _ Hc Hw)].
  destruct (copy_step_inv _ _ _ _ Hc) as [(d & Hd & ->)|[(err & _ & Hpc & ->)|(err & _ & Hpc & ->)]].
  - rewrite dir_set, Bool.eqb_reflx. split; [eapply copier_stream|eapply copier_mode]; try apply Hst; exact Hd.
  - assert (dir (which_of a) (set_dir (which_of a) (dir (which_of a) s <| d_pc := GSent err |>) s
      <| errChan := errChan s ++ [err] |> <| sent := sent s ++ [(which_of a, err)] |>)
      = dir (which_of a) s <| d_pc := GSent err |>) as -> by (by destruct (which_of a), s).
    apply done_same; [by rewrite Hpc|done|apply Hst..].
  - rewrite dir_set, Bool.eqb_reflx. apply done_same; [by rewrite Hpc|done|apply Hst..].
Qed.

(** ** Borrowed buffers *)

Definition buffer (pc : copy_pc) : Z := match pc with GStart | GGone _ => 0 | _ => 1 end.

Definition borrow_inv (mode : copy_mode) (s : bidi) : Prop :=
  borrowed s = match mode with Pooled => buffer (d_pc (to1 s)) + buffer (d_pc (to2 s)) | _ => 0 end.

Lemma borrow_step mode a s s' : brun1 mode a s = Some s' -> borrow_inv mode s -> borrow_inv mode s'.
Proof.
  unfold borrow_inv. destruct s as [[i1 e1 q1 o1 p1 w1 r1] [i2 e2 q2 o2 p2 w2 r2] op1 op2 ch ca bo se]. cbn.
  intros Hs Hb. destruct a as [v|v|v n|v|v e k|v|v|v|]; cbn in Hs.
  9: { unfold caller_step in Hs. cbn in Hs. destruct ca, ch; by simplify_eq/=. }
  all: destruct v; cbn in Hs; [destruct p1|destruct p2]; try done; destruct mode; cbn in *; try done;
    repeat (case_match; try done); simplify_eq/=; lia.
Qed.

(** ** Everything together *)

Record bidi_inv (mode : copy_mode) (in1 in2 : list byte) (s : bidi) : Prop := {
  bi_log : log_inv s;
  bi_to1 : stream_ok mode in2 (dir true s) /\ mode_ok mode (dir true s);
  bi_to2 : stream_ok mode in1 (dir false s) /\ mode_ok mode (dir false s);
  bi_borrow : borrow_inv mode s
}.

Lemma bidi_inv_step mode in1 in2 a s s' :
  bidi_inv mode in1 in2 s -> brun1 mode a s = Some s' -> bidi_inv mode in1 in2 s'.
Proof.
  intros [H1 H2 H3 H4] Ha.
  split; [by eapply log_step|by eapply stream_step|by eapply stream_step|by eapply borrow_step].
Qed.

Lemma bidi_reach mode in1 in2 eof1 eof2 s :
  rtc (bstep mode) (bidi_start in1 in2 eof1 eof2) s -> bidi_inv mode in1 in2 s.
Proof.
  apply rtc_invariant.
  - intros s1 s2 [a Ha] Hi. by eapply bidi_inv_step.
  - split; [| | |by destruct mode].
    + split; try done; [constructor|]. intros w err. split; [by intros ?%elem_of_nil|]. by destruct w.
    + split; [exists [], [], [], []; cbn; split_and!; done || lia|by destruct mode].
    + split; [exists [], [], [], []; cbn; split_and!; done || lia|by destruct mode].
Qed.

(** ** The steps of the splice loops

    The loops of ZeroCopy.v, over any kernel, are runs of these steps. *)

Section loops.
Context {W : Type} {kernel : Kernel W} {laws : KernelLaws W}.

Definition dstep (size : nat) (d d' : direction) : Prop := exists a, copier_step (Splicing size) true a d = Some d'.

Lemma drain_runs size fuel n written w r w' eof total rf :
  drain_loop fuel n written w = Some (r, w') -> 0 <= written < n -> Z.of_nat (length (k_pipe w)) = n - written ->
  rtc (dstep size) (mkDirection (k_src w) eof (k_pipe w) (k_dst w) (GDrain total (Z.to_nat n)) false rf)
    (match r with
     | Ok m => mkDirection (k_src w') eof [] (k_dst w') (GSplice (i64 (total + m))) false rf
     | Err _ => mkDirection (k_src w') eof [] (k_dst w') GCopying true rf
     end) /\ (forall m, r = Ok m -> k_pipe w' = []).
Proof.
  revert written w. induction fuel as [|fuel IH]; intros written w Hd Hw Hl; [done|]. cbn in Hd.
  rewrite (proj2 (Z.ltb_lt written n)) in Hd by lia.
  destruct (splice_out (n - written) copy_flags w) as [[k|e] w1] eqn:Hs.
  - destruct (splice_out_ok _ _ _ _ _ Hs ltac:(lia)) as (moved & Hp & Hdst & Hsrc & Hk & Hle & Hz).
    assert (k <> 0). { intros ->. rewrite Hz in Hl by done. cbn in Hl. lia. }
    rewrite Hp, length_app in Hl.
    assert (dstep size (mkDirection (k_src w) eof (k_pipe w) (k_dst w) (GDrain total (Z.to_nat n)) false rf)
      (mkDirection (k_src w1) eof (k_pipe w1) (k_dst w1)
        (if decide (k_pipe w1 = []) then GSplice (i64 (total + n)) else GDrain total (Z.to_nat n)) false rf)) as Hst.
    { exists (BMove true (length moved)). unfold copier_step. cbn. rewrite Hp, Hdst, Hsrc, length_app.
      rewrite (proj2 (Nat.ltb_lt _ _)), (proj2 (Nat.leb_le _ _)) by lia. cbn.
      rewrite drop_app_length, take_app_length, Z2Nat.id by lia. case_decide as Hn.
      - rewrite Hn, (proj2 (Nat.eqb_eq _ _)) by (cbn; lia). done.
      - rewrite (proj2 (Nat.eqb_neq _ _)); [done|]. destruct (k_pipe w1); [done|]. cbn. lia. }
    case_decide as Hn.
    + rewrite Hn in Hl. cbn in Hl. destruct fuel as [|fuel]; [done|]. cbn in Hd.
      rewrite (proj2 (Z.ltb_ge (written + k) n)) in Hd by lia. injection Hd as <- <-.
      replace (written + k) with n by lia. rewrite Hn in Hst. split; [by apply rtc_once|done].
    + destruct (k_pipe w1) as [|x l] eqn:Ep; [done|]. cbn in Hl.
      destruct (IH (written + k) w1 Hd ltac:(lia) ltac:(rewrite Ep; cbn; lia)) as [H1 H2]. split; [|done].
      eapply rtc_l; [exact Hst|]. by rewrite Ep in H1.
  - destruct (splice_out_err _ _ _ _ _ Hs) as (Hsrc & Hp & Hdst). destruct (retried e) eqn:He.
    + destruct (IH written w1 Hd Hw ltac:(by rewrite Hp)) as [H1 H2]. split; [|done]. by rewrite Hsrc, Hp, Hdst in H1.
    + injection Hd as <- <-. split; [|done]. apply rtc_once. exists (BFail true e 0). cbn. by rewrite Hsrc, Hdst.
Qed.

(** Whatever [spliceCopy] does on a stream that ends, a goroutine of this file can do: it
    returns nil after the same bytes, or falls back to [io.Copy] behind the same bytes. *)
Theorem spliceCopy_runs fuel size w n err w' :
  0 < size -> k_pipe w = [] -> spliceCopy fuel None size w = Some ((n, err), w') ->
  exists wf rf, rtc (dstep (Z.to_nat size)) (mkDirection (k_src w) true [] (k_dst w) (GSplice 0) false false)
    (mkDirection (k_src w') true [] (k_dst w') (match err with None => GReturned None | Some _ => GCopying end) wf rf).
Proof.
  intros Hsize. unfold spliceCopy. generalize 0 as total. revert w. induction fuel as [|fuel IH]; intros w total Hp Hl; [done|].
  cbn -[drain_loop] in Hl. destruct (splice_in size copy_flags w) as [[k|e] w1] eqn:Hs.
  - destruct (splice_in_ok _ _ _ _ _ Hs Hsize) as (taken & Hsrc & Hp1 & Hd1 & Hk & Hle & H0).
    rewrite Hp in Hp1. cbn in Hp1. destruct (Z.eqb_spec k 0) as [Hz|Hnz].
    { injection Hl as <- <- <-. rewrite (H0 Hz) in *. symmetry in Hsrc. apply app_nil in Hsrc as [_ ->].
      exists false, false. apply rtc_once. exists (BEof true). cbn. by rewrite Hd1. }
    destruct (drain_loop (S fuel) k 0 w1) as [[r w2]|] eqn:Hdr; [|done].
    destruct (drain_runs (Z.to_nat size) _ _ _ _ _ _ true total false Hdr ltac:(lia) ltac:(rewrite Hp1; lia))
      as [Hrun Hpipe].
    assert (dstep (Z.to_nat size) (mkDirection (k_src w) true [] (k_dst w) (GSplice total) false false)
      (mkDirection (k_src w1) true (k_pipe w1) (k_dst w1) (GDrain total (Z.to_nat k)) false false)) as Hst.
    { exists (BMove true (length taken)). unfold copier_step. cbn. rewrite Hsrc, Hp1, Hd1, length_app.
      rewrite (proj2 (Nat.ltb_lt _ _)), !(proj2 (Nat.leb_le _ _)) by lia. cbn.
      rewrite drop_app_length, take_app_length, Hk, Nat2Z.id. done. }
    destruct r as [m|e].
    + destruct (IH w2 _ (Hpipe m eq_refl) Hl) as (wf & rf & Hrest). exists wf, rf.
      eapply rtc_l; [exact Hst|]. by etrans.
    + injection Hl as <- <- <-. exists true, false. by eapply rtc_l.
  - destruct (splice_in_err _ _ _ _ _ Hs) as (Hsrc & Hp1 & Hd1). rewrite <- Hsrc, <- Hd1.
    destruct (retried e) eqn:He; [by apply IH; congruence|]. destruct (0 <? total) eqn:Ht; simplify_eq.
    + exists false, true. apply rtc_once. exists (BFail true e 0). cbn. by rewrite Ht.
    + exists false, false. apply rtc_once. exists (BFail true e 0). cbn. by rewrite Ht.
Qed.
End loops.

(** [out] is the stream [full] without its end [rest] and without at most [n] consecutive
    bytes. *)
Definition arrived (n : nat) (full out rest : list byte) : Prop :=
  exists a gap b, full = a ++ gap ++ b ++ rest /\ out = a ++ b /\ (length gap <= n)%nat.

Lemma stream_arrived mode full d r :
  stream_ok mode full d -> finished (d_pc d) = Some r ->
  exists rest, arrived (if d_wfail d then pipe_size mode else 0) full (d_out d) rest /\
    (r = None -> d_rfail d = false -> rest = []).
Proof.
  intros (x & gap & y & lost & H1 & H2 & H3 & H4 & H5) Hf. exists (lost ++ d_pipe d ++ d_in d). split.
  - exists x, gap, y. split_and!; [done..|]. destruct (d_wfail d); [done|].
    destruct gap as [|g gap]; [done|]. by specialize (H4 ltac:(done)).
  - intros -> Hr. destruct (d_pc d); simplify_eq/=; destruct H5 as (-> & -> & [->|?]); done || congruence.
Qed.

(** The stream that a direction copies. *)
Definition stream_of (in1 in2 : list byte) (which : bool) : list byte := if which then in2 else in1.

(** C22: Whenever BidirectionalCopy or OptimizedBidirectionalCopy returns, under any
    interleaving of the two goroutines, the caller and the network, with the zero copier
    on TCP connections (splice loops and fallback), with io.Copy or with pooled buffers:
    both connections are closed, both goroutines have finished, the returned error is
    the result of the direction that finished first; each destination received its
    stream without some end and without at most one buffer in the middle, the latter
    only if a splice to that destination failed; and a direction that ended with nil
    delivered the stream to its end, unless a failed splice from its source was reported
    as success. Without splicing each destination received a prefix. *)
Theorem BidirectionalCopy_result (mode : copy_mode) (in1 in2 : list byte) (eof1 eof2 : bool) (s : bidi)
    (err : option copy_err) :
  rtc (bstep mode) (bidi_start in1 in2 eof1 eof2) s -> caller s = MRet err ->
  open1 s = false /\ open2 s = false /\
  (exists w err', sent s = [(w, err); (negb w, err')]) /\
  (forall v, exists r rest, (v, r) ∈ sent s /\ finished (d_pc (dir v s)) = Some r /\
    arrived (if d_wfail (dir v s) then pipe_size mode else 0) (stream_of in1 in2 v) (d_out (dir v s)) rest /\
    (r = None -> d_rfail (dir v s) = false -> rest = [])) /\
  (pipe_size mode = 0%nat -> forall v, exists rest, stream_of in1 in2 v = d_out (dir v s) ++ rest).
Proof.
  intros [[H1 H2 H3 [H4 H5]] S1 S2 _]%bidi_reach Hc.
  unfold channel_ok in H3. rewrite Hc in H3, H4, H5. destruct H3 as [_ [err' Hs]].
  destruct (sent s) as [|[w e1] [|[w' e2] [|]]] eqn:E; simplify_eq/=.
  assert (w' = negb w) as ->. { rewrite !NoDup_cons in H1. destruct w, w'; set_solver. }
  assert (forall v, stream_ok mode (stream_of in1 in2 v) (dir v s)) as Hst by (intros []; [apply S1|apply S2]).
  assert (forall v, exists r rest, (v, r) ∈ [(w, err); (negb w, err')] /\ finished (d_pc (dir v s)) = Some r /\
    arrived (if d_wfail (dir v s) then pipe_size mode else 0) (stream_of in1 in2 v) (d_out (dir v s)) rest /\
    (r = None -> d_rfail (dir v s) = false -> rest = [])) as Hall.
  { intros v. set (r := if Bool.eqb v w then err else err').
    assert ((v, r) ∈ [(w, err); (negb w, err')]) as Hin by (subst r; destruct v, w; cbn; set_solver).
    pose proof (proj1 (H2 v r) Hin) as Hf. destruct (stream_arrived _ _ _ _ (Hst v) Hf) as (rest & Ha & Hr).
    by exists r, rest. }
  split_and!; [done|done|by exists w, err'|done|].
  intros Hp v. destruct (Hall v) as (r & rest & _ & _ & (a & gap & b & -> & -> & Hg) & _). exists rest.
  rewrite Hp in Hg. assert (gap = []) as -> by (destruct gap, (d_wfail (dir v s)); cbn in Hg; done || lia).
  cbn. by rewrite (assoc_L (++)).
Qed.

(** ** Termination *)

(** The steps that need nothing from the network. *)
Definition own (a : bidi_action) : bool :=
  match a with BStart _ | BFallback _ | BClosed _ | BSend _ | BPut _ | BCaller => true | _ => false end.

(** Closing a connection ends the copy that uses it. *)
Definition interruptible (mode : copy_mode) : bool := match mode with Splicing _ => false | Plain | Pooled => true end.

Definition copy_left (pc : copy_pc) : nat :=
  match pc with
  | GStart => 4 | GSplice _ | GDrain _ _ | GCopying => 3 | GReturned _ => 2 | GSent _ => 1 | GGone _ => 0
  end.
Definition caller_left (pc : main_pc) : nat :=
  match pc with MFirst => 4 | MClose1 _ => 3 | MClose2 _ => 2 | MSecond _ => 1 | MRet _ => 0 end.

Definition steps_left (s : bidi) : nat :=
  copy_left (d_pc (to1 s)) + copy_left (d_pc (to2 s)) + caller_left (caller s).

(** A step of its own brings the end nearer. *)
Lemma steps_decrease mode a s s' :
  own a = true -> brun1 mode a s = Some s' -> S (steps_left s') = steps_left s.
Proof.
  destruct s as [[i1 e1 q1 o1 p1 w1 r1] [i2 e2 q2 o2 p2 w2 r2] op1 op2 ch ca bo se].
  intros Ho Hs. destruct a as [v|v|v n|v|v e k|v|v|v|]; try done; cbn in Hs; unfold steps_left; cbn.
  6: { unfold caller_step in Hs. cbn in Hs. destruct ca, ch; simplify_eq/=; lia. }
  all: destruct v; cbn in Hs; [destruct p1|destruct p2]; try done; destruct mode; cbn in *; try done;
    repeat (case_match; try done); simplify_eq/=; lia.
Qed.

(** A goroutine that has not sent can go on, if it has returned, or if a connection is
    closed and that ends its copy. *)
Lemma copy_progress mode s w :
  log_inv s -> mode_ok mode (dir w s) -> finished (d_pc (dir w s)) = None ->
  ended (d_pc (dir w s)) <> None \/ interruptible mode = true /\ open1 s && open2 s = false ->
  exists a s', own a = true /\ brun1 mode a s = Some s'.
Proof.
  intros Hl Hm Hf Hor. pose proof (channel_room s w Hl Hf) as Hroom.
  destruct (d_pc (dir w s)) as [|t|t n| |err|err|err] eqn:Hpc; try done.
  - destruct Hor as [|[Hint _]]; [done|]. exists (BStart w). eexists. split; [done|].
    unfold brun1, copy_step, copier_step. cbn. rewrite Hpc. by destruct mode.
  - destruct Hor as [|[Hint _]]; [done|]. unfold mode_ok in Hm. rewrite Hpc in Hm. destruct mode; naive_solver.
  - destruct Hor as [|[Hint _]]; [done|]. unfold mode_ok in Hm. rewrite Hpc in Hm. destruct mode; naive_solver.
  - destruct Hor as [|[_ Ho]]; [done|]. exists (BClosed w). eexists. split; [done|].
    unfold brun1, copy_step, copier_step. cbn. by rewrite Hpc, Ho.
  - exists (BSend w). eexists. split; [done|]. unfold brun1, copy_step. cbn. rewrite Hpc.
    by rewrite (proj2 (Nat.ltb_lt _ _) Hroom).
Qed.

(** A direction has ended, and closing the connections ends the other, or it has ended too. *)
Definition unblocked (mode : copy_mode) (w : bool) (s : bidi) : Prop :=
  ended (d_pc (dir w s)) <> None /\ (interruptible mode = true \/ ended (d_pc (dir (negb w) s)) <> None).

Lemma unblocked_or mode w s v :
  unblocked mode w s -> interruptible mode = true \/ ended (d_pc (dir v s)) <> None.
Proof. intros [H1 [H2|H2]]; [by left|right]. by destruct v, w. Qed.

Lemma own_progress mode in1 in2 s w :
  bidi_inv mode in1 in2 s -> unblocked mode w s -> steps_left s <> 0%nat ->
  exists a s', own a = true /\ brun1 mode a s = Some s'.
Proof.
  intros [Hl M1 M2 _] He Hn. pose proof (lg_channel s Hl) as Hc. unfold channel_ok in Hc.
  assert (forall v, mode_ok mode (dir v s)) as Hm by (intros []; [apply M1|apply M2]). clear M1 M2.
  destruct (caller s) as [|err|err|err|err] eqn:Hca.
  - destruct (finished (d_pc (dir w s))) as [err|] eqn:Hf; [|eapply copy_progress; eauto; left; apply He].
    apply (lg_results s Hl) in Hf. exists BCaller. cbn. unfold caller_step. rewrite Hca, <- Hc.
    destruct (sent s); [by apply elem_of_nil in Hf|]. eauto.
  - exists BCaller. cbn. unfold caller_step. rewrite Hca. eauto.
  - exists BCaller. cbn. unfold caller_step. rewrite Hca. eauto.
  - destruct (errChan s) as [|x ch] eqn:Hch.
    + assert (exists v, finished (d_pc (dir v s)) = None) as [v Hv].
      { destruct (sent s) as [|[v x] [|]] eqn:Hs; simplify_eq/=. exists (negb v).
        destruct (finished (d_pc (dir (negb v) s))) as [y|] eqn:Hy; [|done].
        apply (lg_results s Hl) in Hy. rewrite Hs in Hy. destruct v; set_solver. }
      apply (copy_progress mode s v Hl (Hm v) Hv). destruct (lg_open s Hl) as [Ho _].
      destruct (unblocked_or _ _ _ v He); [right|by left]. split; [done|]. by rewrite Ho, Hca.
    + exists BCaller. cbn. unfold caller_step. rewrite Hca, Hch. eauto.
  - destruct Hc as [_ [err' Hs]].
    assert (forall v, exists y, finished (d_pc (dir v s)) = Some y) as Hfin.
    { intros v. destruct (sent s) as [|[v1 x1] [|[v2 x2] [|]]] eqn:Es; simplify_eq/=.
      pose proof (lg_once s Hl) as Hnd. rewrite Es in Hnd. cbn in Hnd. rewrite !NoDup_cons in Hnd.
      assert (v = v1 \/ v = v2) as [-> | ->] by (destruct v, v1, v2; set_solver);
        [exists err|exists err']; apply (lg_results s Hl); rewrite Es; set_solver. }
    assert (exists v, copy_left (d_pc (dir v s)) <> 0%nat) as [v Hv].
    { unfold steps_left in Hn. rewrite Hca in Hn. cbn in Hn.
      destruct (decide (copy_left (d_pc (to1 s)) = 0%nat)); [exists false|exists true]; cbn; lia. }
    destruct (Hfin v) as [y Hy]. exists (BPut v). destruct (d_pc (dir v s)) eqn:Hpc; simplify_eq/=.
    rewrite Hpc. eauto.
Qed.

Lemma ended_step mode a s s' w :
  brun1 mode a s = Some s' -> ended (d_pc (dir w s)) <> None -> ended (d_pc (dir w s')) <> None.
Proof.
  intros Hs He. destruct (decide (a = BCaller)) as [->|Hne].
  { cbn in Hs. by rewrite (caller_same _ _ w Hs). }
  assert (copy_step mode a s = Some s') as Hc by (by destruct a). clear Hs.
  destruct (decide (w = which_of a)) as [->|Hw]; [|by rewrite (copy_step_other _ _ _ _ _ Hc Hw)].
  destruct (copy_step_inv _ _ _ _ Hc) as [(d & Hd & ->)|[(err & _ & Hpc & ->)|(err & _ & Hpc & ->)]].
  - exfalso. apply He. destruct (dir (which_of a) s) as [i eo pi o pc wf rf]. unfold copier_step in Hd. cbn in *.
    by destruct pc, a.
  - by destruct (which_of a), s.
  - by destruct (which_of a), s.
Qed.

(** Going on for as many steps as are left. *)
Lemma own_run mode in1 in2 w n s :
  bidi_inv mode in1 in2 s -> unblocked mode w s -> steps_left s = n ->
  exists l s', Forall (fun a => own a = true) l /\ length l = n /\ brun mode l s = Some s' /\
    steps_left s' = 0%nat /\ bidi_inv mode in1 in2 s'.
Proof.
  revert s. induction n as [|n IH]; intros s Hi He Hn; [by exists [], s|].
  destruct (own_progress mode in1 in2 s w Hi He ltac:(lia)) as (a & s1 & Ho & Ha).
  pose proof (steps_decrease _ _ _ _ Ho Ha) as Hd.
  destruct (IH s1) as (l & s' & Hl & Hlen & Hrun & Hrest); [by eapply bidi_inv_step| |lia|].
  { destruct He as [H1 H2]. split; [by eapply ended_step|]. destruct H2; [by left|right; by eapply ended_step]. }
  exists (a :: l), s'. split_and!; [by constructor|cbn; lia|cbn; by rewrite Ha|apply Hrest..].
Qed.


(** ** A peer that stays silent

    The zero copier on TCP connections: the client of [conn1] has ended its stream, both
    connections are closed, and the goroutine that splices the silent [conn2] is in the
    kernel, on its duplicate of the descriptor. *)
Definition silent_run : list bidi_action :=
  [BStart true; BStart false; BEof false; BSend false; BPut false; BCaller; BCaller; BCaller].

Definition silent : bidi :=
  mkBidi (mkDirection [] false [] [] (GSplice 0) false false) (mkDirection [] true [] [] (GGone None) false false)
    false false [] (MSecond None) 0 [(false, None)].

Lemma silent_reached size : brun (Splicing size) silent_run (bidi_start [] [] true false) = Some silent.
Proof. reflexivity. Qed.

Lemma silent_stuck size a s' : brun1 (Splicing size) a silent = Some s' -> exists e lost, a = BFail true e lost.
Proof.
  intros Ha. destruct a as [[]|[]|[] n|[]|[] e k|[]|[]|[]|]; try discriminate Ha; [|eauto].
  destruct n as [|n]; [discriminate Ha|]. cbn in Ha.
  replace (S n <=? 0)%nat with false in Ha by done. rewrite andb_false_r in Ha. discriminate Ha.
Qed.

(** With the zero copier on TCP connections, for every buffer size, a state is reachable
    in which one direction has ended, both connections are closed and BidirectionalCopy
    waits for the other direction, which is blocked in a splice from a silent peer:
    nothing but an error of the network ends it. *)
Theorem BidirectionalCopy_hangs (size : nat) :
  exists s, rtc (bstep (Splicing size)) (bidi_start [] [] true false) s /\
    open1 s = false /\ open2 s = false /\ caller s = MSecond None /\
    ended (d_pc (to2 s)) = Some None /\ d_pc (to1 s) = GSplice 0 /\
    forall a s', brun1 (Splicing size) a s = Some s' -> exists e lost, a = BFail true e lost.
Proof.
  exists silent. split; [eapply brun_reaches, silent_reached|]. split_and!; try reflexivity. apply silent_stuck.
Qed.

(** ** A half-closed connection *)

(** The request is on its way while nothing of the answer has come. *)
Definition exchange (left done_ answer : list byte) (eof2 : bool) (bo : Z) : bidi :=
  mkBidi (mkDirection answer eof2 [] [] GCopying false false) (mkDirection left true [] done_ GCopying false false)
    true true [] MFirst bo [].

Lemma exchange_moves mode left done_ answer eof2 bo :
  rtc (bstep mode) (exchange left done_ answer eof2 bo) (exchange [] (done_ ++ left) answer eof2 bo).
Proof.
  revert done_. induction left as [|x left IH]; intros done_; [by rewrite app_nil_r|].
  eapply rtc_l; [|rewrite (cons_middle x done_ left), app_assoc; apply IH].
  exists (BMove false 1). unfold exchange. cbn.
  change (1 <=? S (length left))%nat with true. cbn. rewrite drop_0, take_0. by destruct mode; rewrite Z.add_0_r.
Qed.

(** The client of [conn1] has sent its request and ends its stream, as a client may that
    waits for the answer. *)
Definition half_close : list bidi_action :=
  [BEof false; BSend false; BCaller; BCaller; BCaller; BClosed true; BSend true; BCaller].

Definition unspliced (pooled : bool) : copy_mode := if pooled then Pooled else Plain.
Definition buffers (pooled : bool) : Z := if pooled then 2 else 0.

Lemma half_close_run pooled request answer eof2 :
  brun (unspliced pooled) half_close (exchange [] request answer eof2 (buffers pooled)) =
  Some (mkBidi (mkDirection answer eof2 [] [] (GSent (Some ErrNetClosed)) false false)
    (mkDirection [] true [] request (GSent None) false false) false false [] (MRet None) (buffers pooled)
    [(false, None); (true, Some ErrNetClosed)]).
Proof. by destruct pooled. Qed.

Lemma exchange_start pooled request answer eof2 :
  brun (unspliced pooled) [BStart true; BStart false] (bidi_start request answer true eof2) =
  Some (exchange request [] answer eof2 (buffers pooled)).
Proof. by destruct pooled. Qed.

(** For every request and answer there is a run in which the client half-closes after
    its request and BidirectionalCopy returns nil with the request delivered and nothing
    of the answer. *)
Theorem BidirectionalCopy_cuts_answer (pooled : bool) (request answer : list byte) (eof2 : bool) :
  exists s, rtc (bstep (unspliced pooled)) (bidi_start request answer true eof2) s /\ caller s = MRet None /\
    d_out (to2 s) = request /\ d_out (to1 s) = [] /\ d_in (to1 s) = answer.
Proof.
  eexists. split.
  - etrans; [eapply brun_reaches, exchange_start|]. etrans; [apply exchange_moves|].
    eapply brun_reaches, half_close_run.
  - done.
Qed.

(** ** Instances of the theorems *)

Definition both_ways : list bidi_action :=
  [BStart true; BStart false; BMove false 2; BMove true 1; BMove true 2; BEof true; BSend true].
Definition copying : bidi := bidi_start [1; 2] [3; 4; 5] false true.
Definition one_ended : bidi := default copying (brun Pooled both_ways copying).

(** A splice to [conn2] fails with a byte in the pipe, and the fallback ends. *)
Definition gap_run : list bidi_action :=
  [BStart true; BStart false; BMove false 2; BMove false 1; BFail false EPIPE 0; BMove false 1; BEof false;
   BSend false; BCaller; BCaller; BCaller; BMove true 2; BMove true 2; BFail true ECONNRESET 0; BSend true; BCaller].
Definition gapped : bidi := default copying (brun (Splicing 4) gap_run (bidi_start [1; 2; 3] [4; 5; 6] true false)).

Lemma BidirectionalCopy_result_witness :
  caller gapped = MRet None /\ d_out (dir false gapped) = [1; 3] /\
  exists r rest, (false, r) ∈ sent gapped /\
    arrived 4 (stream_of [1; 2; 3] [4; 5; 6] false) (d_out (dir false gapped)) rest /\ (r = None -> rest = []).
Proof.
  split; [vm_compute; reflexivity|]. split; [vm_compute; reflexivity|].
  destruct (BidirectionalCopy_result (Splicing 4) [1; 2; 3] [4; 5; 6] true false gapped None)
    as (_ & _ & _ & H & _).
  - eapply (brun_reaches (Splicing 4) gap_run). vm_compute. reflexivity.
  - vm_compute. reflexivity.
  - destruct (H false) as (r & rest & H1 & _ & H2 & H3).
    assert (d_wfail (dir false gapped) = true) as E by (vm_compute; reflexivity). rewrite E in H2.
    assert (d_rfail (dir false gapped) = false) as E' by (vm_compute; reflexivity).
    exists r, rest. split; [exact H1|]. split; [exact H2|]. intros Hr. exact (H3 Hr E').
Defined.

