(* ===== verification/Interner.v ===== *)
(** * String interning (src/pkg/optimize/stringintern.go)

    An interner keeps one copy of each string; the values of the model are strings,
    so that two copies are equal.  [Intern] is a read section and a write section of
    the lock; between the two other goroutines may run, and the invariant is proved
    for every sequence of sections.  The map iteration of the eviction is an argument. *)

From Stdlib Require Import Ascii.
From S2P Require Import Prelude GoStd.

(** ** Data *)

Record InternStats := mkInternStats {
  Hits : Z;
  Misses : Z;
  Evictions : Z;
  TotalSize : Z;
  UniqueKeys : Z
}.
#[export] Instance eta_InternStats : Eta InternStats := fun s =>
  mkInternStats (Hits s) (Misses s) (Evictions s) (TotalSize s) (UniqueKeys s).

Record StringInterner := mkStringInterner {
  si_strings : gmap string string;
  si_maxSize : Z;
  si_stats : InternStats
}.
#[export] Instance eta_StringInterner : Eta StringInterner := fun si =>
  mkStringInterner (si_strings si) (si_maxSize si) (si_stats si).

Definition no_stats : InternStats := mkInternStats 0 0 0 0 0.

Definition NewStringInterner (maxSize : Z) : StringInterner :=
  mkStringInterner ∅ (if maxSize <=? 0 then 10000 else maxSize) no_stats.

(** ** Operations *)

Definition hit (si : StringInterner) : StringInterner :=
  si <| si_stats ::= fun st => st <| Hits := u64 (Hits st + 1) |> |>.

Definition Size (si : StringInterner) : Z := Z.of_nat (size (si_strings si)).

Definition Contains (s : string) (si : StringInterner) : bool :=
  match si_strings si !! s with Some _ => true | None => false end.

Definition Stats (si : StringInterner) : InternStats :=
  si_stats si <| UniqueKeys := Size si |>.

Definition Clear (si : StringInterner) : StringInterner :=
  si <| si_strings := ∅ |> <| si_stats := no_stats |>.

Definition len (s : string) : Z := Z.of_nat (String.length s).

(** The loop of [evictLRU] over the entries in the order they are visited. *)
Fixpoint evict_loop (order : list (string * string)) (toEvict evicted : Z)
    (m : gmap string string) (total : Z) : gmap string string * Z * Z :=
  match order with
  | [] => (m, total, evicted)
  | (key, _) :: order =>
      let m := delete key m in
      let total := i64 (total - len key) in
      let evicted := evicted + 1 in
      if toEvict <=? evicted then (m, total, evicted)
      else evict_loop order toEvict evicted m total
  end.

Definition evictLRU (order : list (string * string)) (si : StringInterner) : StringInterner :=
  let toEvict := go_div (si_maxSize si) 10 in
  let toEvict := if toEvict =? 0 then 1 else toEvict in
  let '(m, total, evicted) :=
    evict_loop order toEvict 0 (si_strings si) (TotalSize (si_stats si)) in
  si <| si_strings := m |>
     <| si_stats ::= fun st => st <| TotalSize := total |>
          <| Evictions := u64 (Evictions st + u64 evicted) |>
          <| UniqueKeys := Z.of_nat (size m) |> |>.

(** The section under the read lock: a hit returns the stored string. *)
Definition intern_read (s : string) (si : StringInterner) : option string := si_strings si !! s.

(** The section under the write lock. *)
Definition intern_write (order : list (string * string)) (s : string) (si : StringInterner) :
    string * StringInterner :=
  match si_strings si !! s with
  | Some interned => (interned, hit si)
  | None =>
      let si := if si_maxSize si <=? Size si then evictLRU order si else si in
      let m := <[s := s]> (si_strings si) in
      (s, si <| si_strings := m |>
             <| si_stats ::= fun st => st <| Misses := u64 (Misses st + 1) |>
                  <| TotalSize := i64 (TotalSize st + len s) |>
                  <| UniqueKeys := Z.of_nat (size m) |> |>)
  end.

Definition Intern (order : list (string * string)) (s : string) (si : StringInterner) :
    string * StringInterner :=
  match intern_read s si with
  | Some interned => (interned, hit si)
  | None => intern_write order s si
  end.

(** [string(b)] *)
Abbreviation bytes_to_string := String.string_of_list_ascii.

Definition InternBytes (order : list (string * string)) (b : list ascii) (si : StringInterner) :
    string * StringInterner :=
  Intern order (bytes_to_string b) si.

(** ** Header names *)

Definition commonHeaders : list string :=
  ["Accept"; "Accept-Encoding"; "Accept-Language"; "Authorization"; "Cache-Control";
   "Connection"; "Content-Encoding"; "Content-Length"; "Content-Type"; "Cookie"; "Date";
   "Host"; "If-Modified-Since"; "If-None-Match"; "Last-Modified"; "Location"; "Referer";
   "Server"; "Set-Cookie"; "Transfer-Encoding"; "User-Agent"; "Vary"; "X-Forwarded-For";
   "X-Forwarded-Proto"; "X-Real-IP"; "X-Request-ID"]%string.

(** The evictions of this loop would have an order each. *)
Definition NewHTTPHeaderInterner (orders : string -> list (string * string)) : StringInterner :=
  foldl (fun si header => snd (Intern (orders header) header si)) (NewStringInterner 1000)
    commonHeaders.

Definition InternHeader := Intern.
Definition InternHeaderBytes := InternBytes.

Definition HTTPHeaderInterner_Stats (hhi : StringInterner) : InternStats := Stats hhi.

(** The global interner is built by the first call. *)
Definition GetGlobalHeaderInterner (orders : string -> list (string * string)) (g : option StringInterner)
  : StringInterner :=
  match g with Some si => si | None => NewHTTPHeaderInterner orders end.

Definition global_InternHeader (orders : string -> list (string * string)) (order : list (string * string))
    (name : string) (g : option StringInterner) : string * option StringInterner :=
  let '(s, si) := InternHeader order name (GetGlobalHeaderInterner orders g) in (s, Some si).

Definition global_InternHeaderBytes (orders : string -> list (string * string)) (order : list (string * string))
    (name : list ascii) (g : option StringInterner) : string * option StringInterner :=
  let '(s, si) := InternHeaderBytes order name (GetGlobalHeaderInterner orders g) in (s, Some si).

(** ** Byte strings *)

Abbreviation ByteString := (list ascii) (only parsing).

Definition ByteString_String (bs : ByteString) : string := bytes_to_string bs.

(** The comparison loop: [n] positions from [i] on. *)
Fixpoint equal_loop (a b : nat -> outcome ascii) (i n : nat) : outcome bool :=
  match n with
  | O => Ret true
  | S n =>
      x ← a i; y ← b i;
      if bool_decide (x = y) then equal_loop a b (S i) n else Ret false
  end.

Definition Equal (bs : ByteString) (s : string) : outcome bool :=
  if Z.of_nat (length bs) =? len s then
    equal_loop (fun i => index bs (Z.of_nat i)) (str_at s) 0 (length bs)
  else Ret false.

Definition EqualBytes (bs other : ByteString) : outcome bool :=
  if Z.of_nat (length bs) =? Z.of_nat (length other) then
    equal_loop (fun i => index bs (Z.of_nat i)) (fun i => index other (Z.of_nat i)) 0 (length bs)
  else Ret false.

(** ** The invariant *)

Record interner_inv (si : StringInterner) : Prop := {
  ii_max : 1 <= si_maxSize si;
  ii_canonical : forall k v, si_strings si !! k = Some v -> v = k;
  ii_size : Size si <= si_maxSize si;
  ii_total : TotalSize (si_stats si) ≡[64] sum_map (fun kv => len kv.1) (si_strings si);
  ii_unique : UniqueKeys (si_stats si) = Size si
}.

(** What the eviction removes: the first entries of the visit, at least one. *)
Lemma evict_loop_spec order toEvict evicted m total m' total' evicted' :
  NoDup order.*1 -> (forall k v, (k, v) ∈ order -> m !! k = Some v) ->
  total ≡[64] sum_map (fun kv => len kv.1) m ->
  evict_loop order toEvict evicted m total = (m', total', evicted') ->
  m' ⊆ m /\ total' ≡[64] sum_map (fun kv => len kv.1) m' /\
  Z.of_nat (size m') = Z.of_nat (size m) - (evicted' - evicted) /\
  evicted <= evicted' /\ (order <> [] -> evicted < evicted').
Proof.
  revert evicted m total. induction order as [|[k v] order IH]; intros evicted m total Hnd Hin Ht He;
    cbn in He.
  { simplify_eq. split_and!; try done; lia. }
  apply NoDup_cons in Hnd as [Hk Hnd].
  assert (m !! k = Some v) as Hkv by (apply Hin; set_solver).
  assert (Z.of_nat (size (delete k m)) = Z.of_nat (size m) - 1) as Hsz.
  { rewrite map_size_delete_Some by (by exists v). enough (size m <> 0%nat) by lia.
    intros ->%map_size_empty_inv. done. }
  assert (i64 (total - len k) ≡[64] sum_map (fun kv => len kv.1) (delete k m)) as Ht'.
  { rewrite i64_eqw, (sum_map_delete _ _ _ _ Hkv). cbn [fst].
    rewrite <- !Z.add_opp_r. by rewrite Ht. }
  destruct (toEvict <=? evicted + 1).
  { simplify_eq. split_and!; [apply delete_subseteq|done|lia..]. }
  apply IH in He as (E1 & E2 & E3 & E4 & _).
  - split_and!; [etrans; [exact E1|apply delete_subseteq]|done|lia..].
  - done.
  - intros k' v' Hin'. rewrite lookup_delete_ne; [apply Hin; set_solver|].
    intros ->. apply Hk. apply list_elem_of_fmap. by exists (k', v').
  - done.
Qed.

Lemma evictLRU_inv order si :
  interner_inv si -> 0 < Size si -> iterates order (si_strings si) ->
  interner_inv (evictLRU order si) /\ Size (evictLRU order si) < Size si /\
  si_maxSize (evictLRU order si) = si_maxSize si /\
  si_strings (evictLRU order si) ⊆ si_strings si.
Proof.
  intros [I1 I2 I3 I4 I5] H0 Ho. unfold evictLRU.
  destruct (evict_loop order _ 0 (si_strings si) (TotalSize (si_stats si))) as [[m t] e] eqn:He.
  apply evict_loop_spec in He as (E1 & E2 & E3 & E4 & E5); [|..|done].
  - assert (order <> []) as Hne.
    { intros ->. unfold iterates in Ho. apply Permutation_nil in Ho.
      apply map_to_list_empty_iff in Ho. unfold Size in H0. rewrite Ho in H0. done. }
    specialize (E5 Hne). unfold Size in *. destruct si as [str mx st]. cbn in *.
    split_and!; [|lia|done|done]. split; cbn; try done.
    + intros k v Hk. apply I2. by eapply lookup_weaken.
    + unfold Size. cbn. lia.
  - rewrite Ho. apply NoDup_fst_map_to_list.
  - intros k v Hin. rewrite Ho in Hin. by apply elem_of_map_to_list.
Qed.

(** ** What interning guarantees *)

Lemma intern_write_inv order s si :
  interner_inv si -> iterates order (si_strings si) ->
  let '(r, si') := intern_write order s si in
  r = s /\ interner_inv si' /\ Contains s si' = true.
Proof.
  intros HI Ho. unfold intern_write. destruct (si_strings si !! s) as [v|] eqn:Hs.
  { split; [by apply (ii_canonical si HI)|]. split; [destruct HI, si; by split|].
    destruct si. unfold Contains. cbn in *. by rewrite Hs. }
  split; [done|].
  set (si1 := if si_maxSize si <=? Size si then evictLRU order si else si).
  assert (interner_inv si1 /\ Size si1 < si_maxSize si1 /\ si_strings si1 !! s = None)
    as ([J1 J2 J3 J4 J5] & Hlt & Hnone).
  { subst si1. pose proof (ii_max si HI). pose proof (ii_size si HI).
    destruct (Z.leb_spec (si_maxSize si) (Size si)) as [Hle|Hgt]; [|done].
    destruct (evictLRU_inv order si HI ltac:(lia) Ho) as (A & B & C & D).
    rewrite C. split_and!; [done|lia|]. by eapply lookup_weaken_None. }
  clearbody si1. destruct si1 as [str mx []]. split; [|unfold Contains; cbn; by rewrite lookup_insert_eq].
  cbn in *. split; cbn; try done.
  - intros k v. destruct (decide (k = s)) as [->|Hne].
    + rewrite lookup_insert_eq. by intros [= <-].
    + rewrite lookup_insert_ne by done. apply J2.
  - unfold Size in *. cbn in *. rewrite map_size_insert_None by done. lia.
  - rewrite i64_eqw, (sum_map_insert _ _ _ _ Hnone). cbn [fst]. rewrite J4.
    apply eqw_eq. lia.
Qed.

Lemma Intern_inv order s si :
  interner_inv si -> iterates order (si_strings si) ->
  fst (Intern order s si) = s /\ interner_inv (snd (Intern order s si)) /\
  Contains s (snd (Intern order s si)) = true.
Proof.
  intros HI Ho. unfold Intern, intern_read. destruct (si_strings si !! s) as [v|] eqn:Hs.
  - cbn. split; [by apply (ii_canonical si HI)|]. split; [destruct HI, si; by split|].
    destruct si. unfold Contains. cbn in *. by rewrite Hs.
  - pose proof (intern_write_inv order s si HI Ho) as Hw. by destruct (intern_write order s si).
Qed.

(** A section of an operation; a goroutine between the sections of [Intern] allows
    any others, so a run is any sequence of them. *)
Inductive istep : StringInterner -> StringInterner -> Prop :=
| step_hit s si : intern_read s si <> None -> istep si (hit si)
| step_write order s si :
    iterates order (si_strings si) -> istep si (snd (intern_write order s si))
| step_clear si : istep si (Clear si).

Lemma istep_inv si si' : istep si si' -> interner_inv si -> interner_inv si'.
Proof.
  intros Hs HI. destruct Hs as [s si Hr|order s si Ho|si].
  - destruct HI, si; by split.
  - pose proof (intern_write_inv order s si HI Ho) as Hw.
    destruct (intern_write order s si). by destruct Hw as (_ & ? & _).
  - destruct HI, si. split; cbn in *; try done. unfold Size. cbn. rewrite map_size_empty. lia.
Qed.

Lemma NewStringInterner_inv maxSize : interner_inv (NewStringInterner maxSize).
Proof.
  unfold NewStringInterner. destruct (Z.leb_spec maxSize 0); split; cbn; try done; try lia;
    unfold Size; cbn; rewrite map_size_empty; lia.
Qed.

(** In every sequence of critical sections of Intern and Clear, whatever the map
    iteration orders: Intern returns its argument (also when other goroutines run
    between its read and its write section) and keeps it, the interner never holds more
    than maxSize strings, UniqueKeys is the number of strings held and TotalSize is the
    sum of their lengths (modulo 2^64). *)
Theorem Interner_sound maxSize si order s :
  rtc istep (NewStringInterner maxSize) si -> iterates order (si_strings si) ->
  fst (Intern order s si) = s /\ fst (intern_write order s si) = s /\
  Contains s (snd (Intern order s si)) = true /\
  Size si <= (if maxSize <=? 0 then 10000 else maxSize) /\
  UniqueKeys (Stats si) = Size si /\ UniqueKeys (si_stats si) = Size si /\
  TotalSize (Stats si) ≡[64] sum_map (fun kv => len kv.1) (si_strings si).
Proof.
  intros Hr Ho.
  assert (interner_inv si /\ si_maxSize si = if maxSize <=? 0 then 10000 else maxSize)
    as [HI Hmax].
  { apply (rtc_invariant istep (fun si => interner_inv si /\
      si_maxSize si = if maxSize <=? 0 then 10000 else maxSize)
      (NewStringInterner maxSize)); [|split; [apply NewStringInterner_inv|done]|done].
    intros a b Hs [HI Hm]. split; [by eapply istep_inv|]. rewrite <- Hm.
    clear -Hs. destruct Hs as [s si Hs|order s si Ho|si]; [by destruct si| |by destruct si].
    unfold intern_write. destruct (si_strings si !! s); [by destruct si|].
    destruct (_ <=? _); [|by destruct si]. unfold evictLRU.
    destruct (evict_loop _ _ _ _ _) as [[m t] e]. by destruct si. }
  destruct (Intern_inv order s si HI Ho) as (E1 & _ & E2).
  pose proof (intern_write_inv order s si HI Ho) as Hw. rewrite <- Hmax.
  destruct HI as [I1 I2 I3 I4 I5]. split_and!; try done.
  - by destruct (intern_write order s si), Hw.
Qed.

(** ** Byte strings compare like strings *)

#[export] Instance ascii_inhabited : Inhabited ascii := populate zero.

Lemma equal_loop_spec (l k : list ascii) a b i :
  length l = length k ->
  (forall j, (j < length l)%nat -> a (i + j)%nat = Ret (l !!! j)) ->
  (forall j, (j < length l)%nat -> b (i + j)%nat = Ret (k !!! j)) ->
  equal_loop a b i (length l) = Ret (bool_decide (l = k)).
Proof.
  revert k i. induction l as [|x l IH]; intros [|y k] i Hlen Ha Hb; try done.
  cbn [length equal_loop]. pose proof (Ha 0%nat ltac:(cbn; lia)) as Ha0.
  pose proof (Hb 0%nat ltac:(cbn; lia)) as Hb0. rewrite Nat.add_0_r in Ha0, Hb0.
  rewrite Ha0, Hb0. cbn. destruct (decide (x = y)) as [->|Hne].
  - rewrite (bool_decide_eq_true_2 _ eq_refl). rewrite (IH k (S i)).
    + f_equal. apply bool_decide_ext. split; [by intros ->|by intros [= ->]].
    + cbn in Hlen. lia.
    + intros j Hj. replace (S i + j)%nat with (i + S j)%nat by lia. apply Ha. cbn. lia.
    + intros j Hj. replace (S i + j)%nat with (i + S j)%nat by lia. apply Hb. cbn. lia.
  - rewrite (bool_decide_eq_false_2 _ Hne), bool_decide_eq_false_2; [done|congruence].
Qed.

Lemma index_ret (l : list ascii) i :
  (i < length l)%nat -> index l (Z.of_nat i) = Ret (l !!! i).
Proof. intros Hi. rewrite index_in_range by lia. by rewrite Nat2Z.id. Qed.

Lemma str_at_ret s i :
  (i < String.length s)%nat -> str_at s i = Ret (String.list_ascii_of_string s !!! i).
Proof.
  unfold str_at. revert i. induction s as [|a s IH]; intros i Hi; cbn in Hi; [lia|].
  destruct i; [done|]. cbn. apply IH. lia.
Qed.

Lemma length_list_ascii s : length (String.list_ascii_of_string s) = String.length s.
Proof. induction s; cbn; congruence. Qed.

(** C38: The allocation-free comparisons agree with the reference ones on all inputs and
    never index out of range: ByteString.Equal(s) is exactly string(bs) == s, and
    EqualBytes is exactly equality of the byte slices. *)
Theorem ByteString_Equal_iff bs s other :
  Equal bs s = Ret (bool_decide (ByteString_String bs = s)) /\
  EqualBytes bs other = Ret (bool_decide (bs = other)).
Proof.
  split.
  - unfold Equal, len. destruct (Z.eqb_spec (Z.of_nat (length bs)) (Z.of_nat (String.length s)))
      as [He|Hne].
    + rewrite (equal_loop_spec bs (String.list_ascii_of_string s)).
      * f_equal. apply bool_decide_ext. unfold ByteString_String. split.
        -- intros ->. apply String.string_of_list_ascii_of_string.
        -- intros <-. symmetry. apply String.list_ascii_of_string_of_list_ascii.
      * rewrite length_list_ascii. lia.
      * intros j Hj. by apply index_ret.
      * intros j Hj. apply str_at_ret. lia.
    + rewrite bool_decide_eq_false_2; [done|]. intros <-. apply Hne.
      unfold ByteString_String. rewrite <- length_list_ascii.
      by rewrite String.list_ascii_of_string_of_list_ascii.
  - unfold EqualBytes.
    destruct (Z.eqb_spec (Z.of_nat (length bs)) (Z.of_nat (length other))) as [He|Hne].
    + apply (equal_loop_spec bs other); [lia|..]; intros j Hj; apply index_ret; lia.
    + rewrite bool_decide_eq_false_2; [done|]. congruence.
Qed.

(** ** Which entry is evicted *)

(** The eviction of a full interner follows the map iteration order: for every string
    held, also the one used last, there is an iteration order under which interning a
    new string evicts it. *)
Theorem Intern_evicts_any si k s :
  interner_inv si -> Size si = si_maxSize si ->
  Contains k si = true -> Contains s si = false ->
  exists order, iterates order (si_strings si) /\
    Contains k (snd (Intern order s si)) = false.
Proof.
  unfold Contains. intros HI Hfull Hk Hs.
  destruct (si_strings si !! k) as [v|] eqn:Ek; [|done].
  destruct (si_strings si !! s) as [?|] eqn:Es; [done|].
  exists ((k, v) :: map_to_list (delete k (si_strings si))).
  split; [by apply map_to_list_delete|].
  assert (k <> s) by congruence.
  unfold Intern, intern_read, intern_write. rewrite Es.
  rewrite (proj2 (Z.leb_le _ _)) by lia. unfold evictLRU. cbn [evict_loop].
  assert (forall order te e m t, m !! k = None -> (evict_loop order te e m t).1.1 !! k = None) as Hev.
  { induction order as [|[x y] order IH]; intros te e m t Hm; [done|]. cbn.
    assert (delete x m !! k = None) by (by rewrite lookup_delete_None; right).
    destruct (te <=? e + 1); [done|by apply IH]. }
  match goal with |- context [if ?c then ?a else evict_loop ?o ?te ?e ?m ?t] =>
    assert ((if c then a else evict_loop o te e m t).1.1 !! k = None) as Hnone;
    [destruct c; [apply lookup_delete_eq|apply Hev, lookup_delete_eq]|];
    destruct (if c then a else evict_loop o te e m t) as [[m' t'] e'] end.
  destruct si as [str mx st]. cbn in *. rewrite lookup_insert_ne by done. by rewrite Hnone.
Qed.

(** ** The header interner *)

Definition no_orders (h : string) : list (string * string) := [].

(** NewHTTPHeaderInterner holds exactly the 26 common header names and satisfies the
    invariant of interners, independently of map iteration orders. *)
Theorem NewHTTPHeaderInterner_loaded orders :
  interner_inv (NewHTTPHeaderInterner orders) /\
  Forall (fun h => Contains h (NewHTTPHeaderInterner orders) = true) commonHeaders /\
  Size (NewHTTPHeaderInterner orders) = 26.
Proof.
  assert (NewHTTPHeaderInterner orders = NewHTTPHeaderInterner no_orders) as ->
    by (vm_compute; reflexivity).
  split; [|split; [apply (bool_decide_unpack _); vm_compute; exact I|vm_compute; reflexivity]].
  split.
  - vm_compute. discriminate.
  - apply (map_Forall_lookup (fun k v => v = k)). apply (bool_decide_unpack _). vm_compute. exact I.
  - vm_compute. discriminate.
  - vm_compute. reflexivity.
  - vm_compute. reflexivity.
Qed.

(** ** Examples *)

(** A full interner of two strings. *)
Definition one : StringInterner := snd (intern_write [] "a" (NewStringInterner 2)).
Definition full2 : StringInterner :=
  snd (intern_write (map_to_list (si_strings one)) "bc" one).

Lemma full2_reached : rtc istep (NewStringInterner 2) full2.
Proof.
  eapply rtc_l; [apply (step_write [] "a"); vm_compute; constructor|].
  eapply rtc_l; [apply (step_write (map_to_list (si_strings one)) "bc"); exact (Permutation_refl _)|].
  apply rtc_refl.
Qed.

Lemma Interner_sound_witness :
  fst (Intern (map_to_list (si_strings full2)) "d" full2) = "d" /\
  Contains "d" (snd (Intern (map_to_list (si_strings full2)) "d" full2)) = true /\
  TotalSize (Stats full2) = 3 /\ Size full2 = 2.
Proof.
  destruct (Interner_sound 2 full2 (map_to_list (si_strings full2)) "d" full2_reached)
    as (E1 & _ & E2 & _); [exact (Permutation_refl _)|].
  split; [exact E1|]. split; [exact E2|]. split; vm_compute; reflexivity.
Defined.

(** The entry interned last is evicted. *)
Lemma Intern_evicts_any_witness :
  exists order, iterates order (si_strings full2) /\
    Contains "bc" (snd (Intern order "d" full2)) = false.
Proof.
  apply (Intern_evicts_any full2 "bc" "d").
  - assert (rtc istep (NewStringInterner 2) full2) as Hr by exact full2_reached.
    eapply (rtc_invariant istep interner_inv); [intros a b; apply istep_inv| |exact Hr].
    apply NewStringInterner_inv.
  - vm_compute. reflexivity.
  - vm_compute. reflexivity.
  - vm_compute. reflexivity.
Defined.
