(* ===== verification/Xds.v ===== *)
(** * The xDS control plane (src/pkg/xds/server.go)

    A snapshot is an object that its publisher, the cache and the callbacks share, and
    [SetSnapshot] writes to it: snapshots live in a store indexed by pointers, and whoever
    holds one may edit any field of it after its publication.  The
    callbacks are opaque observers (their errors are only printed); what they are told
    is logged.  The gRPC server belongs to a library; the JSON form of a
    snapshot is in [XdsJson]. *)

From S2P Require Import Prelude GoStd.

(** ** Data *)

(** A slice or a map is nil ([None]) or has contents; the two differ in JSON. *)
Definition slice (A : Type) : Type := option (list A).
Definition strmap : Type := option (gmap string string).

Record Cluster := mkCluster {
  cl_Name : string; cl_Type : string; cl_Backends : slice string; cl_LBPolicy : string
}.

Record Endpoint := mkEndpoint {
  ep_ClusterName : string; ep_Address : string; ep_Port : Z; ep_Weight : Z; ep_Healthy : bool
}.

Record Listener := mkListener {
  li_Name : string; li_Address : string; li_Port : Z; li_Routes : slice string
}.

Record RouteMatch := mkRouteMatch {
  rm_Prefix : string; rm_Path : string;
  rm_Headers : strmap; rm_QueryParams : strmap
}.

Record XRoute := mkXRoute { xr_Name : string; xr_Match : RouteMatch; xr_Cluster : string }.

Record Snapshot := mkSnapshot {
  Version : string;
  Clusters : slice Cluster;
  Endpoints : slice Endpoint;
  Listeners : slice Listener;
  Routes : slice XRoute;
  Timestamp : time
}.
#[export] Instance eta_Snapshot : Eta Snapshot := fun s =>
  mkSnapshot (Version s) (Clusters s) (Endpoints s) (Listeners s) (Routes s) (Timestamp s).

Abbreviation snptr := nat (only parsing).

Record SnapshotCache := mkSnapshotCache {
  snapshots : gmap string snptr;
  versions : gmap string string
}.
#[export] Instance eta_SnapshotCache : Eta SnapshotCache := fun c =>
  mkSnapshotCache (snapshots c) (versions c).

(** The server with the store of snapshots and the callbacks of its manager; [told] is
    what the callbacks were told, in order. *)
Record XDSServer := mkXDSServer {
  addr : string;
  grpcServer : bool;
  snapshotCache : SnapshotCache;
  started : bool
}.
#[export] Instance eta_XDSServer : Eta XDSServer := fun s =>
  mkXDSServer (addr s) (grpcServer s) (snapshotCache s) (started s).

Record world := mkWorld {
  server : XDSServer;
  store : list Snapshot;
  callbacks : list nat;
  told : list (nat * snptr)
}.
#[export] Instance eta_world : Eta world := fun w =>
  mkWorld (server w) (store w) (callbacks w) (told w).

Definition NewSnapshotCache : SnapshotCache := mkSnapshotCache ∅ ∅.

Record TLSConfig := mkTLSConfig { xt_CertFile : string; xt_KeyFile : string }.
Record ServerConfig := mkServerConfig { sc_ListenAddr : string; sc_TLSConfig : option TLSConfig }.

(** The TLS settings are not used. *)
Definition NewXDSServer (config : ServerConfig) : XDSServer :=
  mkXDSServer (sc_ListenAddr config) false NewSnapshotCache false.

Definition NewDynamicConfigManager (s : XDSServer) : world := mkWorld s [] [] [].

(** ** Starting and stopping *)

Inductive xds_error :=
| AlreadyStarted
| ListenFailed (addr : string)
| NotStarted
| SnapshotNotFound (nodeID : string).
#[export] Instance xds_error_eq_dec : EqDecision xds_error.
Proof. solve_decision. Defined.

(** [listen_ok]: the address could be bound. *)
Definition Start (listen_ok : bool) (s : XDSServer) : option xds_error * XDSServer :=
  if started s then (Some AlreadyStarted, s)
  else if listen_ok then (None, s <| grpcServer := true |> <| started := true |>)
  else (Some (ListenFailed (addr s)), s).

Definition Stop (s : XDSServer) : option xds_error * XDSServer :=
  if started s then (None, s <| started := false |>) else (Some NotStarted, s).

(** ** The snapshot cache *)

Definition Unix (now : time) : Z := now / Second.

(** A nil snapshot or a dangling pointer panics. *)
Definition SetSnapshot (nodeID : string) (p : option snptr) (now : time) (w : world) :
    outcome world :=
  match p with
  | None => Panic
  | Some p =>
      match store w !! p with
      | None => Panic
      | Some s =>
          let s := if bool_decide (Version s = "") then s <| Version := itoa (Unix now) |> else s in
          let s := s <| Timestamp := now |> in
          Ret (w <| store := <[p := s]> (store w) |>
                 <| server ::= fun srv => srv <| snapshotCache ::= fun c =>
                      c <| snapshots := <[nodeID := p]> (snapshots c) |>
                        <| versions := <[nodeID := Version s]> (versions c) |> |> |>)
      end
  end.

Definition GetSnapshot (nodeID : string) (c : SnapshotCache) : result xds_error snptr :=
  match snapshots c !! nodeID with
  | Some p => Ok p
  | None => Err (SnapshotNotFound nodeID)
  end.

Definition GetVersion (nodeID : string) (c : SnapshotCache) : option string := versions c !! nodeID.

Definition ClearSnapshot (nodeID : string) (w : world) : world :=
  w <| server ::= fun srv => srv <| snapshotCache ::= fun c =>
    c <| snapshots := delete nodeID (snapshots c) |>
      <| versions := delete nodeID (versions c) |> |> |>.

(** A new snapshot object; the pointer is its place in the store. *)
Definition NewSnapshot (version : string) (now : time) (w : world) : snptr * world :=
  (length (store w), w <| store := store w ++ [mkSnapshot version (Some []) (Some []) (Some []) (Some []) now] |>).

(** ** The configuration manager *)

Definition RegisterCallback (cb : nat) (w : world) : world :=
  w <| callbacks := callbacks w ++ [cb] |>.

(** The notification loop: every registered callback in order. *)
Definition notify (p : snptr) (w : world) : world :=
  w <| told := told w ++ ((fun cb => (cb, p)) <$> callbacks w) |>.

Definition UpdateSnapshot := SetSnapshot.

Definition server_GetSnapshot (nodeID : string) (s : XDSServer) : result xds_error snptr :=
  GetSnapshot nodeID (snapshotCache s).

Definition UpdateConfig (nodeID : string) (p : option snptr) (now : time) (w : world) :
    outcome world :=
  w' ← UpdateSnapshot nodeID p now w;
  Ret (match p with Some p => notify p w' | None => w' end).

(** One tick of [Watch]: the version and the snapshot are read in two critical
    sections, between which other goroutines may change the world. *)
Definition watch_tick (nodeID : string) (between : world -> world) (lastVersion : string)
    (w : world) : string * world :=
  match GetVersion nodeID (snapshotCache (server w)) with
  | None => (lastVersion, between w)
  | Some version =>
      if bool_decide (version = lastVersion) then (lastVersion, between w)
      else
        let w := between w in
        match server_GetSnapshot nodeID (server w) with
        | Err _ => (lastVersion, w)
        | Ok p => (version, notify p w)
        end
  end.

(** [Watch]: ticks until the context ends; before each tick others act. *)
Fixpoint Watch (nodeID : string) (events : list (world -> world)) (lastVersion : string)
    (w : world) : string * world :=
  match events with
  | [] => (lastVersion, w)
  | act :: events =>
      let '(lastVersion, w) := watch_tick nodeID id lastVersion (act w) in
      Watch nodeID events lastVersion w
  end.

(** ** The cache is coherent *)

Definition cache (w : world) : SnapshotCache := snapshotCache (server w).

(** What goroutines do to the world.  A snapshot is shared: whoever holds it may go on
    editing it after it was published, every field included. *)
Inductive xevent :=
| XPublish (nodeID : string) (p : option snptr) (now : time)
| XSet (nodeID : string) (p : option snptr) (now : time)
| XClear (nodeID : string)
| XNew (version : string) (now : time)
| XRegister (cb : nat)
| XNotify (p : snptr)
| XEdit (p : snptr) (s : Snapshot).

Definition xdo (e : xevent) (w : world) : outcome world :=
  match e with
  | XPublish n p now => UpdateConfig n p now w
  | XSet n p now => SetSnapshot n p now w
  | XClear n => Ret (ClearSnapshot n w)
  | XNew v now => Ret (snd (NewSnapshot v now w))
  | XRegister cb => Ret (RegisterCallback cb w)
  | XNotify p => Ret (notify p w)
  | XEdit p s =>
      match store w !! p with
      | Some _ => Ret (w <| store := <[p := s]> (store w) |>)
      | None => Panic
      end
  end.

Definition xstep (w w' : world) : Prop := exists e, xdo e w = Ret w'.

Definition coherent (w : world) : Prop :=
  forall nodeID,
    match snapshots (cache w) !! nodeID, versions (cache w) !! nodeID with
    | Some p, Some v => is_Some (store w !! p) /\ v <> ""
    | None, None => True
    | _, _ => False
    end.

(** The snapshot a publication leaves in the store. *)
Definition published (now : time) (s : Snapshot) : Snapshot :=
  (if bool_decide (Version s = "") then s <| Version := itoa (Unix now) |> else s)
    <| Timestamp := now |>.

Lemma published_Version now s :
  Version (published now s) = if bool_decide (Version s = "") then itoa (Unix now) else Version s.
Proof. unfold published. destruct s as [v]. cbn. by case_bool_decide. Qed.

Lemma published_nonempty now s : Version (published now s) <> "".
Proof. rewrite published_Version. case_bool_decide; [apply itoa_nonempty|done]. Qed.

Lemma SetSnapshot_ret nodeID p now w w' :
  SetSnapshot nodeID p now w = Ret w' ->
  exists q s, p = Some q /\ store w !! q = Some s /\
    store w' = <[q := published now s]> (store w) /\
    snapshots (cache w') = <[nodeID := q]> (snapshots (cache w)) /\
    versions (cache w') = <[nodeID := Version (published now s)]> (versions (cache w)) /\
    callbacks w' = callbacks w /\ told w' = told w /\ started (server w') = started (server w).
Proof.
  unfold SetSnapshot. destruct p as [q|]; [|done].
  destruct (store w !! q) as [s|] eqn:Hs; [|done]. intros [= <-].
  exists q, s. destruct w as [[? ? []] ? ? ?]. done.
Qed.

Lemma UpdateConfig_set nodeID p now w w' :
  UpdateConfig nodeID p now w = Ret w' ->
  exists w1, SetSnapshot nodeID p now w = Ret w1 /\ store w' = store w1 /\ cache w' = cache w1.
Proof.
  unfold UpdateConfig, UpdateSnapshot. destruct (SetSnapshot nodeID p now w) as [w1|]; [|done].
  intros [= <-]. exists w1. by destruct p, w1.
Qed.

(** ** What was published

    The history of a run: for every node the snapshot it was last given, with the version
    that snapshot had at that moment, and the snapshots whose version was edited by hand. *)
Record history := mkHistory {
  h_given : gmap string (snptr * string);
  h_edited : gset snptr
}.

(** The version under which a snapshot is published: its own, or the time in seconds. *)
Definition publication (p : option snptr) (now : time) (w : world) : option (snptr * string) :=
  p ← p; s ← store w !! p;
  Some (p, if bool_decide (Version s = "") then itoa (now / Second) else Version s).

Definition record_event (e : xevent) (w : world) (h : history) : history :=
  match e with
  | XPublish n p now | XSet n p now =>
      mkHistory (partial_alter (fun _ => publication p now w) n (h_given h)) (h_edited h)
  | XClear n => mkHistory (delete n (h_given h)) (h_edited h)
  | XEdit p s =>
      if bool_decide (Version <$> store w !! p = Some (Version s)) then h
      else mkHistory (h_given h) ({[p]} ∪ h_edited h)
  | _ => h
  end.

Fixpoint xevents (l : list xevent) (w : world) (h : history) : outcome (world * history) :=
  match l with
  | [] => Ret (w, h)
  | e :: l => match xdo e w with Ret w' => xevents l w' (record_event e w h) | Panic => Panic end
  end.

(** The cache holds what was given to each node, under the version it was given with, and
    the snapshot still has that version unless it was edited. *)
Record tracks (w : world) (h : history) : Prop := {
  tr_snapshots n : snapshots (cache w) !! n = fst <$> h_given h !! n;
  tr_versions n : versions (cache w) !! n = snd <$> h_given h !! n;
  tr_given n p v : h_given h !! n = Some (p, v) -> v <> "" /\
    exists s, store w !! p = Some s /\ (p ∉ h_edited h -> Version s = v)
}.

Lemma tracks_set nodeID p now w w' h :
  SetSnapshot nodeID p now w = Ret w' -> tracks w h ->
  tracks w' (mkHistory (partial_alter (fun _ => publication p now w) nodeID (h_given h)) (h_edited h)).
Proof.
  intros (q & s & -> & Hs & Hst & Hsn & Hv & _)%SetSnapshot_ret [H1 H2 H3].
  pose proof (lookup_lt_Some _ _ _ Hs) as Hlt. pose proof (published_nonempty now s) as Hne.
  assert (publication (Some q) now w = Some (q, Version (published now s))) as Hp.
  { unfold publication. cbn. rewrite Hs. cbn. by rewrite published_Version. }
  split; cbn [h_given h_edited].
  - intros n. rewrite Hsn. destruct (decide (n = nodeID)) as [->|Hn].
    + by rewrite lookup_insert_eq, lookup_partial_alter_eq, Hp.
    + by rewrite lookup_insert_ne, lookup_partial_alter_ne.
  - intros n. rewrite Hv. destruct (decide (n = nodeID)) as [->|Hn].
    + by rewrite lookup_insert_eq, lookup_partial_alter_eq, Hp.
    + by rewrite lookup_insert_ne, lookup_partial_alter_ne.
  - intros n p v Hg. rewrite Hst.
    assert (v <> "" /\ (p = q /\ (p ∉ h_edited h -> Version (published now s) = v) \/
      p <> q /\ exists s0, store w !! p = Some s0 /\ (p ∉ h_edited h -> Version s0 = v))) as [Hv0 Hor].
    { destruct (decide (n = nodeID)) as [->|Hn].
      - rewrite lookup_partial_alter_eq, Hp in Hg. simplify_eq. auto.
      - rewrite lookup_partial_alter_ne in Hg by done. destruct (H3 _ _ _ Hg) as (Hv0 & s0 & Hs0 & He).
        split; [done|]. destruct (decide (p = q)) as [->|]; [left|right; eauto]. split; [done|].
        intros Hne0. simplify_eq. rewrite published_Version, bool_decide_eq_false_2 by (specialize (He Hne0); congruence).
        auto. }
    split; [done|]. destruct Hor as [[-> He]|[Hpq (s0 & Hs0 & He)]].
    + exists (published now s). split; [by apply list_lookup_insert_eq|done].
    + exists s0. by rewrite list_lookup_insert_ne.
Qed.

Lemma tracks_same w w' h : store w' = store w -> cache w' = cache w -> tracks w h -> tracks w' h.
Proof. intros E1 E2 [H1 H2 H3]. split; rewrite ?E1, ?E2; done. Qed.

Lemma tracks_edit p s0 s w h :
  store w !! p = Some s0 -> tracks w h ->
  tracks (w <| store := <[p := s]> (store w) |>) (record_event (XEdit p s) w h).
Proof.
  intros Hp [H1 H2 H3].
  assert (h_given (record_event (XEdit p s) w h) = h_given h) as Hg by (cbn; by case_bool_decide).
  split; [intros n; rewrite Hg; apply H1|intros n; rewrite Hg; apply H2|].
  intros n q v Hq. rewrite Hg in Hq. destruct (H3 _ _ _ Hq) as (Hv & s1 & Hs1 & He). split; [done|].
  change (store _) with (<[p := s]> (store w)). destruct (decide (q = p)) as [->|Hqp].
  - exists s. split; [apply list_lookup_insert_eq; by eapply lookup_lt_Some|]. simplify_eq.
    cbn. case_bool_decide as Hs; cbn; rewrite Hp in Hs; cbn in Hs; [|set_solver].
    intros Hn. injection Hs as Hs. rewrite <- Hs. auto.
  - exists s1. rewrite list_lookup_insert_ne by done. split; [done|]. intros Hn. apply He.
    cbn in Hn. case_bool_decide; set_solver.
Qed.

Lemma tracks_event e w w' h : xdo e w = Ret w' -> tracks w h -> tracks w' (record_event e w h).
Proof.
  intros He Ht. destruct e as [n p now|n p now|n|v now|cb|p|p s]; cbn [xdo] in He.
  - destruct (UpdateConfig_set _ _ _ _ _ He) as (w1 & Hs & E1 & E2).
    eapply tracks_same; [done..|]. by eapply tracks_set.
  - by eapply tracks_set.
  - injection He as <-. destruct Ht as [H1 H2 H3]. split; cbn [h_given h_edited record_event].
    + intros m. specialize (H1 m). destruct w as [[? ? [sn vs] ?] ? ? ?]. cbn in *.
      destruct (decide (m = n)) as [->|Hne]; [by rewrite !lookup_delete_eq|by rewrite !lookup_delete_ne].
    + intros m. specialize (H2 m). destruct w as [[? ? [sn vs] ?] ? ? ?]. cbn in *.
      destruct (decide (m = n)) as [->|Hne]; [by rewrite !lookup_delete_eq|by rewrite !lookup_delete_ne].
    + intros m p v [_ Hm]%lookup_delete_Some. destruct (H3 _ _ _ Hm) as (? & s & ? & ?).
      split; [done|]. exists s. by destruct w.
  - injection He as <-. destruct Ht as [H1 H2 H3]. split; [exact H1|exact H2|].
    intros m p x Hm. destruct (H3 _ _ _ Hm) as (? & s & Hs & ?). split; [done|]. exists s.
    destruct w. cbn in *. split; [by apply lookup_app_l_Some|done].
  - injection He as <-. by apply (tracks_same w).
  - injection He as <-. by apply (tracks_same w).
  - destruct (store w !! p) as [s0|] eqn:Hp; [|done]. injection He as <-. by eapply tracks_edit.
Qed.

Lemma tracks_events l w h w' h' : xevents l w h = Ret (w', h') -> tracks w h -> tracks w' h'.
Proof.
  revert w h. induction l as [|e l IH]; intros w h; cbn; [by intros [= <- <-]|].
  destruct (xdo e w) as [w1|] eqn:He; [|done]. intros Hr Ht. eapply IH; [done|]. by eapply tracks_event.
Qed.

Definition no_history : history := mkHistory ∅ ∅.

Lemma tracks_start config : tracks (NewDynamicConfigManager (NewXDSServer config)) no_history.
Proof. split; intros *; cbn; by rewrite ?lookup_empty. Qed.

(** Every reachable world has a history. *)
Lemma tracks_reach w0 w h :
  rtc xstep w0 w -> tracks w0 h -> exists h', tracks w h'.
Proof.
  intros Hr. revert h. induction Hr as [|w0 w1 w2 [e He] _ IH]; intros h Ht; [by exists h|].
  by eapply IH, tracks_event.
Qed.

Lemma tracks_coherent w h : tracks w h -> coherent w.
Proof.
  intros [H1 H2 H3] n. rewrite H1, H2. destruct (h_given h !! n) as [[p v]|] eqn:E; [|done]. cbn.
  destruct (H3 _ _ _ E) as (? & s & ? & _). split; [by eexists|done].
Qed.

Lemma coherent_reach config w :
  rtc xstep (NewDynamicConfigManager (NewXDSServer config)) w -> coherent w.
Proof.
  intros Hr. destruct (tracks_reach _ _ _ Hr (tracks_start config)) as [h Ht]. by eapply tracks_coherent.
Qed.

Lemma coherent_set nodeID p now w w' :
  SetSnapshot nodeID p now w = Ret w' -> coherent w -> coherent w'.
Proof.
  intros (q & s & -> & Hs & Hst & Hsn & Hv & _)%SetSnapshot_ret Hc n.
  rewrite Hst, Hsn, Hv. pose proof (lookup_lt_Some _ _ _ Hs) as Hlt.
  assert (forall p, is_Some (store w !! p) -> is_Some (<[q := published now s]> (store w) !! p)) as Hin.
  { intros p. rewrite !lookup_lt_is_Some. by rewrite length_insert. }
  destruct (decide (n = nodeID)) as [->|Hne].
  - rewrite !lookup_insert_eq. eauto using published_nonempty.
  - rewrite !lookup_insert_ne by done. specialize (Hc n).
    destruct (snapshots (cache w) !! n) as [p|], (versions (cache w) !! n) as [v|]; try done.
    destruct Hc. auto.
Qed.

(** C37: After any sequence of publications (UpdateConfig, SetSnapshot), clearings, new
    snapshots, registrations, notifications and edits of any field of published
    snapshots that does not panic: for a node whose last publication was not cleared,
    GetSnapshot returns the pointer that was published and GetVersion the non-empty
    version the snapshot had then (given or generated), and the snapshot's own version
    is still that one unless someone edited the object after it was made; for every
    other node GetSnapshot returns its not-found error and there is no version. *)
Theorem SnapshotCache_coherent config (l : list xevent) w h nodeID :
  xevents l (NewDynamicConfigManager (NewXDSServer config)) no_history = Ret (w, h) ->
  match h_given h !! nodeID with
  | Some (p, v) =>
      GetSnapshot nodeID (cache w) = Ok p /\ GetVersion nodeID (cache w) = Some v /\ v <> "" /\
      exists s, store w !! p = Some s /\ (p ∉ h_edited h -> Version s = v)
  | None =>
      GetSnapshot nodeID (cache w) = Err (SnapshotNotFound nodeID) /\ GetVersion nodeID (cache w) = None
  end.
Proof.
  intros Hr. destruct (tracks_events _ _ _ _ _ Hr (tracks_start config)) as [H1 H2 H3].
  unfold GetSnapshot, GetVersion. rewrite H1, H2.
  destruct (h_given h !! nodeID) as [[p v]|] eqn:E; [|done]. destruct (H3 _ _ _ E). auto.
Qed.

(** ** Watching *)

(** What [k + 1] undisturbed ticks announce. *)
Definition announcement (nodeID lastVersion : string) (w : world) : list (nat * snptr) :=
  match versions (cache w) !! nodeID, snapshots (cache w) !! nodeID with
  | Some v, Some p =>
      if bool_decide (v = lastVersion) then [] else (fun cb => (cb, p)) <$> callbacks w
  | _, _ => []
  end.

Lemma notify_told p w : told (notify p w) = told w ++ ((fun cb => (cb, p)) <$> callbacks w).
Proof. by destruct w. Qed.
Lemma notify_cache p w : cache (notify p w) = cache w.
Proof. by destruct w. Qed.

(** Ticks that find the version they know do nothing. *)
Lemma Watch_quiet nodeID k last w :
  versions (cache w) !! nodeID = None \/ versions (cache w) !! nodeID = Some last ->
  Watch nodeID (replicate k id) last w = (last, w).
Proof.
  intros Hv. induction k as [|k IH]; [done|]. cbn. unfold watch_tick, GetVersion.
  fold (cache w). destruct Hv as [-> | ->]; [exact IH|].
  rewrite (bool_decide_eq_true_2 _ eq_refl). exact IH.
Qed.

Lemma Watch_announcement nodeID k last w :
  coherent w ->
  let '(v, w') := Watch nodeID (replicate (S k) id) last w in
  told w' = told w ++ announcement nodeID last w /\
  v = default last (versions (cache w) !! nodeID) /\
  cache w' = cache w /\ callbacks w' = callbacks w /\ store w' = store w.
Proof.
  intros Hc. specialize (Hc nodeID). unfold announcement. cbn [replicate Watch].
  unfold watch_tick, server_GetSnapshot, GetVersion, GetSnapshot. change (id w) with w. change (id w) with w.
  fold (cache w).
  destruct (snapshots (cache w) !! nodeID) as [p|] eqn:Hsn,
    (versions (cache w) !! nodeID) as [v|] eqn:Hvs; try done.
  - case_bool_decide as Hv; cbn [default].
    + subst v. rewrite Watch_quiet by auto. by rewrite app_nil_r.
    + rewrite Watch_quiet by (rewrite notify_cache, Hvs; auto).
      rewrite notify_told, notify_cache. split_and!; try done; by destruct w.
  - rewrite Watch_quiet by (rewrite Hvs; auto). by rewrite app_nil_r.
Qed.

(** Undisturbed ticks of Watch announce a changed version exactly once: every registered
    callback is told the current snapshot of the node once and in order when its version
    differs from the last one seen, further ticks tell nothing, and a node without
    snapshot is passed over. *)
Theorem Watch_announces config w nodeID k lastVersion :
  rtc xstep (NewDynamicConfigManager (NewXDSServer config)) w ->
  let '(v, w') := Watch nodeID (replicate (S k) id) lastVersion w in
  match GetSnapshot nodeID (cache w) with
  | Err _ => v = lastVersion /\ told w' = told w
  | Ok p =>
      GetVersion nodeID (cache w) = Some v /\
      told w' = told w ++
        (if bool_decide (v = lastVersion) then [] else (fun cb => (cb, p)) <$> callbacks w)
  end.
Proof.
  intros Hc%coherent_reach.
  pose proof (Watch_announcement nodeID k lastVersion w Hc) as Ha.
  destruct (Watch nodeID (replicate (S k) id) lastVersion w) as [v w'].
  destruct Ha as (Ht & Hv & _). specialize (Hc nodeID).
  unfold announcement in Ht. unfold GetSnapshot, GetVersion.
  destruct (snapshots (cache w) !! nodeID) as [p|] eqn:Hsn,
    (versions (cache w) !! nodeID) as [x|] eqn:Hvs; try done.
  - cbn in Hv. subst v. done.
  - by rewrite app_nil_r in Ht.
Qed.

(** Two snapshots without a version, published one after the other. *)
Lemma publish_unversioned nodeID p now w w' s :
  SetSnapshot nodeID (Some p) now w = Ret w' -> store w !! p = Some s -> Version s = "" ->
  versions (cache w') !! nodeID = Some (itoa (Unix now)) /\
  snapshots (cache w') !! nodeID = Some p /\ callbacks w' = callbacks w /\ told w' = told w /\
  (forall q, q <> p -> store w' !! q = store w !! q).
Proof.
  intros (q & s' & [= <-] & Hs' & Hst & Hsn & Hvs & Hcb & Ht & _)%SetSnapshot_ret Hs Hv.
  rewrite Hs in Hs'. injection Hs' as <-. rewrite Hsn, Hvs, !lookup_insert_eq, Hst.
  rewrite published_Version, (bool_decide_eq_true_2 _ Hv).
  split_and!; try done. intros q Hq. by apply list_lookup_insert_ne.
Qed.

(** For snapshots without a version, published one after the other with ticks of Watch
    in between, the second is announced if and only if the two publications fall into
    different seconds of the clock; otherwise no number of later ticks announces it,
    because the generated version is the time in seconds. *)
Theorem Watch_same_second nodeID p1 p2 s1 s2 t1 t2 w0 w1 w3 k j :
  coherent w0 -> p1 <> p2 ->
  store w0 !! p1 = Some s1 -> store w0 !! p2 = Some s2 -> Version s1 = "" -> Version s2 = "" ->
  SetSnapshot nodeID (Some p1) t1 w0 = Ret w1 ->
  let '(v, w2) := Watch nodeID (replicate (S k) id) "" w1 in
  SetSnapshot nodeID (Some p2) t2 w2 = Ret w3 ->
  told (snd (Watch nodeID (replicate (S j) id) v w3)) =
    told w0 ++ ((fun cb => (cb, p1)) <$> callbacks w0) ++
    (if Unix t1 =? Unix t2 then [] else (fun cb => (cb, p2)) <$> callbacks w0).
Proof.
  intros Hc Hne Hs1 Hs2 Hv1 Hv2 H1.
  destruct (publish_unversioned _ _ _ _ _ _ H1 Hs1 Hv1) as (V1 & S1 & C1 & T1 & K1).
  pose proof (coherent_set _ _ _ _ _ H1 Hc) as Hc1.
  pose proof (Watch_announcement nodeID k "" w1 Hc1) as Ha.
  destruct (Watch nodeID (replicate (S k) id) "" w1) as [v w2].
  destruct Ha as (Ht & Hv & Hca & Hcb & Hst). intros H3.
  unfold announcement in Ht. rewrite V1, S1, C1, T1 in Ht.
  rewrite bool_decide_eq_false_2 in Ht by apply itoa_nonempty.
  rewrite V1 in Hv. cbn in Hv. subst v.
  assert (store w2 !! p2 = Some s2) as Hs2' by (by rewrite Hst, K1).
  destruct (publish_unversioned _ _ _ _ _ _ H3 Hs2' Hv2) as (V3 & S3 & C3 & T3 & _).
  assert (coherent w2) as Hc2 by (intros n; rewrite Hca, Hst; apply Hc1).
  pose proof (Watch_announcement nodeID j (itoa (Unix t1)) w3
    (coherent_set _ _ _ _ _ H3 Hc2)) as Ha3.
  destruct (Watch nodeID (replicate (S j) id) (itoa (Unix t1)) w3) as [v4 w4].
  destruct Ha3 as (Ht4 & _). cbn [snd]. rewrite Ht4, T3, Ht. unfold announcement.
  rewrite V3, S3, C3, Hcb, C1, <- app_assoc. do 2 f_equal.
  destruct (Z.eqb_spec (Unix t1) (Unix t2)) as [->|Hd].
  - by rewrite (bool_decide_eq_true_2 _ eq_refl).
  - rewrite bool_decide_eq_false_2; [done|]. intros Hi%(inj itoa). congruence.
Qed.

(** ** Life cycle *)

Inductive xcall := CallStart (listen_ok : bool) | CallStop.

Definition xrun1 (c : xcall) (s : XDSServer) : option xds_error * XDSServer :=
  match c with CallStart ok => Start ok s | CallStop => Stop s end.

(** The results of a sequence of calls and the server after them. *)
Fixpoint xrun (l : list xcall) (s : XDSServer) : list (xcall * option xds_error) * XDSServer :=
  match l with
  | [] => ([], s)
  | c :: l =>
      let '(r, s) := xrun1 c s in
      let '(rs, s) := xrun l s in ((c, r) :: rs, s)
  end.

(** +1 for a [Start] that returned nil, -1 for such a [Stop]. *)
Definition balance (cr : xcall * option xds_error) : Z :=
  match cr with
  | (CallStart _, None) => 1
  | (CallStop, None) => -1
  | _ => 0
  end.

(** Which error a call may return in which state. *)
Definition verdict (c : xcall) (s : XDSServer) : option xds_error :=
  match c, started s with
  | CallStart _, true => Some AlreadyStarted
  | CallStart true, false => None
  | CallStart false, false => Some (ListenFailed (addr s))
  | CallStop, true => None
  | CallStop, false => Some NotStarted
  end.

(** In every sequence of Start and Stop calls the successful ones alternate (a start is
    outstanding exactly when the server is started), and every call returns exactly the
    documented verdict: already started, the listen error of the server's address, not
    started, or nil. *)
Theorem XDSServer_lifecycle l a c :
  let '(rs, s) := xrun l (NewXDSServer a) in
  sum_by balance rs = Z.b2z (started s) /\ addr s = sc_ListenAddr a /\
  (started s = true -> grpcServer s = true) /\
  fst (xrun1 c s) = verdict c s.
Proof.
  assert (forall l s, (started s = true -> grpcServer s = true) ->
    let '(rs, s') := xrun l s in
    Z.b2z (started s) + sum_by balance rs = Z.b2z (started s') /\ addr s' = addr s /\
      (started s' = true -> grpcServer s' = true)) as Hgen.
  { clear. induction l as [|c l IH]; intros s Hg; cbn; [split_and!; try done; lia|].
    assert (let '(r, s1) := xrun1 c s in
      Z.b2z (started s) + balance (c, r) = Z.b2z (started s1) /\ addr s1 = addr s /\
      (started s1 = true -> grpcServer s1 = true)) as H1.
    { destruct c as [[]|], s as [? ? ? []]; cbn in *; auto. }
    destruct (xrun1 c s) as [r s1]. destruct H1 as (B1 & A1 & G1). specialize (IH s1 G1).
    destruct (xrun l s1) as [rs s2]. destruct IH as (B2 & A2 & G2).
    change (sum_by balance ((c, r) :: rs)) with (balance (c, r) + sum_by balance rs).
    split_and!; [lia|congruence|done]. }
  pose proof (Hgen l (NewXDSServer a) ltac:(done)) as H.
  destruct (xrun l (NewXDSServer a)) as [rs s]. destruct H as (B & A & G). cbn in B, A.
  split_and!; [lia|done|done|]. by destruct c as [[]|], s as [? ? ? []].
Qed.

(** ** Examples *)

(** Two snapshots without versions and one callback. *)
Definition x0 : world := NewDynamicConfigManager (NewXDSServer (mkServerConfig ":18000" None)).
Definition x1 : world :=
  RegisterCallback 7 (snd (NewSnapshot "" 0 (snd (NewSnapshot "" 0 x0)))).
Definition get_world (o : outcome world) : world := match o with Ret w => w | Panic => x0 end.
Definition x2 : world := get_world (UpdateConfig "node" (Some 0%nat) (5 * Second) x1).

Definition x1_events : list xevent := [XNew "" 0; XNew "" 0; XRegister 7].
Definition x2_events : list xevent := x1_events ++ [XPublish "node" (Some 0%nat) (5 * Second)].

Lemma xevents_reach l w h w' h' : xevents l w h = Ret (w', h') -> rtc xstep w w'.
Proof.
  revert w h. induction l as [|e l IH]; intros w h; cbn; [by intros [= <- <-]|].
  destruct (xdo e w) as [w1|] eqn:He; [|done]. intros Hr. eapply rtc_l; [by exists e|]. by eapply IH.
Qed.

Lemma x1_reached : rtc xstep x0 x1.
Proof. eapply (xevents_reach x1_events _ no_history). vm_compute. reflexivity. Qed.

Lemma x2_reached : rtc xstep x0 x2.
Proof. eapply (xevents_reach x2_events _ no_history). vm_compute. reflexivity. Qed.

(** The publisher changes the version of its snapshot after the publication: the cache keeps
    the one it was published with. *)
Lemma SnapshotCache_coherent_witness :
  exists w h, xevents (x2_events ++ [XEdit 0 (mkSnapshot "v2" None None None None 0)]) x0 no_history = Ret (w, h) /\
    GetSnapshot "node" (cache w) = Ok 0%nat /\ GetVersion "node" (cache w) = Some "5"%string.
Proof.
  eexists _, _. split; [vm_compute; reflexivity|].
  pose proof (SnapshotCache_coherent (mkServerConfig ":18000" None)
    (x2_events ++ [XEdit 0 (mkSnapshot "v2" None None None None 0)]) _ _ "node" eq_refl) as Hc.
  destruct Hc as (H1 & H2 & _). exact (conj H1 H2).
Defined.

Lemma Watch_announces_witness :
  told (snd (Watch "node" (replicate 3 id) "" x2)) = [(7, 0); (7, 0)]%nat.
Proof.
  pose proof (Watch_announces (mkServerConfig ":18000" None) x2 "node" 2 "" x2_reached) as Hw.
  destruct (Watch "node" (replicate 3 id) "" x2) as [v w'] eqn:He.
  assert (v = "5"%string) as Hv.
  { change v with (fst (v, w')). rewrite <- He. vm_compute. reflexivity. }
  assert (GetSnapshot "node" (cache x2) = Ok 0%nat) as Hg by (vm_compute; reflexivity).
  rewrite Hg in Hw. cbn [snd]. destruct Hw as [_ ->]. rewrite Hv. vm_compute. reflexivity.
Defined.

(** The second publication within the same second is never announced. *)
Lemma Watch_same_second_witness :
  exists w, told w = [(7, 0)]%nat /\ snapshots (cache w) !! "node" = Some 1%nat.
Proof.
  pose (w1 := get_world (SetSnapshot "node" (Some 0%nat) (5 * Second) x1)).
  pose (w2 := snd (Watch "node" (replicate 1 id) "" w1)).
  pose (w3 := get_world (SetSnapshot "node" (Some 1%nat) (5 * Second + 900 * Millisecond) w2)).
  exists (snd (Watch "node" (replicate 4 id) "5" w3)). split; [|vm_compute; reflexivity].
  assert (coherent x1) as Hc by (eapply coherent_reach, x1_reached).
  pose proof (Watch_same_second "node" 0 1 (mkSnapshot "" (Some []) (Some []) (Some []) (Some []) 0) (mkSnapshot "" (Some []) (Some []) (Some []) (Some []) 0)
    (5 * Second) (5 * Second + 900 * Millisecond) x1 w1 w3 0 3 Hc ltac:(done)
    eq_refl eq_refl eq_refl eq_refl eq_refl) as Hw.
  change (Watch "node" (replicate 1 id) "" w1) with ("5"%string, w2) in Hw. cbv beta iota in Hw.
  rewrite (Hw eq_refl). vm_compute. reflexivity.
Defined.
