(* ===== verification/XdsJson.v ===== *)
(** * The JSON form of xDS snapshots (src/pkg/xds/server.go, [ToJSON] and [FromJSON])

    A snapshot as the reflected value the JSON package sees: the exported fields of its
    structs in their order, under their Go names. *)

From S2P Require Import Prelude GoStd GoTime Json JsonCodec Xds.

(** ** Snapshots as values *)

Definition slice_val {A} (zero : val) (f : A -> val) (o : slice A) : val :=
  VSlice zero (match o with Some l => Some (f <$> l, []) | None => None end).

Definition cluster_val (c : Cluster) : val :=
  VStruct [("Name", VString (cl_Name c)); ("Type", VString (cl_Type c));
           ("Backends", slice_val (VString "") VString (cl_Backends c)); ("LBPolicy", VString (cl_LBPolicy c))].
Definition endpoint_val (e : Endpoint) : val :=
  VStruct [("ClusterName", VString (ep_ClusterName e)); ("Address", VString (ep_Address e));
           ("Port", VInt (ep_Port e)); ("Weight", VInt (ep_Weight e)); ("Healthy", VBool (ep_Healthy e))].
Definition listener_val (l : Listener) : val :=
  VStruct [("Name", VString (li_Name l)); ("Address", VString (li_Address l)); ("Port", VInt (li_Port l));
           ("Routes", slice_val (VString "") VString (li_Routes l))].
Definition match_val (m : RouteMatch) : val :=
  VStruct [("Prefix", VString (rm_Prefix m)); ("Path", VString (rm_Path m)); ("Headers", VMap (rm_Headers m));
           ("QueryParams", VMap (rm_QueryParams m))].
Definition route_val (r : XRoute) : val :=
  VStruct [("Name", VString (xr_Name r)); ("Match", match_val (xr_Match r)); ("Cluster", VString (xr_Cluster r))].

(** The zero values of the structs. *)
Definition zero_cluster : Cluster := mkCluster "" "" None "".
Definition zero_endpoint : Endpoint := mkEndpoint "" "" 0 0 false.
Definition zero_listener : Listener := mkListener "" "" 0 None.
Definition zero_match : RouteMatch := mkRouteMatch "" "" None None.
Definition zero_route : XRoute := mkXRoute "" zero_match "".
Definition zero_snapshot : Snapshot := mkSnapshot "" None None None None time_zero.

Definition snapshot_val (s : Snapshot) : val :=
  VStruct [("Version", VString (Version s));
           ("Clusters", slice_val (cluster_val zero_cluster) cluster_val (Clusters s));
           ("Endpoints", slice_val (endpoint_val zero_endpoint) endpoint_val (Endpoints s));
           ("Listeners", slice_val (listener_val zero_listener) listener_val (Listeners s));
           ("Routes", slice_val (route_val zero_route) route_val (Routes s));
           ("Timestamp", VTime (Timestamp s))].

(** ** Values as snapshots: the values of the right type are the snapshots *)

Definition val_slice {A} (f : val -> option A) (v : val) : option (slice A) :=
  match v with
  | VSlice _ None => Some None
  | VSlice _ (Some (l, _)) => l ← mapM f l; Some (Some l)
  | _ => None
  end.
Definition val_string (v : val) : option string := match v with VString s => Some s | _ => None end.

Definition val_cluster (v : val) : option Cluster :=
  match v with
  | VStruct [(_, VString n); (_, VString t); (_, bs); (_, VString lb)] =>
      bs ← val_slice val_string bs; Some (mkCluster n t bs lb)
  | _ => None
  end.
Definition val_endpoint (v : val) : option Endpoint :=
  match v with
  | VStruct [(_, VString n); (_, VString a); (_, VInt p); (_, VInt w); (_, VBool h)] => Some (mkEndpoint n a p w h)
  | _ => None
  end.
Definition val_listener (v : val) : option Listener :=
  match v with
  | VStruct [(_, VString n); (_, VString a); (_, VInt p); (_, rs)] =>
      rs ← val_slice val_string rs; Some (mkListener n a p rs)
  | _ => None
  end.
Definition val_match (v : val) : option RouteMatch :=
  match v with
  | VStruct [(_, VString p); (_, VString q); (_, VMap h); (_, VMap ps)] => Some (mkRouteMatch p q h ps)
  | _ => None
  end.
Definition val_route (v : val) : option XRoute :=
  match v with
  | VStruct [(_, VString n); (_, m); (_, VString c)] => m ← val_match m; Some (mkXRoute n m c)
  | _ => None
  end.
Definition val_snapshot (v : val) : option Snapshot :=
  match v with
  | VStruct [(_, VString ver); (_, cs); (_, es); (_, ls); (_, rs); (_, VTime t)] =>
      cs ← val_slice val_cluster cs; es ← val_slice val_endpoint es;
      ls ← val_slice val_listener ls; rs ← val_slice val_route rs;
      Some (mkSnapshot ver cs es ls rs t)
  | _ => None
  end.

(** ** [ToJSON] and [FromJSON] *)

Definition ToJSON (zone : time -> Z) (s : Snapshot) : result json_error string :=
  MarshalIndent zone (snapshot_val s).

(** Decoding keeps the type of the zero snapshot it starts from: the last case does not
    arise ([FromJSON_verdict]). *)
Definition FromJSON (data : string) : result json_error Snapshot :=
  v ← Unmarshal data (snapshot_val zero_snapshot);
  match val_snapshot v with Some s => Ok s | None => Err UnmarshalTypeError end.

(** ** The conversions are inverse to each other *)

Lemma val_slice_slice {A} zero (f : A -> val) g (o : slice A) :
  (forall x, g (f x) = Some x) -> val_slice g (slice_val zero f o) = Some o.
Proof.
  intros Hg. destruct o as [l|]; [|done]. cbn.
  assert (mapM g (f <$> l) = Some l) as ->; [|done].
  induction l as [|x l IH]; [done|]. rewrite fmap_cons. cbn. by rewrite Hg, IH.
Qed.

Lemma val_cluster_val c : val_cluster (cluster_val c) = Some c.
Proof. destruct c. cbn -[val_slice slice_val]. by rewrite val_slice_slice. Qed.
Lemma val_endpoint_val e : val_endpoint (endpoint_val e) = Some e.
Proof. by destruct e. Qed.
Lemma val_listener_val l : val_listener (listener_val l) = Some l.
Proof. destruct l. cbn -[val_slice slice_val]. by rewrite val_slice_slice. Qed.
Lemma val_route_val r : val_route (route_val r) = Some r.
Proof. by destruct r as [? [] ?]. Qed.

Lemma val_snapshot_val s : val_snapshot (snapshot_val s) = Some s.
Proof.
  destruct s as [v cs es ls rs t]. unfold snapshot_val, val_snapshot. cbn [Version Clusters Endpoints Listeners Routes Timestamp].
  rewrite (val_slice_slice _ _ _ _ val_cluster_val). cbn [mbind option_bind].
  rewrite (val_slice_slice _ _ _ _ val_endpoint_val). cbn [mbind option_bind].
  rewrite (val_slice_slice _ _ _ _ val_listener_val). cbn [mbind option_bind].
  by rewrite (val_slice_slice _ _ _ _ val_route_val).
Qed.

(** ** What JSON can carry *)

Definition slice_ok {A} (Q : A -> Prop) (o : slice A) : Prop := match o with Some l => Forall Q l | None => True end.
Definition strmap_ok (o : strmap) : Prop :=
  match o with Some m => map_Forall (fun k s => valid_utf8 k = true /\ valid_utf8 s = true) m | None => True end.

Record cluster_ok (c : Cluster) : Prop := mkClusterOk {
  co_Name : utf8_ok (cl_Name c); co_Type : utf8_ok (cl_Type c);
  co_Backends : slice_ok utf8_ok (cl_Backends c); co_LBPolicy : utf8_ok (cl_LBPolicy c)
}.
Record endpoint_ok (e : Endpoint) : Prop := mkEndpointOk {
  eo_ClusterName : utf8_ok (ep_ClusterName e); eo_Address : utf8_ok (ep_Address e);
  eo_Port : in_s 64 (ep_Port e); eo_Weight : in_s 64 (ep_Weight e)
}.
Record listener_ok (l : Listener) : Prop := mkListenerOk {
  lo_Name : utf8_ok (li_Name l); lo_Address : utf8_ok (li_Address l);
  lo_Port : in_s 64 (li_Port l); lo_Routes : slice_ok utf8_ok (li_Routes l)
}.
Record route_ok (r : XRoute) : Prop := mkRouteOk {
  ro_Name : utf8_ok (xr_Name r); ro_Cluster : utf8_ok (xr_Cluster r);
  ro_Prefix : utf8_ok (rm_Prefix (xr_Match r)); ro_Path : utf8_ok (rm_Path (xr_Match r));
  ro_Headers : strmap_ok (rm_Headers (xr_Match r)); ro_QueryParams : strmap_ok (rm_QueryParams (xr_Match r))
}.

(** All strings are UTF-8, integers have the width of int, and the timestamp has a text in
    the zone it is printed in (a year of four digits). *)
Record snapshot_ok (zone : time -> Z) (s : Snapshot) : Prop := mkSnapshotOk {
  so_Version : utf8_ok (Version s);
  so_Clusters : slice_ok cluster_ok (Clusters s);
  so_Endpoints : slice_ok endpoint_ok (Endpoints s);
  so_Listeners : slice_ok listener_ok (Listeners s);
  so_Routes : slice_ok route_ok (Routes s);
  so_Timestamp : is_ok (time_text (zone (Timestamp s)) (Timestamp s)) = true
}.

Section fits.
Variable zone : time -> Z.

Lemma fits_map n m : strmap_ok m -> fits zone (S n) (VMap None) (VMap m).
Proof. by destruct m. Qed.

Lemma fits_slice {A} n z (f : A -> val) (Q : A -> Prop) o :
  (forall x, Q x -> fits zone n z (f x)) -> slice_ok Q o -> fits zone (S n) (slice_val z f None) (slice_val z f o).
Proof.
  intros Hf Ho. destruct o as [l|]; [|done]. cbn in Ho |- *. split_and!; [done|done|].
  apply Forall_fmap. eapply Forall_impl; [exact Ho|]. exact Hf.
Qed.
End fits.
#[local] Hint Resolve fits_map fits_slice : fits.

Lemma fits_cluster zone n c : cluster_ok c -> fits zone (S (S n)) (cluster_val zero_cluster) (cluster_val c).
Proof. intros []. fits_fields. Qed.
Lemma fits_endpoint zone n e : endpoint_ok e -> fits zone (S n) (endpoint_val zero_endpoint) (endpoint_val e).
Proof. intros []. fits_fields. Qed.
Lemma fits_listener zone n l : listener_ok l -> fits zone (S (S n)) (listener_val zero_listener) (listener_val l).
Proof. intros []. fits_fields. Qed.
Lemma fits_match zone n m :
  utf8_ok (rm_Prefix m) -> utf8_ok (rm_Path m) -> strmap_ok (rm_Headers m) -> strmap_ok (rm_QueryParams m) ->
  fits zone (S (S n)) (match_val zero_match) (match_val m).
Proof. intros ????. fits_fields. Qed.
#[local] Hint Resolve fits_match : fits.
Lemma fits_route zone n r : route_ok r -> fits zone (S (S (S n))) (route_val zero_route) (route_val r).
Proof. intros []. fits_fields. Qed.
#[local] Hint Resolve fits_cluster fits_endpoint fits_listener fits_route : fits.

Lemma fits_snapshot zone s : snapshot_ok zone s -> fits zone 5 (snapshot_val zero_snapshot) (snapshot_val s).
Proof. intros []. fits_fields. Qed.

(** ** Encoding fails on times only *)

Section encodes.
Variable zone : time -> Z.
Definition encodes (v : val) : Prop := is_ok (encode zone v) = true.

Lemma mapM_ok {A B} (f : A -> result json_error B) l :
  Forall (fun x => is_ok (f x) = true) l -> is_ok (mapM f l) = true.
Proof.
  induction 1 as [|x l Hx _ IH]; [done|].
  change (mapM f (x :: l)) with (y ← f x; ys ← mapM f l; Ok (y :: ys)).
  destruct (f x); [|done]. cbn [mbind result_bind]. by destruct (mapM f l).
Qed.

Lemma encodes_slice {A} z (f : A -> val) o : (forall x, encodes (f x)) -> encodes (slice_val z f o).
Proof.
  intros Hf. destruct o as [l|]; [|done]. unfold encodes. cbn [slice_val encode].
  assert (is_ok (mapM (encode zone) (f <$> l)) = true) as H.
  { apply mapM_ok, Forall_fmap, Forall_forall. intros x _. apply Hf. }
  by destruct (mapM (encode zone) (f <$> l)).
Qed.

Lemma encodes_struct fs : Forall (fun p => encodes p.2) fs -> encodes (VStruct fs).
Proof.
  intros Hf. unfold encodes. cbn [encode].
  match goal with |- is_ok (mapM ?f fs ≫= _) = _ => assert (is_ok (mapM f fs) = true) as H end.
  { apply mapM_ok. eapply Forall_impl; [exact Hf|]. intros p Hp. unfold encodes in Hp. by destruct (encode zone p.2). }
  by destruct (mapM _ fs).
Qed.

Lemma encodes_map m : encodes (VMap m).
Proof. by destruct m. Qed.
Lemma encodes_string s : encodes (VString s).
Proof. done. Qed.
End encodes.

#[local] Hint Resolve encodes_slice encodes_map encodes_string : encodes.
Ltac encodes_fields :=
  apply encodes_struct; repeat (constructor; [cbn [snd]; first [done|solve [auto with encodes]|idtac]|]); try constructor.

Lemma encodes_cluster zone c : encodes zone (cluster_val c).
Proof. encodes_fields. Qed.
Lemma encodes_endpoint zone e : encodes zone (endpoint_val e).
Proof. encodes_fields. Qed.
Lemma encodes_listener zone l : encodes zone (listener_val l).
Proof. encodes_fields. Qed.
Lemma encodes_match zone m : encodes zone (match_val m).
Proof. encodes_fields. Qed.
#[local] Hint Resolve encodes_match : encodes.
Lemma encodes_route zone r : encodes zone (route_val r).
Proof. encodes_fields. Qed.
#[local] Hint Resolve encodes_cluster encodes_endpoint encodes_listener encodes_route : encodes.

(** The fields of a snapshot before its timestamp. *)
Definition snapshot_fields (s : Snapshot) : list (string * val) :=
  [("Version", VString (Version s));
   ("Clusters", slice_val (cluster_val zero_cluster) cluster_val (Clusters s));
   ("Endpoints", slice_val (endpoint_val zero_endpoint) endpoint_val (Endpoints s));
   ("Listeners", slice_val (listener_val zero_listener) listener_val (Listeners s));
   ("Routes", slice_val (route_val zero_route) route_val (Routes s))].

Lemma mapM_snoc {A B} (f : A -> result json_error B) l x :
  mapM f (l ++ [x]) = (ys ← mapM f l; y ← f x; Ok (ys ++ [y])).
Proof.
  induction l as [|a l IH].
  { cbn. by destruct (f x). }
  change ((a :: l) ++ [x]) with (a :: (l ++ [x])).
  change (mapM f (a :: ?k)) with (y ← f a; ys ← mapM f k; Ok (y :: ys)). rewrite IH.
  destruct (f a); [|done]. cbn [mbind result_bind]. destruct (mapM f l); [|done]. cbn [mbind result_bind].
  by destruct (f x).
Qed.

Lemma encode_snapshot zone s :
  match time_text (zone (Timestamp s)) (Timestamp s) with
  | Ok _ => encodes zone (snapshot_val s)
  | Err te => encode zone (snapshot_val s) = Err (TimeError te)
  end.
Proof.
  unfold encodes. change (snapshot_val s) with (VStruct (snapshot_fields s ++ [("Timestamp", VTime (Timestamp s))])).
  cbn [encode]. rewrite mapM_snoc.
  match goal with |- context [mapM ?f (snapshot_fields s)] =>
    assert (is_ok (mapM f (snapshot_fields s)) = true) as H end.
  { apply mapM_ok. assert (Forall (fun p => encodes zone p.2) (snapshot_fields s)) as Hs.
    { repeat (constructor; [cbn [snd]; first [done|solve [auto with encodes]]|]). constructor. }
    eapply Forall_impl; [exact Hs|]. intros p Hp. unfold encodes in Hp. by destruct (encode zone p.2). }
  destruct (mapM _ (snapshot_fields s)) as [ys|]; [|done]. cbn [mbind result_bind snd encode].
  by destruct (time_text _ _).
Qed.

(** ** Values of the type of snapshots are snapshots *)

Definition cluster_ty : ty :=
  TStruct [("Name", TString); ("Type", TString); ("Backends", TSlice TString); ("LBPolicy", TString)].
Definition endpoint_ty : ty :=
  TStruct [("ClusterName", TString); ("Address", TString); ("Port", TInt); ("Weight", TInt); ("Healthy", TBool)].
Definition listener_ty : ty :=
  TStruct [("Name", TString); ("Address", TString); ("Port", TInt); ("Routes", TSlice TString)].
Definition match_ty : ty :=
  TStruct [("Prefix", TString); ("Path", TString); ("Headers", TMap); ("QueryParams", TMap)].
Definition route_ty : ty := TStruct [("Name", TString); ("Match", match_ty); ("Cluster", TString)].
Definition snapshot_ty : ty :=
  TStruct [("Version", TString); ("Clusters", TSlice cluster_ty); ("Endpoints", TSlice endpoint_ty);
           ("Listeners", TSlice listener_ty); ("Routes", TSlice route_ty); ("Timestamp", TTime)].

Ltac typed_inv :=
  repeat match goal with
    | H : Forall2 _ (_ :: _) _ |- _ => inversion H; subst; clear H
    | H : Forall2 _ [] _ |- _ => inversion H; subst; clear H
    | H : _ /\ _ |- _ => destruct H
    | p : (string * val)%type |- _ => destruct p; cbn [fst snd] in *
    | H : typed TString _ |- _ => inversion H; subst; clear H
    | H : typed TInt _ |- _ => inversion H; subst; clear H
    | H : typed TBool _ |- _ => inversion H; subst; clear H
    | H : typed TTime _ |- _ => inversion H; subst; clear H
    | H : typed TMap _ |- _ => inversion H; subst; clear H
    end.

Lemma typed_val_slice {A} t (f : val -> option A) v :
  (forall v, typed t v -> is_Some (f v)) -> typed (TSlice t) v -> is_Some (val_slice f v).
Proof.
  intros Hf Hv. inversion Hv as [| | | |? z Hz|? z l hid Hz Hl| |]; subst; cbn; [by eexists|].
  apply Forall_app in Hl as [Hl _].
  assert (is_Some (mapM f l)) as [k ->]; [|by eexists].
  apply mapM_is_Some_2. eapply Forall_impl; [exact Hl|]. exact Hf.
Qed.

Lemma typed_string_val v : typed TString v -> is_Some (val_string v).
Proof. inversion 1. by eexists. Qed.

(** One field of a value of struct type after another. *)
Ltac typed_struct H :=
  inversion H; subst; clear H; typed_inv; cbn [fst snd] in *; typed_inv; cbn -[val_slice].
Ltac slice_field L :=
  match goal with
  | H : typed (TSlice _) ?v |- context [val_slice ?f ?v] =>
      destruct (typed_val_slice _ f v L H) as [? ->]; clear H; cbn [mbind option_bind]
  end.

Lemma typed_cluster v : typed cluster_ty v -> is_Some (val_cluster v).
Proof. intros H. typed_struct H. slice_field typed_string_val. by eexists. Qed.
Lemma typed_endpoint v : typed endpoint_ty v -> is_Some (val_endpoint v).
Proof. intros H. typed_struct H. by eexists. Qed.
Lemma typed_listener v : typed listener_ty v -> is_Some (val_listener v).
Proof. intros H. typed_struct H. slice_field typed_string_val. by eexists. Qed.
Lemma typed_match v : typed match_ty v -> is_Some (val_match v).
Proof. intros H. typed_struct H. by eexists. Qed.
Lemma typed_route v : typed route_ty v -> is_Some (val_route v).
Proof.
  intros H. typed_struct H. match goal with H : typed match_ty _ |- _ => destruct (typed_match _ H) as [? ->] end.
  by eexists.
Qed.

Lemma typed_snapshot v : typed snapshot_ty v -> is_Some (val_snapshot v).
Proof.
  intros H. typed_struct H. slice_field typed_cluster. slice_field typed_endpoint.
  slice_field typed_listener. slice_field typed_route. by eexists.
Qed.

Lemma typed_zero_snapshot : typed snapshot_ty (snapshot_val zero_snapshot).
Proof. repeat (constructor; cbn [fst snd]). Qed.

(** The decoded value is always a snapshot: no error comes from the conversion. *)
Lemma FromJSON_Unmarshal data :
  is_ok (FromJSON data) = is_ok (Unmarshal data (snapshot_val zero_snapshot)).
Proof.
  pose proof (Unmarshal_typed snapshot_ty data _ typed_zero_snapshot) as H. unfold FromJSON.
  destruct (Unmarshal data (snapshot_val zero_snapshot)) as [v|e]; [|done]. cbn [mbind result_bind].
  by destruct (typed_snapshot v (proj1 H)) as [? ->].
Qed.

(** ** Properties *)

(** C11: A snapshot survives JSON: for every snapshot whose strings are UTF-8, whose
    integers have 64 bits and whose timestamp has a text (a year of four digits in the
    zone it is printed in), ToJSON succeeds, and FromJSON of its text, in the indented
    layout or in the compact one, gives back exactly the same snapshot, with nil and
    empty slices and maps kept apart. *)
Theorem FromJSON_ToJSON zone s :
  snapshot_ok zone s ->
  exists j, ToJSON zone s = Ok (print indented 0 j) /\ FromJSON (print indented 0 j) = Ok s /\
    FromJSON (print compact 0 j) = Ok s.
Proof.
  intros Hs%fits_snapshot. unfold ToJSON, MarshalIndent, FromJSON.
  destruct (Unmarshal_print zone indented 5 _ _ indented_ok ltac:(done) Hs) as (j & E & H).
  destruct (Unmarshal_print zone compact 5 _ _ compact_ok ltac:(done) Hs) as (j' & E' & H').
  rewrite E in E'. injection E' as <-. exists j. rewrite E, H, H'. cbn [mbind result_bind].
  by rewrite val_snapshot_val.
Qed.

(** The errors of the JSON form are decided: ToJSON fails exactly when the timestamp has
    no text, with that error; on arbitrary text FromJSON terminates, returns the syntax
    error exactly when the parser refuses the text (it never runs out of fuel), and
    otherwise returns a snapshot whenever the decoder reports no type or time error. *)
Theorem Snapshot_JSON_errors zone s data :
  match time_text (zone (Timestamp s)) (Timestamp s) with
  | Ok _ => exists text, ToJSON zone s = Ok text
  | Err te => ToJSON zone s = Err (TimeError te)
  end /\
  match FromJSON data with
  | Err SyntaxError => parse data = Err Syntax
  | _ => exists j, parse data = Ok j
  end /\
  is_ok (FromJSON data) = is_ok (Unmarshal data (snapshot_val zero_snapshot)).
Proof.
  split; [|split; [|apply FromJSON_Unmarshal]].
  - pose proof (encode_snapshot zone s) as H. unfold ToJSON, MarshalIndent, encodes in *.
    destruct (time_text _ _); [|by rewrite H]. destruct (encode zone (snapshot_val s)); [|done]. by eexists.
  - pose proof (Unmarshal_typed snapshot_ty data _ typed_zero_snapshot) as H. unfold FromJSON.
    destruct (Unmarshal data (snapshot_val zero_snapshot)) as [v|e]; cbn [mbind result_bind]; [|by destruct e].
    destruct H as [Hv Hp]. by destruct (typed_snapshot v Hv) as [? ->].
Qed.

(** ** Examples *)

Definition utc : time -> Z := fun _ => 0.
Definition snap1 : Snapshot :=
  mkSnapshot "v1" (Some [mkCluster "web" "STATIC" (Some ["10.0.0.1:80"]) "round<robin>"]) (Some [])
    None (Some [mkXRoute "r" (mkRouteMatch "/" "" (Some {["X-A" := "1"; "X-B" := "2"]}) None) "web"]) (5 * Second).

Lemma snap1_ok : snapshot_ok utc snap1.
Proof.
  split; try done.
  - repeat constructor.
  - constructor.
  - constructor; [|constructor]. split; try done. cbn. intros k s Hk.
    apply lookup_insert_Some in Hk as [[<- <-]|[_ Hk]]; [done|]. apply lookup_singleton_Some in Hk as [<- <-]. done.
Qed.

Lemma FromJSON_ToJSON_witness :
  snapshot_ok utc snap1 /\
  exists j, ToJSON utc snap1 = Ok (print indented 0 j) /\ FromJSON (print indented 0 j) = Ok snap1 /\
    FromJSON (print compact 0 j) = Ok snap1.
Proof. split; [exact snap1_ok|]. apply (FromJSON_ToJSON utc snap1). exact snap1_ok. Defined.

Example ToJSON_text :
  ToJSON utc (mkSnapshot "v" (Some []) None None None (5 * Second)) =
  Ok (String lbrace (String (ascii_of_byte 10) (
      "  " +:+ quote "Version" +:+ ": " +:+ quote "v" +:+ "," +:+ str1 (ascii_of_byte 10) +:+
      "  " +:+ quote "Clusters" +:+ ": []," +:+ str1 (ascii_of_byte 10) +:+
      "  " +:+ quote "Endpoints" +:+ ": null," +:+ str1 (ascii_of_byte 10) +:+
      "  " +:+ quote "Listeners" +:+ ": null," +:+ str1 (ascii_of_byte 10) +:+
      "  " +:+ quote "Routes" +:+ ": null," +:+ str1 (ascii_of_byte 10) +:+
      "  " +:+ quote "Timestamp" +:+ ": " +:+ quote "1970-01-01T00:00:05Z" +:+ str1 (ascii_of_byte 10) +:+
      str1 rbrace))).
Proof. vm_compute. reflexivity. Qed.

(** A name that is not UTF-8 comes back changed. *)
Example bad_utf8_replaced :
  (match ToJSON utc (mkSnapshot (str1 (ascii_of_byte 255)) None None None None 0) with
   | Ok text => match FromJSON text with Ok s => Some (Version s) | Err _ => None end
   | Err _ => None
   end) = Some (EncodeRune RuneError).
Proof. vm_compute. reflexivity. Qed.

(** Keys match without regard to case, unknown ones are ignored; a wrong type is an error. *)
Example FromJSON_fold :
  FromJSON (print compact 0 (JObj [("version", JStr "a"); ("other", JNum "1"); ("CLUSTERS", JNull)])) =
  Ok (mkSnapshot "a" None None None None time_zero).
Proof. vm_compute. reflexivity. Qed.
Example FromJSON_type_error :
  FromJSON (print compact 0 (JObj [("Version", JNum "1"); ("Endpoints", JArr [JObj [("Port", JStr "80")]])])) =
  Err UnmarshalTypeError.
Proof. vm_compute. reflexivity. Qed.
Example FromJSON_null : FromJSON " null " = Ok zero_snapshot.
Proof. vm_compute. reflexivity. Qed.
