(* ===== verification/Termination.v ===== *)
(** * TLS termination (src/pkg/tls/termination.go and the rest of config.go)

    The terminator with its settings, its listener (which keeps the crypto/tls settings
    it was created with) and its counters, and the connections it hands out, which live
    in a store because a connection and the terminator's counters are shared.  What the
    network and the handshakes answer is an argument of the operations.  [Accept] and
    [trackedConn_Close] are the operations as a goroutine alone executes them;
    [term_accept_step] and [conn_close_step] are their statements, which interleave in
    [tstep], since Close tests and sets its flag without synchronisation. *)

From S2P Require Import Prelude GoStd Certs.

(** ** Settings of crypto/tls *)

(** [GetCertificate] and [ClientSessionCache] are set or not; [sessionTicketKeys] are
    the keys passed to [SetSessionTicketKeys]. *)
Record StdConfig := mkStdConfig {
  std_MinVersion : Z;
  std_MaxVersion : Z;
  std_CipherSuites : list Z;
  std_PreferServerCipherSuites : bool;
  std_SessionTicketsDisabled : bool;
  std_ClientAuth : Z;
  std_NextProtos : list string;
  std_InsecureSkipVerify : bool;
  std_Renegotiation : Z;
  std_GetCertificate : bool;
  std_ClientSessionCache : bool;
  std_sessionTicketKeys : list (list Z)
}.
#[export] Instance eta_StdConfig : Eta StdConfig := fun c =>
  mkStdConfig (std_MinVersion c) (std_MaxVersion c) (std_CipherSuites c)
    (std_PreferServerCipherSuites c) (std_SessionTicketsDisabled c) (std_ClientAuth c)
    (std_NextProtos c) (std_InsecureSkipVerify c) (std_Renegotiation c) (std_GetCertificate c)
    (std_ClientSessionCache c) (std_sessionTicketKeys c).

Definition ToStdConfig (c : TLSSettings) : StdConfig :=
  mkStdConfig (u16 (MinVersion c)) (u16 (MaxVersion c)) (CipherSuites c)
    (PreferServerCipherSuites c) (SessionTicketsDisabled c) (ClientAuth c) (NextProtos c)
    (InsecureSkipVerify c) (Renegotiation c) false false [].

(** ** The terminator *)

(** A listener holds the settings it was created with. *)
Record tls_listener := mkListener { l_config : StdConfig; l_open : bool }.
#[export] Instance eta_tls_listener : Eta tls_listener := fun l => mkListener (l_config l) (l_open l).

Record Terminator := mkTerminator {
  t_config : TLSSettings;
  t_certMgr : CertificateManager;
  t_listener : option tls_listener;
  t_tlsConfig : StdConfig;
  totalConnections : Z;
  activeConnections : Z;
  totalHandshakes : Z;
  failedHandshakes : Z;
  resumedSessions : Z;
  handshakeDuration : Z
}.
#[export] Instance eta_Terminator : Eta Terminator := fun t =>
  mkTerminator (t_config t) (t_certMgr t) (t_listener t) (t_tlsConfig t) (totalConnections t)
    (activeConnections t) (totalHandshakes t) (failedHandshakes t) (resumedSessions t)
    (handshakeDuration t).

Inductive term_error :=
| InvalidTLSConfig (e : tls_error)
| CertManagerRequired
| ListenError
| ListenerNotInitialized
| AcceptError
| ContextDone
| NotTLSConnection
| HandshakeFailed.
#[export] Instance term_error_eq_dec : EqDecision term_error.
Proof. solve_decision. Defined.

Definition buildTLSConfig (config : TLSSettings) : StdConfig :=
  let tlsConfig := ToStdConfig config in
  let tlsConfig := tlsConfig <| std_GetCertificate := true |> in
  let tlsConfig :=
    if SessionTicketsDisabled config then tlsConfig
    else
      let tlsConfig := tlsConfig <| std_SessionTicketsDisabled := false |> in
      if bool_decide (SessionTicketKey config = zeroKey) then tlsConfig
      else tlsConfig <| std_sessionTicketKeys := [SessionTicketKey config] |> in
  tlsConfig <| std_ClientSessionCache := true |>.

(** [config] and [certMgr] may be nil. *)
Definition NewTerminator (config : option TLSSettings) (certMgr : option CertificateManager) :
    result term_error Terminator :=
  let config := default DefaultConfig config in
  match TLS_Validate config with
  | Some err => Err (InvalidTLSConfig err)
  | None =>
      match certMgr with
      | None => Err CertManagerRequired
      | Some cm => Ok (mkTerminator config cm None (buildTLSConfig config) 0 0 0 0 0 0)
      end
  end.

Definition Listen (listen_ok : bool) (t : Terminator) : option term_error * Terminator :=
  if listen_ok then (None, t <| t_listener := Some (mkListener (t_tlsConfig t) true) |>)
  else (Some ListenError, t).

Definition Terminator_Close (t : Terminator) : Terminator :=
  t <| t_listener ::= fmap (fun l => l <| l_open := false |>) |>.

Definition UpdateConfig (config : TLSSettings) (t : Terminator) : option term_error * Terminator :=
  match TLS_Validate config with
  | Some err => (Some (InvalidTLSConfig err), t)
  | None => (None, t <| t_config := config |> <| t_tlsConfig := buildTLSConfig config |>)
  end.

(** ** Connections *)

(** A connection the terminator handed out. *)
Record trackedConn := mkTrackedConn { tc_closed : bool; tc_config : StdConfig }.
#[export] Instance eta_trackedConn : Eta trackedConn := fun c => mkTrackedConn (tc_closed c) (tc_config c).

Abbreviation tcptr := nat (only parsing).

Record tworld := mkTWorld { term : Terminator; tconns : list trackedConn }.
#[export] Instance eta_tworld : Eta tworld := fun w => mkTWorld (term w) (tconns w).

(** [incoming]: the listener delivers a connection or an error. *)
Definition Accept (incoming : bool) (w : tworld) : result term_error tcptr * tworld :=
  match t_listener (term w) with
  | None => (Err ListenerNotInitialized, w)
  | Some l =>
      if incoming && l_open l then
        (Ok (length (tconns w)),
         w <| term ::= fun t => t <| totalConnections := i64 (totalConnections t + 1) |>
                <| activeConnections := i64 (activeConnections t + 1) |> |>
           <| tconns := tconns w ++ [mkTrackedConn false (l_config l)] |>)
      else (Err AcceptError, w)
  end.

(** [AcceptWithContext]: when the context ends first the caller gets its error, and the
    goroutine that accepts still does so, for nobody. *)
Definition AcceptWithContext (ctx_first incoming : bool) (w : tworld) :
    result term_error tcptr * tworld :=
  let '(r, w') := Accept incoming w in
  if ctx_first then (Err ContextDone, w') else (r, w').

Definition trackedConn_Close (p : tcptr) (w : tworld) : tworld :=
  match tconns w !! p with
  | None => w
  | Some c =>
      if tc_closed c then w
      else w <| term ::= fun t => t <| activeConnections := i64 (activeConnections t - 1) |> |>
             <| tconns := <[p := c <| tc_closed := true |>]> (tconns w) |>
  end.

(** What [PerformHandshake] is given: a plain TLS connection or one wrapped by [Accept]. *)
Inductive net_conn := TLSConn | Tracked (p : tcptr).

(** [hs]: the handshake's outcome, resumed or not, and how long it took. *)
Definition PerformHandshake (conn : net_conn) (hs : option bool) (took : duration)
    (t : Terminator) : option term_error * Terminator :=
  match conn with
  | Tracked _ => (Some NotTLSConnection, t)
  | TLSConn =>
      let t := t <| totalHandshakes := i64 (totalHandshakes t + 1) |> in
      match hs with
      | None => (Some HandshakeFailed, t <| failedHandshakes := i64 (failedHandshakes t + 1) |>)
      | Some resumed =>
          let t := t <| handshakeDuration := i64 (handshakeDuration t + go_div took 1000) |> in
          (None, if (resumed : bool) then t <| resumedSessions := i64 (resumedSessions t + 1) |> else t)
      end
  end.

Record TerminatorStats := mkTerminatorStats {
  total_connections : Z;
  active_connections : Z;
  total_handshakes : Z;
  failed_handshakes : Z;
  resumed_sessions : Z;
  avg_handshake_duration : Z
}.

Definition Terminator_Stats (t : Terminator) : TerminatorStats :=
  mkTerminatorStats (totalConnections t) (activeConnections t) (totalHandshakes t)
    (failedHandshakes t) (resumedSessions t)
    (if 0 <? totalHandshakes t then go_div (handshakeDuration t) (totalHandshakes t) else 0).

Definition tlsVersionString (version : Z) : string :=
  if version =? VersionTLS10 then "TLS 1.0"
  else if version =? VersionTLS11 then "TLS 1.1"
  else if version =? VersionTLS12 then "TLS 1.2"
  else if version =? VersionTLS13 then "TLS 1.3"
  else "Unknown (" +:+ itoa version +:+ ")".

(** [Clone]: the slices are copied element by element. *)
Definition TLS_Clone (c : TLSSettings) : TLSSettings :=
  mkTLSSettings (MinVersion c) (MaxVersion c) (firstn (length (CipherSuites c)) (CipherSuites c))
    (PreferServerCipherSuites c) (SessionTicketsDisabled c) (SessionTicketKey c) (ClientAuth c)
    (firstn (length (NextProtos c)) (NextProtos c)) (InsecureSkipVerify c) (Renegotiation c).

(** [addr] is the address of the listener. *)
Definition Terminator_Addr (addr : string) (t : Terminator) : option string :=
  match t_listener t with Some _ => Some addr | None => None end.

Definition GetTLSConfig (t : Terminator) : StdConfig := t_tlsConfig t.

(** ** Dialling backends *)

(** The client side of crypto/tls: [handshake config serverName] is the error of a client
    handshake.  Its documentation demands a server name or [InsecureSkipVerify]; the
    settings that the terminator builds have no server name, and [tls.DialWithDialer]
    takes it from the address when it has none. *)
Class ClientTLS := {
  handshake : StdConfig -> string -> option string;
  handshake_needs_name c : std_InsecureSkipVerify c = false -> handshake c "" <> None
}.

(** What became of the TCP connection. *)
Inductive socket := NotDialled | SocketOpen | SocketClosed.

Inductive dial_error := FailedDial (e : string) | DialHandshakeFailed (e : string).

Section dialling.
Context `{ClientTLS}.

(** tls.DialWithDialer closes the connection when the handshake fails. *)
Definition DialWithDialer (dial : option string) (address : string) (c : StdConfig)
  : option dial_error * socket :=
  match dial with
  | Some e => (Some (FailedDial e), NotDialled)
  | None =>
      let colonPos := LastIndexByte address colon in
      let hostname := if colonPos =? -1 then address else str_take (Z.to_nat colonPos) address in
      match handshake c hostname with
      | Some e => (Some (DialHandshakeFailed e), SocketClosed)
      | None => (None, SocketOpen)
      end
  end.

(** [dial] is the error of the TCP connection within the timeout or the context; both
    calls use a clone of the server settings. *)
Definition DialTLS (dial : option string) (address : string) (t : Terminator) : option dial_error * socket :=
  let clientConfig := t_tlsConfig t in
  DialWithDialer dial address clientConfig.

Definition DialTLSContext (dial : option string) (t : Terminator) : option dial_error * socket :=
  match dial with
  | Some e => (Some (FailedDial e), NotDialled)
  | None =>
      let clientConfig := t_tlsConfig t in
      match handshake clientConfig "" with
      | Some e => (Some (DialHandshakeFailed e), SocketClosed)
      | None => (None, SocketOpen)
      end
  end.
End dialling.

(** ** Construction *)

(** The versions crypto/tls is told are the ones asked for. *)
Lemma valid_versions c :
  TLS_Validate c = None ->
  VersionTLS10 <= MinVersion c <= VersionTLS13 /\ u16 (MinVersion c) = MinVersion c /\
  u16 (MaxVersion c) = MaxVersion c /\
  (MaxVersion c = 0 \/ MinVersion c <= MaxVersion c <= VersionTLS13).
Proof.
  unfold TLS_Validate, VersionTLS10, VersionTLS13. intros Hv.
  destruct (Z.ltb_spec (MinVersion c) 769); [done|]. destruct (Z.ltb_spec 772 (MinVersion c)); [done|].
  cbn in Hv. destruct (Z.eqb_spec (MaxVersion c) 0) as [->|Hm]; cbn in Hv.
  - rewrite (uwrap_small _ (MinVersion c)) by (unfold in_u; lia).
    split_and!; try done; auto with lia.
  - destruct (Z.ltb_spec (MaxVersion c) 769); [done|]. destruct (Z.ltb_spec 772 (MaxVersion c)); [done|].
    cbn in Hv. destruct (Z.ltb_spec (MaxVersion c) (MinVersion c)); [done|].
    rewrite !uwrap_small by (unfold in_u; lia). split_and!; try done; auto with lia.
Qed.

(** NewTerminator returns exactly the documented error (an invalid version range first,
    then a missing certificate manager), and otherwise a terminator whose crypto/tls
    settings carry the configured version range without truncation, the certificate
    callback, and the session ticket key exactly when tickets are enabled and a key is
    set. *)
Theorem NewTerminator_verdict config certMgr :
  let c := default DefaultConfig config in
  match NewTerminator config certMgr with
  | Err (InvalidTLSConfig e) => TLS_Validate c = Some e
  | Err CertManagerRequired => TLS_Validate c = None /\ certMgr = None
  | Err _ => False
  | Ok t =>
      TLS_Validate c = None /\ certMgr = Some (t_certMgr t) /\ t_listener t = None /\
      activeConnections t = 0 /\
      std_MinVersion (t_tlsConfig t) = MinVersion c /\
      std_MaxVersion (t_tlsConfig t) = MaxVersion c /\
      std_GetCertificate (t_tlsConfig t) = true /\
      std_SessionTicketsDisabled (t_tlsConfig t) = SessionTicketsDisabled c /\
      std_sessionTicketKeys (t_tlsConfig t) =
        (if SessionTicketsDisabled c || bool_decide (SessionTicketKey c = zeroKey) then []
         else [SessionTicketKey c])
  end.
Proof.
  cbv zeta. unfold NewTerminator. set (c := default DefaultConfig config).
  destruct (TLS_Validate c) as [e|] eqn:Hv; [done|]. destruct certMgr as [cm|]; [|done].
  apply valid_versions in Hv as (_ & Hmin & Hmax & _). cbn [t_tlsConfig t_certMgr t_listener].
  unfold buildTLSConfig, ToStdConfig. destruct (SessionTicketsDisabled c) eqn:Hd; [done|].
  by destruct (bool_decide (SessionTicketKey c = zeroKey)).
Qed.

Lemma NewTerminator_zero config certMgr t :
  NewTerminator config certMgr = Ok t -> activeConnections t = 0 /\ totalConnections t = 0.
Proof.
  unfold NewTerminator. destruct (TLS_Validate _); [done|]. destruct certMgr; [|done].
  by intros [= <-].
Qed.

(** ** Accounting, statement by statement

    The goroutines of the callers interleave at every access to shared state.  An accept
    has a connection and is before [totalConnections.Add], before [activeConnections.Add],
    before it returns the wrapper, or has returned. *)
Inductive accept_pc :=
| ATotal (cfg : StdConfig)
| AActive (cfg : StdConfig)
| AWrap (cfg : StdConfig)
| AReturned.

(** A [Close] of a tracked connection: before the test of [closed], before
    [activeConnections.Add(-1)], before [closed] is set, before the socket is closed, or
    returned.  Nothing synchronises the test with the assignment. *)
Inductive close_pc := CTest | CDecrement | CMark | CSocket | CReturned.
#[export] Instance close_pc_eq_dec : EqDecision close_pc.
Proof. solve_decision. Defined.

(** The next statement of an accept; [None] when it has returned. *)
Definition term_accept_step (pc : accept_pc) (w : tworld) : option (accept_pc * tworld) :=
  match pc with
  | ATotal cfg =>
      Some (AActive cfg, w <| term ::= fun t => t <| totalConnections := i64 (totalConnections t + 1) |> |>)
  | AActive cfg =>
      Some (AWrap cfg, w <| term ::= fun t => t <| activeConnections := i64 (activeConnections t + 1) |> |>)
  | AWrap cfg => Some (AReturned, w <| tconns := tconns w ++ [mkTrackedConn false cfg] |>)
  | AReturned => None
  end.

(** The next statement of a [Close] of the connection [p]. *)
Definition conn_close_step (p : tcptr) (pc : close_pc) (w : tworld) : option (close_pc * tworld) :=
  match pc, tconns w !! p with
  | CTest, Some c => Some (if tc_closed c then CSocket else CDecrement, w)
  | CDecrement, Some _ =>
      Some (CMark, w <| term ::= fun t => t <| activeConnections := i64 (activeConnections t - 1) |> |>)
  | CMark, Some c => Some (CSocket, w <| tconns := <[p := c <| tc_closed := true |>]> (tconns w) |>)
  | CSocket, Some _ => Some (CReturned, w)
  | _, _ => None
  end.

Fixpoint iter_step {S} (step : S -> tworld -> option (S * tworld)) (n : nat) (pc : S) (w : tworld)
  : option (S * tworld) :=
  match n with
  | O => Some (pc, w)
  | S n => match step pc w with Some (pc, w) => iter_step step n pc w | None => Some (pc, w) end
  end.

(** Undisturbed, the statements add up to the whole operations. *)
Lemma Accept_alone w l :
  t_listener (term w) = Some l -> l_open l = true ->
  iter_step term_accept_step 3 (ATotal (l_config l)) w = Some (AReturned, snd (Accept true w)) /\
  fst (Accept true w) = Ok (length (tconns w)).
Proof. intros Hl Ho. unfold Accept. rewrite Hl, Ho. by destruct w as [[] conns]. Qed.

Lemma Close_alone p c w :
  tconns w !! p = Some c -> iter_step (conn_close_step p) 4 CTest w = Some (CReturned, trackedConn_Close p w).
Proof.
  intros Hc. unfold trackedConn_Close, iter_step, conn_close_step. rewrite Hc.
  destruct (tc_closed c) eqn:Ho; destruct w as [t conns]; cbn in *; rewrite Hc; cbn; [by rewrite ?Hc|].
  rewrite Hc. cbn. by rewrite list_lookup_insert_eq by (by eapply lookup_lt_Some).
Qed.

(** The goroutines.  [given]: the connections the callers hold; [lost] counts those accepted
    for a caller whose context had ended; [decremented]: for which connections the counter
    was decremented, in order (a history the code does not keep). *)
Record tsystem := mkTSystem {
  tw : tworld;
  accepts : list accept_pc;
  closers : list (tcptr * close_pc);
  given : list tcptr;
  lost : Z;
  decremented : list tcptr
}.
#[export] Instance eta_tsystem : Eta tsystem := fun s =>
  mkTSystem (tw s) (accepts s) (closers s) (given s) (lost s) (decremented s).

Inductive taction :=
| TListen (ok : bool)
| TIncoming
| TAccept (i : nat) (delivered : bool)
| TClose (p : tcptr)
| TCloseStep (i : nat)
| THandshake (conn : net_conn) (hs : option bool) (took : duration)
| TUpdate (c : TLSSettings)
| TShutdown.

(** No [Close] of this connection is running. *)
Definition unclosing (cs : list (tcptr * close_pc)) (p : tcptr) : bool :=
  forallb (fun c => negb (bool_decide (c.1 = p)) || bool_decide (c.2 = CReturned)) cs.

(** [exclusive]: callers do not close a connection while they are closing it already. *)
Definition trun1 (exclusive : bool) (a : taction) (s : tsystem) : option tsystem :=
  match a with
  | TListen ok => Some (s <| tw ::= fun w => w <| term ::= fun t => snd (Listen ok t) |> |>)
  | TIncoming =>
      match t_listener (term (tw s)) with
      | Some l => if l_open l then Some (s <| accepts ::= fun l' => l' ++ [ATotal (l_config l)] |>) else None
      | None => None
      end
  | TAccept i delivered =>
      pc ← accepts s !! i; r ← term_accept_step pc (tw s);
      let s' := s <| tw := r.2 |> <| accepts ::= <[i := r.1]> |> in
      Some (match pc with
            | AWrap _ =>
                if (delivered : bool) then s' <| given ::= fun g => length (tconns (tw s)) :: g |>
                else s' <| lost ::= fun n => n + 1 |>
            | _ => s'
            end)
  | TClose p =>
      if bool_decide (p ∈ given s) && (negb exclusive || unclosing (closers s) p)
      then Some (s <| closers ::= fun l => l ++ [(p, CTest)] |>) else None
  | TCloseStep i =>
      c ← closers s !! i; r ← conn_close_step c.1 c.2 (tw s);
      let s' := s <| tw := r.2 |> <| closers ::= <[i := (c.1, r.1)]> |> in
      Some (match c.2 with CDecrement => s' <| decremented ::= fun d => c.1 :: d |> | _ => s' end)
  | THandshake conn hs took =>
      Some (s <| tw ::= fun w => w <| term ::= fun t => snd (PerformHandshake conn hs took t) |> |>)
  | TUpdate c => Some (s <| tw ::= fun w => w <| term ::= fun t => snd (UpdateConfig c t) |> |>)
  | TShutdown => Some (s <| tw ::= fun w => w <| term ::= Terminator_Close |> |>)
  end.

Definition tstep (exclusive : bool) (s s' : tsystem) : Prop := exists a, trun1 exclusive a s = Some s'.

Fixpoint trun (exclusive : bool) (l : list taction) (s : tsystem) : option tsystem :=
  match l with
  | [] => Some s
  | a :: l => s ← trun1 exclusive a s; trun exclusive l s
  end.

Lemma trun_reaches exclusive l s s' : trun exclusive l s = Some s' -> rtc (tstep exclusive) s s'.
Proof.
  revert s. induction l as [|a l IH]; intros s Hr; cbn in Hr; [by simplify_eq|].
  destruct (trun1 exclusive a s) as [s1|] eqn:Ha; [|done]. eapply rtc_l; [by exists a|by apply IH].
Qed.

Definition tsys_start (t : Terminator) : tsystem := mkTSystem (mkTWorld t []) [] [] [] 0 [].

(** *** What the counters count *)

Definition counted (pc : accept_pc) : Z := match pc with AActive _ | AWrap _ => 1 | _ => 0 end.
Definition wrapping (pc : accept_pc) : Z := match pc with AWrap _ => 1 | _ => 0 end.

Definition is_closed (conns : list trackedConn) (p : tcptr) : bool :=
  match conns !! p with Some c => tc_closed c | None => false end.

(** A connection that counts as active: it is not marked closed, and no [Close] of it is
    between its decrement and the mark. *)
Definition held (s : tsystem) (p : tcptr) : Z :=
  if is_closed (tconns (tw s)) p || bool_decide ((p, CMark) ∈ closers s) then 0 else 1.

Record term_inv (s : tsystem) : Prop := {
  ti_total : totalConnections (term (tw s)) ≡[64] sum_by counted (accepts s) + Z.of_nat (length (tconns (tw s)));
  ti_active : activeConnections (term (tw s)) ≡[64]
    sum_by wrapping (accepts s) + Z.of_nat (length (tconns (tw s))) - Z.of_nat (length (decremented s));
  ti_range : in_s 64 (totalConnections (term (tw s))) /\ in_s 64 (activeConnections (term (tw s)));
  ti_count : Z.of_nat (length (tconns (tw s))) = lost s + Z.of_nat (length (given s));
  ti_lost : 0 <= lost s;
  ti_given : NoDup (given s) /\ forall p, p ∈ given s -> (p < length (tconns (tw s)))%nat;
  ti_closers p pc : (p, pc) ∈ closers s -> p ∈ given s;
  ti_marked p : is_closed (tconns (tw s)) p = true \/ (p, CMark) ∈ closers s -> p ∈ decremented s;
  ti_decremented p : p ∈ decremented s -> p ∈ given s
}.

Record excl_inv (s : tsystem) : Prop := {
  ei_one i j p a b : closers s !! i = Some (p, a) -> closers s !! j = Some (p, b) ->
    a <> CReturned -> b <> CReturned -> i = j;
  ei_once : NoDup (decremented s);
  ei_decremented p : p ∈ decremented s -> is_closed (tconns (tw s)) p = true \/ (p, CMark) ∈ closers s;
  ei_pending p : (p, CDecrement) ∈ closers s -> p ∉ decremented s
}.

(** Steps that leave the connections and their counters alone. *)
Lemma inv_same s t' :
  activeConnections t' = activeConnections (term (tw s)) ->
  totalConnections t' = totalConnections (term (tw s)) ->
  term_inv s -> term_inv (s <| tw ::= fun w => w <| term := t' |> |>).
Proof. intros Ha Ht [I1 I2 I3 I4 I5 I6 I7 I8 I9]. 
  destruct s as [[]]. cbn in *. split; cbn; rewrite ?Ha, ?Ht; done.
Qed.

Lemma is_closed_snoc conns cfg p :
  is_closed (conns ++ [mkTrackedConn false cfg]) p = is_closed conns p.
Proof.
  unfold is_closed. destruct (decide (p < length conns)%nat) as [Hp|Hp]; [by rewrite lookup_app_l|].
  rewrite lookup_app_r, (lookup_ge_None_2 conns p) by lia.
  by destruct (p - length conns)%nat.
Qed.

Lemma is_closed_insert conns q c p :
  (q < length conns)%nat ->
  is_closed (<[q := c <| tc_closed := true |>]> conns) p = if decide (p = q) then true else is_closed conns p.
Proof.
  intros Hq. unfold is_closed. case_decide as Hp; [subst; by rewrite list_lookup_insert_eq|].
  by rewrite list_lookup_insert_ne.
Qed.

Lemma elem_of_list_set {A} (l : list A) i x y : y ∈ <[i := x]> l -> y = x \/ y ∈ l.
Proof.
  intros [j Hj]%list_elem_of_lookup_1. destruct (decide (i = j)) as [->|Hne].
  - apply list_lookup_insert_Some in Hj as [(_ & -> & _)|(? & _)]; [by left|done].
  - rewrite list_lookup_insert_ne in Hj by done. right. by eapply list_elem_of_lookup_2.
Qed.

Lemma inv_accept s i pc delivered s' :
  accepts s !! i = Some pc -> trun1 true (TAccept i delivered) s = Some s' -> term_inv s -> term_inv s'.
Proof.
  intros Hi Hs [I1 I2 I3 I4 I5 [I6 I6'] I7 I8 I9]. destruct s as [[[tc cm li tcfg tot act th fh rs hd] conns] acc cl g lo de].
  cbn -[sum_by] in *.
  rewrite Hi in Hs. cbn -[sum_by] in Hs. destruct pc as [cfg|cfg|cfg|]; cbn -[sum_by] in Hs; [..|done].
  - injection Hs as <-. split; cbn -[sum_by]; try done; rewrite ?(sum_by_insert _ _ _ _ _ Hi); cbn.
    + rewrite i64_eqw, I1. apply eqw_eq. lia.
    + rewrite I2. apply eqw_eq. lia.
    + split; [apply swrap_range; lia|apply I3].
  - injection Hs as <-. split; cbn -[sum_by]; try done; rewrite ?(sum_by_insert _ _ _ _ _ Hi); cbn.
    + rewrite I1. apply eqw_eq. lia.
    + rewrite i64_eqw, I2. apply eqw_eq. lia.
    + split; [apply I3|apply swrap_range; lia].
  - assert (forall p, p ∈ g -> (p < length (conns ++ [mkTrackedConn false cfg]))%nat) as Hlt.
    { intros p Hp. rewrite length_app. apply I6' in Hp. lia. }
    assert (length (conns ++ [mkTrackedConn false cfg]) = S (length conns)) as Hlen by (rewrite length_app; cbn; lia).
    destruct delivered; injection Hs as <-; split; cbn -[sum_by]; try done;
      rewrite ?(sum_by_insert _ _ _ _ _ Hi), ?Hlen; cbn -[Z.of_nat];
      try (rewrite ?I1, ?I2; apply eqw_eq; lia); try lia.
    all: try (intros p; rewrite is_closed_snoc; apply I8).
    + split.
      * constructor; [|done]. intros Hin%I6'. lia.
      * intros p [->|Hp]%elem_of_cons; [lia|]. apply I6' in Hp. lia.
    + intros p pc Hp. apply list_elem_of_further. by eapply I7.
    + intros p Hp. apply list_elem_of_further. auto.
Qed.

Lemma inv_close s i p pc s' :
  closers s !! i = Some (p, pc) -> trun1 true (TCloseStep i) s = Some s' -> term_inv s -> term_inv s'.
Proof.
  intros Hi Hs [I1 I2 I3 I4 I5 [I6 I6'] I7 I8 I9]. destruct s as [[[tc cm li tcfg tot act th fh rs hd] conns] acc cl g lo de].
  cbn -[sum_by] in *.
  rewrite Hi in Hs. cbn -[sum_by] in Hs.
  assert (p ∈ g) as Hp by (eapply I7, list_elem_of_lookup_2, Hi).
  destruct (lookup_lt_is_Some_2 conns p (I6' p Hp)) as [c Hc]. unfold conn_close_step in Hs. cbn in Hs. rewrite Hc in Hs.
  assert (forall pc' q x, (q, x) ∈ <[i := (p, pc')]> cl -> q ∈ g) as Hcl.
  { intros pc' q x [[= -> ->]|Hq]%elem_of_list_set; [done|by eapply I7]. }
  assert (forall pc' q, pc' <> CMark -> (q, CMark) ∈ <[i := (p, pc')]> cl -> (q, CMark) ∈ cl) as Hmk.
  { intros pc' q Hne [[= -> <-]|Hq]%elem_of_list_set; done. }
  destruct pc; cbn -[sum_by] in Hs; try done; injection Hs as <-; split; cbn -[sum_by]; try done; try (by eapply Hcl).
  - intros q [?|Hq%Hmk]; [by apply I8; left|by apply I8; right|by case_match].
  - rewrite i64_eqw, <- Z.add_opp_r, I2. apply eqw_eq. cbn. lia.
  - split; [apply I3|apply swrap_range; lia].
  - intros q [?|[[= ->]|Hq]%elem_of_list_set]; [|left|]; apply list_elem_of_further, I8; auto.
  - intros q [->|Hq]%elem_of_cons; auto.
  - by rewrite length_insert.
  - by rewrite length_insert.
  - by rewrite length_insert.
  - split; [done|]. by rewrite length_insert.
  - intros q. rewrite is_closed_insert by auto. intros [Hq|Hq%Hmk]; [|by apply I8; right|done].
    case_decide; [subst; apply I8; right; by eapply list_elem_of_lookup_2|apply I8; by left].
  - intros q [?|Hq%Hmk]; [by apply I8; left|by apply I8; right|done].
Qed.
Lemma accept_exclusive b1 b2 a s : (forall p, a <> TClose p) -> trun1 b1 a s = trun1 b2 a s.
Proof. intros Ha. destruct a; try done. by destruct (Ha p). Qed.

Lemma trun1_inv excl a s s' : trun1 excl a s = Some s' -> term_inv s -> term_inv s'.
Proof.
  intros Hs HI. destruct a as [ok| |i del|p|i|conn hs took|c|].
  - injection Hs as <-. by apply (inv_same s); [..|done]; destruct s as [[[]]], ok.
  - cbn in Hs. destruct (t_listener (term (tw s))) as [l|]; [|done]. destruct (l_open l); [|done].
    injection Hs as <-. destruct HI as [I1 I2 I3 I4 I5 I6 I7 I8 I9]. destruct s.
    split; cbn -[sum_by] in *; try done; rewrite sum_by_snoc; cbn; rewrite ?I1, ?I2; apply eqw_eq; lia.
  - rewrite (accept_exclusive _ true) in Hs by done. pose proof Hs as Hs0. cbn in Hs0.
    destruct (accepts s !! i) as [pc|] eqn:Hi; [|done]. by eapply inv_accept.
  - cbn in Hs. destruct (bool_decide (p ∈ given s)) eqn:Hp; [|done]. apply bool_decide_eq_true in Hp.
    cbn in Hs. destruct (negb excl || unclosing (closers s) p); [|done]. injection Hs as <-.
    destruct HI as [I1 I2 I3 I4 I5 I6 I7 I8 I9]. destruct s. split; cbn -[sum_by] in *; try done.
    + intros q pc. rewrite elem_of_app, list_elem_of_singleton. intros [?|[= -> ->]]; [by eapply I7|done].
    + intros q [?|Hq]; [by apply I8; left|]. apply I8. right.
      by apply elem_of_app in Hq as [?|Hq%list_elem_of_singleton].
  - rewrite (accept_exclusive _ true) in Hs by done. pose proof Hs as Hs0. cbn in Hs0.
    destruct (closers s !! i) as [[p pc]|] eqn:Hi; [|done]. by eapply inv_close.
  - injection Hs as <-. apply (inv_same s); [..|done]; destruct s as [[[]]], conn, hs as [[]|]; done.
  - injection Hs as <-. apply (inv_same s); [..|done]; cbn; unfold UpdateConfig;
      destruct (TLS_Validate c), s as [[[]]]; done.
  - injection Hs as <-. by apply (inv_same s); [..|done]; destruct s as [[[]]].
Qed.

(** *** Callers that do not close a connection twice at the same time *)

Lemma unclosing_spec cs p i a : unclosing cs p = true -> cs !! i = Some (p, a) -> a = CReturned.
Proof.
  unfold unclosing. intros Hu Hi. rewrite forallb_forall in Hu.
  specialize (Hu (p, a) ltac:(apply list_elem_of_In; by eapply list_elem_of_lookup_2)). cbn in Hu.
  rewrite bool_decide_eq_true_2 in Hu by done. by apply bool_decide_eq_true in Hu.
Qed.

(** The other calls see neither their marks nor the history change. *)
Lemma excl_same s s' :
  closers s' = closers s -> decremented s' = decremented s ->
  (forall p, is_closed (tconns (tw s')) p = is_closed (tconns (tw s)) p) -> excl_inv s -> excl_inv s'.
Proof.
  intros E1 E2 E3 [H1 H2 H3 H4]. split; rewrite ?E1, ?E2; try done.
  intros p. rewrite E3. apply H3.
Qed.

Lemma excl_close s i p pc s' :
  closers s !! i = Some (p, pc) -> trun1 true (TCloseStep i) s = Some s' ->
  term_inv s -> excl_inv s -> excl_inv s'.
Proof.
  intros Hi Hs HT [H1 H2 H3 H4].
  assert (p ∈ given s) as Hp by (eapply (ti_closers s HT), list_elem_of_lookup_2, Hi).
  pose proof (proj2 (ti_given s HT) p Hp) as Hlt. pose proof (lookup_lt_Some _ _ _ Hi) as Hil.
  destruct s as [[t conns] acc cl g lo de]. cbn in *. rewrite Hi in Hs. cbn in Hs.
  destruct (lookup_lt_is_Some_2 conns p Hlt) as [c Hc]. unfold conn_close_step in Hs. cbn in Hs. rewrite Hc in Hs.
  assert (forall x y pc' q a b, <[i := (p, pc')]> cl !! x = Some (q, a) -> <[i := (p, pc')]> cl !! y = Some (q, b) ->
    pc <> CReturned -> a <> CReturned -> b <> CReturned -> x = y) as Hone.
  { intros x y pc' q a b Hx Hy Hpc Ha Hb.
    apply list_lookup_insert_Some in Hx as [(-> & Hx & _)|(? & Hx)],
      Hy as [(-> & Hy & _)|(? & Hy)]; simplify_eq; [done|..]; by eapply H1. }
  assert (forall pc', <[i := (p, pc')]> cl !! i = Some (p, pc')) as Hself by (intros; by apply list_lookup_insert_eq).
  assert (forall pc' q a, (q, a) ∈ cl -> a <> pc -> (q, a) ∈ <[i := (p, pc')]> cl) as Hkeep.
  { intros pc' q a [x Hx]%list_elem_of_lookup_1 Hne. apply (list_elem_of_lookup_2 _ x).
    rewrite list_lookup_insert_ne; [done|]. intros ->. congruence. }
  assert (pc <> CMark -> pc <> CReturned -> (p, CMark) ∉ cl) as Hnomark.
  { intros Hm Hr [x Hx]%list_elem_of_lookup_1. assert (x = i) as -> by by eapply H1. congruence. }
  assert (forall pc', pc' <> CDecrement -> forall q, (q, CDecrement) ∈ <[i := (p, pc')]> cl ->
    (q, CDecrement) ∈ cl) as Hdec by (intros pc' Hne q [[= -> <-]|?]%elem_of_list_set; done).
  destruct pc; cbn in Hs; try done; injection Hs as <-; split; cbn; try done;
    try (intros x y q a b Hx Hy; by apply (Hone x y _ q a b Hx Hy)).
  - intros q [?|?]%H3; [by left|right]. by apply Hkeep.
  - intros q [[= -> E]|Hq]%elem_of_list_set; [|by apply H4].
    intros [Hcl|Hm]%H3; [|by apply Hnomark]. unfold is_closed in Hcl. rewrite Hc in Hcl. by rewrite Hcl in E.
  - constructor; [|done]. apply H4. by eapply list_elem_of_lookup_2.
  - intros q [->|Hq]%elem_of_cons; [right; by eapply list_elem_of_lookup_2|].
    apply H3 in Hq as [?|?]; [by left|right]. by apply Hkeep.
  - intros q [x Hx]%list_elem_of_lookup_1.
    apply list_lookup_insert_Some in Hx as [(_ & [=] & _)|(Hne & Hx)].
    rewrite not_elem_of_cons. split; [|apply H4; by eapply list_elem_of_lookup_2].
    intros ->. apply Hne. by eapply H1.
  - intros q Hq. rewrite is_closed_insert by done. case_decide as Hpq; [by left|].
    apply H3 in Hq as [?|[x Hx]%list_elem_of_lookup_1]; [by left|right]. apply (list_elem_of_lookup_2 _ x).
    rewrite list_lookup_insert_ne; [done|]. intros ->. congruence.
  - intros q Hq%Hdec; [|done]. by apply H4.
  - intros q [?|?]%H3; [by left|right]. by apply Hkeep.
  - intros q Hq%Hdec; [|done]. by apply H4.
Qed.

Lemma excl_step a s s' : trun1 true a s = Some s' -> term_inv s -> excl_inv s -> excl_inv s'.
Proof.
  intros Hs HT HE. destruct a as [ok| |i del|p|i|conn hs took|c|].
  - injection Hs as <-. by apply (excl_same s).
  - cbn in Hs. destruct (t_listener (term (tw s))) as [l|]; [|done]. destruct (l_open l); [|done].
    injection Hs as <-. by apply (excl_same s).
  - cbn in Hs. destruct (accepts s !! i) as [[cfg|cfg|cfg|]|]; cbn in Hs; try done; [..|destruct del];
      injection Hs as <-; (apply (excl_same s); [done..| |done]); try done; intros p; apply is_closed_snoc.
  - cbn in Hs. destruct (bool_decide (p ∈ given s)); [|done]. cbn in Hs.
    destruct (unclosing (closers s) p) eqn:Hu; [|done]. injection Hs as <-.
    destruct HE as [H1 H2 H3 H4]. destruct s as [w acc cl g lo de]. cbn in *. split; cbn; try done.
    + intros i j q a b Hi Hj Ha Hb. apply lookup_snoc_Some in Hi as [[? Hi]|[-> Hi]], Hj as [[? Hj]|[-> Hj]];
        simplify_eq; [by eapply H1|..|done]; exfalso; [apply Ha|apply Hb]; by eapply unclosing_spec.
    + intros q [?|?]%H3; [by left|right]. apply elem_of_app. by left.
    + intros q Hq. apply H4. by apply elem_of_app in Hq as [?|Hq%list_elem_of_singleton].
  - pose proof Hs as Hs0. cbn in Hs0. destruct (closers s !! i) as [[p pc]|] eqn:Hi; [|done]. by eapply excl_close.
  - injection Hs as <-. by apply (excl_same s).
  - injection Hs as <-. by apply (excl_same s).
  - injection Hs as <-. by apply (excl_same s).
Qed.

Lemma term_inv_start config certMgr t :
  NewTerminator config certMgr = Ok t -> term_inv (tsys_start t) /\ excl_inv (tsys_start t).
Proof.
  intros (Ha & Ht)%NewTerminator_zero. split.
  - split; cbn; rewrite ?Ha, ?Ht; try done.
    + split; [constructor|]. intros p Hp. by apply elem_of_nil in Hp.
    + intros p pc Hp. by apply elem_of_nil in Hp.
    + intros p [?|Hp]; [done|]. by apply elem_of_nil in Hp.
  - split; cbn; try done; [constructor| |]; intros p Hp; by apply elem_of_nil in Hp.
Qed.

Lemma term_reach excl config certMgr t s :
  NewTerminator config certMgr = Ok t -> rtc (tstep excl) (tsys_start t) s ->
  term_inv s /\ (excl = true -> excl_inv s).
Proof.
  intros Hn Hr. destruct (term_inv_start _ _ _ Hn) as [H0 H0'].
  assert (term_inv (tsys_start t) /\ (excl = true -> excl_inv (tsys_start t))) as Hi by auto. clear Hn H0 H0'.
  induction Hr as [|s1 s2 s3 [a Ha] _ IH]; [done|]. apply IH. destruct Hi as [Hi He].
  split; [by eapply trun1_inv|]. intros ->. by eapply excl_step; [..|apply He].
Qed.

(** The members of [g] that are not in [d]. *)
Definition outside (d : list tcptr) (p : tcptr) : Z := if decide (p ∈ d) then 0 else 1.

Lemma sum_outside g d :
  sum_by (outside d) g = Z.of_nat (length g) - Z.of_nat (length (filter (.∈ d) g)).
Proof.
  induction g as [|p g IH]; [done|]. cbn -[Z.of_nat filter]. fold (sum_by (outside d) g).
  rewrite filter_cons. unfold outside at 1. case_decide; cbn [length]; lia.
Qed.

Lemma sum_outside_ge g d :
  NoDup g -> Z.of_nat (length g) - Z.of_nat (length d) <= sum_by (outside d) g.
Proof.
  intros Hg. rewrite sum_outside.
  enough (length (filter (.∈ d) g) <= length d)%nat by lia.
  apply submseteq_length, NoDup_submseteq; [by apply NoDup_filter|].
  intros x. by rewrite list_elem_of_filter; intros [? _].
Qed.

Lemma sum_outside_eq g d :
  NoDup g -> NoDup d -> (forall p, p ∈ d -> p ∈ g) ->
  sum_by (outside d) g = Z.of_nat (length g) - Z.of_nat (length d).
Proof.
  intros Hg Hd Hsub. rewrite sum_outside. do 2 f_equal. apply Permutation_length, NoDup_Permutation; [|done|].
  - by apply NoDup_filter.
  - intros p. rewrite list_elem_of_filter. naive_solver.
Qed.

Lemma sum_by_mono_in {A} (f g : A -> Z) l : (forall x, x ∈ l -> f x <= g x) -> sum_by f l <= sum_by g l.
Proof.
  intros Hfg. induction l as [|x l IH]; [done|]. cbn. fold (sum_by f l) (sum_by g l).
  specialize (Hfg x ltac:(left)) as Hx. assert (sum_by f l <= sum_by g l) by (apply IH; intros; apply Hfg; by right). lia.
Qed.

Lemma outside_held s p : term_inv s -> outside (decremented s) p <= held s p.
Proof.
  intros HT. unfold outside, held. case_decide as Hd; [by case_match|].
  destruct (is_closed (tconns (tw s)) p) eqn:E; [destruct Hd; apply (ti_marked s HT); by left|].
  case_bool_decide; [|done]. destruct Hd. apply (ti_marked s HT). by right.
Qed.

Lemma held_outside s p : excl_inv s -> held s p <= outside (decremented s) p.
Proof.
  intros HE. unfold outside, held. case_decide as Hd; [|by case_match].
  destruct (ei_decremented s HE p Hd) as [-> | Hm]; [done|].
  rewrite (bool_decide_eq_true_2 _ Hm), orb_true_r. done.
Qed.

(** C28: For a terminator built by NewTerminator, over any interleaving of the single
    statements of Accept and of trackedConn.Close in any number of goroutines (several
    may close one connection), of listening, accepting with a context, handshakes,
    reloads and shutdown: total_connections is exactly the number of accepted
    connections; active_connections is never above the connections being wrapped, plus
    those accepted after the caller's context had ended, plus those handed out whose
    Close has not decremented yet; and it equals that sum when no caller starts a Close
    while another Close of the same connection is running (repeated closes included).
    Fewer than 2^62 connections and decrements. *)
Theorem Terminator_accounting (exclusive : bool) config certMgr t0 s :
  NewTerminator config certMgr = Ok t0 -> rtc (tstep exclusive) (tsys_start t0) s ->
  Z.of_nat (length (tconns (tw s)) + length (accepts s)) < 2 ^ 62 ->
  Z.of_nat (length (decremented s)) < 2 ^ 62 ->
  total_connections (Terminator_Stats (term (tw s))) =
    sum_by counted (accepts s) + lost s + Z.of_nat (length (given s)) /\
  active_connections (Terminator_Stats (term (tw s))) <=
    sum_by wrapping (accepts s) + lost s + sum_by (held s) (given s) /\
  (exclusive = true ->
     active_connections (Terminator_Stats (term (tw s))) =
       sum_by wrapping (accepts s) + lost s + sum_by (held s) (given s)).
Proof.
  intros Hn Hr Hb Hd. destruct (term_reach _ _ _ _ _ Hn Hr) as [HT HE]. cbn.
  pose proof HT as [I1 I2 [I3 I3'] I4 I5 [I6 I6'] I7 I8 I9].
  pose proof (sum_by_unit counted (accepts s) ltac:(by intros []; cbn)) as Hc.
  pose proof (sum_by_unit wrapping (accepts s) ltac:(by intros []; cbn)) as Hw.
  apply eqw_signed in I1; [|lia|done|unfold in_s; lia].
  apply eqw_signed in I2; [|lia|done|unfold in_s; lia].
  pose proof (sum_outside_ge (given s) (decremented s) I6) as Hge.
  pose proof (sum_by_mono_in (outside (decremented s)) (held s) (given s) ltac:(intros p _; by apply outside_held)) as Hm.
  split_and!; [lia..|]. intros Hex. specialize (HE Hex).
  pose proof (sum_outside_eq (given s) (decremented s) I6 (ei_once s HE) I9) as Heq.
  pose proof (sum_by_mono_in (held s) (outside (decremented s)) (given s) ltac:(intros p _; by apply held_outside)) as Hm'.
  lia.
Qed.

(** ** Dialling *)

Lemma last_index_from_cases c s i r :
  (forall r', last_index_from i r' c s = r') \/
  (i <= last_index_from i r c s /\ forall r', last_index_from i r' c s = last_index_from i r c s).
Proof.
  revert i r. induction s as [|a s IH]; intros i r; cbn; [by left|]. case_bool_decide.
  - right. destruct (IH (i + 1) i) as [E|[E _]]; [rewrite E|]; split; done || lia.
  - destruct (IH (i + 1) r) as [E|[E1 E2]]; [by left|]. right. split; [lia|done].
Qed.

Lemma last_index_from_app c a s i r : 0 <= i -> last_index_from 0 (-1) c s = -1 ->
  last_index_from i r c (a +:+ String c s) = i + Z.of_nat (String.length a).
Proof.
  intros Hi Hs. revert i r Hi. induction a as [|x a IH]; intros i r Hi.
  - change (last_index_from (i + 1) (if bool_decide (c = c) then i else r) c s = i + 0).
    rewrite bool_decide_true by done.
    assert (forall j r', last_index_from j r' c s = r') as E; [|rewrite E; lia].
    clear -Hs. assert (forall j r' k, 0 <= j -> last_index_from j (-1) c s = -1 -> last_index_from k r' c s = r') as G.
    { clear Hs. induction s as [|y s IH]; [done|]. cbn. intros j r' k Hj. case_bool_decide.
      - destruct (last_index_from_cases c s (j + 1) j) as [E|[E _]]; [rewrite E|]; lia.
      - intros E. eapply IH; [|done]. lia. }
    intros j r'. by apply (G 0).
  - change (last_index_from (i + 1) (if bool_decide (x = c) then i else r) c (a +:+ String c s) =
      i + Z.of_nat (S (String.length a))). rewrite IH by lia. lia.
Qed.

Lemma LastIndexByte_sep a s : LastIndexByte s colon = -1 ->
  LastIndexByte (a +:+ String colon s) colon = Z.of_nat (String.length a).
Proof. intros H. unfold LastIndexByte. by rewrite last_index_from_app. Qed.

Lemma build_skip c : std_InsecureSkipVerify (buildTLSConfig c) = InsecureSkipVerify c.
Proof.
  unfold buildTLSConfig, ToStdConfig. destruct (SessionTicketsDisabled c); [done|].
  by destruct (bool_decide (SessionTicketKey c = zeroKey)).
Qed.

(** A terminator whose settings verify certificates never gets a connection from
    DialTLSContext, whatever the network does, because the settings name no server;
    DialTLS succeeds exactly when dialling and the handshake for the host of the address
    do; no failing call leaves a socket open. *)
Theorem DialTLS_verdict `{ClientTLS} config certMgr t dial address :
  NewTerminator config certMgr = Ok t ->
  (InsecureSkipVerify (default DefaultConfig config) = false -> fst (DialTLSContext dial t) <> None) /\
  (forall host port, address = host +:+ String colon port -> LastIndexByte port colon = -1 ->
     fst (DialTLS dial address t) = None <-> dial = None /\ handshake (t_tlsConfig t) host = None) /\
  (fst (DialTLSContext dial t) <> None -> snd (DialTLSContext dial t) <> SocketOpen) /\
  (fst (DialTLS dial address t) <> None -> snd (DialTLS dial address t) <> SocketOpen).
Proof.
  intros Hn. unfold NewTerminator in Hn. destruct (TLS_Validate _); [done|]. destruct certMgr as [cm|]; [|done].
  injection Hn as <-. unfold DialTLS, DialTLSContext, DialWithDialer. cbn [t_tlsConfig].
  set (c := buildTLSConfig _). destruct dial as [e|]; [split_and!; naive_solver|]. split_and!.
  - intros Hs. pose proof (handshake_needs_name c) as Hh. subst c. rewrite build_skip in Hh.
    destruct (handshake _ ""); [done|]. by destruct (Hh Hs).
  - intros host port -> Hp. rewrite LastIndexByte_sep, (proj2 (Z.eqb_neq _ _)), Nat2Z.id, str_take_app by (done || lia).
    destruct (handshake c host); naive_solver.
  - by destruct (handshake c "").
  - by destruct (handshake c _).
Qed.

(** ** Hot reload *)

(** A successful UpdateConfig does not reach an existing listener: connections accepted
    afterwards still use the crypto/tls settings the listener was created with, although
    the terminator reports the new ones. *)
Theorem UpdateConfig_listener config t t' l conns p w' :
  t_listener t = Some l -> UpdateConfig config t = (None, t') ->
  Accept true (mkTWorld t' conns) = (Ok p, w') ->
  t_tlsConfig t' = buildTLSConfig config /\ t_listener t' = Some l /\
  exists c, tconns w' !! p = Some c /\ tc_config c = l_config l.
Proof.
  unfold UpdateConfig. destruct (TLS_Validate config); [done|]. intros Hl [= <-].
  destruct t as [tc cm li cfg tot act th fh rs hd]. cbn in *. subst li. unfold Accept. cbn.
  destruct (l_open l); [|done]. intros [= <- <-]. split_and!; [done..|]. cbn.
  eexists. rewrite lookup_app_r, Nat.sub_diag by lia. done.
Qed.

(** ** Examples *)

Definition term0 : Terminator :=
  match NewTerminator None (Some NewCertificateManager) with
  | Ok t => t
  | Err _ => mkTerminator DefaultConfig NewCertificateManager None (buildTLSConfig DefaultConfig) 0 0 0 0 0 0
  end.

Definition tsys0 : tsystem := tsys_start term0.
Definition tsys1 : tsystem := default tsys0 (trun true [TListen true] tsys0).

(** A connection is accepted and closed twice, one [Close] after the other; another one is
    accepted for a caller whose context has ended. *)
Definition accept_one (i : nat) (delivered : bool) : list taction :=
  TIncoming :: replicate 3 (TAccept i delivered).
Definition close_one (i : nat) : list taction := TClose 0 :: replicate 4 (TCloseStep i).
Definition in_turn : list taction :=
  [TListen true] ++ accept_one 0 true ++ accept_one 1 false ++ close_one 0 ++
  [TClose 0; TCloseStep 1; TCloseStep 1].
Definition tsys3 : tsystem := default tsys0 (trun true in_turn tsys0).

Lemma Terminator_accounting_witness :
  total_connections (Terminator_Stats (term (tw tsys3))) = 2 /\
  active_connections (Terminator_Stats (term (tw tsys3))) = lost tsys3 /\ lost tsys3 = 1.
Proof.
  destruct (Terminator_accounting true None (Some NewCertificateManager) term0 tsys3 eq_refl)
    as (E1 & _ & E2).
  - eapply (trun_reaches true in_turn). vm_compute. reflexivity.
  - vm_compute. reflexivity.
  - vm_compute. reflexivity.
  - split; [exact E1|]. split; [exact (E2 eq_refl)|]. vm_compute. reflexivity.
Defined.

(** Both goroutines execute their test before either decrements. *)
Definition at_once : list taction :=
  [TListen true] ++ accept_one 0 true ++
  [TClose 0; TClose 0; TCloseStep 0; TCloseStep 1] ++ replicate 3 (TCloseStep 0) ++ replicate 3 (TCloseStep 1).

(** Two goroutines that close the same connection at the same time both find it open and
    both decrement: the counter of active connections is -1. *)
Theorem Terminator_double_close :
  exists s, rtc (tstep false) tsys0 s /\ Forall (fun c => c.2 = CReturned) (closers s) /\
    active_connections (Terminator_Stats (term (tw s))) = -1.
Proof.
  eexists. split; [eapply (trun_reaches false at_once); vm_compute; reflexivity|].
  split; [repeat constructor|vm_compute; reflexivity].
Qed.

Definition strict : TLSSettings := DefaultConfig <| MinVersion := VersionTLS13 |>.

Lemma UpdateConfig_listener_witness :
  exists c, std_MinVersion (tc_config c) = VersionTLS12 /\
    std_MinVersion (t_tlsConfig (snd (UpdateConfig strict (term (tw tsys1))))) = VersionTLS13.
Proof.
  destruct (UpdateConfig_listener strict (term (tw tsys1)) (snd (UpdateConfig strict (term (tw tsys1))))
    (mkListener (buildTLSConfig DefaultConfig) true) [] 0
    (snd (Accept true (mkTWorld (snd (UpdateConfig strict (term (tw tsys1)))) []))))
    as (Hc & _ & c & _ & Hcfg).
  - vm_compute. reflexivity.
  - vm_compute. reflexivity.
  - vm_compute. reflexivity.
  - exists c. rewrite Hcfg, Hc. split; vm_compute; reflexivity.
Defined.

(** A client library that insists on the name of the server. *)
Definition named_client : ClientTLS.
Proof.
  refine {| handshake c name := if bool_decide (name = "") && negb (std_InsecureSkipVerify c)
    then Some "tls: either ServerName or InsecureSkipVerify must be specified in the tls.Config" else None |}.
  intros c ->. done.
Defined.

Lemma DialTLS_verdict_witness :
  fst (DialTLSContext (H:=named_client) None term0) <> None /\
  fst (DialTLS (H:=named_client) None "backend.test:443" term0) = None.
Proof.
  destruct (DialTLS_verdict (H:=named_client) None (Some NewCertificateManager) term0 None "backend.test:443" eq_refl)
    as (H1 & H2 & _).
  split; [by apply H1|]. by apply (H2 "backend.test" "443").
Defined.
