(* ===== verification/Logging.v ===== *)
(** * Structured logging and the access log (src/pkg/logging/logger.go, access.go)

    A log line is the string that one call writes.  Durations are rendered as [GoTime] has
    it; the rendering of times in the logger's layout and of floating-point numbers are
    parameters; the call stack,
    from which [runtime.Caller] picks a frame, is explicit, because the wrappers of the
    package differ in how deep they call. *)

From Stdlib Require Import Ascii.
From S2P Require Import Prelude GoStd GoTime.

(** ** Levels and fields *)

Abbreviation Level := Z (only parsing).
Definition DebugLevel : Level := 0.
Definition InfoLevel : Level := 1.
Definition WarnLevel : Level := 2.
Definition ErrorLevel : Level := 3.
Definition FatalLevel : Level := 4.

Definition Level_String (l : Level) : string :=
  if l =? DebugLevel then "DEBUG"
  else if l =? InfoLevel then "INFO"
  else if l =? WarnLevel then "WARN"
  else if l =? ErrorLevel then "ERROR"
  else if l =? FatalLevel then "FATAL"
  else "UNKNOWN".

(** The dynamic values that the constructors of the package put into a field. *)
Inductive value :=
| VString (s : string)
| VInt (i : Z)
| VFloat (bits : Z)
| VBool (b : bool)
| VNil.

Record Field := mkField { Key : string; Value : value }.

Definition Field_String (key v : string) : Field := mkField key (VString v).
Definition Field_Int (key : string) (v : Z) : Field := mkField key (VInt v).
Definition Field_Int64 (key : string) (v : Z) : Field := mkField key (VInt v).
Definition Field_Float64 (key : string) (bits : Z) : Field := mkField key (VFloat bits).
Definition Field_Bool (key : string) (v : bool) : Field := mkField key (VBool v).
Definition Field_Duration (key : string) (d : duration) : Field :=
  mkField key (VString (Duration_String d)).
Definition Field_Any (key : string) (v : value) : Field := mkField key v.
Definition Field_Err (err : option string) : Field :=
  match err with
  | None => mkField "error" VNil
  | Some text => mkField "error" (VString text)
  end.

(** ** Loggers *)

(** What was written is the list of the lines passed to [Write]. *)
Record Logger := mkLogger {
  level : Level;
  timeFormat : string;
  addCaller : bool;
  output : list string
}.
#[export] Instance eta_Logger : Eta Logger := fun l =>
  mkLogger (level l) (timeFormat l) (addCaller l) (output l).

Definition RFC3339 : string := "2006-01-02T15:04:05Z07:00".

(** The output is a writer, or nil for the standard output: what it has received so far. *)
Record LogConfig := mkLogConfig {
  lc_Level : Level; lc_Output : option (list string); lc_TimeFormat : string; lc_AddCaller : bool
}.

Definition NewLogger (stdout : list string) (config : LogConfig) : Logger :=
  mkLogger (lc_Level config)
    (if bool_decide (lc_TimeFormat config = "") then RFC3339 else lc_TimeFormat config)
    (lc_AddCaller config) (default stdout (lc_Output config)).

Definition NewDefaultLogger (stdout : list string) : Logger :=
  NewLogger stdout (mkLogConfig InfoLevel (Some stdout) RFC3339 false).

(** The logger the package starts with. *)
Definition initial_globalLogger : Logger := NewDefaultLogger [].

Definition SetLevel (lvl : Level) (l : Logger) : Logger := l <| level := lvl |>.

(** [With] is documented to bind fields and returns the logger itself. *)
Definition With (fields : list Field) (l : Logger) : Logger := l.

(** The global logger is replaced, not changed. *)
Definition SetGlobalLogger (logger globalLogger : Logger) : Logger := logger.

(** A frame of the call stack: file and line. *)
Record frame := mkFrame { f_file : string; f_line : Z }.

Definition logger_go (line : Z) : frame := mkFrame "pkg/logging/logger.go" line.

Section rendering.
(** [time.Time.Format] and [%v] of a float64. *)
Variables (format_time : string -> time -> string) (format_float : Z -> string).

Definition format_value (v : value) : string :=
  match v with
  | VString s => s
  | VInt i => itoa i
  | VFloat b => format_float b
  | VBool true => "true"
  | VBool false => "false"
  | VNil => "<nil>"
  end.

(** The loop over the fields; [i > 0] puts a space before all but the first. *)
Fixpoint write_fields (first : bool) (fields : list Field) : string :=
  match fields with
  | [] => ""
  | f :: fields =>
      (if first then "" else " ") +:+ Key f +:+ "=" +:+ format_value (Value f) +:+
      write_fields false fields
  end.

Definition slash : ascii := "/"%char.

(** The trace and the span of the context, when it has a valid one. *)
Definition write_trace (span : option (string * string)) : string :=
  match span with
  | Some (trace_id, span_id) => "trace_id=" +:+ trace_id +:+ " " +:+ "span_id=" +:+ span_id +:+ " "
  | None => ""
  end.

(** The file name without its directories, and the line. *)
Definition caller_text (f : frame) : string :=
  let parts := Split slash (f_file f) in
  default "" (last parts) +:+ ":" +:+ itoa (f_line f) +:+ " ".

(** [runtime.Caller(3)]: the frame three above [logContext]. *)
Definition write_caller (add : bool) (stack : list frame) : string :=
  if add then match stack !! 3%nat with Some f => caller_text f | None => "" end else "".

Definition newline : string := String "010"%char "".

(** The line with the text that stands for the caller. *)
Definition log_entry (now : time) (caller : string) (span : option (string * string))
    (lvl : Level) (msg : string) (fields : list Field) (l : Logger) : string :=
  format_time (timeFormat l) now +:+ " " +:+ Level_String lvl +:+ " " +:+ write_trace span +:+
  caller +:+ msg +:+
  (match fields with [] => "" | _ => " " +:+ write_fields true fields end) +:+ newline.

(** [stack] starts with the frame of [logContext] itself. *)
Definition logContext (now : time) (stack : list frame) (span : option (string * string))
    (lvl : Level) (msg : string) (fields : list Field) (l : Logger) : Logger :=
  if lvl <? level l then l
  else l <| output := output l ++
         [log_entry now (write_caller (addCaller l) stack) span lvl msg fields l] |>.

(** [Logger.log], called by [Debug], [Info], [Warn], [Error] and [Fatal]; [stack] is the
    stack of their caller.  The wrappers differ in the level and in the line they call from. *)
Definition log_method (now : time) (stack : list frame) (lvl : Level) (msg : string)
    (fields : list Field) (l : Logger) : Logger :=
  logContext now (logger_go 224 :: logger_go 190 :: logger_go (145 + 5 * lvl) :: stack) None lvl
    msg fields l.

(** [DebugContext] and its siblings. *)
Definition log_context_method (now : time) (stack : list frame) (span : option (string * string))
    (lvl : Level) (msg : string) (fields : list Field) (l : Logger) : Logger :=
  logContext now (logger_go 224 :: logger_go (171 + 5 * lvl) :: stack) span lvl msg fields l.

(** The package-level functions of the global logger. *)
Definition log_global (now : time) (stack : list frame) (lvl : Level) (msg : string)
    (fields : list Field) (l : Logger) : Logger :=
  log_method now (logger_go (271 + 5 * lvl) :: stack) lvl msg fields l.

Definition log_global_context (now : time) (stack : list frame) (span : option (string * string))
    (lvl : Level) (msg : string) (fields : list Field) (l : Logger) : Logger :=
  log_context_method now (logger_go (296 + 5 * lvl) :: stack) span lvl msg fields l.

(** [Fatal] also ends the process. *)
Definition Logger_Fatal (now : time) (stack : list frame) (msg : string) (fields : list Field)
    (l : Logger) : Logger * bool :=
  (log_method now stack FatalLevel msg fields l, true).

(** ** The access log *)

Record AccessLog := mkAccessLog {
  al_Timestamp : time;
  ClientIP : string;
  Method : string;
  Path : string;
  Query : string;
  Protocol : string;
  StatusCode : Z;
  BytesWritten : Z;
  Duration : duration;
  UserAgent : string;
  Referer : string;
  Backend : string;
  TraceID : string
}.

Definition optional (key v : string) : list Field :=
  if bool_decide (v = "") then [] else [Field_String key v].

Definition access_fields (e : AccessLog) : list Field :=
  [Field_String "client_ip" (ClientIP e); Field_String "method" (Method e);
   Field_String "path" (Path e); Field_String "protocol" (Protocol e);
   Field_Int "status" (StatusCode e); Field_Int64 "bytes" (BytesWritten e);
   Field_Duration "duration" (Duration e); Field_String "user_agent" (UserAgent e)] ++
  optional "query" (Query e) ++ optional "referer" (Referer e) ++
  optional "backend" (Backend e) ++ optional "trace_id" (TraceID e).

(** An access logger holds the logger it writes to. *)
Record AccessLogger := mkAccessLogger { al_logger : Logger }.
Definition NewAccessLogger (logger : Logger) : AccessLogger := mkAccessLogger logger.

Definition AccessLogger_Log (now : time) (stack : list frame) (e : AccessLog) (al : AccessLogger) : AccessLogger :=
  mkAccessLogger (log_method now stack InfoLevel "access" (access_fields e) (al_logger al)).

(** ** The response writer of the middleware *)

(** The writer of net/http underneath: the status it sent. A status of the 1xx range
    other than 101 is informational and does not settle it; a body without a header
    sends 200. *)
Record ResponseWriter := mkResponseWriter { sent_status : option Z; body : Z }.
#[export] Instance eta_ResponseWriter : Eta ResponseWriter := fun w =>
  mkResponseWriter (sent_status w) (body w).

Definition informational (code : Z) : bool := (100 <=? code) && (code <=? 199) && negb (code =? 101).

Definition rw_WriteHeader (code : Z) (w : ResponseWriter) : ResponseWriter :=
  match sent_status w with
  | Some _ => w
  | None => if informational code then w else w <| sent_status := Some code |>
  end.

(** [n] bytes of the slice are written. *)
Definition rw_Write (n : Z) (w : ResponseWriter) : ResponseWriter :=
  rw_WriteHeader 200 w <| body := body w + n |>.

Record loggingResponseWriter := mkLRW { lrw_w : ResponseWriter; statusCode : Z; bytesWritten : Z }.
#[export] Instance eta_lrw : Eta loggingResponseWriter := fun w =>
  mkLRW (lrw_w w) (statusCode w) (bytesWritten w).

Definition lrw_WriteHeader (code : Z) (w : loggingResponseWriter) : loggingResponseWriter :=
  w <| statusCode := code |> <| lrw_w ::= rw_WriteHeader code |>.

Definition lrw_Write (n : Z) (w : loggingResponseWriter) : loggingResponseWriter :=
  w <| lrw_w ::= rw_Write n |> <| bytesWritten := i64 (bytesWritten w + n) |>.

(** What a handler does to its writer. *)
Inductive rw_call := CallWriteHeader (code : Z) | CallWrite (n : Z).

Definition rw_run1 (w : loggingResponseWriter) (c : rw_call) : loggingResponseWriter :=
  match c with CallWriteHeader code => lrw_WriteHeader code w | CallWrite n => lrw_Write n w end.

(** net/http sends 200 when the handler returns without a header. *)
Definition final_status (w : ResponseWriter) : Z := default 200 (sent_status w).

(** The middleware: the handler's calls, then one access log entry. *)
Definition AccessLogMiddleware (start finish : time) (stack : list frame) (method proto : string)
    (r : HTTPRequest) (calls : list rw_call) (logger : Logger) : loggingResponseWriter * Logger :=
  let accessLogger := NewAccessLogger logger in
  let lrw := foldl rw_run1 (mkLRW (mkResponseWriter None 0) 200 0) calls in
  let forwarded := Header_Get "X-Forwarded-For" (rq_Header r) in
  let clientIP := if bool_decide (forwarded = "") then rq_RemoteAddr r else forwarded in
  let entry := mkAccessLog start clientIP method (rq_Path r) (rq_RawQuery r) proto
    (statusCode lrw) (bytesWritten lrw) (time_Sub finish start)
    (Header_Get "User-Agent" (rq_Header r)) (Header_Get "Referer" (rq_Header r)) "" "" in
  (lrw, al_logger (AccessLogger_Log finish stack entry accessLogger)).

(** ** Lines *)

(** A call below the logger's level writes nothing; any other call writes exactly one
    entry, and no call changes the level. *)
Theorem Logger_filters now stack span lvl msg fields l :
  output (logContext now stack span lvl msg fields l) =
    output l ++ (if lvl <? level l then []
      else [log_entry now (write_caller (addCaller l) stack) span lvl msg fields l]) /\
  level (logContext now stack span lvl msg fields l) = level l.
Proof.
  unfold logContext. destruct (lvl <? level l); [by rewrite app_nil_r|]. by destruct l.
Qed.

(** With caller reporting on, the methods without context and the package-level
    functions with context name the code that called them; the methods with context name
    the caller's caller instead, and the package-level functions without context name
    the line of logger.go itself, because the stack depth is fixed. *)
Theorem Logger_caller now u c stack span lvl msg fields l :
  addCaller l = true -> level l <= lvl ->
  let line f span := log_entry now (caller_text f) span lvl msg fields l in
  output (log_method now (u :: c :: stack) lvl msg fields l) = output l ++ [line u None] /\
  output (log_context_method now (u :: c :: stack) span lvl msg fields l)
    = output l ++ [line c span] /\
  output (log_global now (u :: c :: stack) lvl msg fields l)
    = output l ++ [line (logger_go (271 + 5 * lvl)) None] /\
  output (log_global_context now (u :: c :: stack) span lvl msg fields l)
    = output l ++ [line u span].
Proof.
  intros Ha Hl. unfold log_global, log_global_context, log_method, log_context_method, logContext.
  rewrite (proj2 (Z.ltb_ge _ _)) by lia. rewrite Ha. by destruct l.
Qed.

(** The number of line feeds in a string. *)
Fixpoint newlines (s : string) : nat :=
  match s with
  | EmptyString => 0
  | String c s => ((if decide (c = "010"%char) then 1 else 0) + newlines s)%nat
  end.

Lemma newlines_app a b : newlines (a +:+ b) = (newlines a + newlines b)%nat.
Proof.
  induction a as [|c a IH]; [done|]. rewrite str_app_cons. cbn. rewrite IH. lia.
Qed.

Definition field_newlines (f : Field) : nat :=
  (newlines (Key f) + newlines (format_value (Value f)))%nat.

Lemma newlines_fields first fields :
  newlines (write_fields first fields) = sum_list_with field_newlines fields.
Proof.
  revert first. induction fields as [|f fields IH]; intros first; [done|]. cbn [write_fields].
  rewrite !newlines_app, IH.
  change (newlines "=") with 0%nat.
  assert (newlines (if first then "" else " ") = 0%nat) as -> by (by destruct first).
  change (sum_list_with field_newlines (f :: fields))
    with (field_newlines f + sum_list_with field_newlines fields)%nat.
  unfold field_newlines at 2. lia.
Qed.

Lemma newlines_entry now caller span lvl msg fields l :
  newlines (log_entry now caller span lvl msg fields l) =
    (1 + newlines (format_time (timeFormat l) now) + newlines (write_trace span) +
     newlines caller + newlines msg + sum_list_with field_newlines fields)%nat.
Proof.
  unfold log_entry. rewrite !newlines_app.
  assert (newlines (Level_String lvl) = 0%nat) as ->.
  { unfold Level_String. by repeat (case_match; try done). }
  assert (newlines (match fields with [] => "" | _ => " " +:+ write_fields true fields end)
    = sum_list_with field_newlines fields) as ->.
  { destruct fields as [|f fields]; [done|]. by rewrite newlines_app, newlines_fields. }
  change (newlines " ") with 0%nat. change (newlines newline) with 1%nat. lia.
Qed.
(** A field that is written ends up in the line as it is. *)
Lemma write_fields_in first fs k v gs :
  exists a b, write_fields first (fs ++ Field_String k v :: gs) = a +:+ v +:+ b.
Proof.
  revert first. induction fs as [|f fs IH]; intros first; cbn [write_fields app].
  - cbn [Key Value Field_String format_value].
    exists ((if first then "" else " ") +:+ k +:+ "="), (write_fields false gs).
    by rewrite <- !str_app_assoc.
  - destruct (IH false) as (a & b & ->).
    exists ((if first then "" else " ") +:+ Key f +:+ "=" +:+ format_value (Value f) +:+ a), b.
    by rewrite <- !str_app_assoc.
Qed.

(** The access log writes the request path unescaped: for every text there is a path (a
    line feed, the text, a line feed, as the percent-decoded URL path may contain) that
    makes one access log entry contain the text as a line of its own. *)
Theorem AccessLog_injectable now stack e l forged :
  level l <= InfoLevel -> Path e = newline +:+ forged +:+ newline ->
  exists a b, output (al_logger (AccessLogger_Log now stack e (NewAccessLogger l))) =
    output l ++ [a +:+ newline +:+ forged +:+ newline +:+ b].
Proof.
  intros Hl Hp. unfold AccessLogger_Log, log_method, logContext. cbn [al_logger NewAccessLogger].
  rewrite (proj2 (Z.ltb_ge _ _)) by lia.
  set (c := write_caller _ _). unfold log_entry.
  destruct (write_fields_in true
    [Field_String "client_ip" (ClientIP e); Field_String "method" (Method e)] "path" (Path e)
    ([Field_String "protocol" (Protocol e); Field_Int "status" (StatusCode e);
      Field_Int64 "bytes" (BytesWritten e); Field_Duration "duration" (Duration e);
      Field_String "user_agent" (UserAgent e)] ++ optional "query" (Query e) ++
      optional "referer" (Referer e) ++ optional "backend" (Backend e) ++
      optional "trace_id" (TraceID e))) as (a & b & Hw).
  change (write_fields true (access_fields e) = a +:+ Path e +:+ b) in Hw.
  change (match access_fields e with [] => "" | _ => " " +:+ write_fields true (access_fields e) end)
    with (" " +:+ write_fields true (access_fields e)).
  rewrite Hw, Hp.
  exists (format_time (timeFormat l) now +:+ " " +:+ Level_String InfoLevel +:+ " " +:+
          write_trace None +:+ c +:+ "access" +:+ " " +:+ a), (b +:+ newline).
  destruct l. unfold set_field. cbn [output]. by rewrite !str_app_assoc.
Qed.

(** ** What the middleware records *)

(** The bytes a handler writes. *)
Definition written (calls : list rw_call) : Z :=
  sum_by (fun c => match c with CallWrite n => n | CallWriteHeader _ => 0 end) calls.

Definition only_writes (calls : list rw_call) : Prop :=
  Forall (fun c => match c with CallWrite n => 0 <= n | CallWriteHeader _ => False end) calls.

Lemma rw_run1_write w n :
  statusCode (rw_run1 w (CallWrite n)) = statusCode w /\
  bytesWritten (rw_run1 w (CallWrite n)) = i64 (bytesWritten w + n) /\
  body (lrw_w (rw_run1 w (CallWrite n))) = body (lrw_w w) + n /\
  final_status (lrw_w (rw_run1 w (CallWrite n))) = final_status (lrw_w w).
Proof. by destruct w as [[[st|] bd] sc bw]. Qed.

Lemma rw_run_writes calls w :
  only_writes calls -> 0 <= bytesWritten w -> bytesWritten w + written calls < 2 ^ 63 ->
  let w' := foldl rw_run1 w calls in
  statusCode w' = statusCode w /\ bytesWritten w' = bytesWritten w + written calls /\
  body (lrw_w w') = body (lrw_w w) + written calls /\
  final_status (lrw_w w') = final_status (lrw_w w).
Proof.
  intros Hc. revert w. induction Hc as [|c calls Hn Hc IH]; intros w H0 Hb; cbn -[written] in *.
  { unfold written in *. cbn in *. split_and!; try done; lia. }
  destruct c as [code|n]; [done|].
  change (written (CallWrite n :: calls)) with (n + written calls) in *.
  assert (0 <= written calls).
  { clear -Hc. induction Hc as [|c calls Hn Hc IH]; [done|]. destruct c; [done|].
    change (written (CallWrite n :: calls)) with (n + written calls). lia. }
  destruct (rw_run1_write w n) as (E1 & E2 & E3 & E4). rewrite i64_small in E2 by lia.
  destruct (IH (rw_run1 w (CallWrite n))) as (F1 & F2 & F3 & F4); [lia..|].
  rewrite E1, E2, E3, E4 in *. split_and!; try done; lia.
Qed.

(** For handlers that call WriteHeader at most once and before their writes, with a
    status that is not informational, the access log records exactly the status that
    net/http sends and the number of body bytes written. *)
Theorem AccessLogMiddleware_truthful start finish stack method proto r code calls l :
  only_writes calls -> written calls < 2 ^ 63 -> informational code = false ->
  let logged cs := fst (AccessLogMiddleware start finish stack method proto r cs l) in
  let w1 := logged calls in let w2 := logged (CallWriteHeader code :: calls) in
  statusCode w1 = 200 /\ final_status (lrw_w w1) = 200 /\ bytesWritten w1 = body (lrw_w w1) /\
  statusCode w2 = code /\ final_status (lrw_w w2) = code /\ bytesWritten w2 = body (lrw_w w2).
Proof.
  intros Hc Hb Hi. cbv zeta. unfold AccessLogMiddleware. cbn [fst].
  destruct (rw_run_writes calls (mkLRW (mkResponseWriter None 0) 200 0) Hc ltac:(done) Hb)
    as (E1 & E2 & E3 & E4).
  destruct (rw_run_writes calls (rw_run1 (mkLRW (mkResponseWriter None 0) 200 0) (CallWriteHeader code)) Hc
    ltac:(done) Hb) as (F1 & F2 & F3 & F4).
  cbn [foldl]. rewrite E1, E2, E3, E4, F1, F2, F3, F4. cbn -[written informational].
  unfold rw_WriteHeader. cbn. by rewrite Hi.
Qed.
End rendering.

(** ** Examples *)

Definition fmt0 (f : string) (t : time) : string := "T".

Definition verbose : Logger := NewLogger [] (mkLogConfig DebugLevel None "" true).

Lemma Logger_caller_witness :
  output (log_method fmt0 itoa 0 [mkFrame "a/b/server.go" 12; mkFrame "main.go" 3] WarnLevel "hi" [] verbose)
    = ["T WARN server.go:12 hi" +:+ newline] /\
  output (log_context_method fmt0 itoa 0 [mkFrame "a/b/server.go" 12; mkFrame "main.go" 3] None WarnLevel
    "hi" [] verbose) = ["T WARN main.go:3 hi" +:+ newline].
Proof.
  destruct (Logger_caller fmt0 itoa 0 (mkFrame "a/b/server.go" 12) (mkFrame "main.go" 3) [] None
    WarnLevel "hi" [] verbose) as (E1 & E2 & _); [reflexivity|vm_compute; discriminate|].
  rewrite E1, E2. split; vm_compute; reflexivity.
Defined.

Lemma AccessLog_injectable_witness :
  exists a b, output (al_logger (AccessLogger_Log fmt0 itoa 0 []
      (mkAccessLog 0 "10.0.0.1" "GET" (newline +:+ "T INFO forged" +:+ newline) "" "HTTP/1.1" 200 0 0 ""
        "" "" "") (NewAccessLogger initial_globalLogger))) = [a +:+ newline +:+ "T INFO forged" +:+ newline +:+ b].
Proof.
  apply (AccessLog_injectable fmt0 itoa 0 []
    (mkAccessLog 0 "10.0.0.1" "GET" (newline +:+ "T INFO forged" +:+ newline) "" "HTTP/1.1" 200 0 0 ""
        "" "" "") initial_globalLogger "T INFO forged").
  - vm_compute. discriminate.
  - reflexivity.
Defined.

Definition request0 : HTTPRequest := mkHTTPRequest "example.com" "/" "" ∅ "10.0.0.1:99" false.

Lemma AccessLogMiddleware_truthful_witness :
  let w := fst (AccessLogMiddleware fmt0 itoa 0 Second [] "GET" "HTTP/1.1" request0
    [CallWriteHeader 404; CallWrite 5; CallWrite 4] initial_globalLogger) in
  statusCode w = 404 /\ final_status (lrw_w w) = 404 /\ bytesWritten w = body (lrw_w w).
Proof.
  refine (proj2 (proj2 (proj2 (AccessLogMiddleware_truthful fmt0 itoa 0 Second [] "GET" "HTTP/1.1"
    request0 404 [CallWrite 5; CallWrite 4] initial_globalLogger _ _ _)))).
  - repeat constructor; lia.
  - reflexivity.
  - reflexivity.
Defined.

(** A second header call changes what is logged but not what was sent. *)
Example superfluous_header :
  let w := fst (AccessLogMiddleware fmt0 itoa 0 Second [] "GET" "HTTP/1.1" request0
    [CallWrite 5; CallWriteHeader 500] initial_globalLogger) in
  statusCode w = 500 /\ final_status (lrw_w w) = 200.
Proof. vm_compute. split; reflexivity. Qed.
