(* ===== verification/Middleware.v ===== *)
(** * Response writers wrapped by middlewares (src/pkg/logging/access.go,
    src/pkg/metrics/prometheus.go, src/pkg/tracing/otel.go)

    Each of the three middlewares hands its own writer to the next handler.  Metrics and
    tracing declare the same [responseWriter], which records the status; it embeds the
    interface [http.ResponseWriter], so that a type assertion to [http.Flusher] or
    [http.Hijacker] fails on it, while the writer of the access log has both methods.
    The WebSocket path of the HTTP proxy makes such an assertion. *)

From S2P Require Import Prelude GoStd Backend Balancers Proxy HttpProxy Logging.

(** ** The writer that records the status *)

Record responseWriter := mkRW { rw_w : ResponseWriter; rw_statusCode : Z }.
#[export] Instance eta_responseWriter : Eta responseWriter := fun w => mkRW (rw_w w) (rw_statusCode w).

Definition responseWriter_WriteHeader (code : Z) (w : responseWriter) : responseWriter :=
  w <| rw_statusCode := code |> <| rw_w ::= rw_WriteHeader code |>.

(** [Write] is the embedded writer's. *)
Definition captured_run1 (w : responseWriter) (c : rw_call) : responseWriter :=
  match c with
  | CallWriteHeader code => responseWriter_WriteHeader code w
  | CallWrite n => w <| rw_w ::= rw_Write n |>
  end.

(** The handler's calls on the writer of net/http itself. *)
Definition direct_run1 (w : ResponseWriter) (c : rw_call) : ResponseWriter :=
  match c with CallWriteHeader code => rw_WriteHeader code w | CallWrite n => rw_Write n w end.

(** ** Optional methods *)

(** The writer of the connection, with what net/http offers on it, below the wrappers. *)
Inductive writer :=
| Conn (flusher : bool) (hijack : option (result string unit))
| Logged (w : writer)
| Captured (w : writer).

(** Type assertions look at the method set of the dynamic type. *)
Definition is_Flusher (w : writer) : bool :=
  match w with Conn f _ => f | Logged _ => true | Captured _ => false end.

Definition is_Hijacker (w : writer) : bool :=
  match w with Conn _ h => bool_decide (is_Some h) | Logged _ => true | Captured _ => false end.

(** Does the flush reach the connection? *)
Fixpoint Flush (w : writer) : bool :=
  match w with
  | Conn f _ => f
  | Logged w => if is_Flusher w then Flush w else false
  | Captured _ => false
  end.

Fixpoint Hijack (w : writer) : result string unit :=
  match w with
  | Conn _ h => default (Err "") h
  | Logged w => if is_Hijacker w then Hijack w else Err "ResponseWriter does not implement http.Hijacker"
  | Captured _ => Err ""
  end.

(** The upgrade as the WebSocket path sees it, when the backend was reached: [rest] is what
    happens once the connection is taken over. *)
Definition ws_hijack (w : writer) (rest : ws_result) : ws_result :=
  if negb (is_Hijacker w) then WsNoHijacker
  else match Hijack w with Err _ => WsHijackFailed | Ok _ => rest end.

(** ** Properties *)

(** The middleware is invisible to the client: the same bytes and the same status. *)
Lemma captured_transparent calls w :
  rw_w (foldl captured_run1 w calls) = foldl direct_run1 (rw_w w) calls.
Proof. revert w. induction calls as [|[code|n] calls IH]; intros w; [done|..]; cbn; rewrite IH; by destruct w. Qed.

Definition rw_of (w : loggingResponseWriter) : responseWriter := mkRW (lrw_w w) (statusCode w).

Lemma captured_logged calls w : foldl captured_run1 (rw_of w) calls = rw_of (foldl rw_run1 w calls).
Proof. revert w. induction calls as [|[code|n] calls IH]; intros w; [done|..]; cbn; rewrite <-IH; by destruct w as [[]]. Qed.

(** For handlers that call WriteHeader at most once and first, the recorded status is the
    one that is sent. *)
Lemma captured_truthful calls :
  only_writes calls -> written calls < 2 ^ 63 ->
  let start := mkRW (mkResponseWriter None 0) 200 in
  rw_statusCode (foldl captured_run1 start calls) = 200 /\
  final_status (rw_w (foldl captured_run1 start calls)) = 200 /\
  (forall code, informational code = false ->
    rw_statusCode (foldl captured_run1 start (CallWriteHeader code :: calls)) = code /\
    final_status (rw_w (foldl captured_run1 start (CallWriteHeader code :: calls))) = code).
Proof.
  intros Hc Hb. cbv zeta. change (mkRW (mkResponseWriter None 0) 200) with (rw_of (mkLRW (mkResponseWriter None 0) 200 0)).
  rewrite captured_logged.
  destruct (rw_run_writes calls (mkLRW (mkResponseWriter None 0) 200 0) Hc ltac:(done) Hb) as (E1 & _ & _ & E4).
  split; [done|]. split; [done|]. intros code Hi. rewrite captured_logged. cbn [foldl].
  destruct (rw_run_writes calls (rw_run1 (mkLRW (mkResponseWriter None 0) 200 0) (CallWriteHeader code)) Hc
    ltac:(done) Hb) as (F1 & _ & _ & F4).
  unfold rw_of. cbn [rw_statusCode rw_w]. rewrite F1, F4. cbn. unfold rw_WriteHeader. cbn. by rewrite Hi.
Qed.

(** No wrapper of a stack records only the status, and what the connection offers. *)
Fixpoint no_capture (w : writer) : Prop :=
  match w with Conn _ _ => True | Logged w => no_capture w | Captured _ => False end.

Fixpoint connection (w : writer) : writer :=
  match w with Conn _ _ => w | Logged w | Captured w => connection w end.

Lemma Flush_stack w : Flush w = true <-> no_capture w /\ Flush (connection w) = true.
Proof.
  induction w as [f h|w IH|w IH]; cbn; [naive_solver| |naive_solver].
  destruct w as [[] h|w|w]; cbn in *; try tauto; split; naive_solver.
Qed.

Lemma Hijack_stack w : Hijack w = Ok tt <-> no_capture w /\ Hijack (connection w) = Ok tt.
Proof.
  induction w as [f h|w IH|w IH]; cbn; [naive_solver| |naive_solver].
  destruct (is_Hijacker w) eqn:E; [done|]. destruct w as [f [[]|]|w|w]; cbn in *; try done; split; naive_solver.
Qed.

(** Through any stack of middlewares, a WebSocket upgrade gets the client connection,
    and a flush reaches it, exactly when the connection supports it and no wrapper of
    the stack is the responseWriter of metrics or tracing; otherwise the upgrade ends
    with one of the two hijacking errors. *)
Theorem upgrade_through_middlewares (w : writer) (rest : ws_result) :
  (ws_hijack w rest = rest /\ Hijack w = Ok tt <-> no_capture w /\ Hijack (connection w) = Ok tt) /\
  (Hijack w <> Ok tt -> ws_hijack w rest = WsNoHijacker \/ ws_hijack w rest = WsHijackFailed) /\
  (Flush w = true <-> no_capture w /\ Flush (connection w) = true).
Proof.
  rewrite <-Hijack_stack, <-Flush_stack. split; [|split; [|done]]; unfold ws_hijack.
  - split; [naive_solver|]. intros H. rewrite H. split; [|done].
    destruct (is_Hijacker w) eqn:E; [done|]. by destruct w as [f [|]| |].
  - destruct (is_Hijacker w); [|by left]. destruct (Hijack w) as [[]|e]; [done|by right].
Qed.

(** With the metrics or the tracing middleware around the proxy every upgrade ends with the
    status 500, after the backend was dialled. *)
Lemma captured_upgrade_fails w rest t1 t2 r s h b s' :
  http_select (getClientIP r) t1 t2 s h = (Ret (Some b), s') ->
  handleWebSocket (ws_hijack (Captured w) rest) t1 t2 r s h =
    Ret (Status 500, count_error s', DecrementConnections b (IncrementConnections b h)).
Proof. intros H. unfold handleWebSocket. by rewrite H. Qed.

Lemma upgrade_through_middlewares_witness :
  ws_hijack (Logged (Logged (Conn true (Some (Ok tt))))) (WsProxied 3 4) = WsProxied 3 4 /\
  (ws_hijack (Captured (Conn true (Some (Ok tt)))) (WsProxied 3 4) = WsNoHijacker \/
   ws_hijack (Captured (Conn true (Some (Ok tt)))) (WsProxied 3 4) = WsHijackFailed).
Proof.
  split.
  - apply (upgrade_through_middlewares (Logged (Logged (Conn true (Some (Ok tt))))) (WsProxied 3 4)). done.
  - apply (upgrade_through_middlewares (Captured (Conn true (Some (Ok tt)))) (WsProxied 3 4)). discriminate.
Defined.
