(* ===== verification/Tracing.v ===== *)
(** * Distributed tracing (src/pkg/tracing/otel.go)

    OpenTelemetry is not part of the repository: its constructors, contexts and the
    propagation of a trace through headers are a class, with their documented laws.  What
    the package does to spans is the sequence of its calls, and the theorems are about
    those calls; what a provider records of them (its sampler, its limits, the no-op
    provider that a disabled tracer is given) is the library's.  A span is named by its
    place among the calls of [Start], whether it records or not. *)

From S2P Require Import Prelude GoStd Logging Middleware.

Definition tracerName : string := "balance-proxy".

(** [SampleRate] by its bits. *)
Record TracerConfig := mkTracerConfig {
  Enabled : bool;
  ServiceName : string;
  Endpoint : string;
  SampleRate : Z
}.

Inductive attr_value := AString (s : string) | AInt (n : Z).
Abbreviation KeyValue := (string * attr_value)%type.

Inductive SpanKind := SpanKindServer | SpanKindClient.

(** codes.Unset, codes.Error with its text, codes.Ok. *)
Inductive SpanStatus := StatusUnset | StatusError (text : string) | StatusOk.
#[export] Instance SpanStatus_eq_dec : EqDecision SpanStatus.
Proof. solve_decision. Defined.

Abbreviation span := nat (only parsing).

Class SDK (Ctx Exporter Res Provider : Type) := {
  (** jaeger.New, resource.New, sdktrace.NewTracerProvider, TracerProvider.Shutdown *)
  jaeger_New : string -> result string Exporter;
  resource_New : list KeyValue -> result string Res;
  NewTracerProvider : Exporter -> Res -> Z -> Provider;
  provider_Shutdown : Provider -> Ctx -> option string;
  (** trace.ContextWithSpan, trace.SpanFromContext *)
  ContextWithSpan : Ctx -> span -> Ctx;
  ctx_span : Ctx -> option span;
  (** the trace a context belongs to; the composite propagator of the trace context and
      the baggage *)
  trace_of : Ctx -> option string;
  composite_Extract : Ctx -> Header -> Ctx;
  composite_Inject : Ctx -> Header -> Header
}.

(** Documented behaviour: the context of a started span contains it, a span started in a
    context that has a trace belongs to that trace, and what was injected is extracted. *)
Class SDKLaws (Ctx Exporter Res Provider : Type) `{SDK Ctx Exporter Res Provider} := {
  span_in_context c s : ctx_span (ContextWithSpan c s) = Some s;
  span_keeps_trace c s t : trace_of c = Some t -> trace_of (ContextWithSpan c s) = Some t;
  extract_inject c c' t h : trace_of c' = Some t ->
    trace_of (composite_Extract c (composite_Inject c' h)) = Some t
}.

Section tracing.
Context {Ctx Exporter Res Provider : Type} `{SDK Ctx Exporter Res Provider}.

(** A tracer delegates to the global provider, or belongs to one. *)
Inductive tracer := GlobalTracer (name : string) | ProviderTracer (p : Provider) (name : string).

Inductive sdk_call :=
| CStart (tr : tracer) (parent : Ctx) (name : string) (kind : SpanKind) (attrs : list KeyValue)
| CEnd (s : span)
| CSetAttributes (s : span) (attrs : list KeyValue)
| CSetStatus (s : span) (status : SpanStatus)
| CRecordError (s : span) (err : string)
| CAddEvent (s : span) (name : string) (attrs : list KeyValue).

(** The global provider and propagator of the library, and the calls so far. *)
Record otel := mkOtel {
  globalProvider : option Provider;
  propagatorSet : bool;
  calls : list sdk_call
}.

Definition call (c : sdk_call) (o : otel) : otel :=
  mkOtel (globalProvider o) (propagatorSet o) (calls o ++ [c]).

Record Tracer := mkTracer { t_tracer : tracer; tracerProvider : option Provider }.

Inductive tracer_error := FailedExporter (e : string) | FailedResource (e : string).

Definition NewTracer (config : TracerConfig) (o : otel) : result tracer_error Tracer * otel :=
  if negb (Enabled config) then (Ok (mkTracer (GlobalTracer tracerName) None), o)
  else
    match jaeger_New (Endpoint config) with
    | Err e => (Err (FailedExporter e), o)
    | Ok exporter =>
        match resource_New [("service.name", AString (ServiceName config))] with
        | Err e => (Err (FailedResource e), o)
        | Ok res =>
            let tp := NewTracerProvider exporter res (SampleRate config) in
            (Ok (mkTracer (ProviderTracer tp tracerName) (Some tp)), mkOtel (Some tp) true (calls o))
        end
    end.

Definition is_start (c : sdk_call) : bool := match c with CStart _ _ _ _ _ => true | _ => false end.
Definition next_span (cs : list sdk_call) : span := length (filter (fun c => is_start c = true) cs).

Definition StartSpan (t : Tracer) (ctx : Ctx) (name : string) (kind : SpanKind) (attrs : list KeyValue) (o : otel)
  : Ctx * span * otel :=
  let s := next_span (calls o) in
  (ContextWithSpan ctx s, s, call (CStart (t_tracer t) ctx name kind attrs) o).

Definition Tracer_Close (t : Tracer) (ctx : Ctx) : option string :=
  match tracerProvider t with Some tp => provider_Shutdown tp ctx | None => None end.

(** Without a propagator the library's does nothing. *)
Definition ExtractTraceContext (ctx : Ctx) (headers : Header) (o : otel) : Ctx :=
  if propagatorSet o then composite_Extract ctx headers else ctx.

Definition InjectTraceContext (ctx : Ctx) (headers : Header) (o : otel) : Header :=
  if propagatorSet o then composite_Inject ctx headers else headers.

Definition SpanFromContext (ctx : Ctx) : option span := ctx_span ctx.

Definition StartProxySpan (t : Tracer) (ctx : Ctx) (backend operation : string) (o : otel) : Ctx * span * otel :=
  StartSpan t ctx ("proxy: " +:+ operation) SpanKindClient
    [("backend", AString backend); ("operation", AString operation)] o.

Definition StartBackendRequestSpan (t : Tracer) (ctx : Ctx) (backend method url : string) (o : otel)
  : Ctx * span * otel :=
  StartSpan t ctx ("backend: " +:+ method +:+ " " +:+ url) SpanKindClient
    [("backend", AString backend); ("http.method", AString method); ("http.url", AString url)] o.

(** The error is not nil. *)
Definition RecordError (s : span) (err : string) (o : otel) : otel :=
  call (CSetStatus s (StatusError err)) (call (CRecordError s err) o).

Definition AddEvent (s : span) (name : string) (attrs : list KeyValue) (o : otel) : otel :=
  call (CAddEvent s name attrs) o.

Definition SetAttributes (s : span) (attrs : list KeyValue) (o : otel) : otel := call (CSetAttributes s attrs) o.

(** ** The middleware *)

(** What it reads of the request. *)
Record traced_request := mkTracedRequest {
  tr_ctx : Ctx;
  tr_Method : string;
  tr_URL : string;
  tr_Path : string;
  tr_Scheme : string;
  tr_Host : string;
  tr_UserAgent : string;
  tr_RemoteAddr : string;
  tr_Header : Header
}.

(** A handler: its calls on the writer, its calls on spans, and whether it panics. *)
Definition handler : Type := Ctx -> otel -> list rw_call * list sdk_call * bool.

Definition server_attributes (r : traced_request) : list KeyValue :=
  [("http.method", AString (tr_Method r)); ("http.url", AString (tr_URL r)); ("http.target", AString (tr_Path r));
   ("http.scheme", AString (tr_Scheme r)); ("http.host", AString (tr_Host r));
   ("http.user_agent", AString (tr_UserAgent r)); ("http.client_ip", AString (tr_RemoteAddr r))].

(** A panic of the handler skips the rest but for the deferred End. *)
Definition HTTPMiddleware (t : Tracer) (next : handler) (w : ResponseWriter) (r : traced_request) (o : otel)
  : ResponseWriter * otel * bool :=
  let ctx := ExtractTraceContext (tr_ctx r) (tr_Header r) o in
  let '(ctx, span, o) :=
    StartSpan t ctx (tr_Method r +:+ " " +:+ tr_Path r) SpanKindServer (server_attributes r) o in
  let '(writes, sdk, panics) := next ctx o in
  let rw := foldl captured_run1 (mkRW w 200) writes in
  let o := foldl (fun o c => call c o) o sdk in
  let o :=
    if panics then o
    else
      let o := SetAttributes span [("http.status_code", AInt (rw_statusCode rw))] o in
      if 500 <=? rw_statusCode rw then call (CSetStatus span (StatusError ("HTTP " +:+ itoa (rw_statusCode rw)))) o
      else call (CSetStatus span StatusOk) o in
  (rw_w rw, call (CEnd span) o, panics).
End tracing.
Arguments sdk_call : clear implicits.
Arguments otel : clear implicits.
Arguments tracer : clear implicits.

(** ** Properties *)

Lemma next_span_snoc {Ctx Provider} (cs : list (sdk_call Ctx Provider)) c :
  next_span (cs ++ [c]) = (next_span cs + Nat.b2n (is_start c))%nat.
Proof. unfold next_span. rewrite filter_app, length_app. by destruct c. Qed.

(** The status that a sequence of calls on the writer reports: the last one, or 200. *)
Definition status_of_call (c : rw_call) : option Z :=
  match c with CallWriteHeader code => Some code | CallWrite _ => None end.

Definition reported (writes : list rw_call) : Z := default 200 (last (omap status_of_call writes)).

Lemma captured_reported writes w code :
  rw_statusCode (foldl captured_run1 (mkRW w code) writes) = default code (last (omap status_of_call writes)).
Proof.
  revert w code. induction writes as [|[c|n] writes IH]; intros w code; [done|..]; cbn [foldl omap list_omap]; cbn.
  - change (rw_statusCode (foldl captured_run1 (mkRW (rw_WriteHeader c w) c) writes) =
      default code (last (c :: omap status_of_call writes))).
    rewrite IH, last_cons. by destruct (last _).
  - apply IH.
Qed.

Section properties.
Context {Ctx Exporter Res Provider : Type} {sdk : SDK Ctx Exporter Res Provider}
  {laws : SDKLaws Ctx Exporter Res Provider}.

Lemma calls_run cs (o : otel Ctx Provider) :
  foldl (fun o c => call c o) o cs = mkOtel (globalProvider o) (propagatorSet o) (calls o ++ cs).
Proof.
  revert o. induction cs as [|c cs IH]; intros [p b l]; cbn; [by rewrite app_nil_r|].
  rewrite IH. cbn. by rewrite <-(assoc_L (++)).
Qed.

(** The calls on the request's span [s] after a handler that wrote [writes]. *)
Definition finishing (s : span) (writes : list rw_call) (panics : bool) : list (sdk_call Ctx Provider) :=
  if panics then [CEnd s]
  else [CSetAttributes s [("http.status_code", AInt (reported writes))];
        CSetStatus s (if decide (500 <= reported writes) then StatusError ("HTTP " +:+ itoa (reported writes))
                      else StatusOk);
        CEnd s].


(** With an enabled tracer a trace survives the proxy: the trace that an upstream
    injected into the request headers is the one of the request's span, of the span of
    the backend request, and of what the backend extracts from the headers injected for
    it; the two spans are different. *)
Theorem trace_end_to_end (config : TracerConfig) (o o1 : otel Ctx Provider) (t : Tracer)
    (upstream incoming downstream : Ctx) (h h' : Header) (tid name backend method url : string) attrs :
  Enabled config = true -> NewTracer config o = (Ok t, o1) -> trace_of upstream = Some tid ->
  let ctx := ExtractTraceContext incoming (composite_Inject upstream h) o1 in
  let '(ctx1, s1, o2) := StartSpan t ctx name SpanKindServer attrs o1 in
  let '(ctx2, s2, o3) := StartBackendRequestSpan t ctx1 backend method url o2 in
  trace_of ctx1 = Some tid /\ trace_of ctx2 = Some tid /\ s1 <> s2 /\
  SpanFromContext ctx1 = Some s1 /\ SpanFromContext ctx2 = Some s2 /\
  trace_of (composite_Extract downstream (InjectTraceContext ctx2 h' o3)) = Some tid.
Proof.
  intros Hen Hnew Ht. unfold NewTracer in Hnew. rewrite Hen in Hnew. cbn in Hnew.
  destruct (jaeger_New _) as [ex|]; [|done]. destruct (resource_New _) as [res|]; [|done].
  injection Hnew as <- <-. cbn -[next_span String.append].
  pose proof (extract_inject incoming upstream tid h Ht) as H0.
  pose proof (span_keeps_trace _ (next_span (calls o)) _ H0) as H1.
  pose proof (span_keeps_trace _ (next_span (calls o ++ [CStart (ProviderTracer
    (NewTracerProvider ex res (SampleRate config)) tracerName)
    (composite_Extract incoming (composite_Inject upstream h)) name SpanKindServer attrs])) _ H1) as H2.
  split_and!; try done; try apply span_in_context.
  - rewrite next_span_snoc. cbn. lia.
  - by apply extract_inject.
Qed.

(** With tracing disabled, or when the exporter or the resource cannot be made, the global
    state is untouched, and then trace headers are neither read nor written. *)
Theorem NewTracer_inert (config : TracerConfig) (o : otel Ctx Provider) (ctx : Ctx) (h : Header) :
  Enabled config = false \/ (exists e, fst (NewTracer config o) = Err e) ->
  snd (NewTracer config o) = o /\
  (propagatorSet o = false -> ExtractTraceContext ctx h o = ctx /\ InjectTraceContext ctx h o = h) /\
  (forall t, fst (NewTracer config o) = Ok t -> Tracer_Close t ctx = None).
Proof.
  unfold NewTracer, ExtractTraceContext, InjectTraceContext. intros Hor.
  destruct (Enabled config); cbn in *.
  - destruct Hor as [|[e He]]; [done|]. destruct (jaeger_New _) as [ex|]; cbn in *;
      [destruct (resource_New _); cbn in *; [done|]|]; split_and!; try done; by intros ->.
  - split_and!; try done; [by intros ->|]. by intros t [= <-].
Qed.

End properties.

(** ** A concrete library

    A context is its span and its trace, which a header carries. *)
Module ToySDK.
Abbreviation ctx := (option span * string)%type.

#[export] Instance toy_sdk : SDK ctx string (list KeyValue) string := {
  jaeger_New e := if bool_decide (e = "") then Err "no endpoint" else Ok e;
  resource_New kv := Ok kv;
  NewTracerProvider ex res rate := ex;
  provider_Shutdown p c := None;
  ContextWithSpan c s := (Some s, c.2);
  ctx_span c := c.1;
  trace_of c := if bool_decide (c.2 = "") then None else Some c.2;
  composite_Extract c h := (c.1, Header_Get "Traceparent" h);
  composite_Inject c h := Header_Set "Traceparent" c.2 h
}.

#[export] Instance toy_sdk_laws : SDKLaws ctx string (list KeyValue) string.
Proof.
  split; [done|by intros [? ?] ? ? ?|]. intros [? ?] [? t'] t h. cbn -[Header_Get Header_Set].
  rewrite Header_Get_Set, decide_True by done. done.
Qed.
End ToySDK.
Import ToySDK.

Definition toy_config : TracerConfig := mkTracerConfig true "balance" "http://jaeger" 0.
Definition toy_otel : otel ctx string := mkOtel None false [].
Definition toy_tracer : Tracer := mkTracer (ProviderTracer "http://jaeger" tracerName) (Some "http://jaeger").
Definition toy_request : traced_request :=
  mkTracedRequest ((None, "") : ctx) "GET" "/a?b" "/a" "" "h" "ua" "1.2.3.4:5"
    (composite_Inject ((None, "t1") : ctx) ∅).

(** A handler that records an error and answers 503. *)
Definition toy_handler : handler (Ctx:=ctx) (Provider:=string) := fun c o =>
  ([CallWriteHeader 503; CallWrite 3], [CRecordError 0 "refused"; CSetStatus 0 (StatusError "refused")], false).


(** An error that a handler records on the span of a request that it answers with 404 is
    followed by the status Ok. *)
Definition failing_handler : handler (Ctx:=ctx) (Provider:=string) := fun c o =>
  ([CallWriteHeader 404], calls (RecordError 0 "no route" (mkOtel None true [])), false).

Example RecordError_overwritten :
  calls (snd (fst (HTTPMiddleware toy_tracer failing_handler (mkResponseWriter None 0) toy_request toy_otel))) =
  [CStart (t_tracer toy_tracer) (None, "") "GET /a" SpanKindServer (server_attributes toy_request);
   CRecordError 0 "no route"; CSetStatus 0 (StatusError "no route");
   CSetAttributes 0 [("http.status_code", AInt 404)]; CSetStatus 0 StatusOk; CEnd 0].
Proof. reflexivity. Qed.

Lemma trace_end_to_end_witness :
  NewTracer toy_config toy_otel = (Ok toy_tracer, mkOtel (Some "http://jaeger") true []) /\
  let ctx1 := (Some 0%nat, "t1") in
  trace_of ctx1 = Some "t1".
Proof.
  split; [reflexivity|].
  exact (proj1 (trace_end_to_end toy_config toy_otel (mkOtel (Some "http://jaeger") true []) toy_tracer
    (None, "t1") (None, "") (None, "") ∅ ∅ "t1" "GET /" "b" "GET" "/" [] eq_refl eq_refl eq_refl)).
Defined.

Lemma NewTracer_inert_witness :
  snd (NewTracer (mkTracerConfig true "balance" "" 0) toy_otel) = toy_otel.
Proof. apply (NewTracer_inert (mkTracerConfig true "balance" "" 0) toy_otel (None, "") ∅). right. eexists. reflexivity. Defined.
