(* ===== verification/Lifecycle.v ===== *)
(** * Starting and stopping the TCP server (src/pkg/proxy/server.go)

    [Start], the accept loop, the connection goroutines and [Shutdown] as a transition
    system over what they share: the listener, the context and the wait group.  A
    connection goroutine is abstract here (its phases are in Proxy.v): it ends at some
    point.  The answers of the network are part of the actions. *)

From S2P Require Import Prelude.

(** ** State *)

(** Where the accept loop stands: not started; at [Accept]; with a connection, before
    [wg.Add]; before [go handleConnection]; with an error, at the [select]; returned, before
    [wg.Done]; gone. *)
Inductive accept_pc := ANone | AAccept | AGot | AAdded | AError | AReturn | AGone.
#[export] Instance accept_pc_eq_dec : EqDecision accept_pc.
Proof. solve_decision. Defined.

(** Where [Shutdown] stands: not called; before [cancelFunc]; before closing the listener;
    at the final [select]; returned, with whether all connections had finished. *)
Inductive shutdown_pc := DNone | DCancel | DClose | DWait | DRet (drained : bool).
#[export] Instance shutdown_pc_eq_dec : EqDecision shutdown_pc.
Proof. solve_decision. Defined.

(** [listener]: none, open or closed; [conns]: the connection goroutines that run. *)
Record lifecycle := mkLifecycle {
  listener : option bool;
  cancelled : bool;
  wg : Z;
  acceptor : accept_pc;
  conns : nat;
  shutting : shutdown_pc
}.
#[export] Instance eta_lifecycle : Eta lifecycle := fun s =>
  mkLifecycle (listener s) (cancelled s) (wg s) (acceptor s) (conns s) (shutting s).

Definition initial : lifecycle := mkLifecycle None false 0 ANone 0 DNone.

(** ** Steps *)

(** [Start]: listening may fail.  A server is started once. *)
Definition Start (listen_ok : bool) (s : lifecycle) : option lifecycle :=
  if listen_ok
  then Some (s <| listener := Some true |> <| wg := wg s + 1 |> <| acceptor := AAccept |>)
  else None.

(** The accept loop; [incoming]: [Accept] delivers a connection (an open listener only)
    or fails. *)
Definition accept_step (incoming : bool) (s : lifecycle) : option lifecycle :=
  match acceptor s with
  | AAccept =>
      if incoming then
        if bool_decide (listener s = Some true) then Some (s <| acceptor := AGot |>) else None
      else Some (s <| acceptor := AError |>)
  | AError => Some (s <| acceptor := if cancelled s then AReturn else AAccept |>)
  | AGot => Some (s <| wg := wg s + 1 |> <| acceptor := AAdded |>)
  | AAdded => Some (s <| conns ::= S |> <| acceptor := AAccept |>)
  | AReturn => Some (s <| wg := wg s - 1 |> <| acceptor := AGone |>)
  | ANone | AGone => None
  end.

(** A connection goroutine ends: its deferred [wg.Done]. *)
Definition conn_ends (s : lifecycle) : option lifecycle :=
  match conns s with
  | O => None
  | S n => Some (s <| conns := n |> <| wg := wg s - 1 |>)
  end.

(** [Shutdown]; [timeout]: the 30 seconds are over. *)
Definition shutdown_step (timeout : bool) (s : lifecycle) : option lifecycle :=
  match shutting s with
  | DNone => Some (s <| shutting := DCancel |>)
  | DCancel => Some (s <| cancelled := true |> <| shutting := DClose |>)
  | DClose =>
      Some (s <| listener ::= fmap (fun _ => false) |> <| shutting := DWait |>)
  | DWait =>
      if timeout then Some (s <| shutting := DRet false |>)
      else if wg s =? 0 then Some (s <| shutting := DRet true |>) else None
  | DRet _ => None
  end.

Inductive laction := LStart (ok : bool) | LAccept (incoming : bool) | LEnd | LShutdown (timeout : bool).

Definition lrun1 (a : laction) (s : lifecycle) : option lifecycle :=
  match a with
  | LStart ok => if bool_decide (acceptor s = ANone /\ shutting s = DNone) then Start ok s else None
  | LAccept incoming => accept_step incoming s
  | LEnd => conn_ends s
  | LShutdown timeout => shutdown_step timeout s
  end.

Definition lstep (s s' : lifecycle) : Prop := exists a, lrun1 a s = Some s'.

Fixpoint lrun (l : list laction) (s : lifecycle) : option lifecycle :=
  match l with
  | [] => Some s
  | a :: l => match lrun1 a s with Some s' => lrun l s' | None => None end
  end.

Lemma lrun_reaches l s s' : lrun l s = Some s' -> rtc lstep s s'.
Proof.
  revert s. induction l as [|a l IH]; intros s Hr; cbn in Hr; [by simplify_eq|].
  destruct (lrun1 a s) as [s1|] eqn:Ha; [|done]. eapply rtc_l; [by exists a|by apply IH].
Qed.

(** ** Invariant *)

(** What the accept loop holds in the wait group. *)
Definition acceptor_wg (pc : accept_pc) : Z :=
  match pc with ANone | AGone => 0 | AAdded => 2 | _ => 1 end.

Definition stopping (pc : shutdown_pc) : bool :=
  match pc with DNone | DCancel | DClose => false | _ => true end.

(** What the control states imply about each other: the context is cancelled from the
    first step of the shutdown on, the listener closed from the second on, the listener
    exists once the loop was started, and the loop returns only after the cancellation. *)
Definition control_ok (li : option bool) (ca : bool) (ac : accept_pc) (sh : shutdown_pc) : bool :=
  Bool.eqb ca (match sh with DNone | DCancel => false | _ => true end) &&
  (if stopping sh then negb (bool_decide (li = Some true)) else true) &&
  Bool.eqb (bool_decide (ac = ANone)) (bool_decide (li = None)) &&
  (match ac with AReturn | AGone => ca | _ => true end).

Record life_inv (s : lifecycle) : Prop := {
  li_wg : wg s = acceptor_wg (acceptor s) + Z.of_nat (conns s);
  li_control : control_ok (listener s) (cancelled s) (acceptor s) (shutting s) = true;
  li_nothing : acceptor s = ANone -> conns s = 0%nat;
  li_done : shutting s = DRet true -> wg s = 0
}.

Lemma life_step a s s' : life_inv s -> lrun1 a s = Some s' -> life_inv s'.
Proof.
  intros [I1 I2 I3 I4] Hs. destruct s as [li ca w ac cn sh]. cbn in I1, I2, I3, I4.
  destruct a as [ok|inc| |to]; cbn in Hs.
  - case_bool_decide as Hg; [|done]. destruct Hg as [-> ->]. destruct ok; [|done].
    injection Hs as <-. rewrite (I3 eq_refl) in *. split; cbn in *; try done; [lia|].
    by destruct li as [[]|], ca.
  - unfold accept_step in Hs. cbn in Hs.
    destruct ac, inc; cbn in Hs; try done; try (case_bool_decide; [|done]); injection Hs as <-;
      split; cbn in *; try done; try lia; destruct li as [[]|], ca, sh as [| | | |[]]; cbn in *;
      try done; try lia; intros; exfalso; specialize (I4 eq_refl); lia.
  - unfold conn_ends in Hs. cbn in Hs. destruct cn as [|n]; [done|]. injection Hs as <-.
    split; cbn in *; try done; [lia| |].
    + intros Hac. specialize (I3 Hac). lia.
    + intros Hd. specialize (I4 Hd). destruct ac; cbn in I1; lia.
  - unfold shutdown_step in Hs. cbn in Hs. destruct sh; cbn in Hs; try done;
      [..|destruct to; [|destruct (Z.eqb_spec w 0); [|done]]]; injection Hs as <-;
      split; cbn in *; try done; by destruct li as [[]|], ca, ac.
Qed.

Lemma life_reachable s : rtc lstep initial s -> life_inv s.
Proof.
  apply rtc_invariant.
  - intros a b [x Hx] HI. by eapply life_step.
  - by split.
Qed.

(** ** What a shutdown guarantees *)

(** When Shutdown of the TCP server returns because all work is done, in every
    interleaving of the accept loop, connections and shutdown, the accept loop and every
    connection goroutine have ended, the listener is not open, and nothing of the server
    can take a step any more. *)
Theorem Shutdown_drains s :
  rtc lstep initial s -> shutting s = DRet true ->
  conns s = 0%nat /\ (acceptor s = ANone \/ acceptor s = AGone) /\ listener s <> Some true /\
  (forall a, lrun1 a s = None).
Proof.
  intros Hr Hd. destruct (life_reachable s Hr) as [I1 I2 I3 I4].
  specialize (I4 Hd). assert (conns s = 0%nat) as Hc by (destruct (acceptor s); cbn in I1; lia).
  assert (acceptor s = ANone \/ acceptor s = AGone) as Ha.
  { destruct (acceptor s); cbn in I1; auto; lia. }
  split_and!; [done|done| |].
  { intros Hl. rewrite Hl, Hd in I2. by destruct (cancelled s). }
  intros [ok|inc| |to]; cbn.
  - rewrite bool_decide_eq_false_2; [done|]. rewrite Hd. by intros [_ ?].
  - unfold accept_step. by destruct Ha as [-> | ->].
  - unfold conn_ends. by rewrite Hc.
  - unfold shutdown_step. by rewrite Hd.
Qed.

(** How many steps of the accept loop are left once the listener is closed. *)
Definition accept_left (pc : accept_pc) : nat :=
  match pc with
  | ANone | AGone => 0
  | AReturn => 1
  | AError => 2
  | AAccept => 3
  | AAdded => 4
  | AGot => 5
  end.

Lemma accept_decreases inc s s' :
  cancelled s = true -> listener s <> Some true -> accept_step inc s = Some s' ->
  (accept_left (acceptor s') < accept_left (acceptor s))%nat /\ cancelled s' = true /\
  listener s' = listener s /\ shutting s' = shutting s /\ (conns s' <= S (conns s))%nat.
Proof.
  destruct s as [li ca w ac cn sh]. cbn. intros -> Hl Hs. unfold accept_step in Hs. cbn in Hs.
  destruct ac, inc; cbn in Hs; try done; try (rewrite bool_decide_eq_false_2 in Hs by done; done);
    injection Hs as <-; cbn; split_and!; done || lia.
Qed.

(** The rest of an orderly shutdown: the accept loop ends, then the connections do. *)
Lemma accept_finishes s :
  cancelled s = true -> listener s <> Some true -> (acceptor s = ANone -> conns s = 0%nat) ->
  exists n s', (n <= 5)%nat /\ lrun (replicate n (LAccept false)) s = Some s' /\
    (acceptor s' = AGone \/ acceptor s' = ANone) /\ shutting s' = shutting s /\
    (conns s' <= S (conns s))%nat.
Proof.
  destruct s as [li ca w ac cn sh]. cbn. intros -> Hl Hn.
  destruct ac.
  - exists 0%nat. eexists. split_and!; [lia|done|by right|done|cbn; lia].
  - exists 3%nat. eexists. split_and!; [lia|reflexivity|by left|done|cbn; lia].
  - exists 5%nat. eexists. split_and!; [lia|reflexivity|by left|done|cbn; lia].
  - exists 4%nat. eexists. split_and!; [lia|reflexivity|by left|done|cbn; lia].
  - exists 2%nat. eexists. split_and!; [lia|reflexivity|by left|done|cbn; lia].
  - exists 1%nat. eexists. split_and!; [lia|reflexivity|by left|done|cbn; lia].
  - exists 0%nat. eexists. split_and!; [lia|done|by left|done|cbn; lia].
Qed.

Lemma conns_end n s :
  conns s = n ->
  exists s', lrun (replicate n LEnd) s = Some s' /\ conns s' = 0%nat /\
    acceptor s' = acceptor s /\ shutting s' = shutting s.
Proof.
  revert s. induction n as [|n IH]; intros s Hn; [by exists s|].
  cbn. unfold conn_ends. rewrite Hn. destruct s as [li ca w ac cn sh]. cbn in *.
  destruct (IH (mkLifecycle li ca (w - 1) ac n sh) eq_refl) as (s' & Hr & Hc & Ha & Hs).
  by exists s'.
Qed.

Lemma lrun_app l k s :
  lrun (l ++ k) s = match lrun l s with Some s' => lrun k s' | None => None end.
Proof. revert s. induction l as [|a l IH]; intros s; [done|]. cbn. by destruct (lrun1 a s). Qed.

(** C34: Once Shutdown waits, the accept loop is on its way out (each of its steps
    decreases a bound of at most five, so it cannot spin on the closed listener), the
    timeout always lets Shutdown return, and if the running connections end, Shutdown
    returns with everything drained after at most seven steps more than there are
    connections. *)
Theorem Shutdown_terminates s :
  rtc lstep initial s -> shutting s = DWait ->
  (forall inc s', accept_step inc s = Some s' ->
     (accept_left (acceptor s') < accept_left (acceptor s))%nat) /\
  (exists s', shutdown_step true s = Some s' /\ shutting s' = DRet false) /\
  (exists l s', lrun l s = Some s' /\ shutting s' = DRet true /\
     (length l <= conns s + 7)%nat).
Proof.
  intros Hr Hw. destruct (life_reachable s Hr) as [I1 I2 I3 I4]. rewrite Hw in I2.
  assert (cancelled s = true) as Hc by (by destruct (cancelled s)).
  assert (listener s <> Some true) as Hl by (intros Hl; rewrite Hl, Hc in I2; done).
  split_and!.
  - intros inc s' Ha. apply (accept_decreases inc s s' Hc Hl Ha).
  - unfold shutdown_step. rewrite Hw. eexists. split; [done|]. by destruct s.
  - destruct (accept_finishes s Hc Hl I3) as (n & s1 & Hn & Hr1 & Ha1 & Hs1 & Hc1).
    destruct (conns_end (conns s1) s1 eq_refl) as (s2 & Hr2 & Hc2 & Ha2 & Hs2).
    assert (wg s2 = 0) as Hz.
    { assert (life_inv s2) as [J1 _ _ _].
      { apply life_reachable. etrans; [exact Hr|].
        etrans; [exact (lrun_reaches _ _ _ Hr1)|exact (lrun_reaches _ _ _ Hr2)]. }
      rewrite J1, Hc2, Ha2. by destruct Ha1 as [-> | ->]. }
    exists (replicate n (LAccept false) ++ replicate (conns s1) LEnd ++ [LShutdown false]).
    exists (s2 <| shutting := DRet true |>).
    rewrite lrun_app, Hr1, lrun_app, Hr2. cbn. unfold shutdown_step.
    rewrite Hs2, Hs1, Hw, Hz. cbn. split_and!; [done|by destruct s2|].
    rewrite !length_app, !length_replicate. cbn. lia.
Qed.

(** ** Examples *)

(** Two connections, one of which is still running when the shutdown waits. *)
Definition demo : list laction :=
  [LStart true; LAccept true; LAccept true; LAccept true; LAccept true; LAccept true; LAccept true;
   LEnd; LShutdown false; LShutdown false; LShutdown false].
Definition demo_state : lifecycle := default initial (lrun demo initial).
Definition demo_end : lifecycle :=
  default initial (lrun (demo ++ [LAccept false; LAccept false; LAccept false; LEnd; LShutdown false]) initial).

Lemma Shutdown_terminates_witness :
  conns demo_state = 1%nat /\
  exists l s', lrun l demo_state = Some s' /\ shutting s' = DRet true /\ (length l <= 8)%nat.
Proof.
  split; [vm_compute; reflexivity|].
  refine (proj2 (proj2 (Shutdown_terminates demo_state _ _))).
  - apply (lrun_reaches demo). vm_compute. reflexivity.
  - vm_compute. reflexivity.
Defined.

Lemma Shutdown_drains_witness : forall a, lrun1 a demo_end = None.
Proof.
  refine (proj2 (proj2 (proj2 (Shutdown_drains demo_end _ _)))).
  - apply (lrun_reaches (demo ++ [LAccept false; LAccept false; LAccept false; LEnd; LShutdown false])).
    vm_compute. reflexivity.
  - vm_compute. reflexivity.
Defined.
