(* ===== verification/Startup.v ===== *)
(** * The command (src/cmd/balance/main.go, and [Start] of src/pkg/proxy)

    [main] composes loading, validation and the construction of a server; it ends the
    process with an error or goes on to serve.  Reading and parsing the file, and whether
    an address can be bound, are arguments. *)

From S2P Require Import Prelude GoStd Backend Config Router Proxy HttpProxy.

(** ** The servers *)

(** The type [proxy.Server] stands for both modes. *)
Inductive any_server :=
| TCPMode (s : Server) (h : heap)
| HTTPMode (s : HTTPServer) (h : heap).

Definition server_pool (s : any_server) : Pool :=
  match s with TCPMode s _ => srv_pool s | HTTPMode s _ => hs_pool s end.
Definition server_balancer (s : any_server) : lb_value :=
  match s with TCPMode s _ => srv_balancer s | HTTPMode s _ => hs_balancer s end.
Definition server_heap (s : any_server) : heap :=
  match s with TCPMode _ h => h | HTTPMode _ h => h end.

(** [Server.Start]: the TCP server listens itself and reports the error; the HTTP server
    listens in a goroutine, whose error is only logged. *)
Definition Server_Start (listen_ok : bool) (s : any_server) : bool :=
  match s with
  | HTTPMode _ _ => true
  | TCPMode _ _ => listen_ok
  end.

(** ** Statistics *)

Definition TCP_Stats (s : Server) : list (string * Z) :=
  [("total_connections", totalConnections s); ("active_connections", srv_activeConnections s);
   ("total_bytes_received", totalBytesReceived s); ("total_bytes_sent", totalBytesSent s)]%string.

Definition HTTP_Stats (s : HTTPServer) : list (string * Z) :=
  [("total_requests", totalRequests s); ("active_requests", activeRequests s);
   ("total_errors", totalErrors s); ("total_bytes_received", hs_totalBytesReceived s);
   ("total_bytes_sent", hs_totalBytesSent s)]%string.

Definition Server_Stats (s : any_server) : list (string * Z) :=
  match s with HTTPMode s _ => HTTP_Stats s | TCPMode s _ => TCP_Stats s end.

(** ** The command *)

(** The calls of [log.Fatalf]. *)
Inductive fatal {E1 E2 : Type} :=
| LoadFailed (e : load_error E1 E2)
| InvalidConfiguration (e : config_error)
| UnsupportedMode (mode : string)
| CreateFailed (e : server_error)
| StartFailed.
Arguments fatal : clear implicits.

Inductive main_result {E1 E2 : Type} :=
| VersionShown
| Fatal (why : fatal E1 E2)
| Serving (cfg : Config) (s : any_server).
Arguments main_result : clear implicits.

Section main.
Context {E1 E2 : Type}.
Variables (readFile : string -> result E1 (list Z)) (unmarshal : list Z -> result E2 Config)
  (sort_Slice : list RouteEntry -> list RouteEntry).

(** The switch on the mode. *)
Definition create_server (cfg : Config) : outcome (main_result E1 E2 + any_server) :=
  if bool_decide (c_Mode cfg = "tcp") then
    Ret (match NewTCPServer cfg with
         | Ok (s, h) => inr (TCPMode s h)
         | Err e => inl (Fatal (CreateFailed e))
         end)
  else if bool_decide (c_Mode cfg = "http") then
    match NewHTTPServer sort_Slice cfg with
    | Panic => Panic
    | Ret (Ok (s, h)) => Ret (inr (HTTPMode s h))
    | Ret (Err e) => Ret (inl (Fatal (CreateFailed e)))
    end
  else Ret (inl (Fatal (UnsupportedMode (c_Mode cfg)))).

(** [main] up to the point where it waits for a signal. *)
Definition main (showVersion : bool) (configPath : string) (listen_ok : bool) :
    outcome (main_result E1 E2) :=
  if showVersion then Ret VersionShown
  else
    match Load readFile unmarshal configPath with
    | Err e => Ret (Fatal (LoadFailed e))
    | Ok cfg =>
        match Validate cfg with
        | (Some e, _) => Ret (Fatal (InvalidConfiguration e))
        | (None, cfg) =>
            r ← create_server cfg;
            Ret (match r with
                 | inl stop => stop
                 | inr s => if Server_Start listen_ok s then Serving cfg s else Fatal StartFailed
                 end)
        end
    end.

(** A server that was built for a configuration: of its mode and with its algorithm, and
    the pool holds the configured backends, each with its name, address and weight, in the
    configured order, without duplicates, healthy and without connections. *)
Record built_for (cfg : Config) (s : any_server) : Prop := {
  built_mode : match s with TCPMode s _ => srv_config s = cfg /\ c_Mode cfg = "tcp"
               | HTTPMode s _ => hs_config s = cfg /\ c_Mode cfg = "http" end;
  built_backends : identities (server_heap s) (server_pool s) =
    (fun b => (b_Name b, b_Address b, b_Weight b)) <$> c_Backends cfg;
  built_distinct : NoDup (backends (server_pool s));
  built_healthy q : q ∈ backends (server_pool s) -> IsHealthy (server_heap s) q = true;
  built_idle q : q ∈ backends (server_pool s) -> ActiveConnections (server_heap s) q = 0;
  built_algorithm : exists a, server_balancer s = Plain a /\
    algorithm_Name a = lb_Algorithm (c_LoadBalancer cfg);
  built_some : backends (server_pool s) <> []
}.

Lemma built_intro cfg s a :
  c_Backends cfg <> [] -> server_heap s = new_backend <$> c_Backends cfg ->
  server_pool s = mkPool (seq 0 (length (c_Backends cfg))) -> server_balancer s = Plain a ->
  algorithm_Name a = lb_Algorithm (c_LoadBalancer cfg) ->
  match s with TCPMode s _ => srv_config s = cfg /\ c_Mode cfg = "tcp"
  | HTTPMode s _ => hs_config s = cfg /\ c_Mode cfg = "http" end ->
  built_for cfg s.
Proof.
  intros Hne Hh Hp Hb Ha Hm. split; rewrite ?Hh, ?Hp; cbn [backends].
  - done.
  - apply make_pool_identities.
  - apply NoDup_seq.
  - intros q Hq. pose proof (make_pool_healthy (c_Backends cfg)) as Hl.
    change (seq 0 _) with (backends (mkPool (seq 0 (length (c_Backends cfg))))) in Hq.
    cbn in Hq. rewrite <- Hl in Hq. by apply elem_of_Healthy in Hq as [_ ?].
  - apply make_pool_idle.
  - eauto.
  - by destruct (c_Backends cfg).
Qed.

Lemma create_server_loaded path c cfg :
  Load readFile unmarshal path = Ok c -> Validate c = (None, cfg) ->
  exists s, create_server cfg = Ret (inr s) /\ built_for cfg s.
Proof.
  intros Hl Hv. destruct (loaded_config _ _ _ _ _ Hl Hv) as (Hm & Hne & Halg & Hhttp).
  unfold create_server. destruct Hm as [Hm|Hm]; rewrite Hm.
  - rewrite bool_decide_eq_true_2 by done. destruct (NewTCPServer cfg) as [[s h]|e] eqn:Hs.
    + destruct (NewTCPServer_eq _ _ _ Hs) as (-> & a & Ha & ->). eexists. split; [reflexivity|].
      eapply built_intro; try done. by eapply new_algorithm_Name.
    + destruct (proj1 (NewTCPServer_builds cfg) Halg) as (? & ? & Hok & _). congruence.
  - rewrite bool_decide_eq_false_2 by done. rewrite bool_decide_eq_true_2 by done.
    destruct (NewHTTPServer_ok sort_Slice cfg Halg (Hhttp Hm)) as (s & h & a & -> & Hc & Hh & Hp & Hb & Ha).
    eexists. split; [reflexivity|]. by eapply built_intro.
Qed.

(** C2: End to end, for every flag, configuration file and binding result: main shows
    the version exactly when -version is given; otherwise it ends with the error of the
    first stage that fails (loading, validation, binding a TCP listener) or serves; a
    loaded and validated configuration never leads to the unsupported-mode or creation
    error nor to a panic. The server it starts has the configured mode and algorithm,
    and its pool holds the configured backends, each with its name, address and weight,
    in order, distinct, healthy and without connections. In HTTP mode a failed binding
    is not noticed (finding). *)
Theorem main_verdict showVersion path listen_ok :
  (main showVersion path listen_ok = Ret VersionShown <-> showVersion = true) /\
  match main showVersion path listen_ok with
  | Panic => False
  | Ret VersionShown => True
  | Ret (Fatal (LoadFailed e)) => Load readFile unmarshal path = Err e
  | Ret (Fatal (InvalidConfiguration e)) =>
      exists c, Load readFile unmarshal path = Ok c /\ fst (Validate c) = Some e
  | Ret (Fatal StartFailed) =>
      listen_ok = false /\ exists c cfg, Load readFile unmarshal path = Ok c /\
        Validate c = (None, cfg) /\ c_Mode cfg = "tcp"
  | Ret (Fatal _) => False
  | Ret (Serving cfg s) =>
      (exists c, Load readFile unmarshal path = Ok c /\ Validate c = (None, cfg)) /\
      built_for cfg s /\ (listen_ok = true \/ c_Mode cfg = "http")
  end.
Proof.
  unfold main. destruct showVersion; [done|].
  destruct (Load readFile unmarshal path) as [c|e] eqn:Hl; [|done].
  destruct (Validate c) as [[e|] cfg] eqn:Hv; [split; [done|]; exists c; by rewrite Hv|].
  destruct (create_server_loaded path c cfg Hl Hv) as (s & -> & Hb). cbn.
  pose proof (built_mode _ _ Hb) as Hm.
  destruct s as [s h|s h]; cbn in *; [destruct listen_ok|].
  all: split; [done|]. 1,3: split_and!; [by exists c|done|tauto].
  split; [done|]. exists c, cfg. tauto.
Qed.
End main.

(** ** Waiting for a signal *)

Inductive os_signal := SIGINT | SIGTERM | SIGHUP | OtherSignal (n : Z).

(** The signals the command asks for; others do not reach the channel. *)
Definition notified (sg : os_signal) : bool := match sg with SIGINT | SIGTERM => true | _ => false end.

(** [None] while no signal has come; afterwards the log and the server that was shut down,
    once, whatever signals follow. *)
Definition waitForShutdown {S} (shutdown : S -> option string * S) (signals : list os_signal) (server : S)
  : option (list string * S) :=
  if existsb notified signals then
    let '(err, server) := shutdown server in
    Some (["Shutdown signal received, gracefully shutting down..."] ++
          match err with Some e => ["Error during shutdown: " +:+ e] | None => [] end ++ ["Server stopped"], server)
  else None.

Lemma waitForShutdown_verdict {S} (shutdown : S -> option string * S) signals server :
  match waitForShutdown shutdown signals server with
  | None => Forall (fun sg => sg <> SIGINT /\ sg <> SIGTERM) signals
  | Some (logs, server') => server' = snd (shutdown server) /\ last logs = Some "Server stopped" /\
      (SIGINT ∈ signals \/ SIGTERM ∈ signals)
  end.
Proof.
  unfold waitForShutdown. destruct (existsb notified signals) eqn:E.
  - destruct (shutdown server) as [err s'] eqn:Es. split; [done|]. split; [by destruct err|].
    apply existsb_exists in E as (sg & Hin%list_elem_of_In & Hn). destruct sg; try done; auto.
  - apply Forall_forall. intros sg Hin. rewrite <-not_true_iff_false, existsb_exists in E.
    split; intros ->; apply E; eexists; (split; [by apply list_elem_of_In|done]).
Qed.
