(* ===== verification/Admin.v ===== *)
(** * The admin server (src/pkg/admin/admin.go)

    The endpoints as functions of the request path and of what the runtime reports, and
    the life of the server: [Start] serves in a goroutine and [Shutdown] closes.  A
    response body is the value that is encoded as JSON. *)

From S2P Require Import Prelude GoFloat GoStd Mux.

(** ** Endpoints *)

(** [healthFunc] may be nil; a call gives its answer. *)
Record AdminServer := mkAdminServer {
  admin_addr : string;
  startTime : time;
  healthFunc : option bool
}.

Record HealthResponse := mkHealthResponse { hr_Status : string; hr_Message : string }.

Record VersionResponse := mkVersionResponse {
  vr_Version : string; vr_GitCommit : string; vr_BuildTime : string; vr_GoVersion : string
}.

Record MemoryStats := mkMemoryStats { Alloc : Z; TotalAlloc : Z; Sys : Z; NumGC : Z }.

(** [sr_Uptime] is the duration that its String method renders. *)
Record StatusResponse := mkStatusResponse {
  sr_Status : string;
  sr_Uptime : duration;
  sr_UptimeSeconds : Z;
  sr_Version : string;
  sr_GoVersion : string;
  sr_NumGoroutine : Z;
  sr_Memory : MemoryStats;
  sr_Timestamp : time
}.

(** The variables of the build, and what the package runtime reports. *)
Record build_info := mkBuildInfo { Version : string; GitCommit : string; BuildTime : string }.
Definition default_build : build_info := mkBuildInfo "dev" "unknown" "unknown".
Record go_runtime := mkRuntime { rt_Version : string; rt_NumGoroutine : Z; rt_MemStats : MemoryStats }.

Inductive admin_body :=
| HealthBody (r : HealthResponse)
| VersionBody (r : VersionResponse)
| StatusBody (r : StatusResponse)
| MetricsBody
| RedirectBody (location : string)
| BadRequestBody
| NotFoundBody.

Record admin_response := mkAdminResponse { ar_code : Z; ar_body : admin_body }.

Definition NewAdminServer (Listen : string) (HealthFunc : option bool) (now : time) : AdminServer :=
  mkAdminServer Listen now HealthFunc.

Definition StatusOK : Z := 200.
Definition StatusServiceUnavailable : Z := 503.

Definition handleHealth (s : AdminServer) : admin_response :=
  let healthy := match healthFunc s with Some answer => answer | None => true end in
  let status := if healthy then "healthy" else "unhealthy" in
  let statusCode := if healthy then StatusOK else StatusServiceUnavailable in
  mkAdminResponse statusCode (HealthBody (mkHealthResponse status "")).

Definition handleReady (s : AdminServer) : admin_response := handleHealth s.

(** [t1] is the reading for the uptime, [t2] the timestamp. *)
Definition handleStatus (b : build_info) (rt : go_runtime) (t1 t2 : time) (s : AdminServer) : admin_response :=
  let uptime := time_Sub t1 (startTime s) in
  let uptimeSeconds := to_int64 (Seconds uptime) in
  mkAdminResponse StatusOK (StatusBody (mkStatusResponse "running" uptime uptimeSeconds (Version b)
    (rt_Version rt) (rt_NumGoroutine rt) (rt_MemStats rt) t2)).

Definition handleVersion (b : build_info) (rt : go_runtime) (s : AdminServer) : admin_response :=
  mkAdminResponse StatusOK (VersionBody (mkVersionResponse (Version b) (GitCommit b) (BuildTime b) (rt_Version rt))).

(** The patterns the mux of the server knows. *)
Definition admin_patterns : list string :=
  ["/health"; "/healthz"; "/ready"; "/readyz"; "/status"; "/version"; "/metrics"].

(** The handler registered for a pattern. *)
Definition admin_handler (b : build_info) (rt : go_runtime) (t1 t2 : time) (pattern : string) (s : AdminServer)
  : admin_response :=
  if bool_decide (pattern ∈ ["/health"; "/healthz"]) then handleHealth s
  else if bool_decide (pattern ∈ ["/ready"; "/readyz"]) then handleReady s
  else if bool_decide (pattern = "/status") then handleStatus b rt t1 t2 s
  else if bool_decide (pattern = "/version") then handleVersion b rt s
  else mkAdminResponse StatusOK MetricsBody.

Definition admin_serve (b : build_info) (rt : go_runtime) (t1 t2 : time) (method path : string) (s : AdminServer)
  : admin_response :=
  match ServeMux admin_patterns method path with
  | Handler pattern => admin_handler b rt t1 t2 pattern s
  | MovedPermanently location => mkAdminResponse 301 (RedirectBody location)
  | BadRequestTarget => mkAdminResponse 400 BadRequestBody
  | NoHandler => mkAdminResponse 404 NotFoundBody
  end.

(** The registered paths are clean, so that they are matched and never redirected. *)
Lemma admin_mux method path :
  ServeMux admin_patterns method path =
  if bool_decide (path ∈ admin_patterns) then Handler path
  else if bool_decide (path = "*") then BadRequestTarget
  else if bool_decide (method = "CONNECT") || bool_decide (cleanPath path = path) then NoHandler
  else MovedPermanently (cleanPath path).
Proof.
  unfold ServeMux, mux_match.
  assert (path ∈ admin_patterns -> path <> "*" /\ cleanPath path = path) as Hin.
  { unfold admin_patterns. intros H.
    repeat (apply elem_of_cons in H as [->|H]; [by vm_compute|]). by apply not_elem_of_nil in H. }
  rewrite (bool_decide_eq_false_2 ("/" ∈ admin_patterns)) by (vm_compute; set_solver).
  destruct (decide (path ∈ admin_patterns)) as [Hp|Hp].
  - destruct (Hin Hp) as [H1 H2].
    rewrite (bool_decide_eq_false_2 (path = "*")), (bool_decide_eq_true_2 (path ∈ admin_patterns)) by done.
    case_bool_decide; [done|]. rewrite H2. by rewrite !bool_decide_eq_true_2.
  - rewrite (bool_decide_eq_false_2 (path ∈ admin_patterns)) by done.
    case_bool_decide; [done|]. case_bool_decide; [done|]. case_bool_decide as Hc; cbn [orb]; [|done].
    rewrite Hc. by rewrite bool_decide_eq_false_2.
Qed.

Lemma admin_handler_code b rt t1 t2 path s :
  path ∈ admin_patterns ->
  ar_code (admin_handler b rt t1 t2 path s) =
  if bool_decide (path ∈ ["/health"; "/healthz"; "/ready"; "/readyz"]) && bool_decide (healthFunc s = Some false)
  then StatusServiceUnavailable else StatusOK.
Proof.
  unfold admin_patterns, admin_handler, handleReady, handleHealth. intros H.
  repeat (apply elem_of_cons in H as [->|H]; [by destruct (healthFunc s) as [[]|]|]).
  by apply not_elem_of_nil in H.
Qed.

(** The admin endpoints answer 503 exactly for the four probe paths when the health
    function reports false, and 404 exactly for paths that are clean (or sent with
    CONNECT) and not one of the seven registered ones; a path that is not clean is
    redirected. *)
Theorem admin_probes b rt t1 t2 method path s :
  (ar_code (admin_serve b rt t1 t2 method path s) = StatusServiceUnavailable <->
     path ∈ ["/health"; "/healthz"; "/ready"; "/readyz"]%string /\ healthFunc s = Some false) /\
  (ar_code (admin_serve b rt t1 t2 method path s) = 404 <->
     path ∉ admin_patterns /\ path <> "*" /\ (method = "CONNECT" \/ cleanPath path = path)).
Proof.
  unfold admin_serve. rewrite admin_mux.
  assert (path ∈ ["/health"; "/healthz"; "/ready"; "/readyz"]%string -> path ∈ admin_patterns) as Hsub
    by (unfold admin_patterns; set_solver).
  case_bool_decide as Hp.
  - rewrite admin_handler_code by done. unfold StatusServiceUnavailable, StatusOK.
    repeat case_bool_decide; cbn [andb]; naive_solver.
  - unfold StatusServiceUnavailable. case_bool_decide as H1; [cbn; naive_solver|].
    case_bool_decide as H2; cbn [orb ar_code]; [naive_solver|]. case_bool_decide; cbn [ar_code]; naive_solver.
Qed.

(** ** The uptime in seconds *)

(** The uptime goes through float64.  The result is at most one second ahead. *)
Lemma Seconds_trunc d :
  0 <= d <= maxDuration ->
  d / Second <= to_int64 (Seconds d) <= d / Second + 1 /\
  (d < 2 ^ 23 * Second -> to_int64 (Seconds d) = d / Second).
Proof.
  intros [Hd1 Hd2]. unfold Seconds, maxDuration, Second in *.
  rewrite Z.quot_div_nonneg, go_rem_nonneg by lia.
  pose proof (Z.mod_pos_bound d 1000000000 ltac:(lia)) as Hm.
  assert (0 <= d / 1000000000 < 2 ^ 52) as Hq
    by (split; [apply Z.div_pos; lia|apply Z.div_lt_upper_bound; lia]).
  assert (d < 2 ^ 23 * 1000000000 -> d / 1000000000 < 2 ^ 23) as Hsmall
    by (intros; apply Z.div_lt_upper_bound; lia).
  rewrite fdiv_of_int, of_int_exact by lia. pose proof one_units_pos as Hu.
  set (s := d / 1000000000) in *. set (f := d mod 1000000000) in *. clearbody s f.
  pose proof (rnd_ge (f * one_units) 1000000000 0 ltac:(lia) repr_0 ltac:(nia)) as Hr0.
  assert (one_units = 2 ^ 30 * 2 ^ 1044) as Hone by (vm_compute; reflexivity).
  assert (rnd (f * one_units) 1000000000 <= (2 ^ 30 - 1) * 2 ^ 1044) as Hr1.
  { apply rnd_le; [lia|apply repr_scaled; lia|]. rewrite Hone. generalize (Z.pow_pos_nonneg 2 1044 ltac:(lia) ltac:(lia)).
    generalize (2 ^ 1044). intros e He.
    pose proof (Z.mul_le_mono_nonneg_r (f * 2 ^ 30) ((2 ^ 30 - 1) * 1000000000) e ltac:(lia) ltac:(lia)). lia. }
  set (r := rnd (f * one_units) 1000000000) in *. clearbody r.
  assert (rnd (s * one_units + r) 1 <= (s + 1) * one_units - 2 ^ 1044 \/ 2 ^ 23 <= s) as Hup.
  { destruct (decide (s < 2 ^ 23)) as [Hs|]; [left|right; lia].
    replace ((s + 1) * one_units - 2 ^ 1044) with (((s + 1) * 2 ^ 30 - 1) * 2 ^ 1044) by (rewrite Hone; ring).
    apply rnd_le; [lia|apply repr_scaled; lia|]. rewrite Hone. lia. }
  assert (0 < 2 ^ 1044) as He by (apply Z.pow_pos_nonneg; lia). 
  destruct (fl_between (s * one_units + r) 1 s (s + 1)) as (n & Hn & Hlo & Hhi); [lia..|lia|].
  assert (n = rnd (s * one_units + r) 1) as En.
  { unfold fl in Hn. destruct (_ <=? _); [done|]. destruct (_ <=? _); [done|]. by injection Hn. }
  rewrite <-En in Hup. change (fadd (Fin (s * one_units)) (Fin r)) with (fl (s * one_units + r) 1). rewrite Hn.
  unfold to_int64. rewrite Z.quot_div_nonneg by lia.
  assert (s <= n / one_units <= s + 1) as Hdiv.
  { split; [apply Z.div_le_lower_bound; lia|]. apply Z.div_le_upper_bound; lia. }
  rewrite (proj2 (Z.leb_le _ _)), (proj2 (Z.ltb_lt _ _)) by lia. cbn [andb]. split; [done|]. intros Hlt.
  specialize (Hsmall Hlt). assert (n < (s + 1) * one_units) by lia.
  assert (n / one_units < s + 1) by (apply Z.div_lt_upper_bound; lia). lia.
Qed.

Definition uptime_of (r : admin_response) : option Z :=
  match ar_body r with StatusBody s => Some (sr_UptimeSeconds s) | _ => None end.

(** The status page reports the whole seconds since the start, exactly for the first 97
    days and at most one second ahead after that. *)
Theorem handleStatus_uptime b rt now t2 (s : AdminServer) :
  0 <= now - startTime s <= maxDuration ->
  exists n, uptime_of (admin_serve b rt now t2 "GET" "/status" s) = Some n /\
    (now - startTime s) / Second <= n <= (now - startTime s) / Second + 1 /\
    (now - startTime s < 2 ^ 23 * Second -> n = (now - startTime s) / Second).
Proof.
  intros H. eexists. split; [reflexivity|]. cbn -[Seconds to_int64].
  replace (time_Sub now (startTime s)) with (now - startTime s).
  - by apply Seconds_trunc.
  - unfold time_Sub, maxDuration, minDuration in *. zcases; lia.
Qed.

Lemma handleStatus_uptime_witness :
  uptime_of (admin_serve default_build (mkRuntime "go1.21" 3 (mkMemoryStats 1 2 3 0)) (90 * Second + 999999999) 0 "GET" "/status"
    (NewAdminServer ":9090" None 0)) = Some 90.
Proof.
  destruct (handleStatus_uptime default_build (mkRuntime "go1.21" 3 (mkMemoryStats 1 2 3 0)) (90 * Second + 999999999) 0
    (NewAdminServer ":9090" None 0)) as (n & Hn & _ & He); [vm_compute; split; discriminate|].
  rewrite Hn. f_equal. etrans; [apply He; vm_compute; reflexivity|]. vm_compute. reflexivity.
Defined.

(** ** The life of the server *)

(** The goroutine of a call of [Start]: before ListenAndServe has bound the address,
    serving, or returned with [http.ErrServerClosed] or another error, which is printed. *)
Inductive admin_pc := ABinding | AServing | AClosed | AFailed (err : string).

(** [http.Server] with what the goroutines printed. *)
Record admin_life := mkAdminLife {
  inShutdown : bool;
  goroutines : list admin_pc;
  printed : list string
}.
#[export] Instance eta_admin_life : Eta admin_life := fun s =>
  mkAdminLife (inShutdown s) (goroutines s) (printed s).

Definition admin_new : admin_life := mkAdminLife false [] [].

(** [Start] returns nil at once. *)
Definition admin_Start (s : admin_life) : option string * admin_life :=
  (None, s <| goroutines ::= fun l => l ++ [ABinding] |>).

(** [http.Server.Close] returns the error of closing the listeners. *)
Definition admin_Shutdown (close_err : option string) (s : admin_life) : option string * admin_life :=
  (close_err, s <| inShutdown := true |>).

(** One goroutine moves: [bound] is the result of binding the address or of serving. *)
Definition admin_goroutine (i : nat) (bound : option string) (s : admin_life) : option admin_life :=
  let fails e := s <| goroutines ::= <[i := AFailed e]> |> <| printed ::= fun l => l ++ ["Admin server error: " +:+ e] |> in
  match goroutines s !! i with
  | Some ABinding =>
      Some (if inShutdown s then s <| goroutines ::= <[i := AClosed]> |>
            else match bound with
                 | None => s <| goroutines ::= <[i := AServing]> |>
                 | Some e => fails e
                 end)
  | Some AServing =>
      if inShutdown s then Some (s <| goroutines ::= <[i := AClosed]> |>)
      else match bound with None => None | Some e => Some (fails e) end
  | _ => None
  end.

Inductive admin_step : admin_life -> admin_life -> Prop :=
| as_start s : admin_step s (snd (admin_Start s))
| as_shutdown e s : admin_step s (snd (admin_Shutdown e s))
| as_goroutine i bound s s' : admin_goroutine i bound s = Some s' -> admin_step s s'.

Definition admin_ended (pc : admin_pc) : bool := match pc with ABinding | AServing => false | _ => true end.

(** After [Shutdown] every goroutine ends with its next step, silently, and one that is
    started later never serves; before it an address that cannot be bound makes [Start]
    return nil all the same. *)
Theorem admin_Shutdown_stops (s : admin_life) :
  inShutdown s = true ->
  (forall i pc bound, goroutines s !! i = Some pc -> admin_ended pc = false ->
     exists s', admin_goroutine i bound s = Some s' /\ goroutines s' !! i = Some AClosed /\ printed s' = printed s) /\
  (forall s', rtc admin_step s s' -> inShutdown s' = true /\ printed s' = printed s /\
     forall i, goroutines s' !! i = Some AServing -> goroutines s !! i = Some AServing).
Proof.
  intros H. split.
  - intros i pc bound Hi He. unfold admin_goroutine. rewrite Hi, H.
    assert (i < length (goroutines s))%nat as Hlt by (by eapply lookup_lt_Some).
    destruct s as [b l pr]. cbn in *. destruct pc; try done; eexists; (split; [done|]); cbn;
      by rewrite list_lookup_insert_eq.
  - intros s' Hr. revert H. induction Hr as [s|s s1 s' Hstep _ IH]; intros H; [done|].
    assert (inShutdown s1 = true /\ printed s1 = printed s /\
      forall i, goroutines s1 !! i = Some AServing -> goroutines s !! i = Some AServing) as (H1 & H2 & H3).
    { destruct Hstep as [s|e s|i bound s s1 Hg].
      - destruct s. cbn in *. split_and!; try done. intros i [?|[_ Hx]]%lookup_app_Some; [done|].
        by apply list_lookup_singleton_Some in Hx as [_ ?].
      - by destruct s.
      - unfold admin_goroutine in Hg. destruct s as [b l pr]. cbn in *. subst b.
        destruct (l !! i) as [[]|] eqn:Hi; simplify_eq/=; split_and!; try done.
        all: intros j; destruct (decide (i = j)) as [<-|]; [|by rewrite list_lookup_insert_ne].
        all: rewrite list_lookup_insert_eq by (by eapply lookup_lt_Some); done. }
    destruct (IH H1) as (F1 & F2 & F3). split_and!; [done|congruence|auto].
Qed.

Lemma admin_Shutdown_stops_witness :
  exists s', admin_goroutine 0 None (snd (admin_Shutdown None (snd (admin_Start admin_new)))) = Some s' /\
    goroutines s' !! 0%nat = Some AClosed /\ printed s' = [].
Proof.
  apply (proj1 (admin_Shutdown_stops (snd (admin_Shutdown None (snd (admin_Start admin_new)))) eq_refl) 0%nat ABinding None); reflexivity.
Defined.

Lemma admin_Start_unbound e :
  fst (admin_Start admin_new) = None /\
  admin_goroutine 0 (Some e) (snd (admin_Start admin_new)) =
    Some (mkAdminLife false [AFailed e] ["Admin server error: " +:+ e]).
Proof. done. Qed.
