(* ===== verification/AdminJson.v ===== *)
(** * The bodies of the admin server (src/pkg/admin/admin.go)

    [json.NewEncoder(w).Encode(v)] writes the compact form of [v] and a line feed; nothing
    is written when the encoding fails, and the handlers ignore the error.  The names are
    the tags of the structs; [Message] is left out when it is empty. *)

From S2P Require Import Prelude GoFloat GoStd GoTime Mux Json JsonCodec Admin.

Definition health_val (r : HealthResponse) : val :=
  VStruct (("status", VString (hr_Status r)) ::
           (if bool_decide (hr_Message r = "") then [] else [("message", VString (hr_Message r))])).
Definition memory_val (m : MemoryStats) : val :=
  VStruct [("alloc_bytes", VInt (Alloc m)); ("total_alloc_bytes", VInt (TotalAlloc m));
           ("sys_bytes", VInt (Sys m)); ("num_gc", VInt (NumGC m))].
Definition status_val (r : StatusResponse) : val :=
  VStruct [("status", VString (sr_Status r)); ("uptime", VString (Duration_String (sr_Uptime r)));
           ("uptime_seconds", VInt (sr_UptimeSeconds r)); ("version", VString (sr_Version r));
           ("go_version", VString (sr_GoVersion r)); ("num_goroutine", VInt (sr_NumGoroutine r));
           ("memory", memory_val (sr_Memory r)); ("timestamp", VTime (sr_Timestamp r))].
Definition version_val (r : VersionResponse) : val :=
  VStruct [("version", VString (vr_Version r)); ("git_commit", VString (vr_GitCommit r));
           ("build_time", VString (vr_BuildTime r)); ("go_version", VString (vr_GoVersion r))].

Definition line_feed : string := str1 (ascii_of_byte 10).

Section bodies.
Variable zone : time -> Z.

Definition Encode (v : val) : string :=
  match Marshal zone v with Ok text => text +:+ line_feed | Err _ => "" end.

(** [None]: the pages of the metrics library and of a redirect. *)
Definition body_text (b : admin_body) : option string :=
  match b with
  | HealthBody r => Some (Encode (health_val r))
  | VersionBody r => Some (Encode (version_val r))
  | StatusBody r => Some (Encode (status_val r))
  | MetricsBody => None
  | RedirectBody _ => None
  | BadRequestBody => Some ""
  | NotFoundBody => Some ("404 page not found" +:+ line_feed)
  end.
End bodies.

(** ** The text of a duration is UTF-8 *)

Lemma valid_utf8_ascii (a b : string) :
  str_forallb is_ascii a = true -> valid_utf8 (a +:+ b) = valid_utf8 b.
Proof.
  unfold valid_utf8. induction a as [|c a IH]; [done|]. cbn [str_forallb]. intros [Hc Ha]%andb_prop.
  rewrite str_app_cons. cbn [chunks]. rewrite Hc. cbn [forallb is_bad negb andb]. by apply IH.
Qed.

Lemma numchar_ascii c : is_numchar c = true -> is_ascii c = true.
Proof. destruct c as [[] [] [] [] [] [] [] []]; done. Qed.

Lemma str_forallb_impl (f g : Ascii.ascii -> bool) (s : string) :
  (forall c, f c = true -> g c = true) -> str_forallb f s = true -> str_forallb g s = true.
Proof.
  intros Hfg. induction s as [|c s IH]; [done|]. cbn [str_forallb]. intros [Hc Hs]%andb_prop.
  by rewrite (Hfg c Hc), IH.
Qed.

Lemma itoa_ascii z : str_forallb is_ascii (itoa z) = true.
Proof. eapply str_forallb_impl; [apply numchar_ascii|]. apply itoa_literal. Qed.

Lemma frac_text_ascii prec v : str_forallb is_ascii (frac_text prec v) = true.
Proof.
  unfold frac_text. case_match; [done|]. rewrite str_forallb_app. apply andb_true_intro. split; [done|].
  eapply str_forallb_impl; [apply numchar_ascii|]. apply digits_numchars, all_digits_strip, all_digits_digits.
Qed.

Lemma magnitude_utf8 u : utf8_ok (magnitude_text u).
Proof.
  unfold utf8_ok, magnitude_text, amount_text.
  repeat case_match; rewrite ?str_app_assoc;
    repeat rewrite valid_utf8_ascii by first [apply itoa_ascii|apply frac_text_ascii|done]; done.
Qed.

Lemma Duration_String_utf8 d : utf8_ok (Duration_String d).
Proof.
  unfold Duration_String. case_match; [|apply magnitude_utf8].
  unfold utf8_ok. rewrite valid_utf8_ascii by done. apply magnitude_utf8.
Qed.
#[local] Hint Resolve Duration_String_utf8 : fits.

(** ** What a client decodes *)

Definition zero_memory : MemoryStats := mkMemoryStats 0 0 0 0.
Definition zero_status : val :=
  VStruct [("status", VString ""); ("uptime", VString ""); ("uptime_seconds", VInt 0); ("version", VString "");
           ("go_version", VString ""); ("num_goroutine", VInt 0); ("memory", memory_val zero_memory);
           ("timestamp", VTime time_zero)].
(** What the probes report. *)
Definition healthy (s : AdminServer) : bool := match healthFunc s with Some answer => answer | None => true end.

Definition zero_version : val := version_val (mkVersionResponse "" "" "" "").

(** The figures of the runtime are below 2^63, and its strings and those of the build are
    UTF-8. *)
Record runtime_ok (b : build_info) (rt : go_runtime) : Prop := mkRuntimeOk {
  ro_Version : utf8_ok (Version b); ro_GitCommit : utf8_ok (GitCommit b); ro_BuildTime : utf8_ok (BuildTime b);
  ro_GoVersion : utf8_ok (rt_Version rt); ro_NumGoroutine : in_s 64 (rt_NumGoroutine rt);
  ro_Alloc : in_s 64 (Alloc (rt_MemStats rt)); ro_TotalAlloc : in_s 64 (TotalAlloc (rt_MemStats rt));
  ro_Sys : in_s 64 (Sys (rt_MemStats rt)); ro_NumGC : in_s 64 (NumGC (rt_MemStats rt))
}.

Lemma fits_memory zone n m :
  in_s 64 (Alloc m) -> in_s 64 (TotalAlloc m) -> in_s 64 (Sys m) -> in_s 64 (NumGC m) ->
  fits zone (S n) (memory_val zero_memory) (memory_val m).
Proof. intros ????. fits_fields. Qed.
#[local] Hint Resolve fits_memory : fits.

Lemma Encode_decodes zone n z v :
  Z.of_nat n <= maxNestingDepth -> fits zone n z v -> Unmarshal (Encode zone v) z = Ok v.
Proof.
  intros Hn Hf. destruct (Unmarshal_print_ws zone compact n z v line_feed compact_ok Hn eq_refl Hf) as (j & E & H).
  unfold Encode, Marshal. rewrite E. exact H.
Qed.

Lemma to_int64_range x : in_s 64 (to_int64 x).
Proof.
  unfold to_int64, in_s. change (2 ^ (64 - 1)) with (2 ^ 63). repeat case_match; try lia.
Qed.

Lemma fits_status zone r :
  utf8_ok (sr_Status r) -> in_s 64 (sr_UptimeSeconds r) -> utf8_ok (sr_Version r) -> utf8_ok (sr_GoVersion r) ->
  in_s 64 (sr_NumGoroutine r) -> fits zone 1 (memory_val zero_memory) (memory_val (sr_Memory r)) ->
  is_ok (time_text (zone (sr_Timestamp r)) (sr_Timestamp r)) = true ->
  fits zone 2 zero_status (status_val r).
Proof. intros. fits_fields. Qed.

Lemma fits_version zone r :
  utf8_ok (vr_Version r) -> utf8_ok (vr_GitCommit r) -> utf8_ok (vr_BuildTime r) -> utf8_ok (vr_GoVersion r) ->
  fits zone 1 zero_version (version_val r).
Proof. intros. fits_fields. Qed.

(** Whatever the admin server answers can be read back: a client that decodes the body
    of /status or /version gets every field of the response, the probes report the
    health function's answer, a redirect leads to the clean form of the path, and 404 is
    answered only for paths that are not registered. *)
Theorem admin_bodies_decode zone b rt t1 t2 method path s :
  runtime_ok b rt -> is_ok (time_text (zone t2) t2) = true ->
  match ar_body (admin_serve b rt t1 t2 method path s) with
  | StatusBody r => Unmarshal (Encode zone (status_val r)) zero_status = Ok (status_val r)
  | VersionBody r => Unmarshal (Encode zone (version_val r)) zero_version = Ok (version_val r)
  | HealthBody r =>
      Unmarshal (Encode zone (health_val r)) (VStruct [("status", VString ""); ("message", VString "")]) =
      Ok (VStruct [("status", VString (if healthy s then "healthy" else "unhealthy")); ("message", VString "")])
  | MetricsBody => path = "/metrics"
  | RedirectBody location => location = cleanPath path /\ location <> path
  | BadRequestBody => path = "*"
  | NotFoundBody => path ∉ admin_patterns
  end.
Proof.
  intros [] Ht.
  assert (forall r, r = handleHealth s -> match ar_body r with
    | HealthBody r => Unmarshal (Encode zone (health_val r)) (VStruct [("status", VString ""); ("message", VString "")]) =
      Ok (VStruct [("status", VString (if healthy s then "healthy" else "unhealthy")); ("message", VString "")])
    | _ => False end) as Hh.
  { intros r ->. unfold handleHealth, healthy. destruct (healthFunc s) as [[]|]; vm_compute; reflexivity. }
  specialize (Hh _ eq_refl). unfold admin_serve. rewrite admin_mux.
  case_bool_decide as Hp; [|by repeat case_bool_decide].
  unfold admin_patterns in Hp.
  repeat (apply elem_of_cons in Hp as [->|Hp]; [first [exact Hh|reflexivity|idtac]|]);
    [..|by apply not_elem_of_nil in Hp];
    cbn [ar_body admin_handler handleStatus handleVersion].
  - apply (Encode_decodes _ 2); [done|]. apply fits_status; cbn [sr_Status sr_UptimeSeconds sr_Version sr_GoVersion
      sr_NumGoroutine sr_Memory sr_Timestamp]; [done|apply to_int64_range|done|done|done|by apply fits_memory|done].
  - apply (Encode_decodes _ 1); [done|]. by apply fits_version.
Qed.

(** ** Examples *)

Definition rt1 : go_runtime := mkRuntime "go1.24.7" 12 (mkMemoryStats 1024 4096 8192 3).

Lemma admin_bodies_decode_witness :
  runtime_ok default_build rt1 /\
  match ar_body (admin_serve default_build rt1 (90 * Second) (90 * Second) "GET" "/status" (NewAdminServer ":9090" None 0)) with
  | StatusBody r => Unmarshal (Encode (fun _ => 60) (status_val r)) zero_status = Ok (status_val r)
  | _ => False
  end.
Proof.
  assert (runtime_ok default_build rt1) as H by (split; try done; unfold in_s; cbn; lia).
  split; [exact H|].
  exact (admin_bodies_decode (fun _ => 60) default_build rt1 (90 * Second) (90 * Second) "GET" "/status"
    (NewAdminServer ":9090" None 0) H eq_refl).
Defined.

Example unhealthy_body :
  body_text (fun _ => 0) (ar_body (handleHealth (NewAdminServer ":9090" (Some false) 0))) =
  Some (String lbrace (quote "status" +:+ ":" +:+ quote "unhealthy" +:+ str1 rbrace) +:+ line_feed).
Proof. vm_compute. reflexivity. Qed.
