(* ===== verification/Metrics.v ===== *)
(** * Metrics (src/pkg/metrics/prometheus.go)

    The Prometheus client is not part of the repository: it is a [Registry] with the
    operations the code uses and their documented laws (a vector panics when it gets
    another number of label values than it declares labels).  The recorders and the
    request middleware are written against it; [table] is a concrete registry. *)

From S2P Require Import Prelude GoStd Logging Middleware.

(** ** The metrics of the package *)

Inductive metric :=
| requestsTotal
| requestDuration
| requestErrors
| backendConnectionsActive
| backendHealthStatus
| backendRequestsInFlight
| poolConnectionsActive
| poolConnectionsIdle
| poolConnectionsCreated
| poolConnectionsReused
| circuitBreakerState
| circuitBreakerOpenTotal
| retriesTotal
| retriesExhausted
| tlsHandshakesTotal
| tlsHandshakeDuration
| rateLimitedRequests.
#[export] Instance metric_eq_dec : EqDecision metric.
Proof. solve_decision. Defined.

Definition all_metrics : list metric :=
  [requestsTotal; requestDuration; requestErrors; backendConnectionsActive; backendHealthStatus;
   backendRequestsInFlight; poolConnectionsActive; poolConnectionsIdle; poolConnectionsCreated;
   poolConnectionsReused; circuitBreakerState; circuitBreakerOpenTotal; retriesTotal;
   retriesExhausted; tlsHandshakesTotal; tlsHandshakeDuration; rateLimitedRequests].

(** [Name] and the label names of each. *)
Definition metric_Name (m : metric) : string :=
  match m with
  | requestsTotal => "balance_requests_total"
  | requestDuration => "balance_request_duration_seconds"
  | requestErrors => "balance_request_errors_total"
  | backendConnectionsActive => "balance_backend_connections_active"
  | backendHealthStatus => "balance_backend_health_status"
  | backendRequestsInFlight => "balance_backend_requests_in_flight"
  | poolConnectionsActive => "balance_pool_connections_active"
  | poolConnectionsIdle => "balance_pool_connections_idle"
  | poolConnectionsCreated => "balance_pool_connections_created_total"
  | poolConnectionsReused => "balance_pool_connections_reused_total"
  | circuitBreakerState => "balance_circuit_breaker_state"
  | circuitBreakerOpenTotal => "balance_circuit_breaker_open_total"
  | retriesTotal => "balance_retries_total"
  | retriesExhausted => "balance_retries_exhausted_total"
  | tlsHandshakesTotal => "balance_tls_handshakes_total"
  | tlsHandshakeDuration => "balance_tls_handshake_duration_seconds"
  | rateLimitedRequests => "balance_rate_limited_requests_total"
  end.

Definition metric_labels (m : metric) : list string :=
  match m with
  | requestsTotal => ["backend"; "method"; "status"]
  | requestDuration => ["backend"; "method"]
  | requestErrors => ["backend"; "error_type"]
  | tlsHandshakesTotal => ["status"]
  | tlsHandshakeDuration => []
  | rateLimitedRequests => ["client_ip"]
  | _ => ["backend"]
  end%string.

(** ** The client library *)

(** [update m labels f] applies [f] to the series of [m] with these label values. A
    histogram's value is the number of its observations. *)
Class Registry (R : Type) := {
  update : metric -> list string -> (Z -> Z) -> R -> outcome R;
  read : metric -> list string -> R -> Z
}.

Class RegistryLaws (R : Type) `{Registry R} := {
  update_panics : forall m labels f r,
    update m labels f r = Panic <-> length labels <> length (metric_labels m);
  update_reads : forall m labels f r r' m' labels',
    update m labels f r = Ret r' ->
    read m' labels' r' =
      if decide (m' = m /\ labels' = labels) then f (read m labels r) else read m' labels' r
}.

(** ** The recorders *)

Section recorders.
Context {R : Type} {registry : Registry R}.

Definition Inc (m : metric) (labels : list string) : R -> outcome R := update m labels (fun v => v + 1).
Definition Dec (m : metric) (labels : list string) : R -> outcome R := update m labels (fun v => v - 1).
Definition Set_ (m : metric) (labels : list string) (x : Z) : R -> outcome R := update m labels (fun _ => x).
Definition Observe (m : metric) (labels : list string) : R -> outcome R := update m labels (fun v => v + 1).

Definition RecordRequest (backend method status : string) (r : R) : outcome R :=
  r ← Inc requestsTotal [backend; method; status] r;
  Observe requestDuration [backend; method] r.

Definition RecordRequestError (backend errorType : string) : R -> outcome R :=
  Inc requestErrors [backend; errorType].

Definition SetBackendConnectionsActive (backend : string) (count : Z) : R -> outcome R :=
  Set_ backendConnectionsActive [backend] count.

Definition SetBackendHealthStatus (backend : string) (healthy : bool) : R -> outcome R :=
  Set_ backendHealthStatus [backend] (if healthy then 1 else 0).

Definition IncBackendRequestsInFlight (backend : string) : R -> outcome R :=
  Inc backendRequestsInFlight [backend].
Definition DecBackendRequestsInFlight (backend : string) : R -> outcome R :=
  Dec backendRequestsInFlight [backend].

Definition SetPoolConnectionsActive (backend : string) (count : Z) : R -> outcome R :=
  Set_ poolConnectionsActive [backend] count.
Definition SetPoolConnectionsIdle (backend : string) (count : Z) : R -> outcome R :=
  Set_ poolConnectionsIdle [backend] count.
Definition IncPoolConnectionsCreated (backend : string) : R -> outcome R :=
  Inc poolConnectionsCreated [backend].
Definition IncPoolConnectionsReused (backend : string) : R -> outcome R :=
  Inc poolConnectionsReused [backend].

Definition SetCircuitBreakerState (backend : string) (state : Z) : R -> outcome R :=
  Set_ circuitBreakerState [backend] state.
Definition IncCircuitBreakerOpen (backend : string) : R -> outcome R :=
  Inc circuitBreakerOpenTotal [backend].

Definition IncRetries (backend : string) : R -> outcome R := Inc retriesTotal [backend].
Definition IncRetriesExhausted (backend : string) : R -> outcome R := Inc retriesExhausted [backend].

Definition RecordTLSHandshake (status : string) (r : R) : outcome R :=
  r ← Inc tlsHandshakesTotal [status] r;
  Observe tlsHandshakeDuration [] r.

Definition IncRateLimitedRequests (clientIP : string) : R -> outcome R :=
  Inc rateLimitedRequests [clientIP].

(** *** The middleware *)

(** What the handler leaves behind: the status its response writer recorded, or a panic. *)
Inductive handled := Status (code : Z) | Panicked.

(** Before the handler. *)
Definition request_begins (backend : string) (r : R) : outcome R :=
  IncBackendRequestsInFlight backend r.

(** After the handler; the decrement is deferred and runs also after a panic, which skips
    the recording. *)
Definition request_ends (backend method : string) (h : handled) (r : R) : outcome R :=
  r ← match h with
      | Panicked => Ret r
      | Status code =>
          r ← RecordRequest backend method (itoa code) r;
          if 500 <=? code then RecordRequestError backend "server_error" r
          else if 400 <=? code then RecordRequestError backend "client_error" r
          else Ret r
      end;
  DecBackendRequestsInFlight backend r.
End recorders.

(** ** Requests of many goroutines *)

(** Requests that run, and requests that ended with what they left behind. *)
Record mstate (R : Type) := mkMState {
  reg : R;
  running : list string;
  ended : list (string * string * handled)
}.
Arguments mkMState {R} reg running ended.
Arguments reg {R} m.
Arguments running {R} m.
Arguments ended {R} m.

Section middleware.
Context {R : Type} {registry : Registry R}.

Inductive mstep : mstate R -> mstate R -> Prop :=
| m_begin backend s r :
    request_begins backend (reg s) = Ret r ->
    mstep s (mkMState r (backend :: running s) (ended s))
| m_end backend method h s r l1 l2 :
    running s = l1 ++ backend :: l2 ->
    request_ends backend method h (reg s) = Ret r ->
    mstep s (mkMState r (l1 ++ l2) ((backend, method, h) :: ended s)).

(** The middleware around a handler, given as its calls on the writer and whether it
    panics afterwards. *)
Definition RequestMetricsMiddleware (backend method : string) (writes : list rw_call) (panics : bool)
    (w : ResponseWriter) (r : R) : outcome (ResponseWriter * R) :=
  r ← request_begins backend r;
  let rw := foldl captured_run1 (mkRW w 200) writes in
  r ← request_ends backend method (if panics then Panicked else Status (rw_statusCode rw)) r;
  Ret (rw_w rw, r).

(** It is a begin and an end of the system above, and the client gets what the handler
    wrote; [captured_truthful] says when the recorded status is the one that was sent. *)
Lemma RequestMetricsMiddleware_steps backend method writes panics w w' s r :
  RequestMetricsMiddleware backend method writes panics w (reg s) = Ret (w', r) ->
  w' = foldl direct_run1 w writes /\
  rtc mstep s (mkMState r (running s) ((backend, method, if panics then Panicked
    else Status (rw_statusCode (foldl captured_run1 (mkRW w 200) writes))) :: ended s)).
Proof.
  unfold RequestMetricsMiddleware. destruct (request_begins backend (reg s)) as [r1|] eqn:E1; [|done]. cbn.
  destruct (request_ends backend method _ r1) as [r2|] eqn:E2; [|done]. cbn. intros [= <- ->].
  split; [apply captured_transparent|]. eapply rtc_l; [by apply (m_begin backend s r1)|].
  apply rtc_once. by apply (m_end backend method _ (mkMState r1 (backend :: running s) (ended s)) r [] (running s)).
Qed.

Definition count_of {A} (P : A -> bool) (l : list A) : Z := sum_by (fun x => Z.b2z (P x)) l.

Definition has_status (b m s : string) (x : string * string * handled) : bool :=
  match x with
  | (b', m', Status code) => bool_decide (b' = b) && bool_decide (m' = m) && bool_decide (itoa code = s)
  | _ => false
  end.

Definition has_error (b e : string) (x : string * string * handled) : bool :=
  match x with
  | (b', _, Status code) =>
      bool_decide (b' = b) &&
      (if 500 <=? code then bool_decide (e = "server_error")
       else if 400 <=? code then bool_decide (e = "client_error") else false)
  | _ => false
  end.

(** What the series must show, relative to a registry [r0]. *)
Record metrics_inv (r0 : R) (s : mstate R) : Prop := {
  mi_flight b : read backendRequestsInFlight [b] (reg s) =
    read backendRequestsInFlight [b] r0 + count_of (fun b' => bool_decide (b' = b)) (running s);
  mi_total b m st : read requestsTotal [b; m; st] (reg s) =
    read requestsTotal [b; m; st] r0 + count_of (has_status b m st) (ended s);
  mi_errors b e : read requestErrors [b; e] (reg s) =
    read requestErrors [b; e] r0 + count_of (has_error b e) (ended s)
}.
End middleware.

(** ** What the recorders do *)

Section laws.
Context {R : Type} {registry : Registry R} {laws : RegistryLaws R}.

Lemma update_ret m labels f (r : R) :
  length labels = length (metric_labels m) -> exists r', update m labels f r = Ret r'.
Proof.
  intros Hl. destruct (update m labels f r) as [r'|] eqn:He; [by exists r'|].
  apply update_panics in He. done.
Qed.

(** A computation that never panics. *)
Definition safe (k : R -> outcome R) : Prop := forall r, exists r', k r = Ret r'.

Lemma safe_update m labels f : length labels = length (metric_labels m) -> safe (update m labels f).
Proof. intros Hl r. by apply update_ret. Qed.

Lemma safe_bind (k1 k2 : R -> outcome R) : safe k1 -> safe k2 -> safe (fun r => r' ← k1 r; k2 r').
Proof. intros H1 H2 r. destruct (H1 r) as [r1 Hr1]. destruct (H2 r1) as [r2 Hr2]. exists r2. cbn. by rewrite Hr1. Qed.

Lemma safe_ret : safe Ret.
Proof. intros r. by exists r. Qed.


Lemma RecordRequest_safe b m s : safe (RecordRequest b m s).
Proof.
  apply (safe_bind (Inc requestsTotal [b; m; s]) (Observe requestDuration [b; m]));
  by apply safe_update.
Qed.

Lemma request_ends_safe b m h : safe (request_ends b m h).
Proof.
  apply (safe_bind (fun r => match h with
      | Panicked => Ret r
      | Status code =>
          r ← RecordRequest b m (itoa code) r;
          if 500 <=? code then RecordRequestError b "server_error" r
          else if 400 <=? code then RecordRequestError b "client_error" r
          else Ret r
      end) (DecBackendRequestsInFlight b)); [|by apply safe_update].
  destruct h as [code|]; [|apply safe_ret].
  apply (safe_bind (RecordRequest b m (itoa code)) (fun r =>
    if 500 <=? code then RecordRequestError b "server_error" r
    else if 400 <=? code then RecordRequestError b "client_error" r else Ret r));
    [apply RecordRequest_safe|].
  destruct (500 <=? code); [by apply safe_update|]. destruct (400 <=? code); [by apply safe_update|apply safe_ret].
Qed.

(** The metric declarations are well formed and used with the right types: the seventeen
    names are pairwise distinct (so registration does not panic), and for every registry
    that obeys the documented laws no recorder of the package panics, because each
    passes exactly as many label values as its metric declares. *)
Theorem Metrics_registered :
  NoDup (metric_Name <$> all_metrics) /\ (forall m, m ∈ all_metrics) /\
  forall b x y h, (forall n, safe (SetBackendConnectionsActive b n)) /\ safe (RecordRequest b x y) /\
    safe (RecordRequestError b x) /\ (forall ok, safe (SetBackendHealthStatus b ok)) /\
    safe (request_begins b) /\ safe (request_ends b x h) /\
    (forall n, safe (SetPoolConnectionsActive b n)) /\ (forall n, safe (SetPoolConnectionsIdle b n)) /\
    safe (IncPoolConnectionsCreated b) /\ safe (IncPoolConnectionsReused b) /\
    (forall n, safe (SetCircuitBreakerState b n)) /\ safe (IncCircuitBreakerOpen b) /\
    safe (IncRetries b) /\ safe (IncRetriesExhausted b) /\ safe (RecordTLSHandshake b) /\
    safe (IncRateLimitedRequests b).
Proof.
  split; [apply (bool_decide_unpack _); vm_compute; exact I|].
  split; [intros []; unfold all_metrics; set_solver|].
  intros b x y h. split_and!; intros; try (by apply safe_update).
  - apply RecordRequest_safe.
  - apply request_ends_safe.
  - apply (safe_bind (Inc tlsHandshakesTotal [b]) (Observe tlsHandshakeDuration [])); by apply safe_update.
Qed.

(** How one update shows in a series: of the same metric or of another one. *)
Lemma reads_same m labels labels' f (r r' : R) :
  update m labels f r = Ret r' ->
  read m labels' r' = if bool_decide (labels' = labels) then f (read m labels r) else read m labels' r.
Proof.
  intros Hu. rewrite (update_reads _ _ _ _ _ m labels' Hu).
  case_bool_decide; case_decide; naive_solver.
Qed.

Lemma reads_other m m' labels labels' f (r r' : R) :
  update m labels f r = Ret r' -> m' <> m -> read m' labels' r' = read m' labels' r.
Proof. intros Hu Hne. rewrite (update_reads _ _ _ _ _ m' labels' Hu). case_decide; naive_solver. Qed.

Lemma RecordRequest_reads b m s (r r' : R) :
  RecordRequest b m s r = Ret r' ->
  (forall labels, read requestsTotal labels r' =
     read requestsTotal labels r + Z.b2z (bool_decide (labels = [b; m; s]))) /\
  (forall labels, read requestErrors labels r' = read requestErrors labels r) /\
  (forall labels, read backendRequestsInFlight labels r' = read backendRequestsInFlight labels r).
Proof.
  unfold RecordRequest, Inc, Observe. cbn.
  destruct (update requestsTotal [b; m; s] _ r) as [r1|] eqn:H1; [|done]. cbn. intros H2.
  split_and!; intros labels; rewrite (reads_other _ _ _ _ _ _ _ H2) by done.
  - rewrite (reads_same _ _ _ _ _ _ H1). case_bool_decide as Hl; [by subst|cbn; lia].
  - by apply (reads_other _ _ _ _ _ _ _ H1).
  - by apply (reads_other _ _ _ _ _ _ _ H1).
Qed.

Lemma RecordRequestError_reads b e (r r' : R) :
  RecordRequestError b e r = Ret r' ->
  (forall labels, read requestErrors labels r' =
     read requestErrors labels r + Z.b2z (bool_decide (labels = [b; e]))) /\
  (forall labels, read requestsTotal labels r' = read requestsTotal labels r) /\
  (forall labels, read backendRequestsInFlight labels r' = read backendRequestsInFlight labels r).
Proof.
  unfold RecordRequestError, Inc. intros H1. split_and!; intros labels.
  - rewrite (reads_same _ _ _ _ _ _ H1). case_bool_decide as Hl; [by subst|cbn; lia].
  - by apply (reads_other _ _ _ _ _ _ _ H1).
  - by apply (reads_other _ _ _ _ _ _ _ H1).
Qed.

(** The recording part of the middleware. *)
Lemma recording_reads b m code (r r' : R) :
  (r1 ← RecordRequest b m (itoa code) r;
   if 500 <=? code then RecordRequestError b "server_error" r1
   else if 400 <=? code then RecordRequestError b "client_error" r1 else Ret r1) = Ret r' ->
  (forall b' m' s', read requestsTotal [b'; m'; s'] r' =
     read requestsTotal [b'; m'; s'] r + Z.b2z (has_status b' m' s' (b, m, Status code))) /\
  (forall b' e', read requestErrors [b'; e'] r' =
     read requestErrors [b'; e'] r + Z.b2z (has_error b' e' (b, m, Status code))) /\
  (forall labels, read backendRequestsInFlight labels r' = read backendRequestsInFlight labels r).
Proof.
  destruct (RecordRequest b m (itoa code) r) as [r1|] eqn:H1; [|done]. cbn [mbind outcome_bind].
  apply RecordRequest_reads in H1 as (T1 & E1 & F1). unfold has_status, has_error.
  assert (forall b' m' s', bool_decide ([b'; m'; s'] = [b; m; itoa code]) =
    bool_decide (b = b') && bool_decide (m = m') && bool_decide (itoa code = s')) as HB.
  { intros. repeat case_bool_decide; simplify_eq/=; try done; naive_solver. }
  intros H2. assert ((exists e, RecordRequestError b e r1 = Ret r' /\
      forall b' e', bool_decide ([b'; e'] = [b; e]) =
        bool_decide (b = b') && (if 500 <=? code then bool_decide (e' = "server_error")
          else if 400 <=? code then bool_decide (e' = "client_error") else false)) \/
    (r1 = r' /\ (500 <=? code) = false /\ (400 <=? code) = false)) as [(e & He & HE)|(<- & C1 & C2)].
  { destruct (500 <=? code); [left; eexists; split; [exact H2|]|].
    - intros. repeat case_bool_decide; simplify_eq/=; try done; naive_solver.
    - destruct (400 <=? code); [left; eexists; split; [exact H2|]|right; by simplify_eq].
      intros. repeat case_bool_decide; simplify_eq/=; try done; naive_solver. }
  - apply RecordRequestError_reads in He as (E2 & T2 & F2). split_and!.
    + intros. by rewrite T2, T1, HB.
    + intros. by rewrite E2, E1, HE.
    + intros. by rewrite F2, F1.
  - split_and!; [intros; by rewrite T1, HB| |done].
    intros. rewrite E1, C1, C2, andb_false_r. cbn. lia.
Qed.

Lemma request_ends_reads b m h (r r' : R) :
  request_ends b m h r = Ret r' ->
  (forall b' m' s', read requestsTotal [b'; m'; s'] r' =
     read requestsTotal [b'; m'; s'] r + Z.b2z (has_status b' m' s' (b, m, h))) /\
  (forall b' e', read requestErrors [b'; e'] r' =
     read requestErrors [b'; e'] r + Z.b2z (has_error b' e' (b, m, h))) /\
  (forall b', read backendRequestsInFlight [b'] r' =
     read backendRequestsInFlight [b'] r - Z.b2z (bool_decide (b = b'))).
Proof.
  unfold request_ends.
  match goal with |- context [mbind _ ?e] => destruct e as [r1|] eqn:H1; [|done] end.
  cbn [mbind outcome_bind]. unfold DecBackendRequestsInFlight, Dec. intros H2.
  assert ((forall b' m' s', read requestsTotal [b'; m'; s'] r1 =
     read requestsTotal [b'; m'; s'] r + Z.b2z (has_status b' m' s' (b, m, h))) /\
    (forall b' e', read requestErrors [b'; e'] r1 =
     read requestErrors [b'; e'] r + Z.b2z (has_error b' e' (b, m, h))) /\
    (forall labels, read backendRequestsInFlight labels r1 = read backendRequestsInFlight labels r))
    as (T & E & F).
  { destruct h as [code|]; [by apply recording_reads|]. injection H1 as <-.
    split_and!; intros; cbn; lia. }
  split_and!; intros.
  - by rewrite (reads_other _ _ _ _ _ _ _ H2), T.
  - by rewrite (reads_other _ _ _ _ _ _ _ H2), E.
  - rewrite (reads_same _ _ _ _ _ _ H2).
    repeat case_bool_decide; simplify_eq/=; rewrite ?F; try lia; naive_solver.
Qed.

Lemma count_of_app {A} (P : A -> bool) l k : count_of P (l ++ k) = count_of P l + count_of P k.
Proof. apply sum_by_app. Qed.

Lemma count_of_cons {A} (P : A -> bool) x l : count_of P (x :: l) = Z.b2z (P x) + count_of P l.
Proof. done. Qed.

Lemma mstep_inv r0 s s' : mstep s s' -> metrics_inv r0 s -> metrics_inv r0 s'.
Proof.
  destruct 1 as [b s r Hb|b m h s r l1 l2 Hrun He]; intros [I1 I2 I3].
  - unfold request_begins, IncBackendRequestsInFlight, Inc in Hb. split; cbn [reg running ended]; intros.
    + rewrite (reads_same _ _ _ _ _ _ Hb), count_of_cons.
      repeat case_bool_decide; simplify_eq/=; rewrite ?I1; try lia; naive_solver.
    + by rewrite (reads_other _ _ _ _ _ _ _ Hb).
    + by rewrite (reads_other _ _ _ _ _ _ _ Hb).
  - apply request_ends_reads in He as (T & E & F). split; cbn [reg running ended]; intros.
    + rewrite F, I1, Hrun, !count_of_app, count_of_cons. lia.
    + rewrite T, I2, count_of_cons. lia.
    + rewrite E, I3, count_of_cons. lia.
Qed.

(** C24: For every interleaving of requests through the metrics middleware, panicking
    handlers included, and every registry that obeys the documented laws: the in-flight
    gauge of a backend is the number of its running requests, the request counter counts
    exactly the finished requests by backend, method and status, and the error counter
    those with status at least 500 or between 400 and 499. The end of a request, its
    recording and its decrement, is one step. *)
Theorem Metrics_exact r0 s :
  rtc mstep (mkMState r0 [] []) s -> metrics_inv r0 s.
Proof.
  apply rtc_invariant; [apply mstep_inv|]. split; cbn; intros; lia.
Qed.
End laws.

(** ** A concrete registry *)

Definition table : Type := metric -> gmap (list string) Z.

Definition series (m : metric) (labels : list string) (t : table) : Z := default 0 (t m !! labels).

#[export] Instance table_registry : Registry table := {
  update m labels f t :=
    if decide (length labels = length (metric_labels m)) then
      Ret (fun m' => if decide (m' = m) then <[labels := f (series m labels t)]> (t m') else t m')
    else Panic;
  read := series
}.

#[export] Instance table_laws : RegistryLaws table.
Proof.
  split.
  - intros m labels f r. cbn. case_decide; naive_solver.
  - intros m labels f r r' m' labels'. cbn. case_decide; [|done]. intros [= <-].
    unfold series at 1. case_decide as H1; case_decide as H2; try naive_solver.
    + destruct H2 as [-> ->]. by rewrite lookup_insert_eq.
    + subst. rewrite lookup_insert_ne; [done|]. naive_solver.
Qed.

Definition empty_table : table := fun _ => ∅.
Definition get_table (o : outcome table) : table := match o with Ret t => t | Panic => empty_table end.

(** Two requests begin, one answers 404, one panics. *)
Definition reg1 : table := get_table (request_begins "a" empty_table).
Definition reg2 : table := get_table (request_begins "a" reg1).
Definition reg3 : table := get_table (request_ends "a" "GET" (Status 404) reg2).

Lemma Metrics_exact_witness :
  read backendRequestsInFlight ["a"] reg3 = 1 /\ read requestErrors ["a"; "client_error"] reg3 = 1.
Proof.
  assert (rtc mstep (mkMState empty_table [] [])
    (mkMState reg3 ["a"] [("a", "GET", Status 404)])) as Hr.
  { eapply rtc_l; [apply (m_begin "a" _ reg1); reflexivity|].
    eapply rtc_l; [apply (m_begin "a" _ reg2); reflexivity|].
    eapply rtc_l; [apply (m_end "a" "GET" (Status 404) _ reg3 [] ["a"]); reflexivity|]. apply rtc_refl. }
  destruct (Metrics_exact empty_table _ Hr) as [I1 _ I3].
  split; [etrans; [apply (I1 "a")|]|etrans; [apply (I3 "a" "client_error")|]]; vm_compute; reflexivity.
Defined.

Lemma Metrics_registered_witness : safe (R := table) (RecordRequest "a" "GET" "200").
Proof.
  destruct (Metrics_registered (R := table)) as (_ & _ & H).
  destruct (H "a" "GET" "200" Panicked) as (_ & Hs & _). exact Hs.
Defined.
