(* ===== verification/Profiler.v ===== *)
(** * Profiling (src/pkg/profiling/profiler.go)

    The profiler with what the process holds on its behalf: the CPU profile of the
    runtime (one per process), open profile files and HTTP servers.  Whether a file can
    be created or a profile written is an argument. *)

From S2P Require Import Prelude GoStd.

Record ProfileConfig := mkProfileConfig {
  CPUProfilePath : string;
  MemProfilePath : string;
  EnableHTTPProfile : bool;
  HTTPProfileAddr : string;
  ProfileDuration : duration
}.

Definition DefaultProfileConfig : ProfileConfig :=
  mkProfileConfig "" "" true ":6060" (30 * Second).

(** [cpuFile] is set or nil; [httpServer] is the server the field points to. *)
Record Profiler := mkProfiler {
  p_config : ProfileConfig;
  cpuFile : bool;
  httpServer : option nat
}.
#[export] Instance eta_Profiler : Eta Profiler := fun p =>
  mkProfiler (p_config p) (cpuFile p) (httpServer p).

Definition NewProfiler (config : ProfileConfig) : Profiler := mkProfiler config false None.

(** The process: is the runtime recording a CPU profile, how many profile files are
    open, which HTTP servers run. *)
Record process := mkProcess { cpu_running : bool; open_files : Z; servers : list bool }.
#[export] Instance eta_process : Eta process := fun w =>
  mkProcess (cpu_running w) (open_files w) (servers w).

(** What the file system and the runtime answer. *)
Record answers := mkAnswers { create_ok : string -> bool; heap_ok : bool }.

Inductive profile_error :=
| CreateFailed (path : string)
| CPUProfilingInUse
| HeapProfileFailed
| StartCPUFailed (e : profile_error)
| WriteMemFailed (e : profile_error)
| ProfilerAlreadyStarted
| ProfilerNotStarted.

(** [StartCPUProfile]: the file is closed again when the runtime refuses. *)
Definition StartCPUProfile (a : answers) (p : Profiler) (w : process) :
    option profile_error * Profiler * process :=
  let path := CPUProfilePath (p_config p) in
  if create_ok a path then
    if cpu_running w then (Some CPUProfilingInUse, p, w)
    else (None, p <| cpuFile := true |>,
          w <| cpu_running := true |> <| open_files := open_files w + 1 |>)
  else (Some (CreateFailed path), p, w).

Definition StopCPUProfile (p : Profiler) (w : process) : Profiler * process :=
  let w := w <| cpu_running := false |> in
  if cpuFile p then (p <| cpuFile := false |>, w <| open_files := open_files w - 1 |>) else (p, w).

(** [WriteMemProfile] closes its file on every path. *)
Definition WriteMemProfile (a : answers) (p : Profiler) : option profile_error :=
  let path := MemProfilePath (p_config p) in
  if create_ok a path then (if heap_ok a then None else Some HeapProfileFailed)
  else Some (CreateFailed path).

Definition StartHTTPProfile (p : Profiler) (w : process) : Profiler * process :=
  (p <| httpServer := Some (length (servers w)) |>, w <| servers := servers w ++ [true] |>).

Definition Start (a : answers) (p : Profiler) (w : process) :
    option profile_error * Profiler * process :=
  let '(err, p, w) :=
    if bool_decide (CPUProfilePath (p_config p) = "") then (None, p, w) else StartCPUProfile a p w in
  match err with
  | Some e => (Some (StartCPUFailed e), p, w)
  | None =>
      let '(p, w) := if EnableHTTPProfile (p_config p) then StartHTTPProfile p w else (p, w) in
      (None, p, w)
  end.

Definition close_server (p : Profiler) (w : process) : process :=
  match httpServer p with
  | Some i => w <| servers := <[i := false]> (servers w) |>
  | None => w
  end.

Definition Stop (a : answers) (p : Profiler) (w : process) :
    option profile_error * Profiler * process :=
  let '(p, w) := if cpuFile p then StopCPUProfile p w else (p, w) in
  match (if bool_decide (MemProfilePath (p_config p) = "") then None else WriteMemProfile a p) with
  | Some e => (Some (WriteMemFailed e), p, w)
  | None => (None, p, close_server p w)
  end.

(** [RunProfiler]: the sleep in between changes nothing here. *)
Definition RunProfiler (a1 a2 : answers) (config : ProfileConfig) (w : process) :
    option profile_error * process :=
  match Start a1 (NewProfiler config) w with
  | (Some e, _, w) => (Some e, w)
  | (None, p, w) => let '(err, _, w) := Stop a2 p w in (err, w)
  end.

(** ** Dumps *)

(** The sampling of the runtime for contention profiles. *)
Record sampling := mkSampling { blockRate : Z; mutexFraction : Z }.
#[export] Instance eta_sampling : Eta sampling := fun r => mkSampling (blockRate r) (mutexFraction r).

(** A profile that is written, with the sampling in force at that time. *)
Inductive dump := NoDump | Dumped (profile : string) (at_ : sampling).

(** [written] is the error of WriteTo; files are closed on every path. *)
Definition dump_to (a : answers) (profile path : string) (written : option profile_error) (r : sampling)
  : option profile_error * dump :=
  if create_ok a path then (written, Dumped profile r) else (Some (CreateFailed path), NoDump).

Definition DumpGoroutineProfile (a : answers) (path : string) (written : option profile_error) (r : sampling)
  : option profile_error * dump * sampling :=
  let '(err, d) := dump_to a "goroutine" path written r in (err, d, r).

Definition DumpBlockProfile (a : answers) (path : string) (written : option profile_error) (r : sampling)
  : option profile_error * dump * sampling :=
  let r := r <| blockRate := 1 |> in
  let '(err, d) := dump_to a "block" path written r in (err, d, r <| blockRate := 0 |>).

Definition DumpMutexProfile (a : answers) (path : string) (written : option profile_error) (r : sampling)
  : option profile_error * dump * sampling :=
  let r := r <| mutexFraction := 1 |> in
  let '(err, d) := dump_to a "mutex" path written r in (err, d, r <| mutexFraction := 0 |>).

(** The dumps switch sampling off when they are done, also when it was on before. *)
Lemma dumps_reset a path w r :
  snd (DumpBlockProfile a path w r) = mkSampling 0 (mutexFraction r) /\
  snd (DumpMutexProfile a path w r) = mkSampling (blockRate r) 0 /\
  snd (DumpGoroutineProfile a path w r) = r.
Proof.
  unfold DumpBlockProfile, DumpMutexProfile, DumpGoroutineProfile, dump_to. by destruct r, (create_ok a path).
Qed.

(** ** Memory statistics *)

Record mem_stats := mkMemStats { m_Alloc : Z; m_TotalAlloc : Z; m_Sys : Z; m_NumGC : Z; m_Goroutines : Z }.

(** The printed lines. *)
Definition PrintMemStats (m : mem_stats) : list string :=
  ["Memory Statistics"; "=================";
   "Alloc:        " +:+ itoa (m_Alloc m / 1024 / 1024) +:+ " MB";
   "TotalAlloc:   " +:+ itoa (m_TotalAlloc m / 1024 / 1024) +:+ " MB";
   "Sys:          " +:+ itoa (m_Sys m / 1024 / 1024) +:+ " MB";
   "NumGC:        " +:+ itoa (m_NumGC m);
   "Goroutines:   " +:+ itoa (m_Goroutines m)].

(** What the [select] of the monitor receives. *)
Inductive monitor_event := MTick (m : mem_stats) | MStop.

(** The lines printed and whether the call has returned. *)
Fixpoint monitor_loop (l : list monitor_event) : list string * bool :=
  match l with
  | [] => ([], false)
  | MStop :: _ => ([], true)
  | MTick m :: l => let '(out, done_) := monitor_loop l in (PrintMemStats m ++ out, done_)
  end.

(** time.NewTicker panics on an interval that is not positive. *)
Definition MonitorMemory (interval : duration) (l : list monitor_event) : outcome (list string * bool) :=
  if interval <=? 0 then Panic else Ret (monitor_loop l).

Lemma MonitorMemory_stops interval before after :
  0 < interval ->
  MonitorMemory interval ((MTick <$> before) ++ MStop :: after) = Ret (before ≫= PrintMemStats, true).
Proof.
  intros Hi. unfold MonitorMemory. rewrite (proj2 (Z.leb_gt _ _)) by lia. f_equal.
  induction before as [|m l IH]; [done|]. cbn -[PrintMemStats]. cbn -[PrintMemStats] in IH. by rewrite IH.
Qed.

(** ** The global profiler *)

Record gprocess := mkGProcess { globalProfiler : option Profiler; proc : process }.

Definition StartGlobalProfiler (a : answers) (config : ProfileConfig) (g : gprocess) :
    option profile_error * gprocess :=
  match globalProfiler g with
  | Some _ => (Some ProfilerAlreadyStarted, g)
  | None =>
      let '(err, p, w) := Start a (NewProfiler config) (proc g) in (err, mkGProcess (Some p) w)
  end.

Definition StopGlobalProfiler (a : answers) (g : gprocess) : option profile_error * gprocess :=
  match globalProfiler g with
  | None => (Some ProfilerNotStarted, g)
  | Some p => let '(err, _, w) := Stop a p (proc g) in (err, mkGProcess None w)
  end.

Inductive gcall := GStart (a : answers) (config : ProfileConfig) | GStop (a : answers).

Definition grun1 (c : gcall) (g : gprocess) : option profile_error * gprocess :=
  match c with
  | GStart a config => StartGlobalProfiler a config g
  | GStop a => StopGlobalProfiler a g
  end.

Definition grun (l : list gcall) (g : gprocess) : gprocess := foldl (fun g c => snd (grun1 c g)) g l.

Definition fresh : gprocess := mkGProcess None (mkProcess false 0 []).

(** ** Invariant *)

Definition running_servers (w : process) : Z := sum_by Z.b2z (servers w).

(** The process holds exactly what the global profiler points to, and its server, if it
    has one, runs. *)
Record profiler_inv (g : gprocess) : Prop := {
  gi_files : open_files (proc g) =
    match globalProfiler g with Some p => Z.b2z (cpuFile p) | None => 0 end;
  gi_cpu : cpu_running (proc g) =
    match globalProfiler g with Some p => cpuFile p | None => false end;
  gi_server : forall p i, globalProfiler g = Some p -> httpServer p = Some i ->
    servers (proc g) !! i = Some true
}.

Lemma Start_effect a config w err p w' :
  cpu_running w = false -> open_files w = 0 ->
  Start a (NewProfiler config) w = (err, p, w') ->
  cpu_running w' = cpuFile p /\ open_files w' = Z.b2z (cpuFile p) /\ p_config p = config /\
  (err = None -> cpuFile p = negb (bool_decide (CPUProfilePath config = "")) /\
     running_servers w' = running_servers w + Z.b2z (EnableHTTPProfile config) /\
     (httpServer p = None <-> EnableHTTPProfile config = false)) /\
  (forall e, err = Some e -> p = NewProfiler config /\ w' = w) /\
  (forall i, httpServer p = Some i -> servers w' !! i = Some true).
Proof.
  destruct w as [cr nf sv]. destruct config as [cpath mpath http addr d]. cbn. intros -> ->.
  unfold Start. cbn. unfold StartCPUProfile. cbn.
  assert ((sv ++ [true]) !! length sv = Some true) as Hs by (by rewrite lookup_app_r, Nat.sub_diag by lia).
  assert (sum_by Z.b2z (sv ++ [true]) = sum_by Z.b2z sv + 1) as Hsum by (by rewrite sum_by_app).
  case_bool_decide; [|destruct (create_ok a cpath)]; try destruct http; cbn; intros [= <- <- <-]; cbn;
    unfold running_servers; cbn -[sum_by]; rewrite ?Hsum; split_and!; try done; try lia; intros;
    split_and?; try done; try lia; naive_solver.
Qed.

Lemma Stop_effect a p w err p' w' :
  cpu_running w = cpuFile p -> open_files w = Z.b2z (cpuFile p) ->
  (forall i, httpServer p = Some i -> servers w !! i = Some true) ->
  Stop a p w = (err, p', w') ->
  cpu_running w' = false /\ open_files w' = 0 /\
  running_servers w' = running_servers w -
    (match err, httpServer p with None, Some _ => 1 | _, _ => 0 end) /\
  (err = None \/ exists e, err = Some (WriteMemFailed e)).
Proof.
  destruct p as [config cf hs], w as [cr nf sv]. cbn -[running_servers]. intros -> -> Hs.
  unfold Stop. cbn -[running_servers].
  pose (mem := if bool_decide (MemProfilePath config = "") then None
    else WriteMemProfile a (mkProfiler config false hs)).
  assert (forall cf', (if bool_decide (MemProfilePath config = "") then None
     else WriteMemProfile a (mkProfiler config cf' hs)) = mem) as Hmem by done.
  clearbody mem. unfold StopCPUProfile, close_server, running_servers.
  destruct cf, hs as [i|]; cbn -[sum_by]; rewrite ?Hmem; destruct mem as [e|]; cbn -[sum_by];
    intros [= <- <- <-]; cbn -[sum_by];
    (split_and!; [done|done| |by eauto]); cbn -[sum_by];
    rewrite ?(sum_by_insert _ _ _ _ _ (Hs i eq_refl)); cbn -[sum_by]; lia.
Qed.

Lemma grun1_inv c g : profiler_inv g -> profiler_inv (snd (grun1 c g)).
Proof.
  intros [I1 I2 I3]. destruct g as [gp w]. cbn in *. destruct c as [a config|a]; cbn.
  - unfold StartGlobalProfiler. cbn. destruct gp as [p|]; [by split|].
    destruct (Start a (NewProfiler config) w) as [[err p] w'] eqn:Hs.
    destruct (Start_effect _ _ _ _ _ _ I2 I1 Hs) as (E1 & E2 & _ & _ & _ & E3).
    split; cbn; [done|done|]. intros p0 i [= <-]. apply E3.
  - unfold StopGlobalProfiler. cbn. destruct gp as [p|]; [|by split].
    destruct (Stop a p w) as [[err p'] w'] eqn:Hs.
    destruct (Stop_effect _ _ _ _ _ _ I2 I1 (fun i => I3 p i eq_refl) Hs) as (E1 & E2 & _).
    by split.
Qed.

Lemma grun_inv l g : profiler_inv g -> profiler_inv (grun l g).
Proof.
  revert g. induction l as [|c l IH]; intros g HI; [done|]. cbn. by apply IH, grun1_inv.
Qed.

Lemma fresh_inv : profiler_inv fresh.
Proof. by split. Qed.

(** After every sequence of starts and stops of the global profiler, whatever the file
    system answers, StopGlobalProfiler leaves no profile file open and no CPU profile
    running and forgets the profiler; it stops the HTTP server exactly when it returns
    nil, so after a memory profile that cannot be written the server runs on with
    nothing left that could stop it. *)
Theorem StopGlobalProfiler_releases l a :
  let g := grun l fresh in
  let '(err, g') := StopGlobalProfiler a g in
  globalProfiler g' = None /\ cpu_running (proc g') = false /\ open_files (proc g') = 0 /\
  running_servers (proc g') = running_servers (proc g) -
    (match err, globalProfiler g ≫= httpServer with None, Some _ => 1 | _, _ => 0 end).
Proof.
  cbv zeta. pose proof (grun_inv l fresh fresh_inv) as [I1 I2 I3].
  destruct (grun l fresh) as [gp w]. cbn in *. unfold StopGlobalProfiler. cbn.
  destruct gp as [p|]; cbn.
  - destruct (Stop a p w) as [[err p'] w'] eqn:Hs.
    destruct (Stop_effect _ _ _ _ _ _ I2 I1 (fun i => I3 p i eq_refl) Hs) as (E1 & E2 & E3 & _).
    split_and!; done.
  - split_and!; [done|done|done|lia].
Qed.

(** A StartGlobalProfiler that fails still stores the profiler, so every later start
    fails with the already-started error until someone stops a profiler that never ran.
    *)
Theorem StartGlobalProfiler_blocks a config e a' config' :
  fst (StartGlobalProfiler a config fresh) = Some e ->
  fst (StartGlobalProfiler a' config' (snd (StartGlobalProfiler a config fresh)))
    = Some ProfilerAlreadyStarted.
Proof.
  unfold StartGlobalProfiler. cbn [globalProfiler fresh proc].
  by destruct (Start a (NewProfiler config) _) as [[err p] w].
Qed.

Lemma StartGlobalProfiler_blocks_witness :
  let bad := mkAnswers (fun _ => false) true in
  let config := mkProfileConfig "cpu.out" "" true ":6060" Second in
  let good := mkAnswers (fun _ => true) true in
  fst (StartGlobalProfiler good config (snd (StartGlobalProfiler bad config fresh)))
    = Some ProfilerAlreadyStarted.
Proof.
  cbv zeta. apply (StartGlobalProfiler_blocks _ _ (StartCPUFailed (CreateFailed "cpu.out"))).
  reflexivity.
Defined.

(** A memory profile that cannot be written leaves the HTTP server running for good. *)
Example stop_leaks_server :
  let config := mkProfileConfig "" "mem.out" true ":6060" Second in
  let g := grun [GStart (mkAnswers (fun _ => true) true) config; GStop (mkAnswers (fun _ => false) true)]
    fresh in
  globalProfiler g = None /\ running_servers (proc g) = 1.
Proof. split; reflexivity. Qed.
