(* ===== verification/TestBackends.v ===== *)
(** * The test backends (src/scripts/test-backend.go, src/scripts/http-backend.go)

    Two small servers that the balancer is tried against.  A handler is a function of the
    flags, the request and the clock to what it replies; sleeping is recorded, not done.
    The WebSocket library is a parameter: whether a message could be sent, and what was
    received. *)

From S2P Require Import Prelude GoStd GoTime Mux Backend Health.

(** ** Formatting: [fmt.Sprintf] with the verbs %s, %d and %% *)

Inductive farg := FStr (s : string) | FInt (z : Z).

(** Formats of the program match their arguments; what does not match is printed as is. *)
Fixpoint Sprintf (format : string) (args : list farg) : string :=
  match format with
  | EmptyString => ""
  | String c rest =>
      if byte_of c =? 37 then
        match rest with
        | EmptyString => String c ""
        | String v rest' =>
            if byte_of v =? 37 then String c (Sprintf rest' args)
            else match args with
                 | FStr s :: args =>
                     if byte_of v =? 115 then s +:+ Sprintf rest' args else String c (String v (Sprintf rest' args))
                 | FInt z :: args =>
                     if byte_of v =? 100 then itoa z +:+ Sprintf rest' args else String c (String v (Sprintf rest' args))
                 | [] => String c (String v (Sprintf rest' []))
                 end
        end
      else String c (Sprintf rest args)
  end.

Definition nl : string := String (ascii_of_byte 10) "".
Definition dq1 : string := String (ascii_of_byte 34) "".
Definition unlines (l : list string) : string := foldr (fun s r => s +:+ nl +:+ r) "" l.

(** ** Replies *)

(** The status, the headers the handler set, the body, how long it slept and what it logged. *)
Record reply := mkReply {
  rp_Status : Z; rp_Header : Header; rp_Body : string; rp_Slept : duration; rp_Log : list string
}.

Definition BStatusOK : Z := 200.

(** What the multiplexer answers on its own. *)
Definition mux_reply (v : mux_verdict) (handle : string -> reply) : reply :=
  match v with
  | Handler pattern => handle pattern
  | MovedPermanently location => mkReply 301 (Header_Set "Location" location ∅) "" 0 []
  | BadRequestTarget => mkReply 400 ∅ "" 0 []
  | NoHandler => mkReply 404 ∅ ("404 page not found" +:+ nl) 0 []
  end.

(** ** test-backend.go *)

Record tb_flags := tb_mkFlags { tb_port : Z; tb_name : string; tb_delay : duration }.
Definition tb_default_flags : tb_flags := tb_mkFlags 9001 "Backend" 0.

Definition tb_addr (f : tb_flags) : string := Sprintf ":%d" [FInt (tb_port f)].

(** [off]: the local zone, in minutes; [now]: the clock when the time is printed. *)
Definition tb_handle_root (f : tb_flags) (off : Z) (now : time) (method : string) (r : HTTPRequest) : reply :=
  let header := Header_Set "X-Backend" (tb_name f) (Header_Set "Content-Type" "text/plain" ∅) in
  let body :=
    Sprintf ("%s (port %d)" +:+ nl) [FStr (tb_name f); FInt (tb_port f)] +:+
    Sprintf ("Time: %s" +:+ nl) [FStr (Format_RFC3339 off now)] +:+
    Sprintf ("Request: %s %s" +:+ nl) [FStr method; FStr (rq_Path r)] in
  mkReply BStatusOK header body (if 0 <? tb_delay f then tb_delay f else 0)
    [Sprintf "[%s] Request from %s: %s %s" [FStr (tb_name f); FStr (rq_RemoteAddr r); FStr method; FStr (rq_Path r)]].

Definition tb_handle_health : reply := mkReply BStatusOK ∅ (Sprintf ("OK" +:+ nl) []) 0 [].

Definition handle_slow (f : tb_flags) : reply :=
  mkReply BStatusOK ∅ (Sprintf ("Slow response from %s" +:+ nl) [FStr (tb_name f)]) (2 * Second) [].

Definition tb_patterns : list string := ["/"; "/health"; "/slow"].

Definition tb_serve (f : tb_flags) (off : Z) (now : time) (method path : string) (r : HTTPRequest) : reply :=
  mux_reply (ServeMux tb_patterns method path) (fun pattern =>
    if bool_decide (pattern = "/health") then tb_handle_health
    else if bool_decide (pattern = "/slow") then handle_slow f
    else tb_handle_root f off now method r).

(** What is logged before serving, and when serving ends, which ends the process. *)
Definition tb_main_log (f : tb_flags) (listen_error : string) : list string :=
  [Sprintf "Starting %s on %s" [FStr (tb_name f); FStr (tb_addr f)];
   "Endpoints: /, /health, /slow";
   Sprintf "Failed to start server: %s" [FStr listen_error]].

(** ** http-backend.go *)

(** [enableHTTP2] is defined and never read. *)
Record hb_flags := hb_mkFlags {
  hb_port : Z; hb_name : string; hb_delay : Z; enableWS : bool; enableHTTP2 : bool
}.
Definition hb_default_flags : hb_flags := hb_mkFlags 9001 "Backend" 0 false false.

Definition hb_addr (f : hb_flags) : string := Sprintf ":%d" [FInt (hb_port f)].

(** [os.Hostname]: a name or an error. *)
Definition getHostname (host : option string) : string := default "unknown" host.

Definition hb_handle_health : reply := mkReply BStatusOK ∅ (Sprintf "OK" []) 0 [].

(** The format of the first part of the page. *)
Definition page_head : string :=
  unlines [
    "<!DOCTYPE html>";
    "<html>";
    "<head>";
    "    <title>%s</title>";
    "    <style>";
    "        body {";
    "            font-family: Arial, sans-serif;";
    "            max-width: 800px;";
    "            margin: 50px auto;";
    "            padding: 20px;";
    "            background-color: #f5f5f5;";
    "        }";
    "        .container {";
    "            background-color: white;";
    "            padding: 30px;";
    "            border-radius: 10px;";
    "            box-shadow: 0 2px 10px rgba(0,0,0,0.1);";
    "        }";
    "        h1 {";
    "            color: #333;";
    "            border-bottom: 3px solid #4CAF50;";
    "            padding-bottom: 10px;";
    "        }";
    "        .info {";
    "            margin: 20px 0;";
    "            padding: 15px;";
    "            background-color: #e8f5e9;";
    "            border-left: 4px solid #4CAF50;";
    "        }";
    "        .request-info {";
    "            margin: 20px 0;";
    "            padding: 15px;";
    "            background-color: #e3f2fd;";
    "            border-left: 4px solid #2196F3;";
    "        }";
    "        table {";
    "            width: 100%%;";
    "            border-collapse: collapse;";
    "            margin-top: 10px;";
    "        }";
    "        th, td {";
    "            padding: 8px;";
    "            text-align: left;";
    "            border-bottom: 1px solid #ddd;";
    "        }";
    "        th {";
    "            background-color: #f0f0f0;";
    "            font-weight: bold;";
    "        }";
    "        code {";
    "            background-color: #f5f5f5;";
    "            padding: 2px 6px;";
    "            border-radius: 3px;";
    "            font-family: monospace;";
    "        }";
    "    </style>";
    "</head>";
    "<body>";
    "    <div class=" +:+ dq1 +:+ "container" +:+ dq1 +:+ ">";
    "        <h1>%s</h1>";
    "";
    "        <div class=" +:+ dq1 +:+ "info" +:+ dq1 +:+ ">";
    "            <strong>Backend Information:</strong><br>";
    "            <table>";
    "                <tr><th>Name</th><td>%s</td></tr>";
    "                <tr><th>Port</th><td>%d</td></tr>";
    "                <tr><th>Hostname</th><td>%s</td></tr>";
    "                <tr><th>Time</th><td>%s</td></tr>";
    "            </table>";
    "        </div>";
    "";
    "        <div class=" +:+ dq1 +:+ "request-info" +:+ dq1 +:+ ">";
    "            <strong>Request Information:</strong><br>";
    "            <table>";
    "                <tr><th>Method</th><td><code>%s</code></td></tr>";
    "                <tr><th>Path</th><td><code>%s</code></td></tr>";
    "                <tr><th>Client IP</th><td>%s</td></tr>";
    "                <tr><th>User-Agent</th><td>%s</td></tr>";
    "                <tr><th>Host</th><td>%s</td></tr>";
    "            </table>";
    "        </div>";
    "";
    "        <div class=" +:+ dq1 +:+ "request-info" +:+ dq1 +:+ ">";
    "            <strong>Request Headers:</strong><br>";
    "            <table>";
    "                <tr><th>Header</th><th>Value</th></tr>"
  ].

(** What follows the table of headers. *)
Definition page_tail : string :=
  unlines [
    "";
    "            </table>";
    "        </div>";
    "    </div>";
    "</body>";
    "</html>"
  ].

Definition header_row (hname value : string) : string :=
  Sprintf ("                <tr><td><code>%s</code></td><td>%s</td></tr>" +:+ nl) [FStr hname; FStr value].

(** The two loops over the headers; the order of the map is an argument. *)
Definition header_rows (order : list (string * list string)) : string :=
  foldr (fun hv rows => foldr (fun v rows => header_row hv.1 v +:+ rows) rows hv.2) "" order.

Definition page (f : hb_flags) (host : option string) (off : Z) (now : time) (method : string) (r : HTTPRequest)
    (order : list (string * list string)) : string :=
  Sprintf page_head
    [FStr (hb_name f); FStr (hb_name f); FStr (hb_name f); FInt (hb_port f); FStr (getHostname host);
     FStr (Format_RFC3339 off now); FStr method; FStr (rq_Path r); FStr (rq_RemoteAddr r);
     FStr (Header_Get "User-Agent" (rq_Header r)); FStr (rq_Host r)] +:+
  header_rows order +:+ Sprintf page_tail [].

(** The delay is converted to nanoseconds at 64 bits. *)
Definition hb_handle_root (f : hb_flags) (host : option string) (off : Z) (now : time) (method : string)
    (r : HTTPRequest) (order : list (string * list string)) : reply :=
  let header :=
    Header_Set "Content-Type" "text/html; charset=utf-8"
      (Header_Set "X-Backend-Port" (Sprintf "%d" [FInt (hb_port f)])
        (Header_Set "X-Backend-Name" (hb_name f) ∅)) in
  mkReply BStatusOK header (page f host off now method r order)
    (if 0 <? hb_delay f then Z.max 0 (i64 (hb_delay f * Millisecond)) else 0)
    [Sprintf "Request: %s %s from %s" [FStr method; FStr (rq_Path r); FStr (rq_RemoteAddr r)]].

(** *** WebSocket *)

Inductive ws_end := WsReturned (log : string) | WsWaiting.

(** The echo loop: what is received next ([None] when the connection is closed or fails) and
    whether the answer can be sent.  It waits when nothing more is received. *)
Fixpoint echo_loop (f : hb_flags) (events : list (option string * bool)) (sent : list string)
  : list string * ws_end :=
  match events with
  | [] => (sent, WsWaiting)
  | (None, _) :: _ => (sent, WsReturned "WebSocket connection closed")
  | (Some msg, send_ok) :: events =>
      let response := Sprintf "[%s] Echo: %s" [FStr (hb_name f); FStr msg] in
      if send_ok : bool then echo_loop f events (sent ++ [response])
      else (sent, WsReturned "WebSocket send error")
  end.

Definition hb_handleWebSocket (f : hb_flags) (welcome_ok : bool) (events : list (option string * bool))
  : list string * ws_end :=
  let welcomeMsg := Sprintf "Welcome to %s WebSocket server!" [FStr (hb_name f)] in
  if welcome_ok then echo_loop f events [welcomeMsg] else ([], WsReturned "WebSocket send error").

(** *** The server *)

Definition hb_patterns (f : hb_flags) : list string := "/health" :: "/" :: (if enableWS f then ["/ws"] else []).

(** Requests for [/ws] become WebSocket connections: [upgraded] is what the library replies. *)
Definition hb_serve (f : hb_flags) (host : option string) (off : Z) (now : time) (method path : string) (r : HTTPRequest)
    (order : list (string * list string)) (upgraded : reply) : reply :=
  mux_reply (ServeMux (hb_patterns f) method path) (fun pattern =>
    if bool_decide (pattern = "/health") then hb_handle_health
    else if bool_decide (pattern = "/ws") then upgraded
    else hb_handle_root f host off now method r order).

Definition hb_main_log (f : hb_flags) (listen_error : string) : list string :=
  (if enableWS f then ["WebSocket endpoint enabled at /ws"] else []) ++
  [Sprintf "Starting HTTP backend server: %s on %s" [FStr (hb_name f); FStr (hb_addr f)];
   Sprintf "Health check: http://localhost%s/health" [FStr (hb_addr f)]] ++
  (if enableWS f then [Sprintf "WebSocket: ws://localhost%s/ws" [FStr (hb_addr f)]] else []) ++
  [Sprintf "Failed to start server: %s" [FStr listen_error]].

(** ** What formats print *)

(** The verbs of a format that take an argument. *)
Fixpoint verbs (format : string) : list Z :=
  match format with
  | EmptyString => []
  | String c rest =>
      if byte_of c =? 37 then
        match rest with
        | EmptyString => []
        | String v rest' => if byte_of v =? 37 then verbs rest' else byte_of v :: verbs rest'
        end
      else verbs rest
  end.

Definition verb_of (a : farg) : Z := match a with FStr _ => 115 | FInt _ => 100 end.

(** Every string argument of a format that matches its arguments is printed as it is. *)
Lemma Sprintf_contains format pre s post :
  verbs format = verb_of <$> (pre ++ FStr s :: post) ->
  exists a b, Sprintf format (pre ++ FStr s :: post) = a +:+ s +:+ b.
Proof.
  remember (String.length format) as n eqn:En. assert (String.length format <= n)%nat as Hn by lia. clear En.
  revert format pre Hn. induction n as [|n IH]; intros [|c rest] pre Hn Hv; cbn [String.length] in Hn;
    [by destruct pre|lia|by destruct pre|].
  cbn [verbs Sprintf] in *. destruct (byte_of c =? 37) eqn:Ec.
  2:{ destruct (IH rest pre ltac:(lia) Hv) as (a & b & ->). exists (String c a), b. by rewrite str_app_cons. }
  destruct rest as [|v rest]; [by destruct pre|]. cbn [String.length] in Hn. destruct (byte_of v =? 37).
  { destruct (IH rest pre ltac:(lia) Hv) as (a & b & ->). exists (String c a), b. by rewrite str_app_cons. }
  destruct pre as [|[t|z] pre]; cbn in Hv; injection Hv as E Hv; cbn [app].
  - rewrite E. exists "", (Sprintf rest post). done.
  - rewrite E. cbn [Z.eqb Pos.eqb]. destruct (IH rest pre ltac:(lia) Hv) as (a & b & ->).
    exists (t +:+ a), b. by rewrite str_app_assoc.
  - rewrite E. cbn [Z.eqb Pos.eqb]. destruct (IH rest pre ltac:(lia) Hv) as (a & b & ->).
    exists (itoa z +:+ a), b. by rewrite str_app_assoc.
Qed.

(** The path of a request appears in the page of the HTTP backend as it is: a path with
    markup is markup of the page. *)
Theorem page_reflects f host off now method r order :
  exists a b, page f host off now method r order = a +:+ rq_Path r +:+ b.
Proof.
  unfold page.
  destruct (Sprintf_contains page_head
    [FStr (hb_name f); FStr (hb_name f); FStr (hb_name f); FInt (hb_port f);
     FStr (getHostname host); FStr (Format_RFC3339 off now); FStr method] (rq_Path r)
    [FStr (rq_RemoteAddr r); FStr (Header_Get "User-Agent" (rq_Header r)); FStr (rq_Host r)])
    as (a & b & E); [vm_compute; reflexivity|].
  cbn [app] in E. rewrite E. eexists a, _. by rewrite !str_app_assoc.
Qed.

(** ** Health checks against the backends *)

(** A network in which the server at [address] answers with [status]. *)
Definition backend_network (address : string) (status : string -> Z) : network :=
  let base := "http://" +:+ address in
  mkNetwork (fun a => bool_decide (a = address))
    (fun url => if HasPrefix url base then Ok (status (TrimPrefix url base)) else Err HTTPFailed).

Definition http_checker (path : string) (timeout : duration) : ActiveChecker :=
  NewActiveChecker (mkActiveCheckerConfig CheckTypeHTTP timeout path []).

Lemma check_backend (status : string -> Z) h b timeout t1 t2 :
  status "/health" = 200 ->
  Check (backend_network (Backend_Address h b) status) h (http_checker "" timeout) t1 t2 b =
  mkCheckResult b true None (time_Sub t2 t1) t1 200.
Proof.
  intros Hs. unfold Check, http_checker, NewActiveChecker. cbn [checkType acc_CheckType expectedStatusCodes
    httpPath acc_HTTPPath acc_ExpectedStatusCodes acc_Timeout].
  rewrite (bool_decide_eq_false_2 (CheckTypeHTTP = "")) by done.
  rewrite (bool_decide_eq_false_2 (CheckTypeHTTP = CheckTypeTCP)) by done.
  rewrite (bool_decide_eq_true_2 (CheckTypeHTTP = CheckTypeHTTP)) by done.
  rewrite (bool_decide_eq_true_2 ("" = "")) by done.
  unfold checkHTTP, backend_network. cbn [http_get expectedStatusCodes].
  rewrite <- str_app_assoc, TrimPrefix_app, Hs.
  assert (HasPrefix (("http://" +:+ Backend_Address h b) +:+ "/health") ("http://" +:+ Backend_Address h b) = true)
    as -> by (apply HasPrefix_spec; by eexists).
  reflexivity.
Qed.

(** The health checks of the balancer and the test backends agree: with default settings
    an HTTP check of either backend, whatever its flags, succeeds with status 200. *)
Theorem backends_pass_checks f g host off now r order up h b timeout t1 t2 :
  Check (backend_network (Backend_Address h b)
           (fun path => rp_Status (hb_serve f host off now "GET" path r order up))) h
    (http_checker "" timeout) t1 t2 b = mkCheckResult b true None (time_Sub t2 t1) t1 200 /\
  Check (backend_network (Backend_Address h b)
           (fun path => rp_Status (tb_serve g off now "GET" path r))) h
    (http_checker "" timeout) t1 t2 b = mkCheckResult b true None (time_Sub t2 t1) t1 200.
Proof.
  split; apply check_backend.
  - unfold hb_serve, hb_patterns. by destruct (enableWS f).
  - reflexivity.
Qed.

(** ** The echo of the WebSocket endpoint *)

(** The messages answered: those received before a failure, as long as sending works. *)
Fixpoint answered (events : list (option string * bool)) : list string :=
  match events with
  | (Some msg, true) :: events => msg :: answered events
  | _ => []
  end.

Definition echo_of (f : hb_flags) (msg : string) : string :=
  "[" +:+ hb_name f +:+ "] Echo: " +:+ msg.

Lemma echo_loop_spec f events sent :
  echo_loop f events sent =
  (sent ++ (echo_of f <$> answered events),
   if bool_decide (length (answered events) = length events) then WsWaiting
   else match events !! length (answered events) with
        | Some (None, _) => WsReturned "WebSocket connection closed"
        | _ => WsReturned "WebSocket send error"
        end).
Proof.
  revert sent. induction events as [|[[msg|] ok] events IH]; intros sent; cbn [echo_loop answered].
  - by rewrite app_nil_r.
  - destruct ok; [|by rewrite app_nil_r]. rewrite IH, <- app_assoc. cbn [length lookup list_lookup fmap list_fmap].
    assert (Sprintf "[%s] Echo: %s" [FStr (hb_name f); FStr msg] = echo_of f msg) as ->.
    { unfold echo_of. rewrite <- (str_app_nil_r msg) at 2. reflexivity. }
    f_equal. by rewrite (bool_decide_ext (length (answered events) = length events)
      (S (length (answered events)) = S (length events))) by lia.
  - by rewrite app_nil_r.
Qed.

(** The WebSocket endpoint sends its welcome and then one echo per message, in the order
    received and up to the first failure, and returns exactly on a failure. *)
Theorem handleWebSocket_echoes f events :
  fst (hb_handleWebSocket f true events) =
    ("Welcome to " +:+ hb_name f +:+ " WebSocket server!") :: (echo_of f <$> answered events) /\
  (snd (hb_handleWebSocket f true events) = WsWaiting <->
     length (answered events) = length events).
Proof.
  unfold hb_handleWebSocket. rewrite echo_loop_spec. cbn [fst snd].
  split; [reflexivity|]. case_bool_decide; [done|]. split; [|done]. by repeat case_match.
Qed.

(** ** Examples *)

Example health_reply :
  hb_serve hb_default_flags None 0 0 "GET" "/health" (mkHTTPRequest "" "/health" "" ∅ "" false) []
    (mkReply 101 ∅ "" 0 []) = hb_handle_health.
Proof. reflexivity. Qed.

Example root_body :
  rp_Body (tb_serve (tb_mkFlags 9002 "B2" 0) 0 (5 * Second) "GET" "/x"
    (mkHTTPRequest "" "/x" "" ∅ "10.0.0.1:5" false)) =
  "B2 (port 9002)" +:+ nl +:+ "Time: 1970-01-01T00:00:05Z" +:+ nl +:+ "Request: GET /x" +:+ nl.
Proof. vm_compute. reflexivity. Qed.

Example echo_until_closed :
  hb_handleWebSocket hb_default_flags true [(Some "a", true); (None, true); (Some "b", true)] =
  (["Welcome to Backend WebSocket server!"; "[Backend] Echo: a"], WsReturned "WebSocket connection closed").
Proof. vm_compute. reflexivity. Qed.
