(* ===== verification/Benchmarks.v ===== *)
(** * The benchmark programs (src/benchmark/latency_benchmark.go, tcp_benchmark.go)

    The accounting of the workers of the latency benchmark, its statistics, and the echo
    server of the TCP benchmark.  What a request does is an outcome; the workers share one
    record under a lock, so that a run is an interleaving of their updates. *)

From S2P Require Import Prelude GoStd.

(** ** Workers *)

Record LatencyStats := mkLatencyStats { Latencies : list duration; Errors : Z }.
#[export] Instance eta_LatencyStats : Eta LatencyStats := fun s => mkLatencyStats (Latencies s) (Errors s).

(** [*requests / *concurrency]: a concurrency of zero panics. *)
Definition requestsPerWorker (requests concurrency : Z) : outcome Z :=
  if concurrency =? 0 then Panic else Ret (go_div requests concurrency).

(** The updates under the lock: a latency, an error, or the errors of a worker that could
    not connect. *)
Inductive update := Latency (d : duration) | RequestFailed | DialFailed (perWorker : Z).

Definition record (stats : LatencyStats) (u : update) : LatencyStats :=
  match u with
  | Latency d => stats <| Latencies := Latencies stats ++ [d] |>
  | RequestFailed => stats <| Errors := Errors stats + 1 |>
  | DialFailed n => stats <| Errors := Errors stats + n |>
  end.

Definition new_stats : LatencyStats := mkLatencyStats [] 0.
Definition run_updates (l : list update) : LatencyStats := foldl record new_stats l.

(** A worker: one update per request, or one for a failed dial (TCP mode). *)
Definition http_worker (requests : list (option duration)) : list update :=
  (fun r => match r with Some d => Latency d | None => RequestFailed end) <$> requests.
Definition tcp_worker (dialled : bool) (perWorker : Z) (requests : list (option duration)) : list update :=
  if dialled then http_worker requests else [DialFailed perWorker].

(** ** Statistics ([printStats]) *)

Record summary := mkSummary {
  s_count : Z; s_min : duration; s_max : duration; s_avg : duration;
  p50 : duration; p90 : duration; p95 : duration; p99 : duration; p999 : duration
}.

(** The sum wraps at 64 bits. *)
Definition total_latency (l : list duration) : duration := foldl (fun t d => i64 (t + d)) 0 l.

Definition percentile (l : list duration) (num den : Z) : outcome duration :=
  index l (Z.of_nat (length l) * num / den).

(** [None]: no successful request. *)
Definition printStats (stats : LatencyStats) : outcome (option summary) :=
  match Latencies stats with
  | [] => Ret None
  | _ =>
      let l := sort_ints (Latencies stats) in
      let count := Z.of_nat (length l) in
      min ← index l 0; max ← index l (count - 1);
      q50 ← percentile l 50 100; q90 ← percentile l 90 100; q95 ← percentile l 95 100;
      q99 ← percentile l 99 100; q999 ← percentile l 999 1000;
      Ret (Some (mkSummary count min max (go_div (total_latency l) count) q50 q90 q95 q99 q999))
  end.

Definition p99_target : duration := 10 * Millisecond.
Definition meets_target (s : summary) : bool := p99 s <=? p99_target.

(** The distribution: every bucket counts the latencies up to its limit. *)
Definition buckets : list (string * duration) :=
  [("<1ms", Millisecond); ("<5ms", 5 * Millisecond); ("<10ms", 10 * Millisecond); ("<50ms", 50 * Millisecond);
   ("<100ms", 100 * Millisecond); ("<500ms", 500 * Millisecond); ("<1s", Second); (">1s", Hour)].
Definition bucket_count (limit : duration) (l : list duration) : Z :=
  Z.of_nat (length (filter (fun d => d <= limit) l)).
Definition distribution (l : list duration) : list (string * Z) :=
  (fun b => (b.1, bucket_count b.2 l)) <$> buckets.

(** ** The echo server of the TCP benchmark *)

(** Reads until an error; a failed write ends it.  What was written is returned. *)
Fixpoint handleBackend (reads : list (option (list Z) * bool)) (written : list Z) : list Z :=
  match reads with
  | [] => written
  | (None, _) :: _ => written
  | (Some chunk, write_ok) :: reads =>
      if write_ok : bool then handleBackend reads (written ++ chunk) else written
  end.

(** ** Every request is counted once *)

Definition weight (u : update) : Z := match u with DialFailed n => n | _ => 1 end.

Lemma run_updates_counts l :
  Z.of_nat (length (Latencies (run_updates l))) + Errors (run_updates l) = sum_by weight l.
Proof.
  unfold run_updates. assert (forall st,
    Z.of_nat (length (Latencies (foldl record st l))) + Errors (foldl record st l) =
    Z.of_nat (length (Latencies st)) + Errors st + sum_by weight l) as H; [|by rewrite H].
  induction l as [|u l IH]; intros st; cbn [foldl].
  { change (sum_by weight []) with 0. lia. }
  rewrite IH. change (sum_by weight (u :: l)) with (weight u + sum_by weight l).
  destruct st as [ls e], u; cbn; rewrite ?length_app; cbn; lia.
Qed.

Lemma http_worker_weight requests : sum_by weight (http_worker requests) = Z.of_nat (length requests).
Proof.
  induction requests as [|r rs IH]; [done|].
  change (sum_by weight (http_worker (r :: rs))) with
    (weight (match r with Some d => Latency d | None => RequestFailed end) + sum_by weight (http_worker rs)).
  rewrite IH. cbn [length]. destruct r; cbn; lia.
Qed.

(** In every interleaving of workers that made n requests each (or failed to connect),
    the latencies and the errors add up to the number of workers times n: what the
    division of the requests among the workers leaves over is never sent. *)
Theorem benchmark_accounting (workers : list (bool * list (option duration))) (n : nat) (run : list update) :
  Forall (fun w => length w.2 = n) workers ->
  run ≡ₚ concat ((fun w => tcp_worker w.1 (Z.of_nat n) w.2) <$> workers) ->
  Z.of_nat (length (Latencies (run_updates run))) + Errors (run_updates run) =
  Z.of_nat (length workers) * Z.of_nat n.
Proof.
  intros Hw Hrun. rewrite run_updates_counts, (sum_by_Permutation _ _ _ Hrun). clear Hrun run.
  induction Hw as [|[ok rs] ws Hn _ IH]; [done|]. rewrite fmap_cons. cbn [concat fst snd] in *.
  rewrite sum_by_app, IH. cbn [length].
  assert (sum_by weight (tcp_worker ok (Z.of_nat n) rs) = Z.of_nat n) as ->; [|lia].
  destruct ok; [|cbn; lia]. unfold tcp_worker. by rewrite http_worker_weight, Hn.
Qed.

(** ** The statistics are those of the sorted latencies *)

Lemma index_nth (l : list Z) (i : Z) :
  0 <= i < Z.of_nat (length l) -> exists x, index l i = Ret x /\ l !! Z.to_nat i = Some x.
Proof.
  intros Hi. unfold index. rewrite (proj2 (Z.leb_le _ _)) by lia.
  destruct (lookup_lt_is_Some_2 l (Z.to_nat i)) as [x Hx]; [lia|]. exists x. by rewrite Hx.
Qed.

Lemma percentile_in_range (n num den : Z) : 0 < n -> 0 <= num < den -> 0 <= n * num / den < n.
Proof. intros Hn Hq. split; [apply Z.div_pos; nia|apply Z.div_lt_upper_bound; nia]. Qed.

(** At least the first [i + 1] entries of a sorted list are at most its entry [i]. *)
Lemma sorted_below (l : list Z) (i : nat) (x : Z) :
  StronglySorted Z.le l -> l !! i = Some x -> (i < length (filter (fun d => (d <= x)%Z) l))%nat.
Proof.
  intros Hs Hi. rewrite <- (take_drop (S i) l) at 1. rewrite filter_app, length_app.
  rewrite filter_all.
  - rewrite length_take. pose proof (lookup_lt_Some _ _ _ Hi). lia.
  - apply Forall_forall. intros y Hy. apply list_elem_of_lookup in Hy as [j Hj].
    apply lookup_take_Some in Hj as [Hj Hlt]. eapply (StronglySorted_lookup_le l j i); [done|lia|done|done].
Qed.

Lemma total_latency_exact l :
  sum_by (fun d => d) l < 2 ^ 63 -> Forall (fun d => 0 <= d) l -> total_latency l = sum_by (fun d => d) l.
Proof.
  unfold total_latency. intros Hb Hn.
  assert (forall t, 0 <= t -> t + sum_by (fun d => d) l < 2 ^ 63 ->
    foldl (fun t d => i64 (t + d)) t l = t + sum_by (fun d => d) l) as H; [|by rewrite H].
  clear Hb. induction Hn as [|d l Hd Hl IH]; intros t Ht Hb; cbn [foldl].
  { change (sum_by (fun d => d) []) with 0 in *. lia. }
  change (sum_by (fun d => d) (d :: l)) with (d + sum_by (fun d => d) l) in *.
  assert (0 <= sum_by (fun d => d) l).
  { clear IH Hb. induction Hl as [|y l Hy _ IHl]; [done|].
    change (sum_by (fun d => d) (y :: l)) with (y + sum_by (fun d => d) l). lia. }
  rewrite i64_small by lia. rewrite IH by lia. lia.
Qed.

Lemma sum_between (l : list Z) (lo hi : Z) :
  Forall (fun d => lo <= d <= hi) l ->
  lo * Z.of_nat (length l) <= sum_by (fun d => d) l <= hi * Z.of_nat (length l).
Proof.
  induction 1 as [|d l Hd _ IH]; [cbn; lia|].
  change (sum_by (fun d => d) (d :: l)) with (d + sum_by (fun d => d) l). cbn [length]. lia.
Qed.

(** The entry at a fraction of a sorted list. *)
Lemma percentile_spec l num den :
  StronglySorted Z.le l -> l <> [] -> 0 <= num < den ->
  exists x, percentile l num den = Ret x /\ l !! Z.to_nat (Z.of_nat (length l) * num / den) = Some x /\
    Z.of_nat (length l) * num / den < bucket_count x l.
Proof.
  intros Hs Hl Hq. assert (0 < Z.of_nat (length l)) as Hn by (destruct l; [done|cbn; lia]).
  pose proof (percentile_in_range _ _ _ Hn Hq) as Hr. unfold percentile, bucket_count.
  destruct (index_nth l _ Hr) as (x & E & Hx). exists x. rewrite E. split_and!; [done|done|].
  pose proof (sorted_below l _ x Hs Hx). lia.
Qed.

(** For a benchmark with at least one answer, printStats indexes in range and reports:
    the least and the greatest latency, percentiles in order between them, such that
    more than the named share of the latencies is at most the percentile, and a mean
    between least and greatest (if the latencies add up to less than 2^63 nanoseconds).
    *)
Theorem printStats_quantiles stats :
  Latencies stats <> [] -> Forall (fun d => 0 <= d) (Latencies stats) ->
  sum_by (fun d => d) (Latencies stats) < 2 ^ 63 ->
  exists s, printStats stats = Ret (Some s) /\
    s_min s <= p50 s <= p90 s /\ p90 s <= p95 s <= p99 s /\ p99 s <= p999 s <= s_max s /\
    s_min s <= s_avg s <= s_max s /\
    Forall (fun d => s_min s <= d <= s_max s) (Latencies stats) /\
    s_count s * 99 / 100 < bucket_count (p99 s) (Latencies stats) /\
    s_count s * 50 / 100 < bucket_count (p50 s) (Latencies stats).
Proof.
  intros Hne Hnn Hsum. unfold printStats. destruct (Latencies stats) as [|d0 l0] eqn:El; [done|]. rewrite <- El in *.
  set (l := sort_ints (Latencies stats)). pose proof (sort_ints_perm (Latencies stats)) as Hp. fold l in Hp.
  pose proof (sort_ints_sorted (Latencies stats)) as Hs. fold l in Hs.
  assert (l <> []) as Hl by (intros E; rewrite E in Hp; apply Permutation_nil in Hp; congruence).
  assert (0 < Z.of_nat (length l)) as Hn by (destruct l; [done|cbn; lia]). clearbody l.
  destruct (index_nth l 0 ltac:(lia)) as (mn & Emn & Hmn). destruct (index_nth l (Z.of_nat (length l) - 1) ltac:(lia)) as (mx & Emx & Hmx).
  destruct (percentile_spec l 50 100 Hs Hl ltac:(lia)) as (x50 & E50 & H50 & C50).
  destruct (percentile_spec l 90 100 Hs Hl ltac:(lia)) as (x90 & E90 & H90 & _).
  destruct (percentile_spec l 95 100 Hs Hl ltac:(lia)) as (x95 & E95 & H95 & _).
  destruct (percentile_spec l 99 100 Hs Hl ltac:(lia)) as (x99 & E99 & H99 & C99).
  destruct (percentile_spec l 999 1000 Hs Hl ltac:(lia)) as (x999 & E999 & H999 & _).
  rewrite Emn, Emx, E50, E90, E95, E99, E999. cbn [mbind outcome_bind]. eexists. split; [done|].
  cbn [s_min s_max s_avg p50 p90 p95 p99 p999 s_count].
  assert (forall i j x y, l !! Z.to_nat i = Some x -> l !! Z.to_nat j = Some y -> 0 <= i <= j -> x <= y) as Hle.
  { intros i j x y Hx Hy Hij. eapply (StronglySorted_lookup_le l); [done| |exact Hx|exact Hy]. lia. }
  assert (forall x, x ∈ l -> mn <= x <= mx) as Hb.
  { intros x [k Hk]%list_elem_of_lookup. pose proof (lookup_lt_Some _ _ _ Hk).
    split; [eapply (Hle 0 (Z.of_nat k))|eapply (Hle (Z.of_nat k) (Z.of_nat (length l) - 1))]; rewrite ?Nat2Z.id; try done; lia. }
  assert (forall c, bucket_count c (Latencies stats) = bucket_count c l) as Hbc
    by (intros c; unfold bucket_count; by rewrite Hp).
  rewrite !Hbc.
  pose proof (sum_between l mn mx ltac:(by apply Forall_forall)) as Hsb.
  rewrite total_latency_exact; [|by rewrite (sum_by_Permutation _ _ _ Hp)|by rewrite Hp].
  assert (0 <= mn) as H0.
  { apply (Forall_forall (fun d => 0 <= d) l); [by rewrite Hp|]. by eapply list_elem_of_lookup_2. }
  rewrite Z.quot_div_nonneg by nia.
  split_and!; try done; try (eapply Hle; [eassumption|eassumption|]; Z.to_euclidean_division_equations; lia).
  - apply Z.div_le_lower_bound; lia.
  - apply Z.div_le_upper_bound; lia.
  - apply Forall_forall. intros x Hx. apply Hb. by rewrite Hp.
Qed.

Lemma printStats_quantiles_witness :
  exists s, printStats (mkLatencyStats [5; 1; 3] 2) = Ret (Some s) /\ s_min s = 1 /\ s_max s = 5 /\ p50 s = 3.
Proof.
  destruct (printStats_quantiles (mkLatencyStats [5; 1; 3] 2)) as (s & E & _).
  - done.
  - repeat constructor; lia.
  - reflexivity.
  - exists s. split; [exact E|]. vm_compute in E. by injection E as <-.
Defined.

(** The bucket named >1s counts the latencies up to an hour, the fast ones included. *)
Example slow_bucket : distribution [Millisecond; 2 * Second] =
  [("<1ms", 1); ("<5ms", 1); ("<10ms", 1); ("<50ms", 1); ("<100ms", 1); ("<500ms", 1); ("<1s", 1); (">1s", 2)].
Proof. reflexivity. Qed.

(** Ten requests among three workers: nine are sent. *)
Example remainder_dropped : requestsPerWorker 10 3 = Ret 3 /\ requestsPerWorker 10 0 = Panic.
Proof. done. Qed.

(** The echo server writes back what it read. *)
Lemma handleBackend_echoes chunks written :
  handleBackend ((fun c => (Some c, true)) <$> chunks) written = written ++ concat chunks.
Proof.
  revert written. induction chunks as [|c cs IH]; intros written; cbn; [by rewrite app_nil_r|].
  by rewrite IH, app_assoc.
Qed.
